(* ===== verification/_CoqProject ===== *)
-Q . S2P
Prelude.v
Consts.v
Addr.v
Alloc.v
Bytes.v
Dll.v
FreeList.v
BlockCache.v
Bio.v
Log.v
Buddy.v
PageTable.v
Uvm.v
Kvm.v
Pipe.v
Block.v
Inode.v
FileData.v
Icache.v
Locks.v
Sched.v
Proc.v
Files.v
Virtio.v
DiskQueue.v
Console.v
Exec.v
Ulib.v
World.v
Sieve.v
Trap.v
Vectors.v
Threads.v
