(* ===== verification/Prelude.v ===== *)
(** * A verification of the os-lesson kernel

    The repository is a teaching operating system in Rust for RISC-V, in the
    tradition of xv6: the kernel in [src/kernel], Rust programs and their library
    in [src/user_rust].  This development models the kernel from its page tables
    to its system calls, its assembly, and the library of the user programs, as
    executable definitions, and proves what makes the parts correct.

    ** How code becomes definitions

    Kernel code is a function [M S A] from a state to an [outcome]: [Done] with a
    result and a state, or [Panic], which is where the code panics, halts or
    has undefined behaviour (a null pointer followed, an index out of bounds).
    A theorem that a call is [Done] excludes all of these.  [Result] and
    [Option] are sums and options.  Integers are [Z] of their width; the kernel
    is built with the [dev] profile, in which [+], [-] and [*] panic on overflow,
    so they are [add_chk], [sub_chk] and [mul_chk]; [Wrapping] and bit
    operations are written out.  User programs are built for release and wrap.

    Concurrency is cut where the locks are free: code that holds its lock runs
    alone, so a call that sleeps is a sequence of _turns_, and all interleavings
    of the harts and processes are the sequences of turns.  Spin locks
    themselves are modelled below that, step by step.  Loops that are not
    bounded by their data take fuel, or are cut into rounds; each theorem
    about such a loop says which fuel is enough, or is about every fuel from
    there on ([Addr.collect]: one more than the length of the range; the chains
    of [Bio]: one more than [NBUF]; [Virtio.free_chain]: one more than [NUM];
    [Virtio.intr_loop]: [2^16], the distance of two [u16]; the walks of
    [PageTable] and of [Buddy] recurse on the level and the size class; the
    loops of [Ulib]: one more than the string).  [Sieve] needs no fuel: its runs
    are schedules, and the theorem bounds their length.

    ** The files

    Foundations: [Prelude] (outcomes, the monad, checked arithmetic, masks,
    frames, loops), [Consts] ([kernel/src/consts]), [Bytes] (little-endian
    integers and bitmaps), [Dll] (doubly linked segments).

    Memory: [Addr] ([mm/addr.rs]), [Alloc] ([mm/page_allocator.rs], [pid.rs],
    [tid.rs]), [FreeList] ([mm/list.rs]), [Buddy] ([mm/kalloc.rs]), [PageTable],
    [Uvm] ([mm/pagetable.rs], [mm/mod.rs]), [Kvm] ([mm/kvm.rs]).  [Buddy] uses the
    lists through the class [FreeLists], which [FreeList] implements; page tables
    use the heap through [PageHeap].

    File system, from the disk up: [Virtio] ([driver/virtio_disk.rs]), [DiskQueue]
    (its turns interleaved with the device and the interrupts), [BlockCache]
    (the interface between cache and log), [Bio] ([fs/bio.rs]), [Log]
    ([fs/log.rs]), [Block] ([fs/superblock.rs], [fs/block.rs], the inode table),
    [Inode], [FileData], [Icache] ([fs/inode.rs]), [Pipe] ([fs/file/pipe.rs]),
    [Files] ([fs/file/mod.rs] and the file calls of [proc/syscall.rs]).  [Bio]
    implements [BlockCache], against which [Log] is proved; the layers above the
    log are stated over [BlockStore] and [Journal] (begin, end, write).

    Processes: [Locks] ([process/cpu.rs], [context.rs], [spinlock.rs]), [Sched]
    ([proc/mod.rs], [proc/manager.rs], [sleeplock.rs], the scheduler), [Proc]
    ([process/mod.rs], [task/task.rs], [trapframe.rs]), [Exec] ([proc/elf.rs]),
    [Trap] ([trap.rs], [plic.rs], [register/], [start.rs]), [Vectors] ([asm/]),
    [Console] ([driver/console.rs], [driver/uart.rs]).  [Exec] joins the state of
    [Files] with that of [Proc]; [Trap] adds the clock, the control registers
    and the devices to [Proc]; [Vectors] saves registers in the trap frame of
    [Proc] and in the contexts of [Locks].

    User side: [Ulib] ([user_rust/src/ulib.rs], [lib.rs], [file.rs],
    [syscall_riscv]), [Threads] ([user_rust/src/thread]) and [Sieve]
    ([bin/primes_rust.rs]).  [Sieve] runs on [World], a specification of what the
    kernel promises to programs that fork, pipe and wait; it is stated by hand at
    the level of whole calls, and is not derived from [Files], [Pipe] and [Proc].

    In each file the definitions come first, an operation of the code under its
    own name ([iread], [map_pages], [bread]); names that clash get the prefix of
    their type or module ([log_write], [pte_write], [u_read]).  A structure is a
    record with the fields of the source.

    ** What is proved

    - Durability: [Log] -- for any sequence of steps and a crash at any disk
      write, recovery leaves exactly the committed operations
      ([log_crash_atomic], [log_durable], [recovery_restartable]) and the
      reservation suffices ([log_reservation]); [Bio] -- the linked cache refines
      the abstract one ([bcache_refines]); [Files] -- every call runs in balanced
      transactions and writes only inside one ([calls_in_transactions]); [Exec]
      too ([load_in_one_transaction]).
    - Resources: descriptors and handles are counted exactly
      ([open_files_counted], [icache_counts]); every error exit of [load] gives
      back what it took ([load_exits]); the heap is partitioned into its blocks
      ([heap_partition], [buddy_alloc_correct], [buddy_dealloc_correct]);
      allocation of user memory is all or nothing ([uvm_alloc_all_or_nothing]).
    - Contents: reading and writing files, pipes, user memory and segments
      moves exactly the bytes ([try_iread_reads], [try_iwrite_writes],
      [pipe_fifo], [copy_out_writes], [uvm_copy_copies], [load_seg_loads],
      [memmove_moves]); what [load] puts on the stack is what [_start] reads
      ([argv_placed], [start_reads_args]); the console refines a line editor
      ([console_refines]).
    - Concurrency: spin locks exclude ([spinlock_exclusion]), the ready queue
      holds each runnable process once ([ready_queue_exact]), nobody waits
      longer than the queue ([bounded_waiting]), the disk answers every
      request of its queue once ([disk_requests_served]), no wake-up is lost
      ([sleeplock_no_lost_wakeup]), nobody oversleeps ([clock_sleep_on_time]),
      user threads take turns ([threads_take_turns]), and all interleavings of
      the sieve's processes end in the same state ([sieve_prints_primes]).
    - Agreement: two ways to decode a trap find the same cause ([cause_agrees]).
    - Machine level: the trampoline, the kernel and timer vectors and the context
      switch keep what they must ([trampoline_keeps], [kernelvec_keeps],
      [timer_ticks], [switch_swaps]), traps return as they should
      ([traps_return]).
    - Where the code does not do what it means to, a theorem shows it
      ([alloc3_rollback_frees_live], [alarm_fires_once], [kill_strands],
      [log_reservation_short], [copy_at_page_end], [argument_at_top_panics],
      [user_init_panics], [page_fault_served], [mutex_never_locks]).

    ** What is a parameter

    The disk, the serial port and the interrupt controller (what their registers
    read as), the linker's addresses, the crate [bit_field], the operation of a
    CSR instruction.  Properties with such a parameter have a witness with a
    concrete one.

    ** Not modelled

    Vendored crates under [user_rust/.cargo] ([bitflags], [spin],
    [buddy_system_allocator]); the C programs of [user/] and [mkfs]; [printf.rs],
    the panic handlers and the macros of [user_rust] (output only);
    [kernel/src/rmain.rs] (the order of the initialisations, modelled one by one)
    and the CSR wrappers of [register/] that are a single instruction;
    [src/src] (an older copy of two files); [swtch.S] and [initcode.S], which the
    kernel does not link; the programs of [user_rust/src/bin] other than
    [primes_rust.rs].  Weak memory is not modelled: the locks are proved under
    sequential consistency.  Page faults inside the kernel and the effect of the
    TLB are not modelled. *)
From Stdlib Require Export ZArith Lia Btauto.
From stdpp Require Export base functions gmap strings numbers fin_maps list.

#[global] Open Scope Z_scope.

(** ** Outcomes and the kernel monad *)

(** A kernel computation either finishes or reaches a [panic!], which halts
    the machine: the state at the time of a panic is never observed. *)
Inductive outcome (A : Type) : Type :=
| Done (a : A)
| Panic (why : string).
Arguments Done {A} a.
Arguments Panic {A} why.

Definition M (S A : Type) : Type := S → outcome (A * S).

#[global] Instance M_ret S : MRet (M S) := λ A a s, Done (a, s).
#[global] Instance M_bind S : MBind (M S) := λ A B f m s,
  match m s with
  | Done (a, s') => f a s'
  | Panic why => Panic why
  end.

Definition panic {S A} (why : string) : M S A := λ _, Panic why.
Definition get {S} : M S S := λ s, Done (s, s).
Definition gets {S A} (f : S → A) : M S A := λ s, Done (f s, s).
Definition put {S} (s : S) : M S unit := λ _, Done (tt, s).
Definition modify {S} (f : S → S) : M S unit := λ s, Done (tt, f s).

(** [assert!] and its relatives; the kernel is built with the [dev] profile,
    so [debug_assert!] is the same check. *)
Definition assertM {S} (b : bool) (why : string) : M S unit :=
  if b then mret tt else panic why.

(** [Option::unwrap] / [expect]. *)
Definition unwrap {S A} (o : option A) (why : string) : M S A :=
  match o with Some a => mret a | None => panic why end.

(** Stateless fallible computations, and their embedding in [M]. *)
#[global] Instance outcome_ret : MRet outcome := λ A a, Done a.
#[global] Instance outcome_bind : MBind outcome := λ A B f m,
  match m with Done a => f a | Panic why => Panic why end.
Definition lift {S A} (o : outcome A) : M S A := λ s,
  match o with Done a => Done (a, s) | Panic why => Panic why end.
Definition assertO (b : bool) (why : string) : outcome unit :=
  if b then Done tt else Panic why.
Definition unwrapO {A} (o : option A) (why : string) : outcome A :=
  match o with Some a => Done a | None => Panic why end.

(** Arithmetic of width [w]: the [dev] profile panics on overflow. *)
Definition add_chk (w x y : Z) : outcome Z :=
  if x + y <? 2 ^ w then Done (x + y) else Panic "attempt to add with overflow".
Definition sub_chk (x y : Z) : outcome Z :=
  if y <=? x then Done (x - y) else Panic "attempt to subtract with overflow".
Definition mul_chk (w x y : Z) : outcome Z :=
  if x * y <? 2 ^ w then Done (x * y) else Panic "attempt to multiply with overflow".
Abbreviation add64 := (add_chk 64).
Abbreviation add32 := (add_chk 32).
Abbreviation mul64 := (mul_chk 64).

Lemma add_chk_ok w x y : x + y < 2 ^ w → add_chk w x y = Done (x + y).
Proof. intros. unfold add_chk. by rewrite (proj2 (Z.ltb_lt _ _)). Qed.
Lemma sub_chk_ok x y : y ≤ x → sub_chk x y = Done (x - y).
Proof. intros. unfold sub_chk. by rewrite (proj2 (Z.leb_le _ _)). Qed.
Lemma mul_chk_ok w x y : x * y < 2 ^ w → mul_chk w x y = Done (x * y).
Proof. intros. unfold mul_chk. by rewrite (proj2 (Z.ltb_lt _ _)). Qed.

(** [!x] on an unsigned integer of width [w]. *)
Definition not_w (w x : Z) : Z := Z.lxor x (Z.ones w).

(** [Wrapping] arithmetic of width [w]. *)
Definition wrap (w x : Z) : Z := x mod 2 ^ w.

(** Running a computation and reading off its verdict. *)
Definition panics {A} (o : outcome A) : Prop := ∃ why, o = Panic why.
Definition is_panic {A} (o : outcome A) : bool :=
  match o with Panic _ => true | Done _ => false end.

Section monad_laws.
Context {S : Type}.

Lemma bind_done {A B} (m : M S A) (f : A → M S B) s b s' :
  (m ≫= f) s = Done (b, s') ↔ ∃ a s1, m s = Done (a, s1) ∧ f a s1 = Done (b, s').
Proof.
  unfold mbind, M_bind. destruct (m s) as [[a s1]|why]; naive_solver.
Qed.

Lemma bind_panic {A B} (m : M S A) (f : A → M S B) s :
  panics ((m ≫= f) s) ↔
  panics (m s) ∨ ∃ a s1, m s = Done (a, s1) ∧ panics (f a s1).
Proof.
  unfold mbind, M_bind, panics. destruct (m s) as [[a s1]|why]; naive_solver.
Qed.

Lemma bind_run {A B} (m : M S A) (f : A → M S B) s a s1 :
  m s = Done (a, s1) → (m ≫= f) s = f a s1.
Proof. unfold mbind, M_bind. by intros ->. Qed.
End monad_laws.

Lemma not_panic_done {A S} (o : outcome (A * S)) :
  is_panic o = false → ∃ a s, o = Done (a, s).
Proof. destruct o as [[a s]|]; [|done]. by exists a, s. Qed.

Lemma panics_is_panic {A} (o : outcome A) : panics o ↔ is_panic o = true.
Proof. unfold panics. destruct o; naive_solver. Qed.

(** One forward step through a bind in hypothesis [H]. *)
Tactic Notation "mbind_inv" hyp(H) "as" simple_intropattern(a) simple_intropattern(s)
    simple_intropattern(H1) simple_intropattern(H2) :=
  apply bind_done in H as (a & s & H1 & H2).

Ltac dlia := Z.to_euclidean_division_equations; lia.

(** ** Masks and shifts *)

Lemma land_mask k a : 0 ≤ k → Z.land a (2 ^ k - 1) = a `mod` 2 ^ k.
Proof. intros. by rewrite <- Z.land_ones, Z.ones_equiv, <- Z.sub_1_r. Qed.

Lemma testbit_high w a n : 0 ≤ a < 2 ^ w → w ≤ n → Z.testbit a n = false.
Proof.
  intros [Ha Hw] Hn. destruct (decide (a = 0)) as [->|]; [apply Z.bits_0|].
  apply Z.bits_above_log2; [lia|].
  enough (Z.log2 a < w) by lia. apply Z.log2_lt_pow2; lia.
Qed.

Lemma land_not_mask w k a :
  0 ≤ k ≤ w → 0 ≤ a < 2 ^ w → Z.land a (not_w w (2 ^ k - 1)) = a / 2 ^ k * 2 ^ k.
Proof.
  intros Hk Ha. rewrite <- Z.shiftr_div_pow2, <- Z.shiftl_mul_pow2 by lia.
  unfold not_w. rewrite Z.sub_1_r, <- Z.ones_equiv.
  apply Z.bits_inj'. intros n Hn.
  rewrite Z.land_spec, Z.lxor_spec, Z.shiftl_spec, !Z.testbit_ones_nonneg by lia.
  destruct (decide (n < k)).
  - rewrite (Z.testbit_neg_r _ (n - k)), (proj2 (Z.ltb_lt n k)), (proj2 (Z.ltb_lt n w)) by lia.
    by rewrite andb_false_r.
  - rewrite Z.shiftr_spec, (proj2 (Z.ltb_ge n k)) by lia.
    replace (n - k + k) with n by lia.
    destruct (decide (n < w)).
    + rewrite (proj2 (Z.ltb_lt n w)) by lia. apply andb_true_r.
    + by rewrite (testbit_high w a n) by lia.
Qed.

(** ** [Vec] as a list: [push] appends, [pop] takes the last element *)
Definition vec_push {A} (l : list A) (x : A) : list A := l ++ [x].
Definition vec_pop {A} (l : list A) : option (A * list A) :=
  match reverse l with
  | [] => None
  | x :: r => Some (x, reverse r)
  end.

Lemma vec_pop_None {A} (l : list A) : vec_pop l = None ↔ l = [].
Proof.
  unfold vec_pop. split; [|by intros ->].
  destruct (reverse l) eqn:E; [|done]. intros _.
  apply (f_equal reverse) in E. by rewrite reverse_involutive in E.
Qed.

Lemma vec_pop_Some {A} (l : list A) x l' : vec_pop l = Some (x, l') ↔ l = l' ++ [x].
Proof.
  unfold vec_pop. split.
  - destruct (reverse l) as [|y r] eqn:E; [done|]. intros [= -> <-].
    apply (f_equal reverse) in E. by rewrite reverse_involutive, reverse_cons in E.
  - intros ->. by rewrite reverse_app, reverse_singleton; simpl; rewrite reverse_involutive.
Qed.

Lemma list_alter_twice {A} (f g : A → A) i (l : list A) :
  alter f i (alter g i l) = alter (f ∘ g) i l.
Proof.
  apply list_eq. intros j. destruct (decide (i = j)) as [->|].
  - rewrite !list_lookup_alter_eq. by destruct (l !! j).
  - by rewrite !list_lookup_alter_ne.
Qed.

Lemma alter_as_insert {A} (f : A → A) i (l : list A) x : l !! i = Some x → alter f i l = <[i := f x]> l.
Proof.
  intros Hx. apply list_eq. intros j. destruct (decide (i = j)) as [<-|].
  - rewrite list_lookup_alter_eq, list_lookup_insert_eq, Hx; [done|by eapply lookup_lt_Some].
  - by rewrite list_lookup_alter_ne, list_lookup_insert_ne.
Qed.

Lemma filter_all {A} (P : A → Prop) `{∀ x, Decision (P x)} (l : list A) :
  (∀ x, x ∈ l → P x) → filter P l = l.
Proof.
  induction l as [|x l IH]; intros Hl; [done|].
  rewrite filter_cons_True by (apply Hl; by left). f_equal. apply IH.
  intros y Hy. apply Hl. by right.
Qed.

Lemma NoDup_take {A} n (l : list A) : NoDup l → NoDup (take n l).
Proof. rewrite <- (take_drop n l) at 1. by intros [? _]%NoDup_app. Qed.
Lemma in_take {A} n (l : list A) x : x ∈ take n l → x ∈ l.
Proof. intros (i & Ei & _)%elem_of_take. by eapply list_elem_of_lookup_2. Qed.

(** ** [for i in i..i+n] *)
Fixpoint for_range {S} (n : nat) (i : Z) (f : Z → M S unit) : M S unit :=
  match n with
  | O => mret tt
  | Datatypes.S n => f i;; for_range n (i + 1) f
  end.

Lemma for_range_inv {S} (I : Z → S → Prop) n i (f : Z → M S unit) s :
  (∀ j s, i ≤ j < i + Z.of_nat n → I j s → ∃ s', f j s = Done (tt, s') ∧ I (j + 1) s') →
  I i s → ∃ s', for_range n i f s = Done (tt, s') ∧ I (i + Z.of_nat n) s'.
Proof.
  revert i s. induction n as [|n IH]; intros i s Hf Hi.
  { exists s. split; [done|]. by rewrite Z.add_0_r. }
  destruct (Hf i s) as (s1 & E1 & H1); [lia|done|].
  destruct (IH (i + 1) s1) as (s2 & E2 & H2); [|done|].
  { intros j s' Hj. apply Hf. lia. }
  exists s2. cbn [for_range]. rewrite (bind_run _ _ _ _ _ E1). split; [done|].
  by replace (i + Z.of_nat (Datatypes.S n)) with (i + 1 + Z.of_nat n) by lia.
Qed.

(** ** [for x in l] with early [return]: [Some r] leaves the loop *)
Fixpoint for_ret {S A R} (l : list A) (f : A → M S (option R)) : M S (option R) :=
  match l with
  | [] => mret None
  | x :: l =>
      o ← f x;
      match o with Some r => mret (Some r) | None => for_ret l f end
  end.

(** ** Frames: computations that leave a view [v] of the state untouched *)
Definition untouched {S X A} (v : S → X) (m : M S A) : Prop := ∀ s a s', m s = Done (a, s') → v s' = v s.

Section frames.
Context {S X : Type} (v : S → X).

Lemma untouched_bind {A B} (m : M S A) (f : A → M S B) : untouched v m → (∀ a, untouched v (f a)) → untouched v (m ≫= f).
Proof. intros Hm Hf s b s' (a & s1 & E1 & E2)%bind_done. rewrite (Hf _ _ _ _ E2). by apply (Hm _ _ _ E1). Qed.
Lemma untouched_ret {A} (a : A) : untouched v (mret a).
Proof. by intros s x s' [= <- <-]. Qed.
Lemma untouched_get : untouched v get.
Proof. by intros s x s' [= <- <-]. Qed.
Lemma untouched_gets {A} (f : S → A) : untouched v (gets f).
Proof. by intros s x s' [= <- <-]. Qed.
Lemma untouched_panic {A} why : untouched v (panic why : M S A).
Proof. by intros s x s'. Qed.
Lemma untouched_unwrap {A} (o : option A) why : untouched v (unwrap o why).
Proof. destruct o; [apply untouched_ret|apply untouched_panic]. Qed.
Lemma untouched_lift {A} (o : outcome A) : untouched v (lift o).
Proof. intros s x s'. unfold lift. destruct o; [by intros [= _ <-]|done]. Qed.
Lemma untouched_assert b why : untouched v (assertM b why).
Proof. destruct b; [apply untouched_ret|apply untouched_panic]. Qed.
Lemma untouched_for_range n i (f : Z → M S unit) : (∀ j, untouched v (f j)) → untouched v (for_range n i f).
Proof.
  intros Hf. revert i. induction n as [|n IH]; intros i; cbn [for_range]; [apply untouched_ret|].
  apply untouched_bind; [apply Hf|]. intros _. apply IH.
Qed.
Lemma untouched_for_ret {A R} (l : list A) (f : A → M S (option R)) : (∀ x, untouched v (f x)) → untouched v (for_ret l f).
Proof.
  intros Hf. induction l as [|x l IH]; cbn [for_ret]; [apply untouched_ret|].
  apply untouched_bind; [apply Hf|]. intros [r|]; [apply untouched_ret|apply IH].
Qed.
End frames.

Create HintDb untouched.
#[export] Hint Resolve untouched_ret untouched_get untouched_gets untouched_panic untouched_unwrap untouched_lift untouched_assert : untouched.
Ltac untouched :=
  repeat first
    [ progress intros | solve [auto 3 with untouched] | apply untouched_bind | apply untouched_for_range | apply untouched_for_ret
    | case_match ].

(** [(a..b).step_by(s)] *)
Definition step_by (a b s : Z) : list Z :=
  (λ k, a + s * k) <$> seqZ 0 ((b - a + s - 1) / s).

Lemma step_by_nil a b s : 0 < s → b ≤ a → step_by a b s = [].
Proof.
  intros Hs Hb. unfold step_by.
  assert ((b - a + s - 1) / s < 1) by (apply Z.div_lt_upper_bound; lia).
  by rewrite seqZ_nil by lia.
Qed.

Lemma step_by_cons a b s : 0 < s → a < b → step_by a b s = a :: step_by (a + s) b s.
Proof.
  intros Hs Hb. unfold step_by.
  replace ((b - a + s - 1) / s) with (1 + (b - (a + s) + s - 1) / s).
  2: { replace (b - a + s - 1) with (1 * s + (b - (a + s) + s - 1)) by lia.
       rewrite Z.div_add_l by lia. done. }
  assert (0 ≤ (b - (a + s) + s - 1) / s) by (apply Z.div_pos; lia).
  rewrite seqZ_cons by lia. cbn [fmap list_fmap]. f_equal; [lia|].
  replace (Z.pred _) with ((b - (a + s) + s - 1) / s) by lia.
  replace (Z.succ 0) with (1 + 0) by lia. rewrite <- fmap_add_seqZ, <- list_fmap_compose.
  apply list_fmap_ext. intros i k _. unfold compose. lia.
Qed.

(** Unfold the monad and reduce as far as the control flow is known. *)
Ltac run_simpl :=
  cbv beta iota zeta delta
    [mbind M_bind mret M_ret outcome_bind outcome_ret lift get put gets modify panic
     assertM assertO unwrap unwrapO].
Tactic Notation "run_simpl" "in" hyp(H) :=
  cbv beta iota zeta delta
    [mbind M_bind mret M_ret outcome_bind outcome_ret lift get put gets modify panic
     assertM assertO unwrap unwrapO] in H.
