(* ===== verification/Consts.v ===== *)
(** * Constants of the kernel ([kernel/src/consts])

    The numeric parameters of the machine and the memory map.  [ConstAddr] is
    a newtype of [usize]; its two [const fn]s are evaluated at compile time,
    where an overflow is a build error, so they are plain [Z] operations here.

    [PGSIZE] is named by [memlayout.rs] and [pagetable.rs] next to [PAGE_SIZE]
    without a declaration of its own in [consts]; every use needs the page
    size, so it is read as [PAGE_SIZE]. *)
From S2P Require Import Prelude.

(** ** param.rs *)
Definition NCPU : Z := 8.
Definition NPROC : nat := 512.
Definition NTHREAD : Z := 2048.
Definition MAX_TASKS_PER_PROC : Z := 64.
Definition PAGE_SIZE : Z := 0x1000.
Abbreviation PGSIZE := PAGE_SIZE.
Definition PGSHIFT : Z := 12.
Definition PGMASK : Z := 0x1FF.
Definition PGMASKLEN : Z := 9.
Definition PAGE_SIZE_BITS : Z := 0xc.
Definition KERNEL_STACK_SIZE : Z := PAGE_SIZE * 4.
Definition USER_STACK_SIZE : Z := PAGE_SIZE * 4.
Definition MAXPATH : nat := 128.
Definition MAXARG : nat := 16.
Definition MAXARGLEN : nat := 64.
Definition LEAF_SIZE : Z := 16.

(** ** fs.rs *)
Definition FSMAGIC : Z := 0x10203040.
Definition BSIZE : Z := 1024.
Definition BPB : Z := BSIZE * 8.
Definition NINODE : nat := 50.
Definition NDIRECT : Z := 12.
Definition NINDIRECT : Z := BSIZE / 4.
Definition MAX_DIR_SIZE : nat := 14.
Definition MAX_FILE_SIZE : Z := (NDIRECT + NINDIRECT) * BSIZE.
Definition ROOTDEV : Z := 1.
Definition ROOTINUM : Z := 1.
Definition MAXOPBLOCKS : Z := 10.
Definition NBUF : nat := 30.
Definition LOGSIZE : Z := MAXOPBLOCKS * 3.
Definition NFILE : nat := 16.
Definition O_RDONLY : Z := 0x0.
Definition O_WRONLY : Z := 0x1.
Definition O_RDWR : Z := 0x2.
Definition O_CREATE : Z := 0x200.
Definition O_TRUNC : Z := 0x400.
Definition PIPESIZE : nat := 454.
Definition PIPESIZE_U32 : Z := 454.

(** ** driver.rs *)
Definition NDEV : Z := 10.
Definition CONSOLE_BUF : Z := 128.
Definition UART_BUF : Z := 32.
Definition CTRL_EOT : Z := 0x04.
Definition CTRL_BS : Z := 0x08.
Definition CTRL_LF : Z := 0x0A.
Definition CTRL_CR : Z := 0x0D.
Definition CTRL_DEL : Z := 0x7f.
Definition CTRL_PRINT_PROCESS : Z := 0x10.
Definition CTRL_BS_LINE : Z := 0x15.

(** ** riscv.rs *)
Definition SV39FLAGLEN : Z := 10.
Definition SATP_SV39 : Z := Z.shiftl 8 60.
Definition MAXVA : Z := Z.shiftl 1 (9 + 9 + 9 + 12 - 1).

(** ** mod.rs: [ConstAddr] *)
Definition const_add (self adder : Z) : Z := self + adder.
Definition const_sub (self suber : Z) : Z := self - suber.

(** ** memlayout.rs *)
Definition CLINT : Z := 0x2000000.
Definition CLINT_MAP_SIZE : Z := 0x10000.
Definition CLINT_MTIMECMP : Z := const_add CLINT 0x4000.
Definition CLINT_MTIME : Z := const_add CLINT 0xbff8.
Definition UART0 : Z := 0x10000000.
Definition UART0_MAP_SIZE : Z := PAGE_SIZE.
Definition UART0_IRQ : Z := 10.
Definition VIRTIO0 : Z := 0x10001000.
Definition VIRTIO0_MAP_SIZE : Z := PAGE_SIZE.
Definition VIRTIO0_IRQ : Z := 1.
Definition PLIC : Z := 0x0c000000.
Definition PLIC_MAP_SIZE : Z := 0x400000.
Definition KERNBASE : Z := 0x80000000.
Definition PHYSTOP : Z := const_add KERNBASE ((128 + 64) * 1024 * 1024).
Definition KERNEL_HEAP_END : Z := const_add KERNBASE (128 * 1024 * 1024).
Definition TRAMPOLINE : Z := const_sub MAXVA PAGE_SIZE.
Definition TRAPFRAME : Z := const_sub TRAMPOLINE PAGE_SIZE.
Definition USERTEXT : Z := 0.
Definition USYSCALL : Z := const_sub TRAPFRAME PGSIZE.
