(* ===== verification/Addr.v ===== *)
(** * Addresses and page numbers ([kernel/src/mm/addr.rs])

    [PhysAddr], [VirtAddr], [PhysPageNum] and [VirtPageNum] are newtypes of
    [usize]; a value is the [Z] it wraps, between 0 and [2^64 - 1].  A method
    that mutates [self] returns the new value.  [TryFrom] returns [inr] for
    [Err]; [assert_eq!] and overflowing additions are panics. *)
From S2P Require Import Prelude Consts.

Definition PA_WIDTH_SV39 : Z := 56.
Definition VA_WIDTH_SV39 : Z := 39.
Definition PPN_WIDTH_SV39 : Z := PA_WIDTH_SV39 - PAGE_SIZE_BITS.
Definition VPN_WIDTH_SV39 : Z := VA_WIDTH_SV39 - PAGE_SIZE_BITS.

(** ** trait Addr *)
Definition pg_round_up (a : Z) : outcome Z :=
  t ← add64 a PAGE_SIZE;
  t ← sub_chk t 1;
  mret (Z.land t (not_w 64 (PAGE_SIZE - 1))).
Definition pg_round_down (a : Z) : Z := Z.land a (not_w 64 (PAGE_SIZE - 1)).
Definition add_page (a : Z) : outcome Z := add64 a PAGE_SIZE.

(** [mm::pg_round_up] and [mm::pg_round_down] of mm/mod.rs, on a [usize]. *)
Definition mm_pg_round_up (address : Z) : outcome Z :=
  t ← add64 address (PAGE_SIZE - 1);
  mret (Z.land t (not_w 64 (PAGE_SIZE - 1))).
Definition mm_pg_round_down (address : Z) : Z :=
  Z.land address (not_w 64 (PAGE_SIZE - 1)).

(** ** PhysAddr and VirtAddr: the same four methods on both types *)
Definition floor (a : Z) : Z := a / PAGE_SIZE.
Definition ceil (a : Z) : outcome Z :=
  if a =? 0 then mret 0
  else
    t ← sub_chk a 1;
    t ← add64 t PAGE_SIZE;
    mret (t / PAGE_SIZE).
Definition page_offset (a : Z) : Z := Z.land a (PAGE_SIZE - 1).
Definition aligned (a : Z) : bool := page_offset a =? 0.

Definition PhysAddr_try_from (addr : Z) : Z + string :=
  if negb (addr `mod` PAGE_SIZE =? 0) then inr "PhysAddr addr not aligned"%string
  else if PHYSTOP <? addr then inr "PhysAddr addr bigger than HEAP_END"%string
  else inl addr.

Definition VirtAddr_try_from (addr : Z) : Z + string :=
  if MAXVA <? addr then inr "value for VirtAddr should be smaller than 1<<38"%string
  else inl addr.

(** [VirtAddr::page_num]: the 9-bit index of a level of the page table. *)
Definition page_num (va level : Z) : Z :=
  Z.land (Z.shiftr va (PGSHIFT + level * PGMASKLEN)) PGMASK.

Definition VirtAddr_add (a b : Z) : outcome Z := add64 a b.
Definition VirtAddr_sub (a b : Z) : outcome Z := sub_chk a b.

(** ** Page numbers *)
Definition PhysPageNum_from_usize (v : Z) : Z := Z.land v (Z.shiftl 1 PPN_WIDTH_SV39 - 1).
Definition VirtPageNum_from_usize (v : Z) : Z := Z.land v (Z.shiftl 1 VPN_WIDTH_SV39 - 1).

(** [From<PhysAddr> for PhysPageNum] and [From<VirtAddr> for VirtPageNum]. *)
Definition page_of_addr (a : Z) : outcome Z :=
  assertO (page_offset a =? 0) "assertion `left == right` failed";;
  mret (floor a).
(** [From<PhysPageNum> for PhysAddr] and [From<VirtPageNum> for VirtAddr]:
    a shift drops the bits it moves past bit 63. *)
Definition addr_of_page (n : Z) : Z := wrap 64 (Z.shiftl n PAGE_SIZE_BITS).

(** [From<VirtAddr> for usize]: sign extension of a 39-bit address. *)
Definition usize_of_VirtAddr (v : Z) : Z :=
  if Z.shiftl 1 (VA_WIDTH_SV39 - 1) <=? v
  then Z.lor v (not_w 64 (Z.shiftl 1 VA_WIDTH_SV39 - 1))
  else v.

(** [VirtPageNum::indexes]: the three indices, level 2 first. *)
Fixpoint indexes_loop (i : nat) (vpn : Z) (idx : list Z) : list Z :=
  match i with
  | O => idx
  | S i' => indexes_loop i' (Z.shiftr vpn 9) (<[i' := Z.land vpn 511]> idx)
  end.
Definition indexes (vpn : Z) : list Z := indexes_loop 3 vpn [0; 0; 0].

(** ** SimpleRange and its iterator, at the page-number types *)
Record SimpleRange := { rl : Z; rr : Z }.
Record SimpleRangeIterator := { current : Z; end_ : Z }.

Definition step (n : Z) : outcome Z := add64 n 1.

Definition SimpleRange_new (start end' : Z) : outcome SimpleRange :=
  assertO (start <=? end') "start > end!";;
  mret {| rl := start; rr := end' |}.
Definition into_iter (r : SimpleRange) : SimpleRangeIterator :=
  {| current := rl r; end_ := rr r |}.
Definition next (it : SimpleRangeIterator) : outcome (option Z * SimpleRangeIterator) :=
  if current it =? end_ it then mret (None, it)
  else
    c ← step (current it);
    mret (Some (current it), {| current := c; end_ := end_ it |}).

(** Driving the iterator as a [for] loop does, with [fuel] calls of [next]. *)
Fixpoint collect (fuel : nat) (it : SimpleRangeIterator) : outcome (option (list Z)) :=
  match fuel with
  | O => mret None
  | S fuel =>
      '(o, it) ← next it;
      match o with
      | None => mret (Some [])
      | Some x => l ← collect fuel it; mret ((x ::.) <$> l)
      end
  end.

(** * Properties *)

Lemma pg_round_down_spec a :
  0 ≤ a < 2 ^ 64 → pg_round_down a = a / PAGE_SIZE * PAGE_SIZE.
Proof. intros. apply (land_not_mask 64 12); lia. Qed.

Lemma page_offset_mod a : page_offset a = a `mod` PAGE_SIZE.
Proof. apply (land_mask 12). lia. Qed.

Lemma page_num_div va level :
  0 ≤ level → page_num va level = (va / 2 ^ (12 + level * 9)) `mod` 512.
Proof.
  intros. unfold page_num, PGSHIFT, PGMASKLEN, PGMASK.
  rewrite Z.shiftr_div_pow2 by lia. apply (land_mask 9). lia.
Qed.

Lemma page_num_bounds va level : 0 ≤ level → 0 ≤ page_num va level < 512.
Proof. intros. rewrite page_num_div by done. apply Z.mod_pos_bound. lia. Qed.

(** Rounding an address up to a page: the result is the least multiple of
    the page size at or above the address, and the call panics exactly when
    the intermediate sum leaves the 64-bit range. *)
Theorem pg_round_up_least a :
  0 ≤ a < 2 ^ 64 →
  (a + PAGE_SIZE < 2 ^ 64 ∧
     ∃ r, pg_round_up a = Done r ∧ r `mod` PAGE_SIZE = 0 ∧ a ≤ r ∧
       ∀ m, m `mod` PAGE_SIZE = 0 → a ≤ m → r ≤ m) ∨
  (2 ^ 64 ≤ a + PAGE_SIZE ∧ panics (pg_round_up a)).
Proof.
  intros Ha. unfold pg_round_up, add_chk, sub_chk.
  destruct (Z.ltb_spec (a + PAGE_SIZE) (2 ^ 64)); [left|right; split; [done|by eexists]].
  split; [done|]. cbn [mbind outcome_bind mret outcome_ret].
  rewrite (proj2 (Z.leb_le _ _)) by (unfold PAGE_SIZE; lia).
  eexists. split; [reflexivity|].
  change (PAGE_SIZE - 1) with (2 ^ 12 - 1).
  rewrite (land_not_mask 64 12) by (unfold PAGE_SIZE in *; lia).
  change (2 ^ 12) with 4096. unfold PAGE_SIZE in *.
  split; [apply Z_mod_mult|]. split; [dlia|]. intros m Hm Hle. dlia.
Qed.

Example pg_round_up_least_witness :
  (0 ≤ 0x1234 < 2 ^ 64) ∧ pg_round_up 0x1234 = Done 0x2000.
Proof.
  split; [lia|].
  destruct (pg_round_up_least 0x1234) as [(_ & r & Hr & _)|[Habs _]].
  - lia.
  - reflexivity.
  - exfalso. unfold PAGE_SIZE in Habs. lia.
Defined.

(** A virtual address below [2^39] is recovered from its three table
    indices and its page offset; each index is in range and [indexes] of the
    page number lists the same three indices, the top level first. *)
Theorem sv39_decompose va :
  0 ≤ va < 2 ^ 39 →
  va = page_num va 2 * 2 ^ 30 + page_num va 1 * 2 ^ 21 + page_num va 0 * 2 ^ 12
       + page_offset va ∧
  Forall (λ i, 0 ≤ i < 512) (indexes (floor va)) ∧
  indexes (floor va) = [page_num va 2; page_num va 1; page_num va 0].
Proof.
  intros Hva.
  assert (indexes (floor va) = [page_num va 2; page_num va 1; page_num va 0]) as ->.
  { unfold indexes, floor, PAGE_SIZE. cbn.
    rewrite !Z.shiftr_div_pow2 by lia.
    change 511 with (2 ^ 9 - 1). rewrite !land_mask by lia.
    rewrite !page_num_div, !Z.div_div by lia. done. }
  repeat split.
  - rewrite page_offset_mod, !page_num_div by lia. unfold PAGE_SIZE. dlia.
  - repeat constructor; apply page_num_bounds; lia.
Qed.

Example sv39_decompose_witness :
  (0 ≤ 0x3fffffe123 < 2 ^ 39) ∧ indexes (floor 0x3fffffe123) = [255; 511; 510].
Proof.
  split; [lia|].
  destruct (sv39_decompose 0x3fffffe123) as (_ & _ & ->); [lia|]. reflexivity.
Defined.

Lemma collect_seq n l r :
  0 ≤ l → r < 2 ^ 64 → r - l = Z.of_nat n →
  collect (S n) {| current := l; end_ := r |} = Done (Some (seqZ l (Z.of_nat n))).
Proof.
  revert l. induction n as [|n IH]; intros l Hl Hr Hn.
  - unfold collect, next. cbn [current end_].
    rewrite (proj2 (Z.eqb_eq l r)) by lia. done.
  - remember (S n) as k eqn:Hk. cbn [collect].
    unfold next, step, add_chk. cbn [current end_].
    rewrite (proj2 (Z.eqb_neq l r)), (proj2 (Z.ltb_lt _ _)) by lia.
    cbn [mbind outcome_bind mret outcome_ret].
    rewrite IH by lia. cbn [fmap option_fmap option_map].
    rewrite (seqZ_cons l) by lia.
    subst k. replace (Z.pred (Z.of_nat (S n))) with (Z.of_nat n) by lia.
    by replace (Z.succ l) with (l + 1) by lia.
Qed.

(** Iterating a [SimpleRange] visits exactly the pages from its start up to
    but excluding its end, in increasing order, and stops: [r - l + 1] calls of
    [next] are enough.  [SimpleRange::new] refuses a reversed range. *)
Theorem simple_range_visits l r :
  0 ≤ l < 2 ^ 64 → 0 ≤ r < 2 ^ 64 →
  (l ≤ r → ∃ rng, SimpleRange_new l r = Done rng ∧
     collect (Z.to_nat (r - l) + 1) (into_iter rng) = Done (Some (seqZ l (r - l)))) ∧
  (r < l → panics (SimpleRange_new l r)).
Proof.
  intros Hl Hr. unfold SimpleRange_new, assertO. split; intros Hlr.
  - rewrite (proj2 (Z.leb_le _ _)) by lia. eexists. split; [reflexivity|].
    rewrite Nat.add_1_r. unfold into_iter. cbn [rl rr].
    rewrite collect_seq by lia. by rewrite Z2Nat.id by lia.
  - rewrite (proj2 (Z.leb_gt _ _)) by lia. by eexists.
Qed.

Example simple_range_visits_witness :
  (0 ≤ 5 < 2 ^ 64) ∧ (0 ≤ 8 < 2 ^ 64) ∧ seqZ 5 (8 - 5) = [5; 6; 7] ∧
  ∃ rng, SimpleRange_new 5 8 = Done rng ∧
    collect 4 (into_iter rng) = Done (Some [5; 6; 7]).
Proof.
  split; [lia|]. split; [lia|]. split; [reflexivity|].
  destruct (simple_range_visits 5 8) as [H _]; [lia|lia|].
  apply H. lia.
Defined.

(** Page-number conversions. *)
Lemma page_of_addr_of_page n :
  0 ≤ n < 2 ^ 52 → page_of_addr (addr_of_page n) = Done n.
Proof.
  intros Hn. unfold page_of_addr, addr_of_page, floor, wrap, PAGE_SIZE_BITS.
  rewrite Z.shiftl_mul_pow2, Z.mod_small, page_offset_mod by lia. unfold PAGE_SIZE.
  change (2 ^ 12) with 4096. rewrite Z_mod_mult, Z.div_mul by lia. done.
Qed.

Lemma addr_of_page_of_addr a n :
  0 ≤ a < 2 ^ 64 → page_of_addr a = Done n → addr_of_page n = a.
Proof.
  intros Ha. unfold page_of_addr, assertO, addr_of_page, floor, wrap, PAGE_SIZE_BITS.
  rewrite page_offset_mod. destruct (Z.eqb_spec (a `mod` PAGE_SIZE) 0) as [E|]; [|done].
  intros [= <-]. rewrite Z.shiftl_mul_pow2 by lia. unfold PAGE_SIZE in *. dlia.
Qed.

Lemma usize_of_VirtAddr_testbit v n :
  0 ≤ v < 2 ^ 39 → 0 ≤ n →
  Z.testbit (usize_of_VirtAddr v) n =
    Z.testbit v n || (Z.testbit v 38 && (39 <=? n) && (n <? 64)).
Proof.
  intros Hv Hn. unfold usize_of_VirtAddr, VA_WIDTH_SV39, not_w.
  change (Z.shiftl 1 (39 - 1)) with (2 ^ 38).
  change (Z.shiftl 1 39 - 1) with (Z.ones 39).
  assert (Z.testbit v 38 = (2 ^ 38 <=? v)) as ->.
  { rewrite Z.testbit_eqb by lia. destruct (Z.leb_spec (2 ^ 38) v);
      [apply Z.eqb_eq|apply Z.eqb_neq]; dlia. }
  destruct (2 ^ 38 <=? v); [|by rewrite orb_false_r].
  rewrite Z.lor_spec, Z.lxor_spec, !Z.testbit_ones_nonneg by lia.
  destruct (Z.ltb_spec n 39), (Z.leb_spec 39 n), (Z.ltb_spec n 64); lia || done.
Qed.

Lemma usize_of_VirtAddr_value v :
  0 ≤ v < 2 ^ 39 →
  usize_of_VirtAddr v = v + (if Z.testbit v 38 then Z.shiftl (Z.ones 25) 39 else 0).
Proof.
  intros Hv. destruct (Z.testbit v 38) eqn:E38.
  2: { rewrite Z.add_0_r. apply Z.bits_inj'. intros n Hn.
       by rewrite usize_of_VirtAddr_testbit, E38, orb_false_r by lia. }
  rewrite Z.add_nocarry_lxor.
  - apply Z.bits_inj'. intros n Hn.
    rewrite usize_of_VirtAddr_testbit, Z.lxor_spec, Z.shiftl_spec, E38 by lia.
    destruct (Z.ltb_spec n 39).
    + rewrite (Z.testbit_neg_r _ (n - 39)), (proj2 (Z.leb_gt 39 n)) by lia. btauto.
    + rewrite (testbit_high 39 v n), Z.testbit_ones_nonneg by lia.
      destruct (Z.leb_spec 39 n), (Z.ltb_spec n 64), (Z.ltb_spec (n - 39) 25); lia || done.
  - apply Z.bits_inj'. intros n Hn. rewrite Z.land_spec, Z.bits_0, Z.shiftl_spec by lia.
    destruct (Z.ltb_spec n 39); [rewrite (Z.testbit_neg_r _ (n - 39)) by lia; btauto|].
    by rewrite (testbit_high 39 v n) by lia.
Qed.

(** [From<VirtAddr> for usize] is the sign extension of a 39-bit address:
    the low 39 bits are kept, bits 38 to 63 of the result all equal bit 38,
    and the result stays below [2^64]. *)
Theorem usize_of_VirtAddr_sign_extends v :
  0 ≤ v < 2 ^ 39 →
  0 ≤ usize_of_VirtAddr v < 2 ^ 64 ∧
  usize_of_VirtAddr v `mod` 2 ^ 39 = v ∧
  ∀ n, 38 ≤ n < 64 → Z.testbit (usize_of_VirtAddr v) n = Z.testbit v 38.
Proof.
  intros Hv. rewrite (usize_of_VirtAddr_value v Hv) at 1 2 3.
  change (Z.shiftl (Z.ones 25) 39) with (2 ^ 64 - 2 ^ 39).
  split; [destruct (Z.testbit v 38); lia|].
  split; [destruct (Z.testbit v 38); dlia|].
  intros n Hn. rewrite usize_of_VirtAddr_testbit by lia.
  destruct (decide (n = 38)) as [->|]; [simpl; btauto|].
  rewrite (testbit_high 39 v n), (proj2 (Z.leb_le 39 n)), (proj2 (Z.ltb_lt n 64)) by lia.
  btauto.
Qed.

Example usize_of_VirtAddr_sign_extends_witness :
  (0 ≤ 2 ^ 38 < 2 ^ 39) ∧ usize_of_VirtAddr (2 ^ 38) `mod` 2 ^ 39 = 2 ^ 38.
Proof. split; [lia|]. apply usize_of_VirtAddr_sign_extends. lia. Defined.
