(* ===== verification/Alloc.v ===== *)
(** * The counter-and-stack allocators

    - [mm/page_allocator.rs]: [StackPageAllocator], [page_alloc], [page_dealloc];
    - [process/proc/pid.rs] and [process/task/tid.rs]: [RecycleAllocator].

    The global allocators sit behind spin locks, so each call runs alone; the
    state of a call is the allocator.  [FreshIds] is the promise the process
    layer relies on: it is proved once against the interface and discharged by
    both recycle allocators. *)
From S2P Require Import Prelude Consts Addr.

(** ** StackPageAllocator *)
Record StackPageAllocator := { pa_current : Z; pa_end : Z; pa_recycled : list Z }.

Definition pa_new : StackPageAllocator :=
  {| pa_current := 0; pa_end := 0; pa_recycled := [] |}.
Definition pa_init (start end' : Z) (s : StackPageAllocator) : StackPageAllocator :=
  {| pa_current := start; pa_end := end'; pa_recycled := pa_recycled s |}.

Definition pa_alloc : M StackPageAllocator (option Z) :=
  s ← get;
  match vec_pop (pa_recycled s) with
  | Some (ppn, rest) =>
      put {| pa_current := pa_current s; pa_end := pa_end s; pa_recycled := rest |};;
      mret (Some (PhysPageNum_from_usize ppn))
  | None =>
      if pa_current s =? pa_end s then mret None
      else
        c ← lift (add64 (pa_current s) 1);
        put {| pa_current := c; pa_end := pa_end s; pa_recycled := pa_recycled s |};;
        mret (Some (PhysPageNum_from_usize (c - 1)))
  end.

Definition pa_dealloc (ppn : Z) : M StackPageAllocator unit :=
  s ← get;
  if (pa_current s <=? ppn) || bool_decide (ppn ∈ pa_recycled s)
  then panic "Frame ppn has not been allocated!"
  else put {| pa_current := pa_current s; pa_end := pa_end s;
              pa_recycled := vec_push (pa_recycled s) ppn |}.

(** The frames themselves, by page number: [get_bytes_array] is a lookup. *)
Record frames := { pager : StackPageAllocator; bytes_array : gmap Z (list Z) }.

Definition with_pager {A} (m : M StackPageAllocator A) : M frames A := λ f,
  match m (pager f) with
  | Done (a, p) => Done (a, {| pager := p; bytes_array := bytes_array f |})
  | Panic why => Panic why
  end.

(** [PAGE_ALLOCATOR] is initialised by [init_page_allocator]. *)
Definition init_page_allocator : M frames unit :=
  start ← lift (ceil KERNEL_HEAP_END);
  with_pager (modify (pa_init start (floor PHYSTOP))).

Definition zero_page : list Z := replicate (Z.to_nat PAGE_SIZE) 0.

Definition page_alloc : M frames (option Z) :=
  res ← with_pager pa_alloc;
  match res with
  | None => panic "[kernel] memory is not enough"
  | Some ppn =>
      modify (λ f, {| pager := pager f; bytes_array := <[ppn := zero_page]> (bytes_array f) |});;
      mret (Some (addr_of_page ppn))
  end.

Definition page_dealloc (pa : Z) : M frames unit :=
  ppn ← lift (page_of_addr pa);
  with_pager (pa_dealloc ppn).

(** ** RecycleAllocator: process ids and task ids *)
Record RecycleAllocator := { ra_current : Z; ra_recycled : list Z }.
Definition ra_new : RecycleAllocator := {| ra_current := 0; ra_recycled := [] |}.

Definition pid_alloc : M RecycleAllocator Z :=
  s ← get;
  match vec_pop (ra_recycled s) with
  | Some (pid, rest) =>
      put {| ra_current := ra_current s; ra_recycled := rest |};; mret pid
  | None =>
      c ← lift (add64 (ra_current s) 1);
      put {| ra_current := c; ra_recycled := ra_recycled s |};;
      mret (c - 1)
  end.

Definition pid_dealloc (pid : Z) : M RecycleAllocator unit :=
  s ← get;
  assertM (pid <? ra_current s) "assertion failed: pid < self.current";;
  assertM (negb (bool_decide (pid ∈ ra_recycled s))) "pid has been deallocated!";;
  put {| ra_current := ra_current s; ra_recycled := vec_push (ra_recycled s) pid |}.

Definition tid_alloc : M RecycleAllocator Z :=
  s ← get;
  match vec_pop (ra_recycled s) with
  | Some (pid, rest) =>
      put {| ra_current := ra_current s; ra_recycled := rest |};; mret pid
  | None =>
      c ← lift (add64 (ra_current s) 1);
      put {| ra_current := c; ra_recycled := ra_recycled s |};;
      mret (c - 1)
  end.

Definition tid_dealloc (tid : Z) : M RecycleAllocator unit :=
  s ← get;
  assertM (tid <? ra_current s) "assertion failed: tid < self.current";;
  assertM (negb (bool_decide (tid ∈ ra_recycled s))) "pid has been deallocated!";;
  put {| ra_current := ra_current s; ra_recycled := vec_push (ra_recycled s) tid |}.

(** ** Interface: fresh, dense identifiers

    [ids_inv s live]: the allocator state [s] serves exactly the identifiers
    [live], all of them below [ids_peak s]; the peak only grows when every
    identifier below it is live. *)
Class FreshIds (St : Type) := {
  ids_new : St;
  ids_alloc : M St Z;
  ids_free : Z → M St unit;
  ids_inv : St → gset Z → Prop;
  ids_peak : St → Z;
}.

Class FreshIdsLaws (St : Type) `{!FreshIds St} := {
  ids_new_inv : ids_inv ids_new ∅ ∧ ids_peak ids_new = 0;
  ids_live_bound s live i : ids_inv s live → i ∈ live → 0 ≤ i < ids_peak s;
  ids_alloc_fresh s live :
    ids_inv s live → ids_peak s < 2 ^ 64 - 1 →
    ∃ i s', ids_alloc s = Done (i, s') ∧ (i ∉ live) ∧
      ids_inv s' ({[i]} ∪ live) ∧
      ids_peak s' = Z.max (ids_peak s) (Z.of_nat (size live) + 1);
  ids_free_live s live i :
    ids_inv s live → i ∈ live →
    ∃ s', ids_free i s = Done (tt, s') ∧ ids_inv s' (live ∖ {[i]}) ∧
      ids_peak s' = ids_peak s;
  ids_free_stale s live i :
    ids_inv s live → 0 ≤ i → i ∉ live → panics (ids_free i s);
}.

#[export] Instance pid_ids : FreshIds RecycleAllocator | 10 := {
  ids_new := ra_new;
  ids_alloc := pid_alloc;
  ids_free := pid_dealloc;
  ids_inv s live :=
    0 ≤ ra_current s ∧ NoDup (ra_recycled s) ∧
    (∀ i, (i ∈ live ∨ i ∈ ra_recycled s) ↔ 0 ≤ i < ra_current s) ∧
    (∀ i, i ∈ live → i ∉ ra_recycled s) ∧
    Z.of_nat (size live) + Z.of_nat (length (ra_recycled s)) = ra_current s;
  ids_peak := ra_current;
}.
#[export] Instance tid_ids : FreshIds RecycleAllocator | 20 := {
  ids_new := ra_new;
  ids_alloc := tid_alloc;
  ids_free := tid_dealloc;
  ids_inv := @ids_inv _ pid_ids;
  ids_peak := ra_current;
}.

Lemma pid_alloc_fresh s live :
  ids_inv s live → ra_current s < 2 ^ 64 - 1 →
  ∃ i s', pid_alloc s = Done (i, s') ∧ (i ∉ live) ∧ ids_inv s' ({[i]} ∪ live) ∧
    ra_current s' = Z.max (ra_current s) (Z.of_nat (size live) + 1).
Proof.
  destruct s as [cur rec]. intros (H0 & Hnd & Hall & Hdis & Hsz) Hlt. simpl in *.
  unfold pid_alloc, add_chk. run_simpl. simpl.
  destruct (vec_pop rec) as [[i rest]|] eqn:E.
  - apply vec_pop_Some in E as ->. rewrite length_app in Hsz. simpl in Hsz.
    apply NoDup_app in Hnd as (Hnd & Hni & _).
    assert (i ∉ live) by (intros Hi; apply (Hdis i Hi); set_solver).
    eexists i, _. split; [done|]. split; [done|]. cbn. split; [|lia].
    split; [done|]. split; [done|]. split; [|split].
    + intros j. rewrite <- Hall. set_solver.
    + set_solver.
    + rewrite size_union, size_singleton by set_solver. lia.
  - apply vec_pop_None in E as ->. rewrite (proj2 (Z.ltb_lt _ _)) by lia. run_simpl.
    assert (cur ∉ live).
    { intros Hi. assert (0 ≤ cur < cur) by (apply Hall; by left). lia. }
    eexists _, _. split; [done|]. replace (cur + 1 - 1) with cur by lia.
    split; [done|]. cbn. simpl in Hsz. split; [|lia]. split; [lia|]. split; [constructor|].
    split; [|split].
    + intros j. destruct (decide (j = cur)) as [->|Hj].
      * split; [lia|]. set_solver.
      * specialize (Hall j). set_solver by lia.
    + set_solver.
    + rewrite size_union, size_singleton by set_solver. lia.
Qed.

Lemma pid_free_live s live i :
  ids_inv s live → i ∈ live →
  ∃ s', pid_dealloc i s = Done (tt, s') ∧ ids_inv s' (live ∖ {[i]}) ∧
    ra_current s' = ra_current s.
Proof.
  destruct s as [cur rec]. intros (H0 & Hnd & Hall & Hdis & Hsz) Hi. simpl in *.
  unfold pid_dealloc. run_simpl. simpl.
  assert (0 ≤ i < cur) by (apply Hall; by left).
  rewrite (proj2 (Z.ltb_lt _ _)), bool_decide_false by (lia || auto). simpl.
  eexists. split; [done|]. cbn. split; [|done]. unfold vec_push.
  split; [done|]. split; [apply NoDup_app; set_solver by auto using NoDup_singleton|].
  split; [|split].
  - intros j. rewrite <- Hall. destruct (decide (j = i)); set_solver.
  - set_solver.
  - rewrite length_app. cbn [length].
    rewrite size_difference, size_singleton by set_solver.
    assert (size live ≠ 0%nat) by (intros ?%size_empty_inv; set_solver). lia.
Qed.

Lemma pid_free_stale s live i :
  ids_inv s live → 0 ≤ i → i ∉ live → panics (pid_dealloc i s).
Proof.
  intros (H0 & Hnd & Hall & Hdis & Hsz) Hi Hn. unfold pid_dealloc. run_simpl.
  destruct (Z.ltb_spec i (ra_current s)); [|by eexists]. run_simpl.
  rewrite bool_decide_true; [by eexists|].
  assert (i ∈ live ∨ i ∈ ra_recycled s) as [?|?] by (apply Hall; lia); done.
Qed.

Lemma pid_new_inv : ids_inv ra_new ∅ ∧ ra_current ra_new = 0.
Proof.
  split; [|done]. split; [done|]. split; [constructor|].
  split; [intros i; cbn; split; [set_solver|lia]|]. split; [set_solver|done].
Qed.

#[export] Instance pid_ids_laws : @FreshIdsLaws RecycleAllocator pid_ids.
Proof.
  split; eauto using pid_new_inv, pid_alloc_fresh, pid_free_live, pid_free_stale.
  intros s live i (_ & _ & Hall & _) Hi. apply Hall. by left.
Qed.
(** The two allocators differ in the text of one assertion only. *)
Lemma tid_dealloc_done i s r : tid_dealloc i s = Done r ↔ pid_dealloc i s = Done r.
Proof.
  unfold tid_dealloc, pid_dealloc. run_simpl.
  destruct (i <? ra_current s), (negb (bool_decide (i ∈ ra_recycled s))); naive_solver.
Qed.
Lemma tid_dealloc_panics i s : panics (tid_dealloc i s) ↔ panics (pid_dealloc i s).
Proof.
  unfold tid_dealloc, pid_dealloc, panics. run_simpl.
  destruct (i <? ra_current s), (negb (bool_decide (i ∈ ra_recycled s))); naive_solver.
Qed.

#[export] Instance tid_ids_laws : @FreshIdsLaws RecycleAllocator tid_ids.
Proof.
  split.
  - exact pid_new_inv.
  - exact (@ids_live_bound _ _ pid_ids_laws).
  - exact pid_alloc_fresh.
  - intros s live i Hs Hi. destruct (pid_free_live s live i Hs Hi) as (s' & E & ?).
    exists s'. by rewrite <- tid_dealloc_done in E.
  - intros s live i Hs H0 Hi. apply tid_dealloc_panics. by eapply pid_free_stale.
Qed.

(** ** Clients of the interface *)
Section fresh_ids_client.
Context {St : Type} `{FreshIdsLaws St}.

(** States reached by allocations and by releases of live identifiers, with
    at most [n] identifiers live at any time. *)
Inductive ids_reach (n : nat) : St → gset Z → Prop :=
| ids_reach_new : ids_reach n ids_new ∅
| ids_reach_alloc s live i s' :
    ids_reach n s live → (size live < n)%nat → ids_alloc s = Done (i, s') →
    ids_reach n s' ({[i]} ∪ live)
| ids_reach_free s live i s' :
    ids_reach n s live → i ∈ live → ids_free i s = Done (tt, s') →
    ids_reach n s' (live ∖ {[i]}).

Lemma ids_reach_inv n s live :
  Z.of_nat n < 2 ^ 64 - 1 → ids_reach n s live →
  ids_inv s live ∧ ids_peak s ≤ Z.of_nat n.
Proof.
  intros Hn. induction 1 as [|s live i s' _ [Hinv Hpk] Hsz Ha|s live i s' _ [Hinv Hpk] Hi Hf].
  - destruct ids_new_inv. split; [done|lia].
  - destruct (ids_alloc_fresh s live Hinv) as (j & s2 & E & _ & Hinv2 & Hpk2); [lia|].
    rewrite Ha in E. injection E as -> ->. split; [done|lia].
  - destruct (ids_free_live s live i Hinv Hi) as (s2 & E & Hinv2 & Hpk2).
    rewrite Hf in E. injection E as ->. split; [done|lia].
Qed.
End fresh_ids_client.

Lemma fresh_ids_client (FS : FreshIds RecycleAllocator)
    (L : @FreshIdsLaws RecycleAllocator FS) n s live :
  Z.of_nat n < 2 ^ 64 - 1 → ids_reach n s live →
  (∀ i, i ∈ live → 0 ≤ i < Z.of_nat n) ∧
  ((size live < n)%nat → ∃ i s', ids_alloc s = Done (i, s') ∧ (i ∉ live) ∧ 0 ≤ i < Z.of_nat n) ∧
  (∀ i, i ∈ live → ∃ s', ids_free i s = Done (tt, s')) ∧
  (∀ i, 0 ≤ i → i ∉ live → panics (ids_free i s)).
Proof.
  intros Hn Hr. destruct (ids_reach_inv n s live Hn Hr) as [Hinv Hpk].
  split; [|split; [|split]].
  - intros i Hi. pose proof (ids_live_bound s live i Hinv Hi). lia.
  - intros Hsz. destruct (ids_alloc_fresh s live Hinv) as (i & s' & Ha & Hni & Hinv' & Hpk');
      [lia|].
    exists i, s'. split; [done|]. split; [done|].
    pose proof (ids_live_bound s' _ i Hinv'). set_solver by lia.
  - intros i Hi. destruct (ids_free_live s live i Hinv Hi) as (s' & ? & _). eauto.
  - intros i H0 Hi. by eapply ids_free_stale.
Qed.

(** Process ids and task ids, for both [RecycleAllocator]s: while at most
    [n] ids are live at once, every live id is below [n], an allocation with
    fewer than [n] live ids succeeds with an id below [n] that no one holds,
    releasing a live id succeeds, and releasing a stale one panics (the
    [debug_assert!]s of [pid_dealloc] and [tid_dealloc]). *)
Theorem fresh_ids_correct FS n s live :
  FS = pid_ids ∨ FS = tid_ids →
  Z.of_nat n < 2 ^ 64 - 1 → @ids_reach _ FS n s live →
  (∀ i, i ∈ live → 0 ≤ i < Z.of_nat n) ∧
  ((size live < n)%nat →
     ∃ i s', @ids_alloc _ FS s = Done (i, s') ∧ (i ∉ live) ∧ 0 ≤ i < Z.of_nat n) ∧
  (∀ i, i ∈ live → ∃ s', @ids_free _ FS i s = Done (tt, s')) ∧
  (∀ i, 0 ≤ i → i ∉ live → panics (@ids_free _ FS i s)).
Proof.
  intros [-> | ->]; [apply (fresh_ids_client _ pid_ids_laws)|apply (fresh_ids_client _ tid_ids_laws)].
Qed.

Example fresh_ids_correct_witness :
  ∃ s live, @ids_reach _ pid_ids 2 s live ∧ live = {[1]} ∧
    (∀ i, i ∈ live → 0 ≤ i < 2) ∧
    panics (pid_dealloc 0 s).
Proof.
  exists {| ra_current := 2; ra_recycled := [0] |}, {[1]}.
  assert (@ids_reach _ pid_ids 2 {| ra_current := 2; ra_recycled := [0] |} {[1]}) as Hr.
  { replace ({[1]} : gset Z) with (({[1]} ∪ ({[0]} ∪ ∅)) ∖ {[0]} : gset Z) by set_solver.
    apply (@ids_reach_free _ pid_ids 2 {| ra_current := 2; ra_recycled := [] |});
      [|set_solver|reflexivity].
    apply (@ids_reach_alloc _ pid_ids 2 {| ra_current := 1; ra_recycled := [] |} _ 1);
      [|vm_compute; lia|reflexivity].
    apply (@ids_reach_alloc _ pid_ids 2 ra_new _ 0);
      [apply (@ids_reach_new _ pid_ids 2)|vm_compute; lia|reflexivity]. }
  destruct (fresh_ids_correct pid_ids 2 _ _ (or_introl eq_refl) ltac:(lia) Hr)
    as (H1 & _ & _ & H4).
  split; [done|]. split; [done|]. split; [exact H1|].
  apply H4; [lia|set_solver].
Defined.

(** ** StackPageAllocator *)

(** [pa_inv start s live]: the allocator manages the pages [start .. pa_end),
    and [live] are the pages it has handed out and not taken back. *)
Definition pa_inv (start : Z) (s : StackPageAllocator) (live : gset Z) : Prop :=
  0 ≤ start ≤ pa_current s ∧ pa_current s ≤ pa_end s < 2 ^ PPN_WIDTH_SV39 ∧
  NoDup (pa_recycled s) ∧
  (∀ p, (p ∈ live ∨ p ∈ pa_recycled s) ↔ start ≤ p < pa_current s) ∧
  (∀ p, p ∈ live → p ∉ pa_recycled s).

Lemma PhysPageNum_from_usize_id p : 0 ≤ p < 2 ^ PPN_WIDTH_SV39 → PhysPageNum_from_usize p = p.
Proof.
  intros. unfold PhysPageNum_from_usize. rewrite Z.shiftl_1_l, land_mask by done.
  by apply Z.mod_small.
Qed.

Lemma pa_init_inv start e :
  0 ≤ start ≤ e → e < 2 ^ PPN_WIDTH_SV39 → pa_inv start (pa_init start e pa_new) ∅.
Proof.
  intros. split; [cbn; lia|]. split; [cbn; lia|]. split; [constructor|].
  split; [intros p; cbn; split; [set_solver|lia]|set_solver].
Qed.

Lemma pa_alloc_spec start s live :
  pa_inv start s live →
  (∃ p s', pa_alloc s = Done (Some p, s') ∧ (p ∉ live) ∧ start ≤ p < pa_end s ∧
     pa_inv start s' ({[p]} ∪ live) ∧ pa_end s' = pa_end s) ∨
  (pa_alloc s = Done (None, s) ∧ ∀ p, p ∈ live ↔ start ≤ p < pa_end s).
Proof.
  destruct s as [cur e rec]. intros (H0 & Hc & Hnd & Hall & Hdis). simpl in *.
  unfold pa_alloc, add_chk. run_simpl. simpl.
  destruct (vec_pop rec) as [[p rest]|] eqn:E.
  - apply vec_pop_Some in E as ->. left.
    assert (start ≤ p < cur) by (apply Hall; set_solver).
    rewrite PhysPageNum_from_usize_id by lia.
    apply NoDup_app in Hnd as (Hnd & Hni & _).
    eexists p, _. split; [done|]. split; [set_solver|]. split; [lia|]. split; [|done].
    split; [cbn; lia|]. split; [cbn; lia|]. split; [done|]. split; [|set_solver].
    intros q. cbn. rewrite <- Hall. set_solver.
  - apply vec_pop_None in E as ->. destruct (Z.eqb_spec cur e) as [->|].
    + right. split; [done|]. intros p. rewrite <- Hall. set_solver.
    + left. change (2 ^ PPN_WIDTH_SV39) with 17592186044416 in Hc.
      rewrite (proj2 (Z.ltb_lt _ _)) by lia. replace (cur + 1 - 1) with cur by lia.
      rewrite PhysPageNum_from_usize_id
        by (change (2 ^ PPN_WIDTH_SV39) with 17592186044416; lia).
      assert (cur ∉ live).
      { intros Hi. assert (start ≤ cur < cur) by (apply Hall; by left). lia. }
      eexists cur, _. split; [done|]. split; [done|]. split; [lia|]. split; [|done].
      split; [cbn; lia|].
      split; [change (2 ^ PPN_WIDTH_SV39) with 17592186044416; cbn; lia|].
      split; [constructor|]. split; [|set_solver].
      intros j. cbn. destruct (decide (j = cur)) as [->|Hj]; [split; [lia|set_solver]|].
      specialize (Hall j). set_solver by lia.
Qed.

Lemma pa_dealloc_live start s live p :
  pa_inv start s live → p ∈ live →
  ∃ s', pa_dealloc p s = Done (tt, s') ∧ pa_inv start s' (live ∖ {[p]}) ∧ pa_end s' = pa_end s.
Proof.
  destruct s as [cur e rec]. intros (H0 & Hc & Hnd & Hall & Hdis) Hp. simpl in *.
  assert (start ≤ p < cur) by (apply Hall; by left).
  unfold pa_dealloc. run_simpl. simpl.
  rewrite (proj2 (Z.leb_gt _ _)), bool_decide_false by (lia || auto). simpl.
  eexists. split; [done|]. split; [|done]. unfold vec_push.
  split; [done|]. split; [done|].
  split; [apply NoDup_app; set_solver by auto using NoDup_singleton|].
  split; [|set_solver]. intros q. cbn. rewrite <- Hall. destruct (decide (q = p)); set_solver.
Qed.

(** The pages handed out, over a run of allocations and releases of live pages. *)
Inductive pages_reach (start e : Z) : StackPageAllocator → gset Z → Prop :=
| pages_reach_init : pages_reach start e (pa_init start e pa_new) ∅
| pages_reach_alloc s live p s' :
    pages_reach start e s live → pa_alloc s = Done (Some p, s') →
    pages_reach start e s' ({[p]} ∪ live)
| pages_reach_free s live p s' :
    pages_reach start e s live → p ∈ live → pa_dealloc p s = Done (tt, s') →
    pages_reach start e s' (live ∖ {[p]}).

Lemma pages_reach_inv start e s live :
  0 ≤ start ≤ e → e < 2 ^ PPN_WIDTH_SV39 → pages_reach start e s live →
  pa_inv start s live ∧ pa_end s = e.
Proof.
  intros Hs He. induction 1 as [|s live p s' _ [Hinv Hend] Ha|s live p s' _ [Hinv Hend] Hp Hf].
  - split; [by apply pa_init_inv|done].
  - destruct (pa_alloc_spec _ _ _ Hinv) as [(q & s2 & E & _ & _ & Hinv2 & Hend2)|[E _]];
      rewrite Ha in E; [|done]. injection E as -> ->. split; [done|congruence].
  - destruct (pa_dealloc_live _ _ _ p Hinv Hp) as (s2 & E & Hinv2 & Hend2).
    rewrite Hf in E. injection E as ->. split; [done|congruence].
Qed.

(** The page allocator: in every reachable state an allocation returns a
    page of the managed range that no one holds, and fails exactly when every
    page of the range is held; releasing a held page succeeds, and releasing a
    page of the range that is not held panics. *)
Theorem page_allocator_correct start e s live :
  0 ≤ start ≤ e → e < 2 ^ PPN_WIDTH_SV39 → pages_reach start e s live →
  match pa_alloc s with
  | Done (Some p, _) => (p ∉ live) ∧ start ≤ p < e
  | Done (None, _) => ∀ p, p ∈ live ↔ start ≤ p < e
  | Panic _ => False
  end ∧
  (∀ p, p ∈ live → ∃ s', pa_dealloc p s = Done (tt, s')) ∧
  (∀ p, start ≤ p → p ∉ live → panics (pa_dealloc p s)).
Proof.
  intros Hs He Hr. destruct (pages_reach_inv _ _ _ _ Hs He Hr) as [Hinv <-].
  split; [|split].
  - by destruct (pa_alloc_spec _ _ _ Hinv) as [(p & s' & -> & Hp & Hb & _)|[-> Hp]].
  - intros p Hp. destruct (pa_dealloc_live _ _ _ p Hinv Hp) as (s' & ? & _). eauto.
  - intros p Hp Hnl. destruct Hinv as (_ & _ & _ & Hall & _). unfold pa_dealloc. run_simpl.
    destruct (Z.leb_spec (pa_current s) p); [by eexists|].
    rewrite bool_decide_true; [by eexists|].
    assert (p ∈ live ∨ p ∈ pa_recycled s) as [?|?] by (apply Hall; lia); done.
Qed.

Example page_allocator_correct_witness :
  ∃ s live, pages_reach 0x88000 0x8c000 s live ∧ live = {[0x88000]} ∧
    panics (pa_dealloc 0x88001 s).
Proof.
  exists {| pa_current := 0x88001; pa_end := 0x8c000; pa_recycled := [] |}, {[0x88000]}.
  assert (pages_reach 0x88000 0x8c000
    {| pa_current := 0x88001; pa_end := 0x8c000; pa_recycled := [] |} {[0x88000]}) as Hr.
  { replace ({[0x88000]} : gset Z) with ({[0x88000]} ∪ ∅ : gset Z) by set_solver.
    eapply pages_reach_alloc; [apply pages_reach_init|reflexivity]. }
  split; [done|]. split; [done|].
  destruct (page_allocator_correct 0x88000 0x8c000 _ _ ltac:(lia) ltac:(vm_compute; done) Hr)
    as (_ & _ & H).
  apply H; [lia|set_solver].
Defined.
