(* ===== verification/Bytes.v ===== *)
(** * Bytes, little-endian integers and bit fields

    A byte is a [Z] between 0 and 255 and a block or buffer is a list of
    bytes.  The kernel reinterprets buffers as arrays of [u16], [u32] and
    [#[repr(C)]] structures through raw pointers; on RISC-V an integer of [n]
    bytes is stored little-endian, so such an access is [read_le] or
    [write_at] at a byte offset.

    The crate [bit_field] is not part of the repository: [BitField] is what
    the kernel relies on of its [get_bit] and [set_bit] on a [u8]. *)
From S2P Require Import Prelude.

Definition is_byte (b : Z) : Prop := 0 ≤ b < 256.

Fixpoint le_bytes (n : nat) (x : Z) : list Z :=
  match n with
  | O => []
  | S n => x `mod` 256 :: le_bytes n (x / 256)
  end.

Fixpoint le_val (l : list Z) : Z :=
  match l with
  | [] => 0
  | b :: l => b + 256 * le_val l
  end.

(** [ptr::read] of an integer of [n] bytes at byte offset [off]. *)
Definition read_le (n : nat) (buf : list Z) (off : nat) : Z :=
  le_val (take n (drop off buf)).

(** [ptr::write] / [ptr::copy] of [src] to byte offset [off]. *)
Definition write_at (buf : list Z) (off : nat) (src : list Z) : list Z :=
  take off buf ++ src ++ drop (off + length src) buf.

Definition read_u16 := read_le 2.
Definition read_u32 := read_le 4.
Definition write_u16 (buf : list Z) (off : nat) (x : Z) : list Z := write_at buf off (le_bytes 2 x).
Definition write_u32 (buf : list Z) (off : nat) (x : Z) : list Z := write_at buf off (le_bytes 4 x).

Lemma length_le_bytes n x : length (le_bytes n x) = n.
Proof. revert x. induction n; intros; simpl; auto. Qed.

Lemma le_bytes_is_byte n x : Forall is_byte (le_bytes n x).
Proof.
  revert x. induction n; intros; constructor; [|done].
  apply Z.mod_pos_bound. lia.
Qed.

Lemma le_val_le_bytes n x : le_val (le_bytes n x) = x `mod` 256 ^ Z.of_nat n.
Proof.
  revert x. induction n as [|n IH]; intros x; [by rewrite Z.mod_1_r|].
  cbn [le_bytes le_val]. rewrite IH, Nat2Z.inj_succ, Z.pow_succ_r by lia.
  rewrite Z.rem_mul_r by lia. lia.
Qed.

Lemma le_val_bounds l : Forall is_byte l → 0 ≤ le_val l < 256 ^ Z.of_nat (length l).
Proof.
  induction 1 as [|b l [? ?] _ IH]; [cbn; lia|].
  cbn [le_val length]. rewrite Nat2Z.inj_succ, Z.pow_succ_r by lia. lia.
Qed.

Lemma le_bytes_le_val l : Forall is_byte l → le_bytes (length l) (le_val l) = l.
Proof.
  induction 1 as [|b l [? ?] Hl IH]; [done|]. cbn [length le_bytes le_val].
  f_equal; [dlia|]. by replace ((b + 256 * le_val l) / 256) with (le_val l) by dlia.
Qed.

Lemma length_write_at buf off src :
  (off + length src ≤ length buf)%nat → length (write_at buf off src) = length buf.
Proof. intros. unfold write_at. rewrite !length_app, length_take, length_drop. lia. Qed.

Lemma write_at_bytes buf off src :
  Forall is_byte buf → Forall is_byte src → Forall is_byte (write_at buf off src).
Proof. intros. unfold write_at. rewrite !Forall_app. auto using Forall_take, Forall_drop. Qed.

Lemma lookup_write_at_in buf off src i :
  (off + length src ≤ length buf)%nat → (off ≤ i < off + length src)%nat →
  write_at buf off src !! i = src !! (i - off)%nat.
Proof.
  intros Hle Hi. unfold write_at.
  rewrite lookup_app_r by (rewrite length_take; lia). rewrite length_take, Nat.min_l by lia.
  by rewrite lookup_app_l by lia.
Qed.

Lemma lookup_write_at_out buf off src i :
  (off + length src ≤ length buf)%nat → (i < off ∨ off + length src ≤ i)%nat →
  write_at buf off src !! i = buf !! i.
Proof.
  intros Hle [Hi|Hi]; unfold write_at.
  - rewrite lookup_app_l by (rewrite length_take; lia). by rewrite lookup_take_lt by lia.
  - rewrite lookup_app_r by (rewrite length_take; lia). rewrite length_take, Nat.min_l by lia.
    rewrite lookup_app_r by lia. rewrite lookup_drop. f_equal. lia.
Qed.

(** The bytes of a window after a write: inside it, and away from it. *)
Lemma window_write_same buf off src :
  (off + length src ≤ length buf)%nat →
  take (length src) (drop off (write_at buf off src)) = src.
Proof.
  intros. unfold write_at. rewrite drop_app_length' by (rewrite length_take; lia).
  by rewrite take_app_length.
Qed.

Lemma window_write_other buf off src o n :
  (off + length src ≤ length buf)%nat →
  (o + n ≤ off ∨ off + length src ≤ o)%nat →
  take n (drop o (write_at buf off src)) = take n (drop o buf).
Proof.
  intros Hle Hdis. apply list_eq. intros i. destruct (decide (i < n)%nat).
  - rewrite !lookup_take_lt, !lookup_drop by done. by rewrite lookup_write_at_out by lia.
  - by rewrite !lookup_take_ge by lia.
Qed.

Lemma read_le_write_same n buf off x :
  (off + n ≤ length buf)%nat →
  read_le n (write_at buf off (le_bytes n x)) off = x `mod` 256 ^ Z.of_nat n.
Proof.
  intros. unfold read_le. rewrite <- (length_le_bytes n x) at 1.
  rewrite window_write_same by (by rewrite length_le_bytes). apply le_val_le_bytes.
Qed.

Lemma read_le_write_other n buf off src o :
  (off + length src ≤ length buf)%nat →
  (o + n ≤ off ∨ off + length src ≤ o)%nat →
  read_le n (write_at buf off src) o = read_le n buf o.
Proof. intros. unfold read_le. by rewrite window_write_other. Qed.

Lemma read_le_bounds n buf off :
  Forall is_byte buf → 0 ≤ read_le n buf off < 256 ^ Z.of_nat n.
Proof.
  intros Hb. unfold read_le. set (w := take n (drop off buf)).
  assert (Forall is_byte w) as Hw by (apply Forall_take, Forall_drop, Hb).
  pose proof (le_val_bounds w Hw).
  assert (256 ^ Z.of_nat (length w) ≤ 256 ^ Z.of_nat n).
  { apply Z.pow_le_mono_r; [lia|]. unfold w. rewrite length_take. lia. }
  lia.
Qed.

Definition is_u32 (x : Z) : Prop := 0 ≤ x < 2 ^ 32.

Lemma length_concat_le (l : list Z) n : length (concat (le_bytes n <$> l)) = (n * length l)%nat.
Proof.
  induction l as [|x l IH]; [cbn; lia|]. rewrite fmap_cons. cbn [concat].
  rewrite length_app, length_le_bytes, IH. cbn. lia.
Qed.

Lemma window_concat_le (l : list Z) n i x :
  l !! i = Some x → take n (drop (n * i) (concat (le_bytes n <$> l))) = le_bytes n x.
Proof.
  revert i. induction l as [|y l IH]; intros i Hi; [done|]. rewrite fmap_cons. cbn [concat].
  destruct i as [|i].
  - injection Hi as ->. rewrite Nat.mul_0_r, drop_0.
    by rewrite take_app_length' by (by rewrite length_le_bytes).
  - rewrite drop_app_ge by (rewrite length_le_bytes; nia). rewrite length_le_bytes.
    replace (n * S i - n)%nat with (n * i)%nat by lia. by apply IH.
Qed.

(** A window inside what was just written. *)
Lemma window_write_sub (buf src : list Z) off o n :
  (off + length src ≤ length buf)%nat → (o + n ≤ length src)%nat →
  take n (drop (off + o) (write_at buf off src)) = take n (drop o src).
Proof.
  intros Hl Ho. apply list_eq. intros i. destruct (decide (i < n)%nat).
  - rewrite !lookup_take_lt, !lookup_drop by done. rewrite lookup_write_at_in by lia. f_equal. lia.
  - by rewrite !lookup_take_ge by lia.
Qed.

Lemma window_write_sub0 (buf src : list Z) o n :
  (length src ≤ length buf)%nat → (o + n ≤ length src)%nat →
  take n (drop o (write_at buf 0 src)) = take n (drop o src).
Proof. apply (window_write_sub buf src 0). Qed.

(** Reading the fields of a record laid out end to end. *)
Lemma read_le_app_here n x l : read_le n (le_bytes n x ++ l) 0 = x `mod` 256 ^ Z.of_nat n.
Proof.
  unfold read_le. rewrite drop_0, take_app_length' by (by rewrite length_le_bytes). apply le_val_le_bytes.
Qed.

Lemma read_le_app_there n m x l o : read_le n (le_bytes m x ++ l) (m + o) = read_le n l o.
Proof.
  unfold read_le. rewrite drop_app_ge by (rewrite length_le_bytes; lia). rewrite length_le_bytes.
  by replace (m + o - m)%nat with o by lia.
Qed.

Lemma read_le_concat n (l : list Z) i x :
  l !! i = Some x → read_le n (concat (le_bytes n <$> l)) (n * i) = x `mod` 256 ^ Z.of_nat n.
Proof. intros Hi. unfold read_le. by rewrite (window_concat_le _ _ _ _ Hi), le_val_le_bytes. Qed.

Lemma read_le_write_sub n buf src off o :
  (off + length src ≤ length buf)%nat → (o + n ≤ length src)%nat →
  read_le n (write_at buf off src) (off + o) = read_le n src o.
Proof. intros. unfold read_le. by rewrite window_write_sub. Qed.

Create HintDb bytes.
Create Rewrite HintDb bytes.
#[export] Hint Resolve le_bytes_is_byte write_at_bytes Forall_take Forall_drop : bytes.
#[export] Hint Rewrite length_le_bytes length_write_at using (rewrite ?length_le_bytes; lia) : bytes.

(** ** [bit_field::BitField] on [u8] *)
Class BitField := {
  get_bit : Z → Z → bool;
  set_bit : Z → Z → bool → Z;
}.
Class BitFieldLaws `{!BitField} := {
  set_bit_byte b i v : is_byte b → 0 ≤ i < 8 → is_byte (set_bit b i v);
  get_set_bit_same b i v : is_byte b → 0 ≤ i < 8 → get_bit (set_bit b i v) i = v;
  get_set_bit_other b i j v :
    is_byte b → 0 ≤ i < 8 → 0 ≤ j < 8 → i ≠ j → get_bit (set_bit b i v) j = get_bit b j;
  get_bit_zero i : 0 ≤ i < 8 → get_bit 0 i = false;
}.

(** A concrete instance, for running the definitions. *)
#[export] Instance bits_Z : BitField | 100 := {
  get_bit := Z.testbit;
  set_bit b i v := if v then Z.setbit b i else Z.clearbit b i;
}.
#[export] Instance bits_Z_laws : BitFieldLaws | 100.
Proof.
  split; cbn.
  - intros b i v Hb Hi.
    enough (0 ≤ (if v then Z.setbit b i else Z.clearbit b i) ∧
      (if v then Z.setbit b i else Z.clearbit b i) `mod` 2 ^ 8 =
      (if v then Z.setbit b i else Z.clearbit b i)) as [? Hm].
    { unfold is_byte. rewrite <- Hm. apply Z.mod_pos_bound. lia. }
    unfold is_byte in Hb. split.
    { destruct v; [unfold Z.setbit|unfold Z.clearbit].
      - apply Z.lor_nonneg. split; [lia|]. apply Z.shiftl_nonneg. lia.
      - apply Z.ldiff_nonneg. lia. }
    rewrite <- Z.land_ones by lia. apply Z.bits_inj'. intros n Hn.
    rewrite Z.land_spec, Z.testbit_ones_nonneg by lia.
    destruct (Z.ltb_spec n 8); [apply andb_true_r|]. rewrite andb_false_r. symmetry.
    destruct v; [rewrite Z.setbit_neq by lia|rewrite Z.clearbit_neq by lia];
      by apply (testbit_high 8).
  - intros b i [] Hb Hi; [apply Z.setbit_eq|apply Z.clearbit_eq]; lia.
  - intros b i j [] Hb Hi Hj Hn; [apply Z.setbit_neq|apply Z.clearbit_neq]; lia.
  - intros i Hi. apply Z.bits_0.
Qed.

(** A bitmap stored in bytes: bit [i] is bit [i % 8] of byte [i / 8]. *)
Section bitmap.
Context `{BF : BitFieldLaws}.

Definition bitmap_get (bm : list Z) (i : nat) : option bool :=
  (λ b, get_bit b (Z.of_nat (i `mod` 8))) <$> bm !! (i / 8)%nat.
Definition bitmap_set (bm : list Z) (i : nat) (v : bool) : list Z :=
  alter (λ b, set_bit b (Z.of_nat (i `mod` 8)) v) (i / 8)%nat bm.

Lemma length_bitmap_set bm i v : length (bitmap_set bm i v) = length bm.
Proof. apply length_alter. Qed.

Lemma bitmap_set_bytes bm i v : Forall is_byte bm → Forall is_byte (bitmap_set bm i v).
Proof.
  intros Hb. apply Forall_alter; [done|]. intros b _ Hbb.
  apply set_bit_byte; [done|]. pose proof (Nat.mod_upper_bound i 8). lia.
Qed.

Lemma bitmap_get_set_same bm i v :
  Forall is_byte bm → (i < 8 * length bm)%nat → bitmap_get (bitmap_set bm i v) i = Some v.
Proof.
  intros Hb Hi. unfold bitmap_get, bitmap_set. rewrite list_lookup_alter_eq.
  destruct (lookup_lt_is_Some_2 bm (i / 8)) as [b E].
  { apply Nat.Div0.div_lt_upper_bound. lia. }
  rewrite E. cbn. f_equal. apply get_set_bit_same.
  - by eapply Forall_lookup in E.
  - pose proof (Nat.mod_upper_bound i 8). lia.
Qed.

Lemma bitmap_get_set_other bm i j v :
  Forall is_byte bm → i ≠ j → bitmap_get (bitmap_set bm i v) j = bitmap_get bm j.
Proof.
  intros Hb Hij. unfold bitmap_get, bitmap_set.
  destruct (decide (i / 8 = j / 8)%nat) as [E|E].
  - rewrite E, list_lookup_alter_eq. destruct (bm !! (j / 8)%nat) as [b|] eqn:Eb; [|done].
    cbn [fmap option_fmap option_map]. f_equal. apply get_set_bit_other.
    + by eapply Forall_lookup in Eb.
    + pose proof (Nat.mod_upper_bound i 8). lia.
    + pose proof (Nat.mod_upper_bound j 8). lia.
    + intros Em. pose proof (Nat.div_mod_eq i 8). pose proof (Nat.div_mod_eq j 8). lia.
  - by rewrite list_lookup_alter_ne.
Qed.

Lemma bitmap_get_Some bm i : (i < 8 * length bm)%nat → is_Some (bitmap_get bm i).
Proof.
  intros Hi. unfold bitmap_get. apply fmap_is_Some, lookup_lt_is_Some_2.
  apply Nat.Div0.div_lt_upper_bound. lia.
Qed.

Lemma bitmap_get_zero n i : (i < 8 * n)%nat → bitmap_get (replicate n 0) i = Some false.
Proof.
  intros Hi. unfold bitmap_get. rewrite lookup_replicate_2.
  - cbn. f_equal. apply get_bit_zero. pose proof (Nat.mod_upper_bound i 8). lia.
  - apply Nat.Div0.div_lt_upper_bound. lia.
Qed.
End bitmap.
