(* ===== verification/Dll.v ===== *)
(** * Doubly linked segments

    The kernel has two doubly linked structures built from raw pointers: the
    circular intrusive list of [mm/list.rs] and the null-terminated LRU chain
    of [fs/bio.rs].  Both are seen here as a pair of maps [pv] and [nx] from a
    pointer to the [prev] and [next] field of the node it points to, and
    described by the list of their nodes.  The lemmas say what the field
    updates of the code do to such a description. *)
From S2P Require Import Prelude.

(** Lookups of updated pointer maps. *)
Ltac fn_simp :=
  repeat first
    [ rewrite fn_lookup_insert | rewrite fn_lookup_insert_ne by congruence ].

Section dll.
Context {P : Type} `{EqDecision P}.
Implicit Types (pv nx : P → P) (l : list P) (p n x : P).

Definition hd_or n l : P := match l with [] => n | x :: _ => x end.
Definition last_or p l : P := default p (last l).

(** The nodes [l], in order; [p] is what the first node's [prev] holds and [n]
    what the last node's [next] holds. *)
Fixpoint dseg pv nx p l n : Prop :=
  match l with
  | [] => True
  | x :: l => pv x = p ∧ nx x = hd_or n l ∧ dseg pv nx x l n
  end.

(** A circular list through the anchor [h]. *)
Definition circ pv nx h l : Prop :=
  NoDup (h :: l) ∧ dseg pv nx (last_or h l) (h :: l) h.

(** A null-terminated list with its head and tail pointers. *)
Definition chain pv nx (null head tail : P) l : Prop :=
  NoDup (null :: l) ∧ head = hd_or null l ∧ tail = last_or null l ∧ dseg pv nx null l null.

Lemma last_or_cons p x l : last_or p (x :: l) = last_or x l.
Proof.
  unfold last_or. rewrite last_cons. by destruct (last l).
Qed.

Lemma last_or_app p l1 l2 : last_or p (l1 ++ l2) = last_or (last_or p l1) l2.
Proof. unfold last_or. rewrite last_app. by destruct (last l2). Qed.

Lemma last_or_snoc p l x : last_or p (l ++ [x]) = x.
Proof. by rewrite last_or_app. Qed.

Lemma last_or_in p l : l ≠ [] → last_or p l ∈ l.
Proof.
  destruct l as [|x l _] using rev_ind; [done|]. intros _.
  rewrite last_or_snoc. set_solver.
Qed.

Lemma hd_or_app n l1 l2 : hd_or n (l1 ++ l2) = hd_or (hd_or n l2) l1.
Proof. by destruct l1. Qed.

Lemma dseg_app pv nx p l1 l2 n :
  dseg pv nx p (l1 ++ l2) n ↔
  dseg pv nx p l1 (hd_or n l2) ∧ dseg pv nx (last_or p l1) l2 n.
Proof.
  revert p. induction l1 as [|x l1 IH]; intros p; [cbn; tauto|].
  cbn [app dseg]. rewrite IH, last_or_cons, hd_or_app. tauto.
Qed.

Lemma dseg_ext pv nx pv' nx' p l n :
  (∀ x, x ∈ l → pv' x = pv x ∧ nx' x = nx x) → dseg pv nx p l n → dseg pv' nx' p l n.
Proof.
  revert p. induction l as [|x l IH]; intros p Hext; [done|]. cbn.
  intros (Hp & Hn & Hl). destruct (Hext x) as [-> ->]; [set_solver|].
  split; [done|]. split; [done|]. apply IH; [set_solver|done].
Qed.

Lemma dseg_set_next pv nx p l x n n' :
  x ∉ l → dseg pv nx p (l ++ [x]) n → dseg pv (<[x:=n']> nx) p (l ++ [x]) n'.
Proof.
  intros Hx. rewrite !dseg_app. cbn. intros (Hl & Hp & Hn & _).
  rewrite fn_lookup_insert. split; [|done]. eapply dseg_ext, Hl.
  intros y Hy. rewrite fn_lookup_insert_ne by set_solver. done.
Qed.

Lemma dseg_set_prev pv nx p x l n p' :
  x ∉ l → dseg pv nx p (x :: l) n → dseg (<[x:=p']> pv) nx p' (x :: l) n.
Proof.
  intros Hx. cbn. intros (Hp & Hn & Hl). rewrite fn_lookup_insert.
  split; [done|]. split; [done|]. eapply dseg_ext, Hl.
  intros y Hy. rewrite fn_lookup_insert_ne by set_solver. done.
Qed.

Lemma dseg_frame_next pv nx p l n x v : x ∉ l → dseg pv nx p l n → dseg pv (<[x:=v]> nx) p l n.
Proof.
  intros Hx. apply dseg_ext. intros y Hy.
  rewrite fn_lookup_insert_ne by set_solver. done.
Qed.

Lemma dseg_frame_prev pv nx p l n x v : x ∉ l → dseg pv nx p l n → dseg (<[x:=v]> pv) nx p l n.
Proof.
  intros Hx. apply dseg_ext. intros y Hy.
  rewrite fn_lookup_insert_ne by set_solver. done.
Qed.

Lemma circ_head pv nx h l :
  circ pv nx h l → pv h = last_or h l ∧ nx h = hd_or h l.
Proof. intros (_ & Hp & Hn & _). done. Qed.

Lemma circ_frame pv nx pv' nx' h l :
  (∀ x, x ∈ h :: l → pv' x = pv x ∧ nx' x = nx x) → circ pv nx h l → circ pv' nx' h l.
Proof. intros Hext [Hnd Hl]. split; [done|]. by eapply dseg_ext. Qed.

(** A single anchor pointing to itself. *)
Lemma circ_init pv nx h : circ (<[h:=h]> pv) (<[h:=h]> nx) h [].
Proof.
  split; [apply NoDup_singleton|]. cbn. by rewrite !fn_lookup_insert.
Qed.

(** Linking a new node [x] after the anchor. *)
Lemma circ_push pv nx h l x :
  x ∉ h :: l → circ pv nx h l →
  let nx1 := <[x:=nx h]> nx in
  let pv1 := <[x:=h]> pv in
  circ (<[nx1 h:=x]> pv1) (<[h:=x]> nx1) h (x :: l).
Proof.
  intros Hx [Hnd Hl]. cbn zeta.
  assert (x ≠ h) by set_solver. apply NoDup_cons in Hnd as [Hhl Hnd].
  destruct Hl as (Hp & Hn & Hl). rewrite fn_lookup_insert_ne, Hn by done.
  split.
  { apply NoDup_cons; split; [set_solver|]. apply NoDup_cons; split; [set_solver|done]. }
  rewrite last_or_cons.
  destruct l as [|y l].
  - cbn in *. fn_simp. done.
  - apply NoDup_cons in Hnd as [Hyl Hnd].
    cbn [hd_or] in *. rewrite last_or_cons in *.
    change (h :: x :: y :: l) with ([h] ++ [x] ++ (y :: l)). rewrite !dseg_app.
    split; [|split].
    + cbn. assert (y ≠ h) by set_solver. fn_simp. done.
    + cbn. assert (y ≠ x) by set_solver. fn_simp. done.
    + cbn [last_or]. apply (dseg_set_prev _ _ h); [done|].
      apply dseg_frame_prev; [set_solver|]. apply dseg_frame_next; [set_solver|].
      by apply dseg_frame_next; [set_solver|].
Qed.

(** Unlinking a node. *)
Lemma circ_remove pv nx h l1 x l2 :
  circ pv nx h (l1 ++ x :: l2) →
  let nx1 := <[pv x:=nx x]> nx in
  circ (<[nx1 x:=pv x]> pv) nx1 h (l1 ++ l2).
Proof.
  intros [Hnd Hl]. cbn zeta.
  rewrite app_comm_cons in Hl. rewrite dseg_app in Hl.
  destruct Hl as [Hl1 (Hpx & Hnx & Hl2)]. rewrite Hpx. rewrite last_or_cons.
  assert (last_or h l1 ∈ h :: l1) as Ha.
  { destruct l1; [set_solver|]. right. by apply last_or_in. }
  assert ((x ∉ h :: l1 ++ l2) ∧ NoDup (h :: l1 ++ l2)) as [Hx Hnd'].
  { assert (h :: l1 ++ x :: l2 ≡ₚ x :: h :: l1 ++ l2) as Hperm
      by (by rewrite <- Permutation_middle, Permutation_swap).
    rewrite Hperm in Hnd. by apply NoDup_cons in Hnd. }
  rewrite fn_lookup_insert_ne, Hnx by set_solver.
  split; [done|]. rewrite app_comm_cons, dseg_app.
  set (a := last_or h l1) in *.
  assert (∃ l0, h :: l1 = l0 ++ [a]) as [l0 El].
  { destruct (exists_last (l := h :: l1)) as (l0 & a' & E); [done|]. exists l0.
    unfold a. by rewrite <- (last_or_cons h), E, last_or_snoc. }
  assert ((a ∉ l0) ∧ (∀ y, y ∈ l2 → y ∉ h :: l1) ∧ NoDup l2 ∧ (h ∉ l1)) as (Ha0 & Hdis & Hnd2 & Hh).
  { rewrite app_comm_cons in Hnd'. apply NoDup_app in Hnd' as (Hn1 & Hn2 & Hn3).
    split; [|split; [set_solver|split; [done|by apply NoDup_cons in Hn1 as [? _]]]].
    rewrite El in Hn1. apply NoDup_app in Hn1. set_solver. }
  assert (∀ p n n', dseg pv nx p (h :: l1) n → dseg pv (<[a:=n']> nx) p (h :: l1) n') as Hset.
  { intros p n n'. rewrite El. by apply dseg_set_next. }
  destruct l2 as [|c l2]; cbn [hd_or] in *.
  - rewrite app_nil_r. split; [|done].
    by eapply dseg_set_prev, Hset.
  - rewrite !last_or_app, !last_or_cons in *. split.
    + apply dseg_frame_prev; [set_solver|]. by eapply Hset.
    + apply NoDup_cons in Hnd2 as [Hc Hnd2].
      apply (dseg_set_prev _ _ x); [done|]. apply dseg_frame_next; [|done].
      intros Hin. by apply (Hdis a).
Qed.
Lemma chain_head_in pv nx null head tail l :
  chain pv nx null head tail l → l ≠ [] → head ∈ l ∧ tail ∈ l.
Proof.
  intros (_ & -> & -> & _) Hl. split; [destruct l; set_solver|by apply last_or_in].
Qed.

Lemma last_or_split p l : l ≠ [] → ∃ l0, l = l0 ++ [last_or p l].
Proof.
  intros Hl. destruct (exists_last Hl) as (l0 & a & ->). exists l0. by rewrite last_or_snoc.
Qed.

Lemma tail_without null A b B :
  A ≠ [] → b ∉ A ++ B →
  (if decide (last_or null (A ++ b :: B) = b) then last_or null A
   else last_or null (A ++ b :: B)) = last_or b (A ++ B).
Proof.
  intros HA Hb. rewrite !last_or_app, last_or_cons. destruct B as [|c B].
  - rewrite app_nil_r in Hb. change (last_or b []) with b. rewrite decide_True by done.
    cbn. destruct (last_or_split null A HA) as [A0 ->]. by rewrite !last_or_snoc.
  - rewrite !last_or_cons. destruct (last_or_split c (c :: B)) as [B0 E]; [done|].
    rewrite last_or_cons in E. rewrite decide_False; [done|]. intros Heq. apply Hb.
    apply elem_of_app. right. rewrite E, Heq. set_solver.
Qed.

(** The nodes before the unlinked one, once it has been linked before them. *)
Lemma chain_front_seg pv nx null head b a c A :
  NoDup A → b ∉ A → c ∉ A → head = hd_or null A → a = last_or null A → A ≠ [] →
  dseg pv nx null A b →
  dseg (<[head:=b]> (<[b:=null]> (<[c:=a]> pv))) (<[b:=head]> (<[a:=c]> nx)) b A c.
Proof.
  intros Hnd HbA HcA -> -> HA Hd.
  assert (dseg pv (<[last_or null A:=c]> nx) null A c) as Hd'.
  { destruct (last_or_split null A HA) as [A0 EA]. revert Hd.
    generalize (last_or null A) as a, EA. intros a -> Hd. 
    eapply dseg_set_next, Hd. apply NoDup_app in Hnd as (_ & Hn & _).
    intros Ha. apply (Hn a Ha). by left. }
  generalize dependent (last_or null A). intros a Hd'.
  destruct A as [|h A]; [done|]. apply NoDup_cons in Hnd as [Hh Hnd].
  apply (dseg_set_prev _ _ null); [done|].
  apply dseg_frame_prev; [done|]. apply dseg_frame_prev; [done|].
  by apply dseg_frame_next.
Qed.

(** Moving a node that is not the head to the front, as [move_if_no_ref] does. *)
Lemma chain_to_front pv nx null head tail A b B :
  A ≠ [] → chain pv nx null head tail (A ++ b :: B) →
  chain (<[head:=b]> (<[b:=null]> (<[nx b:=pv b]> pv))) (<[b:=head]> (<[pv b:=nx b]> nx))
    null b (if decide (tail = b) then pv b else tail) (b :: A ++ B).
Proof.
  intros HA (Hnd & Hhead & Htail & Hd).
  rewrite dseg_app in Hd. destruct Hd as (HdA & -> & -> & HdB).
  assert (b :: null :: A ++ B ≡ₚ null :: A ++ b :: B) as Hperm
    by (by rewrite <- Permutation_middle, Permutation_swap).
  rewrite <- Hperm in Hnd. clear Hperm.
  apply NoDup_cons in Hnd as [Hb Hnd]. apply NoDup_cons in Hnd as [H0 Hnd].
  apply not_elem_of_cons in Hb as [Hb0 Hb]. pose proof (not_elem_of_app A B b) as HbAB.
  apply HbAB in Hb as HbAB'. destruct HbAB' as [HbA HbB]. clear HbAB.
  apply not_elem_of_app in H0 as HnullAB. destruct HnullAB as [H0A H0B].
  assert (NoDup (b :: null :: A ++ B)) as Hnd'.
  { apply NoDup_cons. split; [by apply not_elem_of_cons|]. by apply NoDup_cons. }
  apply NoDup_app in Hnd as (HnA & Hdis & HnB).
  rewrite hd_or_app in Hhead. set (a := last_or null A) in *. set (c := hd_or null B) in *.
  destruct (last_or_split null A HA) as [A0 EA]. fold a in EA.
  assert (head ∈ A) as HhA by (rewrite Hhead; destruct A; [done|by left]).
  assert (a ∈ A) as HaA by (by apply last_or_in).
  assert (head ≠ b) as Hhb by (intros ->; done).
  assert (c ∉ A) as HcA.
  { unfold c. destruct B as [|c' B']; [done|]. intros Hc. apply (Hdis c' Hc). by left. }
  split; [by rewrite Permutation_swap|].
  split; [done|]. split; [rewrite last_or_cons, Htail; by apply tail_without|].
  cbn [dseg]. split; [by fn_simp|]. split; [fn_simp; rewrite hd_or_app; by destruct A|].
  rewrite dseg_app. split.
  - apply (chain_front_seg pv nx null head b a c A); try done. by destruct A.
  - assert (last_or b A = a) as ->.
    { unfold a. destruct A; [done|]. by rewrite !last_or_cons. }
    apply dseg_frame_prev; [by apply Hdis|]. apply dseg_frame_prev; [done|].
    apply dseg_frame_next; [done|]. apply dseg_frame_next; [by apply Hdis|].
    unfold c in *. destruct B as [|c' B]; [done|]. cbn.
    apply NoDup_cons in HnB as [? ?]. by apply (dseg_set_prev _ _ b).
Qed.
End dll.
