(* ===== verification/FreeList.v ===== *)
(** * Intrusive circular lists ([kernel/src/mm/list.rs])

    A [List] is a pair of raw pointers stored in the first bytes of the block
    it links; the anchor of a list has the same layout.  Memory is a total map
    from addresses to nodes.  [FreeLists] is what the buddy allocator relies
    on: a family of disjoint lists indexed by their anchors. *)
From S2P Require Import Prelude Dll.

Record node := { prev : Z; next : Z }.
Abbreviation memory := (Z → node).

Definition set_prev (a v : Z) (m : memory) : memory := <[a := {| prev := v; next := next (m a) |}]> m.
Definition set_next (a v : Z) (m : memory) : memory := <[a := {| prev := prev (m a); next := v |}]> m.

(** [ptr.as_mut().unwrap()] *)
Definition as_mut (a : Z) : M memory Z :=
  if a =? 0 then panic "called `Option::unwrap()` on a `None` value" else mret a.

Definition list_init (self : Z) : M memory unit :=
  modify (set_prev self self);;
  modify (set_next self self).

Definition list_is_empty (self : Z) (m : memory) : bool := next (m self) =? self.

Definition list_remove (self : Z) : M memory unit :=
  m ← get;
  modify (set_next (prev (m self)) (next (m self)));;
  m ← get;
  modify (set_prev (next (m self)) (prev (m self))).

Definition list_push (self raw_addr : Z) : M memory unit :=
  m ← get;
  put (<[raw_addr := {| prev := self; next := next (m self) |}]> m);;
  m ← get;
  n ← as_mut (next (m self));
  modify (set_prev n raw_addr);;
  modify (set_next self raw_addr).

Definition list_pop (self : Z) : M memory Z :=
  m ← get;
  if list_is_empty self m then panic "empty pop"
  else
    let raw_addr := next (m self) in
    n ← as_mut (next (m self));
    list_remove n;;
    mret raw_addr.

(** ** Interface *)
Class FreeLists (F : Type) := {
  fl_init : Z → M F unit;
  fl_is_empty : Z → F → bool;
  fl_push : Z → Z → M F unit;
  fl_pop : Z → M F Z;
  fl_remove : Z → M F unit;
  (** the lists of the family, by anchor *)
  fl_rep : F → gmap Z (list Z) → Prop;
}.

Definition fl_fresh (x : Z) (L : gmap Z (list Z)) : Prop :=
  x ≠ 0 ∧ ∀ h l, L !! h = Some l → x ∉ h :: l.

Class FreeListsLaws (F : Type) `{!FreeLists F} := {
  fl_init_ok f L h :
    fl_rep f L → fl_fresh h L →
    ∃ f', fl_init h f = Done (tt, f') ∧ fl_rep f' (<[h := []]> L);
  fl_is_empty_ok f L h l :
    fl_rep f L → L !! h = Some l → fl_is_empty h f = bool_decide (l = []);
  fl_push_ok f L h l x :
    fl_rep f L → L !! h = Some l → fl_fresh x L →
    ∃ f', fl_push h x f = Done (tt, f') ∧ fl_rep f' (<[h := x :: l]> L);
  fl_pop_ok f L h x l :
    fl_rep f L → L !! h = Some (x :: l) →
    ∃ f', fl_pop h f = Done (x, f') ∧ fl_rep f' (<[h := l]> L);
  fl_pop_empty f L h : fl_rep f L → L !! h = Some [] → panics (fl_pop h f);
  fl_remove_ok f L h l1 x l2 :
    fl_rep f L → L !! h = Some (l1 ++ x :: l2) →
    ∃ f', fl_remove x f = Done (tt, f') ∧ fl_rep f' (<[h := l1 ++ l2]> L);
  fl_rep_disjoint f L h1 h2 l1 l2 x :
    fl_rep f L → L !! h1 = Some l1 → L !! h2 = Some l2 → x ∈ l1 → x ∈ l2 → h1 = h2;
  fl_rep_nodup f L h l : fl_rep f L → L !! h = Some l → NoDup l;
}.

(** ** The implementation in memory *)
Definition pv (m : memory) : Z → Z := λ a, prev (m a).
Definition nx (m : memory) : Z → Z := λ a, next (m a).

Definition mem_rep (m : memory) (L : gmap Z (list Z)) : Prop :=
  (∀ h l, L !! h = Some l → circ (pv m) (nx m) h l ∧ (0 ∉ h :: l)) ∧
  (∀ h1 h2 l1 l2 x, L !! h1 = Some l1 → L !! h2 = Some l2 →
     x ∈ h1 :: l1 → x ∈ h2 :: l2 → h1 = h2).

#[export] Instance mem_lists : FreeLists memory := {
  fl_init := list_init;
  fl_is_empty := list_is_empty;
  fl_push := list_push;
  fl_pop := list_pop;
  fl_remove := list_remove;
  fl_rep := mem_rep;
}.

Lemma pv_set_next a v m x : pv (set_next a v m) x = pv m x.
Proof.
  unfold pv, set_next. destruct (decide (x = a)) as [->|]; fn_simp; done.
Qed.
Lemma nx_set_next a v m x : nx (set_next a v m) x = <[a:=v]> (nx m) x.
Proof. unfold nx, set_next. destruct (decide (x = a)) as [->|]; fn_simp; done. Qed.
Lemma pv_set_prev a v m x : pv (set_prev a v m) x = <[a:=v]> (pv m) x.
Proof. unfold pv, set_prev. destruct (decide (x = a)) as [->|]; fn_simp; done. Qed.
Lemma nx_set_prev a v m x : nx (set_prev a v m) x = nx m x.
Proof.
  unfold nx, set_prev. destruct (decide (x = a)) as [->|]; fn_simp; done.
Qed.
Create Rewrite HintDb dll.
#[export] Hint Rewrite pv_set_next nx_set_next pv_set_prev nx_set_prev : dll.

(** Replacing one list of the family, given that only its nodes (and the node
    [x], free before) were written. *)
Lemma mem_rep_update m m' L h l l' x :
  mem_rep m L → L !! h = Some l →
  circ (pv m') (nx m') h l' → (0 ∉ l') →
  (∀ y, y ∈ l' → y ∈ l ∨ fl_fresh y L) →
  (∀ y, y ∉ h :: l → y ≠ x → pv m' y = pv m y ∧ nx m' y = nx m y) →
  (x ∈ h :: l ∨ fl_fresh x L) →
  mem_rep m' (<[h := l']> L).
Proof.
  intros [Hc Hd] Hl Hc' H0 Hin Hout Hx. split.
  - intros h2 l2. destruct (decide (h = h2)) as [<-|Hne].
    + rewrite lookup_insert_eq. intros [= <-]. split; [done|].
      destruct (Hc h l Hl) as [_ ?]. set_solver.
    + rewrite lookup_insert_ne by done. intros Hl2. destruct (Hc h2 l2 Hl2) as [Hcc ?].
      split; [|done]. eapply circ_frame, Hcc. intros y Hy. apply Hout.
      * intros Hy'. apply Hne. by apply (Hd h h2 l l2 y).
      * intros ->. destruct Hx as [Hx|[_ Hx]]; [apply Hne; by apply (Hd h h2 l l2 x)|].
        by apply (Hx h2 l2).
  - assert (∀ h2 l2 y, L !! h2 = Some l2 → h ≠ h2 → y ∈ h :: l' → y ∈ h2 :: l2 → False) as Haux.
    { intros h2 l2 y Hl2 Hne Hy Hy2. apply elem_of_cons in Hy as [->|Hy].
      - apply Hne, (Hd h h2 l l2 h); set_solver.
      - destruct (Hin y Hy) as [?|[_ Hf]]; [|by apply (Hf h2 l2)].
        apply Hne, (Hd h h2 l l2 y); set_solver. }
    intros h1 h2 l1 l2 y. destruct (decide (h = h1)) as [<-|], (decide (h = h2)) as [<-|];
      rewrite ?lookup_insert_eq, ?lookup_insert_ne by done; [done|..].
    + intros [= <-] ? ? ?. exfalso. by eapply Haux.
    + intros ? [= <-] ? ?. exfalso. by eapply Haux.
    + intros. by eapply Hd.
Qed.

Lemma list_init_ok m L h :
  mem_rep m L → fl_fresh h L →
  ∃ m', list_init h m = Done (tt, m') ∧ mem_rep m' (<[h := []]> L).
Proof.
  intros [Hc Hd] [H0 Hf]. eexists. split; [reflexivity|]. split.
  - intros h2 l2. destruct (decide (h = h2)) as [<-|].
    + rewrite lookup_insert_eq. intros [= <-]. split; [|set_solver].
      apply (circ_frame (<[h:=h]> (pv m)) (<[h:=h]> (nx m))); [|apply circ_init].
      intros x _. autorewrite with dll. split; [|].
      * done.
      * destruct (decide (x = h)) as [->|]; fn_simp; [done|]. by autorewrite with dll.
    + rewrite lookup_insert_ne by done. intros Hl2. destruct (Hc h2 l2 Hl2). split; [|done].
      eapply circ_frame; [|done]. intros x Hx. autorewrite with dll.
      assert (x ≠ h) by (intros ->; by apply (Hf h2 l2)). fn_simp.
      autorewrite with dll. fn_simp. done.
  - intros h1 h2 l1 l2 x.
    destruct (decide (h = h1)) as [<-|], (decide (h = h2)) as [<-|];
      rewrite ?lookup_insert_eq, ?lookup_insert_ne by done; [done|..].
    + intros [= <-] Hl2 ?%list_elem_of_singleton ?. subst. by destruct (Hf h2 l2).
    + intros Hl1 [= <-] ? ?%list_elem_of_singleton. subst. by destruct (Hf h1 l1).
    + intros. by eapply Hd.
Qed.

Lemma list_is_empty_ok m L h l :
  mem_rep m L → L !! h = Some l → list_is_empty h m = bool_decide (l = []).
Proof.
  intros [Hc _] Hl. destruct (Hc h l Hl) as [Hcirc _].
  apply circ_head in Hcirc as Hh. destruct Hh as [_ Hn].
  unfold list_is_empty. change (next (m h)) with (nx m h). rewrite Hn.
  destruct l as [|x l]; cbn; [by rewrite Z.eqb_refl|].
  destruct Hcirc as [Hnd _]. rewrite (proj2 (Z.eqb_neq _ _)); [done|].
  intros ->. apply NoDup_cons in Hnd. set_solver.
Qed.

Lemma list_remove_ok m L h l1 x l2 :
  mem_rep m L → L !! h = Some (l1 ++ x :: l2) →
  ∃ m', list_remove x m = Done (tt, m') ∧ mem_rep m' (<[h := l1 ++ l2]> L).
Proof.
  intros Hrep Hl. pose proof Hrep as [Hc _]. destruct (Hc h _ Hl) as [Hcirc H0].
  unfold list_remove. run_simpl. eexists. split; [reflexivity|].
  pose proof (circ_remove _ _ _ _ _ _ Hcirc) as Hrm. cbn zeta in Hrm.
  assert (x ≠ pv m x) as Hpx.
  { destruct Hcirc as [Hnd Hd]. rewrite app_comm_cons, dseg_app in Hd.
    destruct Hd as (_ & -> & _). rewrite last_or_cons. intros Hx.
    apply NoDup_cons in Hnd as [Hh Hnd]. apply NoDup_app in Hnd as (_ & Hnd & _).
    destruct l1 as [|y l1]; [cbn in Hx; set_solver|].
    apply (Hnd x); [|set_solver]. rewrite Hx. by apply last_or_in. }
  set (m' := set_prev _ _ _).
  assert (∀ y, pv m' y = <[(<[pv m x:=nx m x]> (nx m)) x:=pv m x]> (pv m) y ∧
    nx m' y = <[pv m x:=nx m x]> (nx m) y) as Hm'.
  { intros y. unfold m'. rewrite nx_set_prev, nx_set_next, pv_set_prev. split; [|done].
    change (next (set_next (prev (m x)) (next (m x)) m x)) with
      (nx (set_next (pv m x) (nx m x) m) x).
    change (prev (set_next (prev (m x)) (next (m x)) m x)) with
      (pv (set_next (pv m x) (nx m x) m) x).
    rewrite nx_set_next, pv_set_next.
    set (k := <[pv m x:=nx m x]> (nx m) x).
    destruct (decide (y = k)) as [->|]; fn_simp; [done|]. apply pv_set_next. }
  apply (mem_rep_update m m' L h (l1 ++ x :: l2) (l1 ++ l2) x Hrep Hl).
  - eapply circ_frame, Hrm. intros y _. apply Hm'.
  - set_solver.
  - intros y Hy. left. set_solver.
  - intros y Hy Hyx. destruct (Hm' y) as [-> ->].
    destruct Hcirc as [Hnd Hd]. rewrite app_comm_cons, dseg_app in Hd.
    destruct Hd as (_ & Hp & Hn & _).
    assert (pv m x ∈ h :: l1).
    { rewrite Hp, last_or_cons. destruct l1; [set_solver|]. right. by apply last_or_in. }
    assert (nx m x ∈ h :: l2) by (rewrite Hn; destruct l2; set_solver).
    rewrite (fn_lookup_insert_ne (nx m) (pv m x) x _) by done.
    assert (y ≠ pv m x) by (intros ->; apply Hy; set_solver).
    assert (y ≠ nx m x) by (intros ->; apply Hy; set_solver). fn_simp. done.
  - left. set_solver.
Qed.

Lemma list_push_ok m L h l x :
  mem_rep m L → L !! h = Some l → fl_fresh x L →
  ∃ m', list_push h x m = Done (tt, m') ∧ mem_rep m' (<[h := x :: l]> L).
Proof.
  intros Hrep Hl [Hx0 Hx]. pose proof Hrep as [Hc _]. destruct (Hc h _ Hl) as [Hcirc H0].
  assert (x ∉ h :: l) as Hxl by (by apply Hx).
  pose proof (circ_push _ _ _ _ _ Hxl Hcirc) as Hpush. cbn zeta in Hpush.
  destruct (circ_head _ _ _ _ Hcirc) as [_ Hnh].
  assert (nx m h ∈ h :: l) as Hnin by (rewrite Hnh; destruct l; set_solver).
  unfold list_push, as_mut. run_simpl.
  assert (x ≠ h) as Hxh by (intros ->; apply Hxl; by left).
  rewrite fn_lookup_insert_ne by done.
  change (next (m h)) with (nx m h).
  rewrite (proj2 (Z.eqb_neq (nx m h) 0)) by (intros E; by rewrite E in Hnin).
  eexists. split; [reflexivity|]. set (m1 := <[x:=_]> m).
  assert (∀ y, pv m1 y = <[x:=h]> (pv m) y ∧ nx m1 y = <[x:=nx m h]> (nx m) y) as Hm1.
  { intros y. unfold m1, pv, nx. destruct (decide (y = x)) as [->|]; fn_simp; done. }
  set (m' := set_next h x _).
  assert (∀ y, pv m' y = <[(<[x:=nx m h]> (nx m)) h:=x]> (<[x:=h]> (pv m)) y ∧
    nx m' y = <[h:=x]> (<[x:=nx m h]> (nx m)) y) as Hm'.
  { intros y. unfold m'. rewrite pv_set_next, nx_set_next, pv_set_prev.
    rewrite (fn_lookup_insert_ne (nx m) x h _) by done.
    split.
    - destruct (decide (y = nx m h)) as [->|]; fn_simp; [done|]. apply Hm1.
    - destruct (decide (y = h)) as [->|]; fn_simp; [done|].
      rewrite nx_set_prev. apply Hm1. }
  apply (mem_rep_update m m' L h l (x :: l) x Hrep Hl).
  - eapply circ_frame, Hpush. intros y _. apply Hm'.
  - set_solver.
  - intros y [->|Hy]%elem_of_cons; [by right|by left].
  - intros y Hy Hyx. destruct (Hm' y) as [-> ->].
    rewrite (fn_lookup_insert_ne (nx m) x h _) by done.
    assert (y ≠ h) by (intros ->; apply Hy; by left).
    assert (y ≠ nx m h) by (intros ->; by apply Hy). fn_simp. done.
  - by right.
Qed.

Lemma list_pop_ok m L h x l :
  mem_rep m L → L !! h = Some (x :: l) →
  ∃ m', list_pop h m = Done (x, m') ∧ mem_rep m' (<[h := l]> L).
Proof.
  intros Hrep Hl. pose proof Hrep as [Hc _]. destruct (Hc h _ Hl) as [Hcirc H0].
  destruct (circ_head _ _ _ _ Hcirc) as [_ Hn].
  destruct (list_remove_ok m L h [] x l Hrep Hl) as (m' & Hm' & Hrep').
  exists m'. split; [|done]. unfold list_pop, as_mut. run_simpl.
  rewrite (list_is_empty_ok m L h (x :: l) Hrep Hl), bool_decide_false by done.
  change (next (m h)) with (nx m h). rewrite Hn. cbn [hd_or].
  rewrite (proj2 (Z.eqb_neq x 0)) by set_solver. by rewrite Hm'.
Qed.

Lemma list_pop_empty m L h : mem_rep m L → L !! h = Some [] → panics (list_pop h m).
Proof.
  intros Hrep Hl. unfold list_pop. run_simpl.
  rewrite (list_is_empty_ok m L h [] Hrep Hl). by eexists.
Qed.

#[export] Instance mem_lists_laws : FreeListsLaws memory.
Proof.
  split; cbn [fl_init fl_is_empty fl_push fl_pop fl_remove fl_rep mem_lists];
    eauto using list_init_ok, list_is_empty_ok, list_push_ok, list_pop_ok, list_pop_empty,
      list_remove_ok.
  - intros m L h1 h2 l1 l2 x [_ Hd] ????. eapply (Hd h1 h2 l1 l2 x); set_solver.
  - intros m L h l [Hc _] Hl. destruct (Hc h l Hl) as [[Hnd _] _].
    by apply NoDup_cons in Hnd as [_ ?].
Qed.

(** The intrusive list: on a memory that represents a family of disjoint
    circular lists, [init] adds an empty one, [is_empty] tests emptiness, [push]
    and [pop] work at the front, [remove] unlinks a node wherever it is, every
    other list of the family is left as it was, and popping an empty list
    panics. *)
Theorem intrusive_list_refines m L :
  mem_rep m L →
  (∀ h, fl_fresh h L → ∃ m', list_init h m = Done (tt, m') ∧ mem_rep m' (<[h := []]> L)) ∧
  (∀ h l, L !! h = Some l →
     list_is_empty h m = bool_decide (l = []) ∧
     (∀ x, fl_fresh x L →
        ∃ m', list_push h x m = Done (tt, m') ∧ mem_rep m' (<[h := x :: l]> L)) ∧
     match l with
     | [] => panics (list_pop h m)
     | x :: l' => ∃ m', list_pop h m = Done (x, m') ∧ mem_rep m' (<[h := l']> L)
     end ∧
     (∀ l1 x l2, l = l1 ++ x :: l2 →
        ∃ m', list_remove x m = Done (tt, m') ∧ mem_rep m' (<[h := l1 ++ l2]> L))).
Proof.
  intros Hrep. split; [eauto using list_init_ok|]. intros h l Hl.
  split; [by eapply list_is_empty_ok|]. split; [eauto using list_push_ok|]. split.
  - destruct l; [by eapply list_pop_empty|by eapply list_pop_ok].
  - intros l1 x l2 ->. by eapply list_remove_ok.
Qed.

(** Two lists in one memory: the anchors are at 16 and 32. *)
Example intrusive_list_refines_witness :
  ∃ m, mem_rep m {[16 := [64; 48]; 32 := []]} ∧
    (∃ m', list_remove 48 m = Done (tt, m') ∧
       mem_rep m' (<[16 := [64]]> {[16 := [64; 48]; 32 := []]})) ∧
    panics (list_pop 32 m).
Proof.
  set (m0 := λ _ : Z, {| prev := 0; next := 0 |}).
  assert (mem_rep m0 ∅) as R0 by (split; intros ??; rewrite lookup_empty; done).
  assert (fl_fresh 16 ∅) as F1 by (split; [done|]; intros ??; rewrite lookup_empty; done).
  destruct (list_init_ok m0 ∅ 16 R0 F1) as (m1 & _ & R1).
  assert (fl_fresh 32 (<[16 := []]> ∅)) as F2.
  { split; [done|]. intros h l. rewrite lookup_insert. case_decide; set_solver. }
  destruct (list_init_ok m1 _ 32 R1 F2) as (m2 & _ & R2).
  assert (fl_fresh 48 (<[32 := []]> (<[16 := []]> ∅))) as F3.
  { split; [done|]. intros h l. rewrite !lookup_insert. repeat case_decide; set_solver. }
  destruct (list_push_ok m2 _ 16 [] 48 R2 eq_refl F3) as (m3 & _ & R3).
  assert (fl_fresh 64 (<[16 := [48]]> (<[32 := []]> (<[16 := []]> ∅)))) as F4.
  { split; [done|]. intros h l. rewrite !lookup_insert. repeat case_decide; set_solver. }
  destruct (list_push_ok m3 _ 16 [48] 64 R3 eq_refl F4) as (m4 & _ & R4).
  assert (<[16 := [64; 48]]> (<[16 := [48]]> (<[32 := []]> (<[16 := []]> ∅))) =
    ({[16 := [64; 48]; 32 := []]} : gmap Z (list Z))) as E by (vm_compute; reflexivity).
  rewrite E in R4. exists m4. split; [done|].
  destruct (intrusive_list_refines m4 _ R4) as [_ H]. split.
  - destruct (H 16 [64; 48] eq_refl) as (_ & _ & _ & Hr). by apply (Hr [64] 48 []).
  - by destruct (H 32 [] eq_refl) as (_ & _ & Hp & _).
Defined.
