(* ===== verification/BlockCache.v ===== *)
(** * What the file system relies on below it

    [BlockDev] is the disk behind [DISK.rw]: reading a block returns what was
    last written to it.  [BlockCache] is the promise the buffer cache of
    [fs/bio.rs] makes to the log and the layers above: [bread] returns the
    logical contents of a block, [bwrite] makes them durable, a block stays
    cached while it is referenced.  [Bio.v] discharges it. *)
From S2P Require Import Prelude Consts Bytes.

Abbreviation block := (list Z).
Definition zero_block : block := replicate (Z.to_nat BSIZE) 0.
Definition is_block (b : block) : Prop := length b = Z.to_nat BSIZE ∧ Forall is_byte b.

Class BlockDev (D : Type) := {
  dev_read : D → Z → block;
  dev_write : Z → block → D → D;
}.
Class BlockDevLaws (D : Type) `{!BlockDev D} := {
  dev_read_write_eq d b x : dev_read (dev_write b x d) b = x;
  dev_read_write_ne d b b' x : b ≠ b' → dev_read (dev_write b x d) b' = dev_read d b';
}.

(** Every block of the device is a block. *)
Definition dev_blocks {D} `{BlockDev D} (d : D) : Prop := ∀ b, is_block (dev_read d b).

(** A disk as a map from block numbers, for running the definitions. *)
#[export] Instance map_disk : BlockDev (Z → block) | 100 := {
  dev_read d b := d b;
  dev_write b x d := <[b := x]> d;
}.
#[export] Instance map_disk_laws : BlockDevLaws (Z → block) | 100.
Proof.
  split; cbn.
  - intros. apply fn_lookup_insert.
  - intros. by apply fn_lookup_insert_ne.
Qed.

(** Operations of the cache on one device.  A buffer handle is named by its
    block number: the cache never has two live handles for one block. *)
Class BlockCache (C : Type) := {
  bread : Z → M C block;               (* Bcache::bread *)
  bset : Z → block → M C unit;         (* a store through raw_data_mut *)
  bwrite : Z → M C unit;               (* Buf::bwrite *)
  bpin : Z → M C unit;                 (* Buf::pin *)
  bunpin : Z → M C unit;               (* Buf::unpin *)
  bdrop : Z → M C unit;                (* Drop for Buf *)
  (** what a [bread] would return *)
  mem : C → Z → block;
  (** what the disk holds *)
  dsk : C → Z → block;
  (** the number of live handles and pins of a block *)
  refs : C → Z → Z;
  (** the referenced blocks *)
  busy : C → gset Z;
  cache_ok : C → Prop;
  (** the disk writes so far, oldest first *)
  writes : C → list (Z * block);
}.

(** A block may be evicted without loss when the disk has its contents. *)
Definition clean {C} `{BlockCache C} (c : C) (b : Z) : Prop := mem c b = dsk c b.

Definition apply_writes (w : list (Z * block)) (d : Z → block) : Z → block :=
  foldl (λ d '(b, x), <[b := x]> d) d w.

Class BlockCacheLaws (C : Type) `{!BlockCache C} := {
  busy_refs c b : cache_ok c → b ∈ busy c ↔ 0 < refs c b;
  refs_nonneg c b : cache_ok c → 0 ≤ refs c b;
  mem_block c b : cache_ok c → is_block (mem c b);
  dsk_block c b : cache_ok c → is_block (dsk c b);
  bread_ok c b :
    cache_ok c → b ∈ busy c ∨ (size (busy c) < NBUF)%nat → refs c b < 2 ^ 64 - 1 →
    ∃ c', bread b c = Done (mem c b, c') ∧ cache_ok c' ∧
      (∀ b', refs c' b' = if decide (b = b') then refs c b + 1 else refs c b') ∧
      (∀ b', dsk c' b' = dsk c b') ∧ writes c' = writes c ∧
      mem c' b = mem c b ∧
      (∀ b', b' ∈ busy c ∨ clean c b' → mem c' b' = mem c b');
  bset_ok c b x :
    cache_ok c → b ∈ busy c → is_block x →
    ∃ c', bset b x c = Done (tt, c') ∧ cache_ok c' ∧
      (∀ b', refs c' b' = refs c b') ∧ (∀ b', dsk c' b' = dsk c b') ∧ writes c' = writes c ∧
      (∀ b', mem c' b' = if decide (b = b') then x else mem c b');
  bwrite_ok c b :
    cache_ok c → b ∈ busy c →
    ∃ c', bwrite b c = Done (tt, c') ∧ cache_ok c' ∧
      (∀ b', refs c' b' = refs c b') ∧ (∀ b', mem c' b' = mem c b') ∧
      writes c' = writes c ++ [(b, mem c b)] ∧
      (∀ b', dsk c' b' = if decide (b = b') then mem c b else dsk c b');
  bpin_ok c b :
    cache_ok c → b ∈ busy c → refs c b < 2 ^ 64 - 1 →
    ∃ c', bpin b c = Done (tt, c') ∧ cache_ok c' ∧
      (∀ b', refs c' b' = if decide (b = b') then refs c b + 1 else refs c b') ∧
      (∀ b', dsk c' b' = dsk c b') ∧ writes c' = writes c ∧ (∀ b', mem c' b' = mem c b');
  bunpin_ok c b :
    cache_ok c → 1 < refs c b →
    ∃ c', bunpin b c = Done (tt, c') ∧ cache_ok c' ∧
      (∀ b', refs c' b' = if decide (b = b') then refs c b - 1 else refs c b') ∧
      (∀ b', dsk c' b' = dsk c b') ∧ writes c' = writes c ∧ (∀ b', mem c' b' = mem c b');
  bdrop_ok c b :
    cache_ok c → b ∈ busy c →
    ∃ c', bdrop b c = Done (tt, c') ∧ cache_ok c' ∧
      (∀ b', refs c' b' = if decide (b = b') then refs c b - 1 else refs c b') ∧
      (∀ b', dsk c' b' = dsk c b') ∧ writes c' = writes c ∧ (∀ b', mem c' b' = mem c b');
}.

Lemma apply_writes_app w1 w2 d : apply_writes (w1 ++ w2) d = apply_writes w2 (apply_writes w1 d).
Proof. apply foldl_app. Qed.

Lemma apply_writes_cons b x w d : apply_writes ((b, x) :: w) d = apply_writes w (<[b := x]> d).
Proof. done. Qed.

Lemma apply_writes_snoc w b x d : apply_writes (w ++ [(b, x)]) d = <[b := x]> (apply_writes w d).
Proof. by rewrite apply_writes_app. Qed.

Lemma apply_writes_out w d b : b ∉ w.*1 → apply_writes w d b = d b.
Proof.
  revert d. induction w as [|[b' x] w IH]; intros d Hb; [done|].
  rewrite apply_writes_cons. apply not_elem_of_cons in Hb as [Hb Hw]. rewrite IH by done. by rewrite fn_lookup_insert_ne.
Qed.

Lemma apply_writes_in w d b x : NoDup w.*1 → (b, x) ∈ w → apply_writes w d b = x.
Proof.
  revert d. induction w as [|[b' y] w IH]; intros d Hnd Hin; [by apply elem_of_nil in Hin|].
  rewrite apply_writes_cons. apply NoDup_cons in Hnd as [Hb Hnd]. apply elem_of_cons in Hin as [[= -> ->]|Hin].
  - rewrite apply_writes_out by done. apply fn_lookup_insert.
  - by apply IH.
Qed.

Lemma apply_writes_ext w d d' b : d b = d' b → apply_writes w d b = apply_writes w d' b.
Proof.
  revert d d'. induction w as [|[b' y] w IH]; intros d d' E; [done|].
  rewrite !apply_writes_cons. apply IH.
  destruct (decide (b' = b)) as [->|]; [by rewrite !fn_lookup_insert|by rewrite !fn_lookup_insert_ne].
Qed.

(** ** The abstract cache

    A client of the cache sees memory contents, disk contents and its own
    references.  It may store to and write blocks it references, must not hold
    more than [NBUF] distinct blocks, and lets the last reference of a block go
    only when the block is clean; then every [bread] returns the last store. *)
Inductive bop := Read (b : Z) | Store (b : Z) (x : block) | Write (b : Z)
  | Pin (b : Z) | Unpin (b : Z) | Release (b : Z).

Record absc := { a_mem : Z → block; a_dsk : Z → block; a_refs : gmap Z Z;
  a_writes : list (Z * block) }.
Definition a_ref (a : absc) (b : Z) : Z := default 0 (a_refs a !! b).

Definition set_ref (a : absc) (b r : Z) : absc :=
  {| a_mem := a_mem a; a_dsk := a_dsk a;
     a_refs := if r =? 0 then delete b (a_refs a) else <[b := r]> (a_refs a);
     a_writes := a_writes a |}.
Definition set_mem (a : absc) (b : Z) (x : block) : absc :=
  {| a_mem := <[b := x]> (a_mem a); a_dsk := a_dsk a; a_refs := a_refs a; a_writes := a_writes a |}.
Definition set_dsk (a : absc) (b : Z) (x : block) : absc :=
  {| a_mem := a_mem a; a_dsk := <[b := x]> (a_dsk a); a_refs := a_refs a;
     a_writes := a_writes a ++ [(b, x)] |}.

Definition astep (o : bop) (a : absc) : option (option block * absc) :=
  match o with
  | Read b =>
      if (bool_decide (b ∈ dom (a_refs a)) || (size (dom (a_refs a)) <? NBUF)%nat)
         && (a_ref a b <? 2 ^ 64 - 1)
      then Some (Some (a_mem a b), set_ref a b (a_ref a b + 1)) else None
  | Store b x =>
      if bool_decide (b ∈ dom (a_refs a)) && bool_decide (is_block x)
      then Some (None, set_mem a b x)
      else None
  | Write b =>
      if bool_decide (b ∈ dom (a_refs a))
      then Some (None, set_dsk a b (a_mem a b))
      else None
  | Pin b =>
      if bool_decide (b ∈ dom (a_refs a)) && (a_ref a b <? 2 ^ 64 - 1)
      then Some (None, set_ref a b (a_ref a b + 1)) else None
  | Unpin b =>
      if 1 <? a_ref a b then Some (None, set_ref a b (a_ref a b - 1)) else None
  | Release b =>
      if bool_decide (b ∈ dom (a_refs a)) &&
         ((1 <? a_ref a b) || bool_decide (a_mem a b = a_dsk a b))
      then Some (None, set_ref a b (a_ref a b - 1)) else None
  end.

Definition cstep {C} `{BlockCache C} (o : bop) : M C (option block) :=
  match o with
  | Read b => x ← bread b; mret (Some x)
  | Store b x => bset b x;; mret None
  | Write b => bwrite b;; mret None
  | Pin b => bpin b;; mret None
  | Unpin b => bunpin b;; mret None
  | Release b => bdrop b;; mret None
  end.

Fixpoint arun (os : list bop) (a : absc) : option (list (option block) * absc) :=
  match os with
  | [] => Some ([], a)
  | o :: os =>
      '(r, a1) ← astep o a; '(rs, a2) ← arun os a1; Some (r :: rs, a2)
  end.
Fixpoint crun {C} `{BlockCache C} (os : list bop) : M C (list (option block)) :=
  match os with
  | [] => mret []
  | o :: os => r ← cstep o; rs ← crun os; mret (r :: rs)
  end.

#[export] Instance is_byte_dec x : Decision (is_byte x).
Proof. unfold is_byte. apply _. Defined.
#[export] Instance is_block_dec b : Decision (is_block b).
Proof. unfold is_block. apply _. Defined.

Section refine.
Context {C : Type} `{!BlockCache C} `{!BlockCacheLaws C}.

Record arel (c : C) (a : absc) : Prop := {
  ar_ok : cache_ok c;
  ar_mem : ∀ b, mem c b = a_mem a b;
  ar_dsk : ∀ b, dsk c b = a_dsk a b;
  ar_refs : ∀ b, refs c b = a_ref a b;
  ar_writes : writes c = a_writes a;
  ar_pos : ∀ b r, a_refs a !! b = Some r → 0 < r;
  ar_clean : ∀ b, a_refs a !! b = None → a_mem a b = a_dsk a b;
}.

Lemma ar_busy c a b : arel c a → b ∈ busy c ↔ b ∈ dom (a_refs a).
Proof.
  intros [Hok _ _ Hr _ Hp _]. rewrite busy_refs by done. rewrite Hr, elem_of_dom. unfold a_ref.
  destruct (a_refs a !! b) as [r|] eqn:E; cbn; [|by split; [lia|intros []]].
  split; [by eexists|]. intros _. by eapply Hp.
Qed.

Lemma ar_size c a : arel c a → size (busy c) = size (dom (a_refs a)).
Proof. intros H. f_equal. apply leibniz_equiv. intros b. by apply ar_busy. Qed.

Lemma a_ref_set a b r b' :
  a_ref (set_ref a b r) b' = if decide (b = b') then r else a_ref a b'.
Proof.
  unfold a_ref, set_ref. cbn. destruct (Z.eqb_spec r 0) as [->|].
  - destruct (decide (b = b')) as [<-|]; [by rewrite lookup_delete_eq|by rewrite lookup_delete_ne].
  - destruct (decide (b = b')) as [<-|]; [by rewrite lookup_insert_eq|by rewrite lookup_insert_ne].
Qed.

Lemma arel_set_ref c c' a b r :
  arel c a → cache_ok c' → (∀ b', refs c' b' = if decide (b = b') then r else refs c b') →
  (∀ b', dsk c' b' = dsk c b') → writes c' = writes c → (∀ b', mem c' b' = mem c b') → 0 ≤ r →
  (r = 0 → a_mem a b = a_dsk a b) → arel c' (set_ref a b r).
Proof.
  intros [Hok Hm Hd Hr Hw Hp Hc] Hok' Hr' Hd' Hw' Hm' Hr0 Hcl. split; try done.
  - intros b'. by rewrite Hm', Hm.
  - intros b'. by rewrite Hd', Hd.
  - intros b'. by rewrite Hr', a_ref_set, Hr.
  - by rewrite Hw'.
  - intros b' r'. unfold set_ref. cbn. destruct (Z.eqb_spec r 0).
    + intros [_ E]%lookup_delete_Some. by eapply Hp.
    + destruct (decide (b = b')) as [<-|].
      * rewrite lookup_insert_eq. intros [= <-]. lia.
      * rewrite lookup_insert_ne by done. apply Hp.
  - intros b'. unfold set_ref. cbn. destruct (Z.eqb_spec r 0).
    + destruct (decide (b = b')) as [<-|]; [auto|]. rewrite lookup_delete_ne by done. apply Hc.
    + destruct (decide (b = b')) as [<-|]; [by rewrite lookup_insert_eq|].
      rewrite lookup_insert_ne by done. apply Hc.
Qed.

Lemma a_ref_busy c a b : arel c a → b ∈ dom (a_refs a) → 0 < a_ref a b.
Proof. intros H Hb. rewrite <- (ar_refs _ _ H), <- busy_refs; [by eapply ar_busy|apply H]. Qed.

Lemma arel_dom c a b : arel c a → b ∈ dom (a_refs a) ↔ 0 < a_ref a b.
Proof.
  intros HR. split; [by eapply a_ref_busy|]. unfold a_ref. rewrite elem_of_dom.
  destruct (a_refs a !! b); [by eexists|cbn; lia].
Qed.

Lemma a_ref_set_mem a b x b' : a_ref (set_mem a b x) b' = a_ref a b'.
Proof. done. Qed.
Lemma a_ref_set_dsk a b x b' : a_ref (set_dsk a b x) b' = a_ref a b'.
Proof. done. Qed.
Lemma a_mem_set_ref a b r b' : a_mem (set_ref a b r) b' = a_mem a b'.
Proof. done. Qed.
Lemma a_mem_set_dsk a b x b' : a_mem (set_dsk a b x) b' = a_mem a b'.
Proof. done. Qed.
Lemma a_mem_set_mem a b x b' : a_mem (set_mem a b x) b' = if decide (b = b') then x else a_mem a b'.
Proof.
  cbn. destruct (decide (b = b')) as [<-|]; [apply fn_lookup_insert|by apply fn_lookup_insert_ne].
Qed.
Lemma a_dsk_set_ref a b r b' : a_dsk (set_ref a b r) b' = a_dsk a b'.
Proof. done. Qed.
Lemma a_dsk_set_mem a b x b' : a_dsk (set_mem a b x) b' = a_dsk a b'.
Proof. done. Qed.
Lemma a_dsk_set_dsk a b x b' : a_dsk (set_dsk a b x) b' = if decide (b = b') then x else a_dsk a b'.
Proof.
  cbn. destruct (decide (b = b')) as [<-|]; [apply fn_lookup_insert|by apply fn_lookup_insert_ne].
Qed.

(** One operation, on the abstract state. *)
Definition has_room (a : absc) (b : Z) : Prop :=
  0 < a_ref a b ∨ (size (dom (a_refs a)) < NBUF)%nat.

Lemma s_bread c a b :
  arel c a → has_room a b → a_ref a b < 2 ^ 64 - 1 →
  ∃ c', bread b c = Done (a_mem a b, c') ∧ arel c' (set_ref a b (a_ref a b + 1)).
Proof.
  intros HR Hb H64. pose proof HR as [Hok Hm Hd Hr Hw Hp Hc].
  destruct (bread_ok c b Hok) as (c' & E & Hok' & Hr' & Hd' & Hw' & Hmb & Hm').
  { destruct Hb as [Hb|Hb]; [left|right; by rewrite (ar_size _ _ HR)].
    by apply (ar_busy _ _ _ HR), (arel_dom _ _ _ HR). }
  { by rewrite Hr. }
  exists c'. rewrite <- Hm. split; [done|].
  rewrite Hr in Hr'. assert (0 ≤ a_ref a b) by (rewrite <- Hr; by apply refs_nonneg).
  eapply (arel_set_ref c); try done; [|lia|lia].
  intros b'. destruct (decide (b' ∈ dom (a_refs a))) as [Hb'|Hb'].
  - apply Hm'. left. by eapply ar_busy.
  - apply Hm'. right. unfold clean. rewrite Hm, Hd. apply Hc. by apply not_elem_of_dom.
Qed.

Lemma s_bset c a b x :
  arel c a → 0 < a_ref a b → is_block x →
  ∃ c', bset b x c = Done (tt, c') ∧ arel c' (set_mem a b x).
Proof.
  intros HR Hpos Hx. pose proof (proj2 (arel_dom _ _ _ HR) Hpos) as Hb. pose proof HR as [Hok Hm Hd Hr Hw Hp Hc].
  destruct (bset_ok c b x Hok) as (c' & E & Hok' & Hr' & Hd' & Hw' & Hm'); [by eapply ar_busy|done|].
  exists c'. split; [done|]. split; cbn; try done.
  - intros b'. rewrite Hm'. destruct (decide (b = b')) as [<-|].
    + by rewrite fn_lookup_insert.
    + by rewrite fn_lookup_insert_ne.
  - intros b'. by rewrite Hd'.
  - intros b'. rewrite Hr'. apply Hr.
  - by rewrite Hw'.
  - intros b' Hn. rewrite fn_lookup_insert_ne; [by apply Hc|]. intros ->.
    by apply not_elem_of_dom in Hn.
Qed.

Lemma s_bwrite c a b :
  arel c a → 0 < a_ref a b →
  ∃ c', bwrite b c = Done (tt, c') ∧ arel c' (set_dsk a b (a_mem a b)).
Proof.
  intros HR Hpos. pose proof (proj2 (arel_dom _ _ _ HR) Hpos) as Hb. pose proof HR as [Hok Hm Hd Hr Hw Hp Hc].
  destruct (bwrite_ok c b Hok) as (c' & E & Hok' & Hr' & Hm' & Hw' & Hd'); [by eapply ar_busy|].
  exists c'. split; [done|]. split; cbn; try done.
  - intros b'. by rewrite Hm'.
  - intros b'. rewrite Hd', Hm. destruct (decide (b = b')) as [<-|].
    + by rewrite fn_lookup_insert.
    + by rewrite fn_lookup_insert_ne.
  - intros b'. rewrite Hr'. apply Hr.
  - by rewrite Hw', Hw, Hm.
  - intros b' Hn. rewrite fn_lookup_insert_ne; [by apply Hc|]. intros ->.
    by apply not_elem_of_dom in Hn.
Qed.

Lemma s_bpin c a b :
  arel c a → 0 < a_ref a b → a_ref a b < 2 ^ 64 - 1 →
  ∃ c', bpin b c = Done (tt, c') ∧ arel c' (set_ref a b (a_ref a b + 1)).
Proof.
  intros HR Hpos H64. pose proof (proj2 (arel_dom _ _ _ HR) Hpos) as Hb. pose proof HR as [Hok Hm Hd Hr Hw Hp Hc].
  destruct (bpin_ok c b Hok) as (c' & E & Hok' & Hr' & Hd' & Hw' & Hm'); [by eapply ar_busy|by rewrite Hr|].
  exists c'. split; [done|]. rewrite Hr in Hr'.
  pose proof (a_ref_busy _ _ _ HR Hb). eapply (arel_set_ref c); try done; lia.
Qed.

Lemma s_bunpin c a b :
  arel c a → 1 < a_ref a b →
  ∃ c', bunpin b c = Done (tt, c') ∧ arel c' (set_ref a b (a_ref a b - 1)).
Proof.
  intros HR Hb. pose proof HR as [Hok Hm Hd Hr Hw Hp Hc].
  destruct (bunpin_ok c b Hok) as (c' & E & Hok' & Hr' & Hd' & Hw' & Hm'); [by rewrite Hr|].
  exists c'. split; [done|]. rewrite Hr in Hr'.
  eapply (arel_set_ref c); try done; lia.
Qed.

Lemma s_bdrop c a b :
  arel c a → 0 < a_ref a b → 1 < a_ref a b ∨ a_mem a b = a_dsk a b →
  ∃ c', bdrop b c = Done (tt, c') ∧ arel c' (set_ref a b (a_ref a b - 1)).
Proof.
  intros HR Hpos Hl. pose proof (proj2 (arel_dom _ _ _ HR) Hpos) as Hb. pose proof HR as [Hok Hm Hd Hr Hw Hp Hc].
  destruct (bdrop_ok c b Hok) as (c' & E & Hok' & Hr' & Hd' & Hw' & Hm'); [by eapply ar_busy|].
  exists c'. split; [done|]. rewrite Hr in Hr'.
  pose proof (a_ref_busy _ _ _ HR Hb). eapply (arel_set_ref c); try done; [lia|].
  intros H0. destruct Hl as [Hl|Hl]; [lia|done].
Qed.

Lemma arel_equiv c a1 a2 :
  arel c a1 → (∀ b, a_mem a1 b = a_mem a2 b) → (∀ b, a_dsk a1 b = a_dsk a2 b) →
  a_refs a1 = a_refs a2 → a_writes a1 = a_writes a2 → arel c a2.
Proof.
  intros [Hok Hm Hd Hr Hw Hp Hc] Em Ed Er Ew. split; try done.
  - intros b. by rewrite Hm.
  - intros b. by rewrite Hd.
  - intros b. rewrite Hr. unfold a_ref. by rewrite Er.
  - by rewrite Hw.
  - by rewrite <- Er.
  - intros b. rewrite <- Er, <- Em, <- Ed. apply Hc.
Qed.

Definition apos (a : absc) : Prop := ∀ b r, a_refs a !! b = Some r → 0 < r.

Lemma apos_refs_eq a a' :
  apos a → apos a' → (∀ b, a_ref a b = a_ref a' b) → a_refs a = a_refs a'.
Proof.
  intros HR HR' H. apply map_eq. intros b. specialize (H b). unfold a_ref in H.
  pose proof (HR b) as Hp. pose proof (HR' b) as Hp'.
  destruct (a_refs a !! b) as [r|], (a_refs a' !! b) as [r'|]; cbn in *; subst; try done.
  - by specialize (Hp 0 eq_refl).
  - by specialize (Hp' 0 eq_refl).
Qed.

Lemma apos_set_ref a b r : apos a → 0 ≤ r → apos (set_ref a b r).
Proof.
  intros Ha Hr b' r'. unfold set_ref. cbn. destruct (Z.eqb_spec r 0).
  - intros [_ E]%lookup_delete_Some. by eapply Ha.
  - intros [[_ ->]|[_ E]]%lookup_insert_Some; [lia|by eapply Ha].
Qed.

Lemma arel_apos c a : arel c a → apos a.
Proof. intros H b r. by apply (ar_pos _ _ H). Qed.

Lemma size_dom_set_ref a b r :
  (size (dom (a_refs (set_ref a b r))) ≤ S (size (dom (a_refs a))))%nat.
Proof.
  unfold set_ref. cbn. destruct (r =? 0).
  - rewrite dom_delete_L. etrans; [apply (subseteq_size _ (dom (a_refs a))); set_solver|]. lia.
  - rewrite dom_insert_L. rewrite size_union_alt. rewrite size_singleton.
    pose proof (subseteq_size (dom (a_refs a) ∖ {[b]}) (dom (a_refs a))) as H.
    specialize (H ltac:(set_solver)). lia.
Qed.

Lemma arel_block c a b : arel c a → is_block (a_mem a b).
Proof. intros HR. rewrite <- (ar_mem _ _ HR). apply mem_block, HR. Qed.

Lemma cstep_refines o c a r a' :
  arel c a → astep o a = Some (r, a') → ∃ c', cstep o c = Done (r, c') ∧ arel c' a'.
Proof.
  intros HR. unfold astep.
  assert (∀ (m : M C unit) a1, (∃ c', m c = Done (tt, c') ∧ arel c' a1) →
    ∃ c', (m;; mret None) c = Done (None : option block, c') ∧ arel c' a1) as Hnone.
  { intros m a1 (c' & E & HR'). exists c'. by rewrite (bind_run _ _ _ _ _ E). }
  destruct o as [b|b x|b|b|b|b]; cbn [cstep]; intros Hs;
    match goal with H : (if ?b then _ else _) = _ |- _ => destruct b eqn:E; [|done] end;
    injection Hs as <- <-; try apply andb_true_iff in E as [Hb E]; try apply Hnone.
  - destruct (s_bread c a b HR) as (c' & Eb & HR').
    + apply orb_true_iff in Hb as [Hb%bool_decide_eq_true|Hb%Nat.ltb_lt]; [left|by right].
      by eapply arel_dom.
    + by apply Z.ltb_lt.
    + exists c'. by rewrite (bind_run _ _ _ _ _ Eb).
  - apply s_bset; [done|by eapply arel_dom, bool_decide_eq_true|by eapply bool_decide_eq_true].
  - apply s_bwrite; [done|by eapply arel_dom, bool_decide_eq_true].
  - apply s_bpin; [done|by eapply arel_dom, bool_decide_eq_true|by apply Z.ltb_lt].
  - apply s_bunpin; [done|by apply Z.ltb_lt].
  - apply s_bdrop; [done|by eapply arel_dom, bool_decide_eq_true|].
    apply orb_true_iff in E as [E%Z.ltb_lt|E%bool_decide_eq_true]; [by left|by right].
Qed.

Lemma crun_refines os c a rs a' :
  arel c a → arun os a = Some (rs, a') → ∃ c', crun os c = Done (rs, c') ∧ arel c' a'.
Proof.
  revert c a rs. induction os as [|o os IH]; intros c a rs HR; cbn.
  { intros [= <- <-]. by exists c. }
  destruct (astep o a) as [[r a1]|] eqn:Es; [|done]. cbn.
  destruct (arun os a1) as [[rs1 a2]|] eqn:Er; [|done]. cbn. intros [= <- <-].
  destruct (cstep_refines _ _ _ _ _ HR Es) as (c1 & E1 & HR1).
  destruct (IH _ _ _ HR1 Er) as (c2 & E2 & HR2).
  exists c2. split; [|done]. rewrite (bind_run _ _ _ _ _ E1).
  by rewrite (bind_run _ _ _ _ _ E2).
Qed.
End refine.

Create Rewrite HintDb absc.
#[export] Hint Rewrite @a_ref_set @a_ref_set_mem @a_ref_set_dsk @a_mem_set_ref @a_mem_set_dsk
  @a_mem_set_mem @a_dsk_set_ref @a_dsk_set_mem @a_dsk_set_dsk : absc.
(** Evaluate a question about an abstract state reached by updates. *)
Ltac absc_simp :=
  try done; unfold has_room in *;
  repeat (progress autorewrite with absc || (case_decide; subst)); try done; try lia;
  try (right; done).
