(* ===== verification/Bio.v ===== *)
(** * The buffer cache ([kernel/src/fs/bio.rs])

    [BufLru] keeps the control blocks in a static array, chained through
    [prev]/[next] pointers from most to least recently released; a pointer into
    the array is the index it points at, and the null pointer is [None].
    [ctrl] is guarded by a spin lock and every method of [BufLru] runs under
    it; the data of a buffer is guarded by its sleep lock for as long as the
    [Buf] handle lives, so an access through a handle is sequential. *)
From S2P Require Import Prelude Consts Bytes Dll BlockCache.

Record BufCtrl := {
  bc_dev : Z; bc_blockno : Z;
  bc_prev : option nat; bc_next : option nat;
  bc_refcnt : Z; bc_index : nat;
}.
Definition BufCtrl_new : BufCtrl :=
  {| bc_dev := 0; bc_blockno := 0; bc_prev := None; bc_next := None;
     bc_refcnt := 0; bc_index := 0 |}.

Record BufLru := { inner : list BufCtrl; head : option nat; tail : option nat }.
Definition BufLru_new : BufLru :=
  {| inner := replicate NBUF BufCtrl_new; head := None; tail := None |}.

(** Field assignments through a pointer. *)
Definition with_prev (p : option nat) (b : BufCtrl) : BufCtrl :=
  {| bc_dev := bc_dev b; bc_blockno := bc_blockno b; bc_prev := p; bc_next := bc_next b;
     bc_refcnt := bc_refcnt b; bc_index := bc_index b |}.
Definition with_next (p : option nat) (b : BufCtrl) : BufCtrl :=
  {| bc_dev := bc_dev b; bc_blockno := bc_blockno b; bc_prev := bc_prev b; bc_next := p;
     bc_refcnt := bc_refcnt b; bc_index := bc_index b |}.
Definition with_refcnt (r : Z) (b : BufCtrl) : BufCtrl :=
  {| bc_dev := bc_dev b; bc_blockno := bc_blockno b; bc_prev := bc_prev b; bc_next := bc_next b;
     bc_refcnt := r; bc_index := bc_index b |}.
Definition with_key (dev blockno : Z) (b : BufCtrl) : BufCtrl :=
  {| bc_dev := dev; bc_blockno := blockno; bc_prev := bc_prev b; bc_next := bc_next b;
     bc_refcnt := bc_refcnt b; bc_index := bc_index b |}.
Definition with_index (i : nat) (b : BufCtrl) : BufCtrl :=
  {| bc_dev := bc_dev b; bc_blockno := bc_blockno b; bc_prev := bc_prev b; bc_next := bc_next b;
     bc_refcnt := bc_refcnt b; bc_index := i |}.

Definition upd (i : nat) (f : BufCtrl → BufCtrl) : M BufLru unit :=
  modify (λ l, {| inner := alter f i (inner l); head := head l; tail := tail l |}).
(** [p.as_mut().map(f)]: nothing happens through a null pointer. *)
Definition upd_ptr (p : option nat) (f : BufCtrl → BufCtrl) : M BufLru unit :=
  match p with Some i => upd i f | None => mret tt end.
Definition set_head (p : option nat) : M BufLru unit :=
  modify (λ l, {| inner := inner l; head := p; tail := tail l |}).
Definition set_tail (p : option nat) : M BufLru unit :=
  modify (λ l, {| inner := inner l; head := head l; tail := p |}).
Definition deref (i : nat) : M BufLru BufCtrl :=
  l ← get; unwrap (inner l !! i) "index out of bounds".

(** ** Bcache::binit *)
Fixpoint for_each (rng : list nat) (f : nat → M BufLru unit) : M BufLru unit :=
  match rng with
  | [] => mret tt
  | i :: rng => f i;; for_each rng f
  end.

Definition binit : M BufLru unit :=
  let len := NBUF in
  set_head (Some 0%nat);;
  set_tail (Some (len - 1)%nat);;
  upd 0 (with_prev None);;
  upd 0 (with_next (Some 1%nat));;
  upd (len - 1) (with_prev (Some (len - 2)%nat));;
  upd (len - 1) (with_next None);;
  for_each (seq 1 (len - 2)) (λ i,
    upd i (with_prev (Some (i - 1)%nat));; upd i (with_next (Some (i + 1)%nat)));;
  for_each (seq 0 len) (λ i, upd i (with_index i)).

(** ** BufLru::find_cached and BufLru::recycle

    Both return the index field of the buffer they stop at together with the
    place of its reference count; the loops follow the chain, so [fuel] bounds
    the number of nodes visited. *)
Fixpoint find_cached_loop (fuel : nat) (b : option nat) (dev blockno : Z)
    : M BufLru (option (nat * nat)) :=
  match fuel with
  | O => panic "the chain does not end"
  | S fuel =>
      match b with
      | None => mret None
      | Some i =>
          bref ← deref i;
          if (bc_dev bref =? dev) && (bc_blockno bref =? blockno) then
            r ← lift (add64 (bc_refcnt bref) 1);
            upd i (with_refcnt r);;
            mret (Some (bc_index bref, i))
          else find_cached_loop fuel (bc_next bref) dev blockno
      end
  end.
Definition find_cached (dev blockno : Z) : M BufLru (option (nat * nat)) :=
  l ← get; find_cached_loop (S NBUF) (head l) dev blockno.

Fixpoint recycle_loop (fuel : nat) (b : option nat) (dev blockno : Z)
    : M BufLru (option (nat * nat)) :=
  match fuel with
  | O => panic "the chain does not end"
  | S fuel =>
      match b with
      | None => mret None
      | Some i =>
          bref ← deref i;
          if bc_refcnt bref =? 0 then
            upd i (with_key dev blockno);;
            r ← lift (add64 (bc_refcnt bref) 1);
            upd i (with_refcnt r);;
            mret (Some (bc_index bref, i))
          else recycle_loop fuel (bc_prev bref) dev blockno
      end
  end.
Definition recycle (dev blockno : Z) : M BufLru (option (nat * nat)) :=
  l ← get; recycle_loop (S NBUF) (tail l) dev blockno.

(** ** BufLru::move_if_no_ref *)
Definition move_to_front (b : BufCtrl) (index : nat) : M BufLru unit :=
  l ← get;
  (if bool_decide (tail l = Some index) && bool_decide (bc_prev b ≠ None)
   then set_tail (bc_prev b) else mret tt);;
  upd_ptr (bc_next b) (with_prev (bc_prev b));;
  b ← deref index;
  upd_ptr (bc_prev b) (with_next (bc_next b));;
  upd index (with_prev None);;
  l ← get;
  upd index (with_next (head l));;
  upd_ptr (head l) (with_prev (Some index));;
  set_head (Some index).

Definition move_if_no_ref (index : nat) : M BufLru unit :=
  b ← deref index;
  r ← lift (sub_chk (bc_refcnt b) 1);
  upd index (with_refcnt r);;
  l ← get;
  if (r =? 0) && negb (bool_decide (head l = Some index)) then move_to_front b index
  else mret tt.

(** ** Bcache *)
Section bcache.
Context {D : Type} `{BlockDev D}.

Record Bcache := {
  ctrl : BufLru;
  valid : list bool;
  bdata : list block;
  disk : D;
  disk_writes : list (Z * block);
}.
Definition Bcache_new (d : D) : Bcache :=
  {| ctrl := BufLru_new; valid := replicate NBUF false;
     bdata := replicate NBUF zero_block; disk := d; disk_writes := [] |}.

Definition with_ctrl {A} (m : M BufLru A) : M Bcache A := λ c,
  match m (ctrl c) with
  | Done (a, l) => Done (a, {| ctrl := l; valid := valid c; bdata := bdata c;
                               disk := disk c; disk_writes := disk_writes c |})
  | Panic why => Panic why
  end.
Definition set_valid (i : nat) (v : bool) : M Bcache unit :=
  modify (λ c, {| ctrl := ctrl c; valid := <[i := v]> (valid c); bdata := bdata c;
                  disk := disk c; disk_writes := disk_writes c |}).
Definition set_data (i : nat) (x : block) : M Bcache unit :=
  modify (λ c, {| ctrl := ctrl c; valid := valid c; bdata := <[i := x]> (bdata c);
                  disk := disk c; disk_writes := disk_writes c |}).

(** [Buf]: [buf_rc] is the control block its [rc_ptr] points into. *)
Record Buf := { buf_index : nat; buf_dev : Z; buf_blockno : Z; buf_rc : nat }.

(** [DISK.rw]: the driver addresses the disk by block number alone. *)
Definition disk_rw (b : Buf) (writing : bool) : M Bcache unit :=
  c ← get;
  if writing then
    x ← unwrap (bdata c !! buf_index b) "index out of bounds";
    put {| ctrl := ctrl c; valid := valid c; bdata := bdata c;
           disk := dev_write (buf_blockno b) x (disk c);
           disk_writes := disk_writes c ++ [(buf_blockno b, x)] |}
  else set_data (buf_index b) (dev_read (disk c) (buf_blockno b)).

Definition bget (dev blockno : Z) : M Bcache Buf :=
  o ← with_ctrl (find_cached dev blockno);
  match o with
  | Some (index, rc) =>
      mret {| buf_index := index; buf_dev := dev; buf_blockno := blockno; buf_rc := rc |}
  | None =>
      o ← with_ctrl (recycle dev blockno);
      match o with
      | Some (index, rc) =>
          set_valid index false;;
          mret {| buf_index := index; buf_dev := dev; buf_blockno := blockno; buf_rc := rc |}
      | None => panic "no usable buffer"
      end
  end.

Definition Bcache_bread (dev blockno : Z) : M Bcache Buf :=
  b ← bget dev blockno;
  c ← get;
  v ← unwrap (valid c !! buf_index b) "index out of bounds";
  (if v : bool then mret tt
   else disk_rw b false;; set_valid (buf_index b) true);;
  mret b.

Definition brelse (index : nat) : M Bcache unit := with_ctrl (move_if_no_ref index).

Definition raw_data (b : Buf) : M Bcache block :=
  c ← get; unwrap (bdata c !! buf_index b) "index out of bounds".
Definition raw_data_mut (b : Buf) (x : block) : M Bcache unit := set_data (buf_index b) x.
Definition Buf_bwrite (b : Buf) : M Bcache unit := disk_rw b true.

Definition pin (b : Buf) : M Bcache unit :=
  with_ctrl (
    bc ← deref (buf_rc b);
    r ← lift (add64 (bc_refcnt bc) 1);
    upd (buf_rc b) (with_refcnt r)).
Definition unpin (b : Buf) : M Bcache unit :=
  with_ctrl (
    bc ← deref (buf_rc b);
    if bc_refcnt bc <=? 1 then panic "buf unpin not match"
    else
      r ← lift (sub_chk (bc_refcnt bc) 1);
      upd (buf_rc b) (with_refcnt r)).
(** [Drop for Buf]: the sleep lock is released, then the reference. *)
Definition Buf_drop (b : Buf) : M Bcache unit := brelse (buf_index b).
End bcache.
Arguments Bcache D : clear implicits.

(** * The LRU chain *)

Definition lpv (l : BufLru) (p : option nat) : option nat := i ← p; bc ← inner l !! i; bc_prev bc.
Definition lnx (l : BufLru) (p : option nat) : option nat := i ← p; bc ← inner l !! i; bc_next bc.

(** [order] lists every buffer from the most to the least recently released. *)
Definition lru_ok (l : BufLru) (order : list nat) : Prop :=
  length (inner l) = NBUF ∧ order ≡ₚ seq 0 NBUF ∧
  (∀ i bc, inner l !! i = Some bc → bc_index bc = i ∧ 0 ≤ bc_refcnt bc) ∧
  chain (lpv l) (lnx l) None (head l) (tail l) (Some <$> order).

Definition key (bc : BufCtrl) : Z * Z := (bc_dev bc, bc_blockno bc).

Lemma lru_ok_lookup l order i :
  lru_ok l order → i ∈ order → ∃ bc, inner l !! i = Some bc.
Proof.
  intros (Hlen & Hperm & _) Hi. rewrite Hperm, elem_of_seq in Hi.
  apply lookup_lt_is_Some_2. lia.
Qed.

Lemma lru_ok_order l order i bc :
  lru_ok l order → inner l !! i = Some bc → i ∈ order.
Proof.
  intros (Hlen & Hperm & _) Hi. apply lookup_lt_Some in Hi. rewrite Hperm, elem_of_seq. lia.
Qed.

(** Updates that leave the links alone. *)
Definition keeps_links (f : BufCtrl → BufCtrl) : Prop :=
  ∀ bc, bc_prev (f bc) = bc_prev bc ∧ bc_next (f bc) = bc_next bc ∧ bc_index (f bc) = bc_index bc.

Lemma keeps_links_refcnt r : keeps_links (with_refcnt r).
Proof. done. Qed.
Lemma keeps_links_key d b : keeps_links (with_key d b).
Proof. done. Qed.

Definition with_inner (l : BufLru) (x : list BufCtrl) : BufLru :=
  {| inner := x; head := head l; tail := tail l |}.

Lemma links_alter l i f p :
  keeps_links f →
  lpv (with_inner l (alter f i (inner l))) p = lpv l p ∧
  lnx (with_inner l (alter f i (inner l))) p = lnx l p.
Proof.
  intros Hf. unfold lpv, lnx. destruct p as [j|]; [|done]. cbn.
  destruct (decide (i = j)) as [->|]; [|by rewrite list_lookup_alter_ne by done].
  rewrite list_lookup_alter_eq. destruct (inner l !! j) as [bc|]; [|done]. cbn.
  by destruct (Hf bc) as (-> & -> & _).
Qed.

Lemma lru_ok_alter l order i f :
  keeps_links f → (∀ bc, inner l !! i = Some bc → 0 ≤ bc_refcnt (f bc)) →
  lru_ok l order → lru_ok (with_inner l (alter f i (inner l))) order.
Proof.
  intros Hf Hr (Hlen & Hperm & Hidx & Hch). split; [by rewrite <- Hlen; apply length_alter|].
  split; [done|]. split.
  - intros j bc. cbn. destruct (decide (i = j)) as [->|].
    + rewrite list_lookup_alter_eq. destruct (inner l !! j) as [bc0|] eqn:E; [|done].
      intros [= <-]. destruct (Hidx j bc0 E) as [? ?]. destruct (Hf bc0) as (_ & _ & ->).
      split; [done|by apply Hr].
    + rewrite list_lookup_alter_ne by done. apply Hidx.
  - destruct Hch as (Hnd & Hh & Ht & Hd). split; [done|]. split; [done|]. split; [done|].
    eapply dseg_ext, Hd. intros p _. by apply links_alter.
Qed.

(** The search loops, on the part of the chain they still have to visit. *)
Lemma find_cached_loop_spec l dev blockno fuel p o :
  dseg (lpv l) (lnx l) p (Some <$> o) None →
  (∀ i, i ∈ o → ∃ bc, inner l !! i = Some bc ∧
     (key bc = (dev, blockno) → bc_refcnt bc < 2 ^ 64 - 1)) →
  (length o < fuel)%nat →
  (∃ i bc, i ∈ o ∧ inner l !! i = Some bc ∧ key bc = (dev, blockno) ∧
     find_cached_loop fuel (hd_or None (Some <$> o)) dev blockno l =
       Done (Some (bc_index bc, i),
             with_inner l (alter (with_refcnt (bc_refcnt bc + 1)) i (inner l)))) ∨
  ((∀ i bc, i ∈ o → inner l !! i = Some bc → key bc ≠ (dev, blockno)) ∧
     find_cached_loop fuel (hd_or None (Some <$> o)) dev blockno l = Done (None, l)).
Proof.
  revert p fuel. induction o as [|i o IH]; intros p fuel Hd Hin Hf.
  { right. split; [set_solver|]. destruct fuel; [lia|done]. }
  destruct fuel as [|fuel]; [cbn in Hf; lia|].
  destruct (Hin i) as (bc & Ei & Hr); [by left|].
  rewrite fmap_cons in *. destruct Hd as (_ & Hn & Hd).
  cbn [hd_or find_cached_loop]. unfold deref, unwrap. run_simpl. rewrite Ei.
  destruct ((bc_dev bc =? dev) && (bc_blockno bc =? blockno)) eqn:Ek.
  - left. exists i, bc. apply andb_true_iff in Ek as [E1%Z.eqb_eq E2%Z.eqb_eq].
    assert (key bc = (dev, blockno)) as Ekey by (unfold key; by f_equal).
    specialize (Hr Ekey). split; [by left|]. split; [done|]. split; [done|].
    unfold add_chk. rewrite (proj2 (Z.ltb_lt _ _)) by lia. done.
  - assert (key bc ≠ (dev, blockno)) as Hne.
    { intros [= E1 E2]. apply andb_false_iff in Ek as [?%Z.eqb_neq|?%Z.eqb_neq]; done. }
    assert (bc_next bc = hd_or None (Some <$> o)) as ->.
    { rewrite <- Hn. unfold lnx. cbn. by rewrite Ei. }
    destruct (IH (Some i) fuel Hd) as [(j & bj & Hj & Ej & Ekj & ->)|[Hno ->]].
    + intros j Hj. apply Hin. by right.
    + cbn in Hf. lia.
    + left. exists j, bj. split; [by right|done].
    + right. split; [|done]. intros j bj [->|Hj]%elem_of_cons Ej; [congruence|eauto].
Qed.

(** [recycle] takes the last unreferenced buffer of the chain: the one
    released longest ago. *)
Lemma recycle_loop_spec l dev blockno fuel n o :
  dseg (lpv l) (lnx l) None (Some <$> o) n →
  (∀ i, i ∈ o → ∃ bc, inner l !! i = Some bc) →
  (length o < fuel)%nat →
  (∃ o1 i o2 bc, o = o1 ++ i :: o2 ∧ inner l !! i = Some bc ∧ bc_refcnt bc = 0 ∧
     (∀ j bj, j ∈ o2 → inner l !! j = Some bj → bc_refcnt bj ≠ 0) ∧
     recycle_loop fuel (last_or None (Some <$> o)) dev blockno l =
       Done (Some (bc_index bc, i),
             with_inner l (alter (λ bc, with_refcnt 1 (with_key dev blockno bc)) i (inner l)))) ∨
  ((∀ i bc, i ∈ o → inner l !! i = Some bc → bc_refcnt bc ≠ 0) ∧
     recycle_loop fuel (last_or None (Some <$> o)) dev blockno l = Done (None, l)).
Proof.
  revert n fuel. induction o as [|i o IH] using rev_ind; intros n fuel Hd Hin Hf.
  { right. split; [set_solver|]. destruct fuel; [lia|done]. }
  rewrite length_app in Hf. destruct fuel as [|fuel]; [cbn in Hf; lia|].
  rewrite fmap_app in Hd. change (Some <$> [i]) with [Some i] in Hd.
  rewrite dseg_app in Hd. destruct Hd as [Hd (Hp & _)].
  destruct (Hin i) as [bc Ei]; [set_solver|].
  rewrite fmap_app. change (Some <$> [i]) with [Some i]. rewrite last_or_snoc.
  cbn [recycle_loop]. unfold deref, unwrap. run_simpl. rewrite Ei.
  destruct (Z.eqb_spec (bc_refcnt bc) 0) as [E0|E0].
  - left. exists o, i, [], bc. split; [done|]. split; [done|]. split; [done|].
    split; [set_solver|]. unfold add_chk. rewrite (proj2 (Z.ltb_lt _ _)) by lia.
    unfold upd. run_simpl. cbn. by rewrite E0, list_alter_twice.
  - assert (bc_prev bc = last_or None (Some <$> o)) as ->.
    { rewrite <- Hp. unfold lpv. cbn. by rewrite Ei. }
    destruct (IH _ fuel Hd) as [(o1 & j & o2 & bj & -> & Ej & Ekj & Hno & ->)|[Hno ->]].
    + intros j Hj. apply Hin. set_solver.
    + cbn in Hf. lia.
    + left. exists o1, j, (o2 ++ [i]), bj. rewrite <- app_assoc. split; [done|].
      split; [done|]. split; [done|]. split; [|done].
      intros k bk [Hk| ->%list_elem_of_singleton]%elem_of_app Ek; [eauto|congruence].
    + right. split; [|done].
      intros j bj [Hj| ->%list_elem_of_singleton]%elem_of_app Ej; [eauto|congruence].
Qed.

(** ** The table as entries: who owns each buffer and how often *)
Definition ent (bc : BufCtrl) : (Z * Z) * Z := (key bc, bc_refcnt bc).
Definition entries (l : BufLru) : list ((Z * Z) * Z) := ent <$> inner l.

Lemma entries_lookup l i : entries l !! i = ent <$> inner l !! i.
Proof. apply list_lookup_fmap. Qed.

Lemma entries_alter l i f bc :
  inner l !! i = Some bc →
  entries (with_inner l (alter f i (inner l))) = <[i := ent (f bc)]> (entries l).
Proof.
  intros Ei. apply list_eq. intros j. unfold entries. cbn. rewrite list_lookup_fmap.
  destruct (decide (i = j)) as [->|].
  - rewrite list_lookup_alter_eq, Ei, list_lookup_insert_eq; [done|].
    rewrite length_fmap. by eapply lookup_lt_Some.
  - by rewrite list_lookup_alter_ne, list_lookup_insert_ne, list_lookup_fmap.
Qed.

Definition cached (es : list ((Z * Z) * Z)) (dev b : Z) : option nat :=
  fst <$> list_find (λ e, e.1 = (dev, b)) es.

(** No two buffers for one block, and only unreferenced buffers without one. *)
Definition keys_ok (es : list ((Z * Z) * Z)) : Prop :=
  (∀ i j dev b r r', es !! i = Some ((dev, b), r) → es !! j = Some ((dev, b), r') →
     dev ≠ 0 → i = j) ∧
  (∀ i dev b r, es !! i = Some ((dev, b), r) → 0 ≤ r ∧ (dev = 0 → r = 0)).

Lemma cached_Some es dev b i :
  keys_ok es → dev ≠ 0 → cached es dev b = Some i ↔ ∃ r, es !! i = Some ((dev, b), r).
Proof.
  intros [Hu _] Hdev. unfold cached. split.
  - destruct (list_find _ es) as [[j [k r]]|] eqn:E; [|done]. intros [= <-].
    apply list_find_Some in E as (E & Hk & _). cbn in Hk. subst k. by exists r.
  - intros [r E]. destruct (list_find _ es) as [[j [k r']]|] eqn:F.
    + apply list_find_Some in F as (F & Hk & _). cbn in *. subst k. f_equal. by eapply Hu.
    + apply list_find_None in F. rewrite Forall_lookup in F. by destruct (F i _ E).
Qed.

Lemma cached_None es dev b :
  cached es dev b = None ↔ ∀ i r, es !! i ≠ Some ((dev, b), r).
Proof.
  unfold cached. rewrite fmap_None, list_find_None, Forall_lookup. split.
  - intros H i r E. by apply (H i _ E).
  - intros H i [k r] E Hk. cbn in Hk. subst k. by apply (H i r).
Qed.

(** Changing one entry. *)
Lemma keys_ok_refcnt es i dev b r r' :
  keys_ok es → es !! i = Some ((dev, b), r) → dev ≠ 0 → 0 ≤ r' →
  keys_ok (<[i := ((dev, b), r')]> es).
Proof.
  intros [Hu Hz] Ei Hdev Hr'. pose proof (lookup_lt_Some _ _ _ Ei) as Hi.
  assert (∀ j d x s, <[i := ((dev, b), r')]> es !! j = Some ((d, x), s) →
    ∃ s', es !! j = Some ((d, x), s') ∧ (i = j → d = dev ∧ s = r') ∧ (i ≠ j → s = s')) as Hl.
  { intros j d x s. destruct (decide (i = j)) as [->|].
    - rewrite list_lookup_insert_eq by done. intros [= <- <- <-]. by exists r.
    - rewrite list_lookup_insert_ne by done. intros E. by exists s. }
  split.
  - intros j k d x s s' Ej Ek. apply Hl in Ej as (? & Ej & _), Ek as (? & Ek & _). eauto.
  - intros j d x s Ej. apply Hl in Ej as (s' & Ej & He & Hne).
    destruct (decide (i = j)) as [Hij|Hij].
    + destruct (He Hij) as [-> ->]. by split.
    + rewrite (Hne Hij). by apply (Hz j d x).
Qed.

Lemma keys_ok_recycle es i dev b e r :
  keys_ok es → es !! i = Some e → dev ≠ 0 → cached es dev b = None → 0 ≤ r →
  keys_ok (<[i := ((dev, b), r)]> es).
Proof.
  intros [Hu Hz] Ei Hdev Hno Hr. rewrite cached_None in Hno.
  pose proof (lookup_lt_Some _ _ _ Ei) as Hi.
  split.
  - intros j k d x s s'.
    destruct (decide (j = i)) as [->|Hij], (decide (k = i)) as [->|Hik]; [done| | |];
      rewrite ?list_lookup_insert_eq by done; rewrite ?list_lookup_insert_ne by done.
    + intros [= <- <- _] Ek. by destruct (Hno k s').
    + intros Ej [= <- <- _]. by destruct (Hno j s).
    + eauto.
  - intros j d x s. destruct (decide (j = i)) as [->|].
    + rewrite list_lookup_insert_eq by done. by intros [= <- _ <-].
    + rewrite list_lookup_insert_ne by done. apply Hz.
Qed.

(** ** The operations of [BufLru] on the chain and the entries *)
Lemma binit_ok :
  ∃ l, binit BufLru_new = Done (tt, l) ∧ lru_ok l (seq 0 NBUF) ∧
       entries l = replicate NBUF ((0, 0), 0) ∧ keys_ok (entries l).
Proof.
  destruct (binit BufLru_new) as [[[] l]|] eqn:E; vm_compute in E; [|done].
  injection E as <-. eexists; split; [done|].
  match goal with |- _ ∧ entries ?l = ?r ∧ _ => assert (entries l = r) as HE by (vm_compute; done) end.
  split; [|split; [exact HE|rewrite HE]].
  - split; [done|]. split; [done|]. split.
    + intros i bc Hi. pose proof (lookup_lt_Some _ _ _ Hi) as Hlt. cbn in Hlt.
      do 30 (destruct i as [|i]; [cbn in Hi; injection Hi as <-; done|]). lia.
    + split; [by apply (bool_decide_unpack _); vm_compute|].
      split; [done|]. split; [done|]. vm_compute. repeat split; done.
  - split.
    + intros i j dev b r r' Hi Hj Hdev. apply lookup_replicate in Hi as [[= -> _ _] _]. done.
    + intros i dev b r Hi. by apply lookup_replicate in Hi as [[= -> -> ->] _].
Qed.

Lemma run_upd_ptr p f l :
  upd_ptr p f l = Done (tt, with_inner l (match p with Some i => alter f i (inner l)
                                          | None => inner l end)).
Proof. destruct p; [done|]. by destruct l. Qed.

(** [links l pv nx]: the pointer fields of the array are those of the maps. *)
Definition links (l : BufLru) (pv nx : option nat → option nat) : Prop :=
  length (inner l) = NBUF ∧
  ∀ j, (j < NBUF)%nat → lpv l (Some j) = pv (Some j) ∧ lnx l (Some j) = nx (Some j).
(** Everything but the pointers. *)
Definition same_meta (l l' : BufLru) : Prop :=
  entries l' = entries l ∧ bc_index <$> inner l' = bc_index <$> inner l.

Lemma alter_ptr_links l p f pv nx :
  links l pv nx → (∀ i, p = Some i → (i < NBUF)%nat) →
  let l' := with_inner l (match p with Some i => alter f i (inner l) | None => inner l end) in
  (∀ bc, ent (f bc) = ent bc ∧ bc_index (f bc) = bc_index bc) →
  same_meta l l' ∧
  (∀ v, (∀ bc, bc_prev (f bc) = v ∧ bc_next (f bc) = bc_next bc) → links l' (<[p:=v]> pv) nx) ∧
  (∀ v, (∀ bc, bc_next (f bc) = v ∧ bc_prev (f bc) = bc_prev bc) → links l' pv (<[p:=v]> nx)).
Proof.
  intros [Hlen Hl] Hp l' Hf.
  assert (length (inner l') = NBUF) as Hlen' by (destruct p; [cbn; by rewrite length_alter|done]).
  assert (∀ j, (j < NBUF)%nat → inner l' !! j =
    if decide (p = Some j) then f <$> inner l !! j else inner l !! j) as Hlk.
  { intros j Hj. destruct p as [i|]; cbn; [|done].
    destruct (decide (Some i = Some j)) as [[= ->]|Hne]; [apply list_lookup_alter_eq|].
    apply list_lookup_alter_ne. congruence. }
  assert (∀ (A : Type) (g : BufCtrl → A), (∀ bc, g (f bc) = g bc) → g <$> inner l' = g <$> inner l) as Hg.
  { intros A g Hg. destruct p as [i|]; [|done]. cbn. apply list_eq. intros j.
    rewrite !list_lookup_fmap. destruct (decide (i = j)) as [->|].
    - rewrite list_lookup_alter_eq. destruct (inner l !! j); cbn; [by rewrite Hg|done].
    - by rewrite list_lookup_alter_ne. }
  split; [split; apply Hg; intros bc; apply Hf|].
  split; intros v Hv; (split; [done|]); intros j Hj; destruct (Hl j Hj) as [H1 H2];
    (destruct (lookup_lt_is_Some_2 (inner l) j) as [bc Eb]; [lia|]);
    unfold lpv, lnx in *; cbn in *; rewrite Hlk by done; rewrite Eb in *; cbn in *;
    destruct (Hv bc) as [V1 V2];
    (destruct (decide (p = Some j)) as [->|Hne];
      [rewrite fn_lookup_insert|rewrite fn_lookup_insert_ne by done]); cbn; split; congruence.
Qed.

Lemma links_self l : length (inner l) = NBUF → links l (lpv l) (lnx l).
Proof. done. Qed.

Lemma links_head l pv nx p : links l pv nx → links {| inner := inner l; head := p; tail := tail l |} pv nx.
Proof. done. Qed.

Lemma lru_ok_of_links l l0 order order0 pv nx :
  lru_ok l0 order0 → links l pv nx → order ≡ₚ order0 →
  bc_index <$> inner l = bc_index <$> inner l0 →
  (∀ i bc, inner l !! i = Some bc → 0 ≤ bc_refcnt bc) →
  chain pv nx None (head l) (tail l) (Some <$> order) → lru_ok l order.
Proof.
  intros (Hlen & Hperm & Hidx & _) [Hlen' Hl] Ho Hi Hr Hch.
  split; [done|]. split; [by rewrite Ho|]. split.
  - intros i bc E. split; [|by eapply Hr].
    assert (bc_index <$> inner l !! i = bc_index <$> inner l0 !! i) as Hii
      by (by rewrite <- !list_lookup_fmap, Hi).
    rewrite E in Hii. destruct (inner l0 !! i) as [bc0|] eqn:E0; [|done].
    cbn in Hii. injection Hii as ->. by destruct (Hidx i bc0 E0).
  - destruct Hch as (H1 & H2 & H3 & H4). split; [done|]. split; [done|]. split; [done|].
    eapply dseg_ext, H4. intros p (j & -> & Hj)%list_elem_of_fmap.
    apply Hl. rewrite Ho, Hperm, elem_of_seq in Hj. lia.
Qed.

Lemma run_deref i l bc : inner l !! i = Some bc → deref i l = Done (bc, l).
Proof. intros E. unfold deref. run_simpl. by rewrite E. Qed.

Lemma upd_is_upd_ptr i f : upd i f = upd_ptr (Some i) f.
Proof. done. Qed.

(** One store through a pointer, as a step on [links]. *)
Lemma store_prev l p v pv nx :
  links l pv nx → (∀ i, p = Some i → (i < NBUF)%nat) →
  ∃ l', upd_ptr p (with_prev v) l = Done (tt, l') ∧ links l' (<[p:=v]> pv) nx ∧
        same_meta l l' ∧ head l' = head l ∧ tail l' = tail l.
Proof.
  intros Hl Hp. rewrite run_upd_ptr. eexists. split; [done|].
  destruct (alter_ptr_links l p (with_prev v) pv nx Hl Hp) as (Hm & Hpv & _); [done|].
  split; [by apply Hpv|done].
Qed.
Lemma store_next l p v pv nx :
  links l pv nx → (∀ i, p = Some i → (i < NBUF)%nat) →
  ∃ l', upd_ptr p (with_next v) l = Done (tt, l') ∧ links l' pv (<[p:=v]> nx) ∧
        same_meta l l' ∧ head l' = head l ∧ tail l' = tail l.
Proof.
  intros Hl Hp. rewrite run_upd_ptr. eexists. split; [done|].
  destruct (alter_ptr_links l p (with_next v) pv nx Hl Hp) as (Hm & _ & Hnx); [done|].
  split; [by apply Hnx|done].
Qed.

Lemma links_deref l i pv nx :
  links l pv nx → (i < NBUF)%nat →
  ∃ bc, deref i l = Done (bc, l) ∧ bc_prev bc = pv (Some i) ∧ bc_next bc = nx (Some i).
Proof.
  intros [Hlen Hl] Hi. destruct (lookup_lt_is_Some_2 (inner l) i) as [bc E]; [lia|].
  exists bc. split; [by apply run_deref|]. destruct (Hl i Hi) as [<- <-].
  unfold lpv, lnx. cbn. by rewrite E.
Qed.

Lemma fmap_Some_in (o : list nat) i : Some i ∈ Some <$> o ↔ i ∈ o.
Proof. rewrite list_elem_of_fmap. naive_solver. Qed.

Lemma hd_last_in (o : list nat) j :
  hd_or None (Some <$> o) = Some j ∨ last_or None (Some <$> o) = Some j → j ∈ o.
Proof.
  intros H. apply fmap_Some_in. destruct o as [|x o]; [by destruct H|].
  destruct H as [<-|<-]; [by left|]. by apply last_or_in.
Qed.

Lemma move_to_front_spec l A i B b :
  lru_ok l (A ++ i :: B) → A ≠ [] →
  bc_prev b = lpv l (Some i) → bc_next b = lnx l (Some i) →
  ∃ l', move_to_front b i l = Done (tt, l') ∧ lru_ok l' (i :: A ++ B) ∧ entries l' = entries l.
Proof.
  intros Hok HA Hbp Hbn. pose proof Hok as (Hlen & Hperm & Hidx & Hch).
  assert (∀ j, j ∈ A ++ i :: B → (j < NBUF)%nat) as Hlt.
  { intros j. rewrite Hperm, elem_of_seq. lia. }
  assert (i < NBUF)%nat as Hi by (apply Hlt; set_solver).
  rewrite fmap_app, fmap_cons in Hch.
  assert ((Some <$> A) ≠ []) as HA' by (by destruct A).
  pose proof (chain_to_front _ _ _ _ _ _ _ _ HA' Hch) as Hfront.
  destruct Hch as (Hnd & Hhd & Htl & Hd). rewrite dseg_app in Hd.
  destruct Hd as (_ & Hpi & Hni & _).
  assert (∀ j, lpv l (Some i) = Some j → (j < NBUF)%nat) as Hpj.
  { intros j. rewrite Hpi. intros Hj. apply Hlt. apply elem_of_app. left. apply hd_last_in. by right. }
  assert (∀ j, lnx l (Some i) = Some j → (j < NBUF)%nat ∧ j ≠ i) as Hnj.
  { intros j. rewrite Hni. intros Hj. assert (j ∈ B) as HjB by (apply hd_last_in; by left).
    split; [apply Hlt; set_solver|]. intros ->.
    assert (NoDup (A ++ i :: B)) as HND by (rewrite Hperm; apply NoDup_seq).
    apply NoDup_app in HND as (_ & _ & HND). by apply NoDup_cons in HND as [? _]. }
  assert (∀ j, head l = Some j → (j < NBUF)%nat) as Hhj.
  { intros j. rewrite Hhd, hd_or_app. intros Hj. apply Hlt, elem_of_app. left.
    apply hd_last_in. left. rewrite <- Hj. by destruct A. }
  assert (lpv l (Some i) ≠ None) as Hp0.
  { rewrite Hpi. intros E. pose proof (last_or_in None _ HA') as Hin. rewrite E in Hin.
    apply list_elem_of_fmap in Hin. by destruct Hin as (? & ? & ?). }
  set (l1 := if decide (tail l = Some i) then {| inner := inner l; head := head l; tail := lpv l (Some i) |} else l).
  assert (links l1 (lpv l) (lnx l)) as Hl1 by (unfold l1; by destruct (decide _)).
  unfold move_to_front.
  rewrite (bind_run _ _ _ l l) by done.
  rewrite (bind_run _ _ _ tt l1).
  2: { unfold l1. rewrite Hbp. destruct (decide (tail l = Some i)) as [E|E].
       - by rewrite !bool_decide_eq_true_2.
       - by rewrite bool_decide_eq_false_2. }
  rewrite Hbp, Hbn.
  destruct (store_prev l1 (lnx l (Some i)) (lpv l (Some i)) _ _ Hl1) as (l2 & E2 & Hl2 & [Hm2 Hx2] & Hh2 & Ht2).
  { intros j Hj. by apply Hnj. }
  rewrite (bind_run _ _ _ tt l2) by done.
  destruct (links_deref l2 i _ _ Hl2 Hi) as (b2 & Eb & Hb2p & Hb2n).
  rewrite fn_lookup_insert_ne in Hb2p by (intros E; by destruct (Hnj i E)).
  rewrite (bind_run _ _ _ b2 l2) by done. rewrite Hb2p, Hb2n.
  destruct (store_next l2 (lpv l (Some i)) (lnx l (Some i)) _ _ Hl2 Hpj) as (l3 & E3 & Hl3 & [Hm3 Hx3] & Hh3 & Ht3).
  rewrite (bind_run _ _ _ tt l3) by done. rewrite upd_is_upd_ptr.
  destruct (store_prev l3 (Some i) None _ _ Hl3) as (l4 & E4 & Hl4 & [Hm4 Hx4] & Hh4 & Ht4).
  { by intros j [= <-]. }
  rewrite (bind_run _ _ _ tt l4) by done. rewrite (bind_run _ _ _ l4 l4) by done.
  rewrite upd_is_upd_ptr.
  assert (head l1 = head l) as Hh1 by (unfold l1; by destruct (decide _)).
  rewrite Hh4, Hh3, Hh2, Hh1 in *.
  destruct (store_next l4 (Some i) (head l) _ _ Hl4) as (l5 & E5 & Hl5 & [Hm5 Hx5] & Hh5 & Ht5).
  { by intros j [= <-]. }
  rewrite (bind_run _ _ _ tt l5) by done.
  destruct (store_prev l5 (head l) (Some i) _ _ Hl5 Hhj) as (l6 & E6 & Hl6 & [Hm6 Hx6] & Hh6 & Ht6).
  rewrite (bind_run _ _ _ tt l6) by done.
  eexists. split; [done|].
  assert (bc_index <$> inner l6 = bc_index <$> inner l) as HX.
  { rewrite Hx6, Hx5, Hx4, Hx3, Hx2. unfold l1. by destruct (decide _). }
  assert (entries l6 = entries l) as HE.
  { rewrite Hm6, Hm5, Hm4, Hm3, Hm2. unfold l1. by destruct (decide _). }
  split; [|done].
  eapply (lru_ok_of_links _ l _ _ _ _ Hok); [by apply links_head, Hl6| |done| |].
  - by rewrite Permutation_middle.
  - intros j bc E. cbn in E.
    assert (ent <$> inner l6 !! j = ent <$> inner l !! j) as Hjj
      by (by rewrite <- !entries_lookup, HE).
    rewrite E in Hjj. destruct (inner l !! j) as [bc0|] eqn:E0; [|done].
    cbn in Hjj. injection Hjj as _ _ ->. by destruct (Hidx j bc0 E0).
  - cbn [head tail]. rewrite Ht6, Ht5, Ht4, Ht3, Ht2. rewrite fmap_cons, fmap_app.
    replace (tail l1) with (if decide (tail l = Some i) then lpv l (Some i) else tail l)
      by (unfold l1; by destruct (decide _)).
    done.
Qed.

Definition released (order : list nat) (i : nat) : list nat := i :: filter (λ j, j ≠ i) order.

Lemma filter_ne_split (A B : list nat) i :
  NoDup (A ++ i :: B) → filter (λ j, j ≠ i) (A ++ i :: B) = A ++ B.
Proof.
  intros Hnd. apply NoDup_app in Hnd as (_ & Hd & Hn). apply NoDup_cons in Hn as [Hi _].
  assert (∀ l : list nat, i ∉ l → filter (λ j, j ≠ i) l = l) as Hf.
  { intros l Hl. apply filter_all. by intros j Hj ->. }
  rewrite filter_app, filter_cons_False by naive_solver. rewrite !Hf; [done|done|].
  intros HA. apply (Hd i HA). by left.
Qed.

Lemma lru_ok_entry l order i k r :
  lru_ok l order → entries l !! i = Some (k, r) →
  ∃ bc, inner l !! i = Some bc ∧ key bc = k ∧ bc_refcnt bc = r ∧ bc_index bc = i ∧ 0 ≤ r.
Proof.
  intros (_ & _ & Hidx & _). rewrite entries_lookup. destruct (inner l !! i) as [bc|] eqn:E; [|done].
  cbn. intros [= <- <-]. exists bc. by destruct (Hidx i bc E).
Qed.

(** Dropping a reference; the last one moves the buffer to the front. *)
Lemma move_if_no_ref_spec l order i k r :
  lru_ok l order → entries l !! i = Some (k, r) → 0 < r →
  ∃ l' , move_if_no_ref i l = Done (tt, l') ∧
    lru_ok l' (if decide (r = 1) then released order i else order) ∧
    entries l' = <[i := (k, r - 1)]> (entries l).
Proof.
  intros Hok Ei Hr. destruct (lru_ok_entry _ _ _ _ _ Hok Ei) as (bc & Eb & <- & <- & Hbi & _).
  unfold move_if_no_ref. rewrite (bind_run _ _ _ bc l) by (by apply run_deref).
  rewrite (bind_run _ _ _ (bc_refcnt bc - 1) l).
  2: { unfold sub_chk. rewrite (proj2 (Z.leb_le _ _)) by lia. done. }
  set (f := with_refcnt (bc_refcnt bc - 1)). set (l1 := with_inner l (alter f i (inner l))).
  assert (lru_ok l1 order) as Hok1.
  { apply lru_ok_alter; [done| |done]. intros bc' _. cbn. lia. }
  assert (entries l1 = <[i := (key bc, bc_refcnt bc - 1)]> (entries l)) as HE
    by (exact (entries_alter l i f bc Eb)).
  rewrite (bind_run _ _ _ tt l1) by done. rewrite (bind_run _ _ _ l1 l1) by done.
  cbn [head l1 with_inner].
  pose proof Hok as (_ & Hperm & _ & Hch).
  assert (NoDup order) as Hnd by (rewrite Hperm; apply NoDup_seq).
  destruct (list_elem_of_split order i) as (A & B & ->).
  { by apply (lru_ok_order l order i bc). }
  destruct Hch as (_ & Hhd & _). rewrite fmap_app, fmap_cons in Hhd.
  destruct (Z.eqb_spec (bc_refcnt bc - 1) 0) as [E0|E0]; cbn [andb].
  2: { exists l1. rewrite decide_False by lia. done. }
  rewrite decide_True by lia. unfold released. rewrite filter_ne_split by done.
  destruct A as [|a A].
  - cbn in Hhd. rewrite bool_decide_eq_true_2 by done. exists l1. done.
  - rewrite bool_decide_eq_false_2.
    2: { cbn in Hhd. rewrite Hhd. intros [= ->]. cbn in Hnd. apply NoDup_cons in Hnd as [Hn _].
         apply Hn. set_solver. }
    cbn [negb]. 
    destruct (move_to_front_spec l1 (a :: A) i B bc) as (l' & -> & Hok' & HE'); [done|done| | |].
    1,2: destruct (links_alter l i f (Some i)) as [Hp Hn]; [done|].
    + unfold l1. rewrite Hp. unfold lpv. cbn. by rewrite Eb.
    + unfold l1. rewrite Hn. unfold lnx. cbn. by rewrite Eb.
    + exists l'. rewrite HE', HE. done.
Qed.

Lemma find_cached_spec l order dev b :
  lru_ok l order → keys_ok (entries l) → dev ≠ 0 →
  (∀ i r, entries l !! i = Some ((dev, b), r) → r < 2 ^ 64 - 1) →
  (∃ i r l', entries l !! i = Some ((dev, b), r) ∧
     find_cached dev b l = Done (Some (i, i), l') ∧ lru_ok l' order ∧
     entries l' = <[i := ((dev, b), r + 1)]> (entries l)) ∨
  (cached (entries l) dev b = None ∧ find_cached dev b l = Done (None, l)).
Proof.
  intros Hok Hk Hdev Hr. pose proof Hok as (Hlen & Hperm & Hidx & (_ & Hhd & _ & Hd)).
  unfold find_cached. rewrite (bind_run _ _ _ l l) by done. rewrite Hhd.
  destruct (find_cached_loop_spec l dev b (S NBUF) None order Hd)
    as [(i & bc & Hi & Ei & Ek & ->)|[Hno ->]].
  - intros i Hi. destruct (lru_ok_lookup _ _ _ Hok Hi) as [bc Ei]. exists bc. split; [done|].
    intros Ek. apply (Hr i). rewrite entries_lookup, Ei. cbn. unfold ent. by rewrite Ek.
  - rewrite Hperm, length_seq. lia.
  - left. exists i, (bc_refcnt bc). destruct (Hidx i bc Ei) as [-> Hr0].
    eexists. split; [rewrite entries_lookup, Ei; cbn; unfold ent; by rewrite Ek|].
    split; [done|]. split.
    + apply lru_ok_alter; [done| |done]. intros bc' _. cbn. lia.
    + rewrite (entries_alter _ _ _ _ Ei). unfold ent. cbn. by rewrite <- Ek.
  - right. split; [|done]. apply cached_None. intros i r E.
    destruct (lru_ok_entry _ _ _ _ _ Hok E) as (bc & Ei & Ek & _).
    eapply Hno; [by eapply lru_ok_order|done|done].
Qed.

Lemma recycle_spec l order dev b :
  lru_ok l order →
  (∃ o1 i o2 k l', order = o1 ++ i :: o2 ∧ entries l !! i = Some (k, 0) ∧
     (∀ j k' r, j ∈ o2 → entries l !! j = Some (k', r) → r ≠ 0) ∧
     recycle dev b l = Done (Some (i, i), l') ∧ lru_ok l' order ∧
     entries l' = <[i := ((dev, b), 1)]> (entries l)) ∨
  ((∀ i k r, entries l !! i = Some (k, r) → r ≠ 0) ∧ recycle dev b l = Done (None, l)).
Proof.
  intros Hok. pose proof Hok as (Hlen & Hperm & Hidx & (_ & _ & Htl & Hd)).
  unfold recycle. rewrite (bind_run _ _ _ l l) by done. rewrite Htl.
  destruct (recycle_loop_spec l dev b (S NBUF) None order Hd)
    as [(o1 & i & o2 & bc & Ho & Ei & Er & Hno & ->)|[Hno ->]].
  - intros i Hi. by eapply lru_ok_lookup.
  - rewrite Hperm, length_seq. lia.
  - left. exists o1, i, o2, (key bc). destruct (Hidx i bc Ei) as [-> Hr0].
    eexists. split; [done|]. split; [rewrite entries_lookup, Ei; cbn; unfold ent; by rewrite Er|].
    split.
    { intros j k r Hj Ej. destruct (lru_ok_entry _ _ _ _ _ Hok Ej) as (bj & E & _ & <- & _). eauto. }
    split; [done|]. split.
    + apply lru_ok_alter; [done| |done]. intros bc' _. cbn. lia.
    + by rewrite (entries_alter _ _ _ _ Ei).
  - right. split; [|done]. intros i k r E.
    destruct (lru_ok_entry _ _ _ _ _ Hok E) as (bc & Ei & _ & <- & _).
    eapply Hno; [by eapply lru_ok_order|done].
Qed.

(** ** Changing an entry, seen from the blocks *)
Definition held (es : list ((Z * Z) * Z)) (i : nat) (dev b : Z) : Prop :=
  ∃ r, es !! i = Some ((dev, b), r).

Lemma cached_ext es es' dev b :
  keys_ok es → keys_ok es' → dev ≠ 0 →
  (∀ i, held es' i dev b ↔ held es i dev b) → cached es' dev b = cached es dev b.
Proof.
  intros Hk Hk' Hdev H. destruct (cached es dev b) as [i|] eqn:E.
  - apply cached_Some in E; [|done|done]. apply cached_Some; [done|done|]. by apply H.
  - rewrite cached_None in *. intros i r F. destruct (proj1 (H i)) as [r' E']; [by exists r|].
    by apply (E i r').
Qed.

Lemma held_insert es i dev b r j dev' b' :
  (i < length es)%nat →
  held (<[i := ((dev, b), r)]> es) j dev' b' ↔
  if decide (j = i) then (dev', b') = (dev, b) else held es j dev' b'.
Proof.
  intros Hi. unfold held. destruct (decide (j = i)) as [->|].
  - rewrite list_lookup_insert_eq by done. naive_solver.
  - by rewrite list_lookup_insert_ne.
Qed.

Definition refs_of (es : list ((Z * Z) * Z)) (dev b : Z) : Z :=
  match cached es dev b with
  | Some i => default 0 (snd <$> es !! i)
  | None => 0
  end.

Lemma refs_of_Some es dev b i r :
  keys_ok es → dev ≠ 0 → es !! i = Some ((dev, b), r) → refs_of es dev b = r.
Proof.
  intros Hk Hdev E. unfold refs_of. assert (cached es dev b = Some i) as ->.
  { apply cached_Some; [done..|]. by exists r. }
  by rewrite E.
Qed.

(** A changed reference count. *)
Lemma refcnt_view es i dev b r r' :
  keys_ok es → es !! i = Some ((dev, b), r) → dev ≠ 0 → 0 ≤ r' →
  let es' := <[i := ((dev, b), r')]> es in
  keys_ok es' ∧ (∀ b', cached es' dev b' = cached es dev b') ∧
  (∀ b', refs_of es' dev b' = if decide (b = b') then r' else refs_of es dev b').
Proof.
  intros Hk Ei Hdev Hr' es'. pose proof (lookup_lt_Some _ _ _ Ei) as Hi.
  assert (keys_ok es') as Hk' by (by eapply keys_ok_refcnt).
  assert (∀ b', cached es' dev b' = cached es dev b') as Hc.
  { intros b'. apply cached_ext; [done..|]. intros j. unfold es'. rewrite held_insert by done.
    destruct (decide (j = i)) as [->|]; [|done]. unfold held. rewrite Ei. naive_solver. }
  split; [done|]. split; [done|]. intros b'. destruct (decide (b = b')) as [<-|Hne].
  - apply (refs_of_Some _ _ _ i); [done..|]. by apply list_lookup_insert_eq.
  - unfold refs_of. rewrite Hc. destruct (cached es dev b') as [j|] eqn:Ej; [|done].
    apply cached_Some in Ej as [s Ej]; [|done..].
    unfold es'. rewrite list_lookup_insert_ne; [done|]. intros ->. rewrite Ei in Ej. congruence.
Qed.

(** A buffer taken over for another block. *)
Lemma recycle_view es i k dev b :
  keys_ok es → es !! i = Some (k, 0) → dev ≠ 0 → cached es dev b = None →
  let es' := <[i := ((dev, b), 1)]> es in
  keys_ok es' ∧ cached es' dev b = Some i ∧
  (∀ b', b ≠ b' → cached es' dev b' = if decide (k = (dev, b')) then None else cached es dev b') ∧
  (∀ b', refs_of es' dev b' = if decide (b = b') then 1 else refs_of es dev b').
Proof.
  intros Hk Ei Hdev Hno es'. pose proof (lookup_lt_Some _ _ _ Ei) as Hi.
  assert (keys_ok es') as Hk' by (by eapply keys_ok_recycle).
  assert (es' !! i = Some ((dev, b), 1)) as Ei' by (by apply list_lookup_insert_eq).
  assert (∀ b', b ≠ b' → cached es' dev b' =
    if decide (k = (dev, b')) then None else cached es dev b') as Hc.
  { intros b' Hne. destruct (decide (k = (dev, b'))) as [->|Hk0].
    - apply cached_None. intros j r. unfold es'. destruct (decide (j = i)) as [->|Hji].
      + rewrite list_lookup_insert_eq by done. congruence.
      + rewrite list_lookup_insert_ne by done. intros Ej. apply Hji. by eapply (proj1 Hk).
    - apply cached_ext; [done..|]. intros j. unfold es'. rewrite held_insert by done.
      destruct (decide (j = i)) as [->|]; [|done]. unfold held. rewrite Ei. naive_solver. }
  split; [done|]. split; [apply cached_Some; [done..|by exists 1]|]. split; [done|].
  intros b'. destruct (decide (b = b')) as [<-|Hne]; [by apply (refs_of_Some _ _ _ i)|].
  unfold refs_of. rewrite Hc by done. destruct (decide (k = (dev, b'))) as [->|Hk0].
  - assert (cached es dev b' = Some i) as -> by (apply cached_Some; [done..|by exists 0]).
    by rewrite Ei.
  - destruct (cached es dev b') as [j|] eqn:Ej; [|done].
    apply cached_Some in Ej as [s Ej]; [|done..].
    unfold es'. rewrite list_lookup_insert_ne; [done|]. intros ->. rewrite Ei in Ej. congruence.
Qed.

Definition busy_of (es : list ((Z * Z) * Z)) : gset Z :=
  list_to_set ((λ e, e.1.2) <$> filter (λ e, 0 < e.2) es).

Definition one_dev (es : list ((Z * Z) * Z)) : Prop :=
  ∀ i dev b r, es !! i = Some ((dev, b), r) → dev = 0 ∨ dev = ROOTDEV.

Lemma one_dev_insert es i b r : one_dev es → one_dev (<[i := ((ROOTDEV, b), r)]> es).
Proof.
  intros H j dev b' r' E. destruct (decide (j = i)) as [->|].
  - destruct (decide (i < length es)%nat) as [Hi|Hi].
    + rewrite list_lookup_insert_eq in E by done. injection E as <- _ _. by right.
    + rewrite list_insert_ge in E by lia. by eapply H.
  - rewrite list_lookup_insert_ne in E by done. by eapply H.
Qed.

Lemma busy_of_refs es b :
  keys_ok es → one_dev es → b ∈ busy_of es ↔ 0 < refs_of es ROOTDEV b.
Proof.
  intros Hk H1. unfold busy_of. rewrite elem_of_list_to_set, list_elem_of_fmap. split.
  - intros ([[dev b'] r] & -> & [Hr Hin]%list_elem_of_filter). cbn in *.
    apply list_elem_of_lookup in Hin as [i Ei]. destruct (H1 _ _ _ _ Ei) as [->| ->].
    + destruct (proj2 Hk _ _ _ _ Ei) as [_ H0]. rewrite (H0 eq_refl) in Hr. lia.
    + by rewrite (refs_of_Some _ _ _ i r).
  - unfold refs_of. destruct (cached es ROOTDEV b) as [i|] eqn:E; [|lia].
    apply cached_Some in E as [r E]; [|done..]. rewrite E. cbn. intros Hr.
    exists ((ROOTDEV, b), r). split; [done|]. apply list_elem_of_filter. split; [done|].
    by eapply list_elem_of_lookup_2.
Qed.

Lemma busy_full es :
  keys_ok es → one_dev es → (∀ i k r, es !! i = Some (k, r) → r ≠ 0) →
  size (busy_of es) = length es.
Proof.
  intros Hk H1 Hr.
  assert (∀ i k r, es !! i = Some (k, r) → 0 < r ∧ k.1 = ROOTDEV) as Hp.
  { intros i [dev b] r E. destruct (proj2 Hk _ _ _ _ E) as [H0 H0']. pose proof (Hr _ _ _ E).
    split; [lia|]. destruct (H1 _ _ _ _ E) as [->| ->]; [|done]. by rewrite H0' in H. }
  unfold busy_of. assert (filter (λ e : (Z * Z) * Z, 0 < e.2) es = es) as ->.
  { apply filter_all. intros [k r] [i Ei]%list_elem_of_lookup. by apply (Hp i k r). }
  rewrite size_list_to_set; [apply length_fmap|].
  apply NoDup_alt. intros i j b. rewrite !list_lookup_fmap.
  destruct (es !! i) as [[[d b1] r]|] eqn:Ei; [|done].
  destruct (es !! j) as [[[d' b2] r']|] eqn:Ej; [|done]. cbn. intros [= ->] [= ->].
  destruct (Hp _ _ _ Ei) as [_ Hd]. destruct (Hp _ _ _ Ej) as [_ Hd']. cbn in *. subst.
  by eapply (proj1 Hk).
Qed.

(** * The cache keeps its promise *)
Section laws.
Context {D : Type} `{!BlockDev D} `{!BlockDevLaws D}.
Implicit Types (c : Bcache D).

Definition es c := entries (ctrl c).
Definition bhandle c (b : Z) : option Buf :=
  (λ i, {| buf_index := i; buf_dev := ROOTDEV; buf_blockno := b; buf_rc := i |})
    <$> cached (es c) ROOTDEV b.
Definition by_handle {A} (b : Z) (f : Buf → M (Bcache D) A) : M (Bcache D) A :=
  c ← get; h ← unwrap (bhandle c b) "no handle"; f h.

Definition bmem c (b : Z) : block :=
  match cached (es c) ROOTDEV b with
  | Some i => default zero_block (bdata c !! i)
  | None => dev_read (disk c) b
  end.

Definition bcache_ok c : Prop :=
  (∃ order, lru_ok (ctrl c) order) ∧ keys_ok (es c) ∧ one_dev (es c) ∧
  length (valid c) = NBUF ∧ length (bdata c) = NBUF ∧
  (∀ i b r, es c !! i = Some ((ROOTDEV, b), r) → valid c !! i = Some true) ∧
  Forall is_block (bdata c) ∧ dev_blocks (disk c).

#[global] Instance Bcache_cache : BlockCache (Bcache D) := {
  bread b := h ← Bcache_bread ROOTDEV b; raw_data h;
  bset b x := by_handle b (λ h, raw_data_mut h x);
  bwrite b := by_handle b Buf_bwrite;
  bpin b := by_handle b pin;
  bunpin b := by_handle b unpin;
  bdrop b := by_handle b Buf_drop;
  mem := bmem;
  dsk c b := dev_read (disk c) b;
  refs c b := refs_of (es c) ROOTDEV b;
  busy c := busy_of (es c);
  cache_ok := bcache_ok;
  writes := disk_writes;
}.

Lemma es_length c : bcache_ok c → length (es c) = NBUF.
Proof.
  intros ([order (Hlen & _)] & _). unfold es, entries. by rewrite length_fmap.
Qed.

Lemma busy_handle c b :
  bcache_ok c → 0 < refs_of (es c) ROOTDEV b →
  ∃ i r x, es c !! i = Some ((ROOTDEV, b), r) ∧ refs_of (es c) ROOTDEV b = r ∧
    cached (es c) ROOTDEV b = Some i ∧ bdata c !! i = Some x ∧ bmem c b = x ∧
    (∀ A (f : Buf → M (Bcache D) A), by_handle b f c =
       f {| buf_index := i; buf_dev := ROOTDEV; buf_blockno := b; buf_rc := i |} c).
Proof.
  intros Hok Hr. pose proof Hok as (_ & Hk & _ & _ & Hdl & _).
  pose proof Hr as Hr'. unfold refs_of in Hr'.
  destruct (cached (es c) ROOTDEV b) as [i|] eqn:E; [|lia]. clear Hr'.
  pose proof E as E'. apply cached_Some in E' as [r Ei]; [|done..].
  destruct (lookup_lt_is_Some_2 (bdata c) i) as [x Ex].
  { rewrite Hdl, <- (es_length c Hok). by eapply lookup_lt_Some. }
  exists i, r, x. split; [done|]. split; [by apply (refs_of_Some _ _ _ i)|]. split; [done|].
  split; [done|]. split; [unfold bmem; by rewrite E, Ex|].
  intros A f. unfold by_handle, bhandle. run_simpl. by rewrite E.
Qed.

(** A step that only changes reference counts and the order of release. *)
Lemma ctrl_step c l' b i r r' :
  bcache_ok c → es c !! i = Some ((ROOTDEV, b), r) → 0 ≤ r' →
  (∃ order, lru_ok l' order) → entries l' = <[i := ((ROOTDEV, b), r')]> (es c) →
  let c' := {| ctrl := l'; valid := valid c; bdata := bdata c; disk := disk c;
               disk_writes := disk_writes c |} in
  bcache_ok c' ∧ (∀ b', refs c' b' = if decide (b = b') then r' else refs c b') ∧
  (∀ b', dsk c' b' = dsk c b') ∧ writes c' = writes c ∧ (∀ b', mem c' b' = mem c b').
Proof.
  intros (_ & Hk & H1 & Hv & Hdl & Hval & Hblk & Hdev) Ei Hr' Hord HE c'.
  destruct (refcnt_view _ _ _ _ _ r' Hk Ei) as (Hk' & Hc & Hrf); [done..|].
  rewrite <- HE in *.
  assert (one_dev (entries l')) as H1' by (rewrite HE; by apply one_dev_insert).
  split; [|split; [done|split; [done|split; [done|]]]].
  - split; [done|]. split; [done|]. split; [done|]. split; [done|]. split; [done|].
    split; [|done]. intros j b' s Ej. unfold es in Ej. cbn in Ej. rewrite HE in Ej.
    cbn. destruct (decide (j = i)) as [->|Hne]; [by eapply Hval|].
    rewrite list_lookup_insert_ne in Ej by done. by eapply Hval.
  - intros b'. cbn. unfold bmem, es. cbn. by rewrite Hc.
Qed.

Lemma run_with_ctrl {A} (m : M BufLru A) c a l' :
  m (ctrl c) = Done (a, l') →
  with_ctrl m c = Done (a, {| ctrl := l'; valid := valid c; bdata := bdata c; disk := disk c;
                              disk_writes := disk_writes c |}).
Proof. unfold with_ctrl. by intros ->. Qed.

(** A reference count bumped or dropped through the handle, as [pin] and
    [unpin] do. *)
Lemma refcnt_store l order i k r r' :
  lru_ok l order → entries l !! i = Some (k, r) → 0 ≤ r' →
  ∃ l', upd i (with_refcnt r') l = Done (tt, l') ∧ lru_ok l' order ∧
        entries l' = <[i := (k, r')]> (entries l).
Proof.
  intros Hok E Hr'. destruct (lru_ok_entry _ _ _ _ _ Hok E) as (bc & Eb & <- & _).
  exists (with_inner l (alter (with_refcnt r') i (inner l))). split; [done|].
  split; [by apply lru_ok_alter|]. exact (entries_alter l i (with_refcnt r') bc Eb).
Qed.

Lemma Bcache_bpin_ok c b :
  bcache_ok c → 0 < refs c b → refs c b < 2 ^ 64 - 1 →
  ∃ c', bpin b c = Done (tt, c') ∧ bcache_ok c' ∧
    (∀ b', refs c' b' = if decide (b = b') then refs c b + 1 else refs c b') ∧
    (∀ b', dsk c' b' = dsk c b') ∧ writes c' = writes c ∧ (∀ b', mem c' b' = mem c b').
Proof.
  intros Hok Hr Hr64. cbn in Hr, Hr64.
  destruct (busy_handle c b Hok Hr) as (i & r & x & Ei & Er & _ & _ & _ & Hrun).
  rewrite Er in Hr, Hr64. pose proof Hok as ([order Hlru] & _).
  destruct (refcnt_store _ _ _ _ _ (r + 1) Hlru Ei) as (l' & Eu & Hlru' & HE); [lia|].
  destruct (lru_ok_entry _ _ _ _ _ Hlru Ei) as (bc & Eb & _ & Hbr & _).
  eexists. split; [cbn; rewrite Hrun; unfold pin; apply run_with_ctrl; cbn [buf_rc]|].
  { rewrite (bind_run _ _ _ bc (ctrl c)) by (by apply run_deref). rewrite Hbr.
    unfold add_chk. rewrite (proj2 (Z.ltb_lt _ _)) by lia. exact Eu. }
  cbn [refs Bcache_cache]. rewrite Er. eapply ctrl_step; [done|done|lia|by exists order|done].
Qed.

Lemma Bcache_bunpin_ok c b :
  bcache_ok c → 1 < refs c b →
  ∃ c', bunpin b c = Done (tt, c') ∧ bcache_ok c' ∧
    (∀ b', refs c' b' = if decide (b = b') then refs c b - 1 else refs c b') ∧
    (∀ b', dsk c' b' = dsk c b') ∧ writes c' = writes c ∧ (∀ b', mem c' b' = mem c b').
Proof.
  intros Hok Hr. cbn in Hr.
  destruct (busy_handle c b Hok) as (i & r & x & Ei & Er & _ & _ & _ & Hrun); [cbn; lia|].
  rewrite Er in Hr. pose proof Hok as ([order Hlru] & _).
  destruct (refcnt_store _ _ _ _ _ (r - 1) Hlru Ei) as (l' & Eu & Hlru' & HE); [lia|].
  destruct (lru_ok_entry _ _ _ _ _ Hlru Ei) as (bc & Eb & _ & Hbr & _).
  eexists. split; [cbn; rewrite Hrun; unfold unpin; apply run_with_ctrl; cbn [buf_rc]|].
  { rewrite (bind_run _ _ _ bc (ctrl c)) by (by apply run_deref). rewrite Hbr.
    rewrite (proj2 (Z.leb_gt _ _)) by lia. unfold sub_chk.
    rewrite (proj2 (Z.leb_le _ _)) by lia. exact Eu. }
  cbn [refs Bcache_cache]. rewrite Er. eapply ctrl_step; [done|done|lia|by exists order|done].
Qed.

Lemma Bcache_bdrop_ok c b :
  bcache_ok c → 0 < refs c b →
  ∃ c', bdrop b c = Done (tt, c') ∧ bcache_ok c' ∧
    (∀ b', refs c' b' = if decide (b = b') then refs c b - 1 else refs c b') ∧
    (∀ b', dsk c' b' = dsk c b') ∧ writes c' = writes c ∧ (∀ b', mem c' b' = mem c b').
Proof.
  intros Hok Hr. cbn in Hr.
  destruct (busy_handle c b Hok Hr) as (i & r & x & Ei & Er & _ & _ & _ & Hrun).
  rewrite Er in Hr. pose proof Hok as ([order Hlru] & _).
  destruct (move_if_no_ref_spec _ _ _ _ _ Hlru Ei Hr) as (l' & Em & Hlru' & HE).
  eexists. split; [cbn; rewrite Hrun; unfold Buf_drop, brelse; by apply run_with_ctrl|].
  cbn [refs Bcache_cache]. rewrite Er. eapply ctrl_step; [done|done|lia|by eexists|done].
Qed.

Lemma Bcache_bset_ok c b x :
  bcache_ok c → 0 < refs c b → is_block x →
  ∃ c', bset b x c = Done (tt, c') ∧ bcache_ok c' ∧
    (∀ b', refs c' b' = refs c b') ∧ (∀ b', dsk c' b' = dsk c b') ∧ writes c' = writes c ∧
    (∀ b', mem c' b' = if decide (b = b') then x else mem c b').
Proof.
  intros Hok Hr Hx. cbn in Hr.
  destruct (busy_handle c b Hok Hr) as (i & r & y & Ei & Er & Ec & Ey & _ & Hrun).
  pose proof Hok as (Hl & Hk & H1 & Hv & Hdl & Hval & Hblk & Hdev).
  eexists. split; [cbn; by rewrite Hrun|]. split.
  { split; [done|]. split; [done|]. split; [done|]. split; [done|].
    split; [cbn; by rewrite length_insert|]. split; [done|].
    split; [by apply Forall_insert|done]. }
  split; [done|]. split; [done|]. split; [done|].
  intros b'. cbn. unfold bmem. cbn. change (es _) with (es c).
  destruct (decide (b = b')) as [<-|Hne].
  - rewrite Ec, list_lookup_insert_eq; [done|]. by eapply lookup_lt_Some.
  - destruct (cached (es c) ROOTDEV b') as [j|] eqn:Ej; [|done].
    rewrite list_lookup_insert_ne; [done|]. intros ->.
    apply cached_Some in Ej as [s Ej]; [|done..]. rewrite Ei in Ej. congruence.
Qed.

Lemma Bcache_bwrite_ok c b :
  bcache_ok c → 0 < refs c b →
  ∃ c', bwrite b c = Done (tt, c') ∧ bcache_ok c' ∧
    (∀ b', refs c' b' = refs c b') ∧ (∀ b', mem c' b' = mem c b') ∧
    writes c' = writes c ++ [(b, mem c b)] ∧
    (∀ b', dsk c' b' = if decide (b = b') then mem c b else dsk c b').
Proof.
  intros Hok Hr. cbn in Hr.
  destruct (busy_handle c b Hok Hr) as (i & r & x & Ei & Er & Ec & Ex & Em & Hrun).
  pose proof Hok as (Hl & Hk & H1 & Hv & Hdl & Hval & Hblk & Hdev).
  eexists. split.
  { cbn. rewrite Hrun. unfold Buf_bwrite, disk_rw. run_simpl. cbn. rewrite Ex. reflexivity. }
  assert (∀ b', dev_read (dev_write b x (disk c)) b' =
    if decide (b = b') then x else dev_read (disk c) b') as Hd.
  { intros b'. destruct (decide (b = b')) as [<-|];
      [apply dev_read_write_eq|by apply dev_read_write_ne]. }
  split.
  { split; [done|]. split; [done|]. split; [done|]. split; [done|].
    split; [done|]. split; [done|]. split; [done|].
    intros b'. cbn. rewrite Hd. destruct (decide (b = b')); [|done].
    rewrite Forall_lookup in Hblk. by eapply Hblk. }
  split; [done|]. split.
  { intros b'. cbn. unfold bmem. cbn. change (es _) with (es c).
    destruct (cached (es c) ROOTDEV b') as [j|] eqn:Ej; [done|].
    rewrite Hd. destruct (decide (b = b')) as [<-|]; congruence. }
  cbn. rewrite Em. split; [done|]. intros b'. apply Hd.
Qed.

(** [bread] on a block that has a buffer. *)
Lemma bread_hit c b i r :
  bcache_ok c → es c !! i = Some ((ROOTDEV, b), r) → r < 2 ^ 64 - 1 →
  ∃ l', Bcache_bread ROOTDEV b c =
      Done ({| buf_index := i; buf_dev := ROOTDEV; buf_blockno := b; buf_rc := i |},
            {| ctrl := l'; valid := valid c; bdata := bdata c; disk := disk c;
               disk_writes := disk_writes c |}) ∧
    (∃ order, lru_ok l' order) ∧ entries l' = <[i := ((ROOTDEV, b), r + 1)]> (es c).
Proof.
  intros Hok Ei Hr. pose proof Hok as ([order Hlru] & Hk & _ & _ & _ & Hval & _).
  destruct (find_cached_spec (ctrl c) order ROOTDEV b Hlru Hk)
    as [(j & s & l' & Ej & Ef & Hlru' & HE)|[Hno _]]; [done| | |].
  - intros j s Ej. assert (j = i) as -> by (by eapply (proj1 Hk)).
    assert (Some ((ROOTDEV, b), s) = Some ((ROOTDEV, b), r)) as [= ->] by (by rewrite <- Ej, <- Ei).
    done.
  - assert (j = i) as -> by (by eapply (proj1 Hk)).
    assert (Some ((ROOTDEV, b), s) = Some ((ROOTDEV, b), r)) as [= ->] by (by rewrite <- Ej, <- Ei).
    exists l'. split; [|split; [by exists order|done]].
    unfold Bcache_bread, bget. run_simpl. rewrite (run_with_ctrl _ _ _ _ Ef). cbn.
    by rewrite (Hval _ _ _ Ei).
  - rewrite cached_None in Hno. by destruct (Hno i r).
Qed.

(** [bread] on a block without a buffer takes over buffer [i], the least
    recently released of those nobody references. *)
Lemma bread_miss c b :
  bcache_ok c → cached (es c) ROOTDEV b = None →
  (∃ order o1 i o2 k l', lru_ok (ctrl c) order ∧ order = o1 ++ i :: o2 ∧
     es c !! i = Some (k, 0) ∧
     (∀ j k' r, j ∈ o2 → es c !! j = Some (k', r) → r ≠ 0) ∧
     Bcache_bread ROOTDEV b c =
      Done ({| buf_index := i; buf_dev := ROOTDEV; buf_blockno := b; buf_rc := i |},
            {| ctrl := l'; valid := <[i := true]> (<[i := false]> (valid c));
               bdata := <[i := dev_read (disk c) b]> (bdata c); disk := disk c;
               disk_writes := disk_writes c |}) ∧
     lru_ok l' order ∧ entries l' = <[i := ((ROOTDEV, b), 1)]> (es c)) ∨
  ((∀ i k r, es c !! i = Some (k, r) → r ≠ 0) ∧
     Bcache_bread ROOTDEV b c = Panic "no usable buffer").
Proof.
  intros Hok Hno. pose proof Hok as ([order Hlru] & Hk & _ & Hv & _ & Hval & _).
  destruct (find_cached_spec (ctrl c) order ROOTDEV b Hlru Hk)
    as [(j & s & l' & Ej & _)|[_ Ef]]; [done| | |].
  - intros j s Ej. rewrite cached_None in Hno. by destruct (Hno j s).
  - rewrite cached_None in Hno. by destruct (Hno j s).
  - assert (∀ A (k : option (nat * nat) → M (Bcache D) A),
      (with_ctrl (find_cached ROOTDEV b) ≫= k) c = k None c) as Hf.
    { intros A k. rewrite (bind_run _ _ _ _ _ (run_with_ctrl _ _ _ _ Ef)). by destruct c. }
    destruct (recycle_spec (ctrl c) order ROOTDEV b Hlru)
      as [(o1 & i & o2 & k & l' & Ho & Ei & Hlast & Er & Hlru' & HE)|[Hfull Er]].
    + left. exists order, o1, i, o2, k, l'. do 4 (split; [done|]). split; [|done].
      assert (i < length (valid c))%nat as Hi.
      { rewrite Hv, <- (es_length c Hok). by eapply lookup_lt_Some. }
      unfold Bcache_bread, bget. unfold mbind at 1, M_bind at 1. rewrite Hf.
      run_simpl. rewrite (run_with_ctrl _ _ _ _ Er). cbn.
      by rewrite list_lookup_insert_eq.
    + right. split; [done|]. unfold Bcache_bread, bget. unfold mbind at 1, M_bind at 1. rewrite Hf.
      run_simpl. by rewrite (run_with_ctrl _ _ _ _ Er).
Qed.

Lemma Bcache_bread_ok c b :
  bcache_ok c → b ∈ busy c ∨ (size (busy c) < NBUF)%nat → refs c b < 2 ^ 64 - 1 →
  ∃ c', bread b c = Done (mem c b, c') ∧ bcache_ok c' ∧
    (∀ b', refs c' b' = if decide (b = b') then refs c b + 1 else refs c b') ∧
    (∀ b', dsk c' b' = dsk c b') ∧ writes c' = writes c ∧
    mem c' b = mem c b ∧
    (∀ b', b' ∈ busy c ∨ clean c b' → mem c' b' = mem c b').
Proof.
  intros Hok Hroom Hr64. pose proof Hok as (_ & Hk & H1 & Hv & Hdl & Hval & Hblk & Hdev).
  cbn in Hroom, Hr64.
  destruct (cached (es c) ROOTDEV b) as [i|] eqn:Ec.
  - pose proof Ec as [r Ei]%cached_Some; [|done..].
    assert (refs_of (es c) ROOTDEV b = r) as Er by (by apply (refs_of_Some _ _ _ i)).
    rewrite Er in Hr64.
    destruct (lookup_lt_is_Some_2 (bdata c) i) as [x Ex].
    { rewrite Hdl, <- (es_length c Hok). by eapply lookup_lt_Some. }
    destruct (bread_hit c b i r Hok Ei Hr64) as (l' & Eb & Hlru' & HE).
    destruct (ctrl_step c l' b i r (r + 1) Hok Ei) as (Hok' & H2 & H3 & H4 & H5); [|done..|].
    { destruct (proj2 Hk _ _ _ _ Ei). lia. }
    eexists. split.
    { cbn. rewrite (bind_run _ _ _ _ _ Eb). unfold raw_data. run_simpl. cbn. rewrite Ex.
      unfold bmem. rewrite Ec, Ex. reflexivity. }
    split; [done|]. cbn [refs Bcache_cache] in *. rewrite Er. auto 10.
  - destruct (bread_miss c b Hok Ec) as [(order & o1 & i & o2 & k & l' & Hlru & -> & Ei & _ & Eb & Hlru' & HE)|[Hfull _]].
    2: { exfalso. pose proof (busy_full _ Hk H1 Hfull) as Hsz. rewrite (es_length c Hok) in Hsz.
         destruct Hroom as [Hb|]; [|lia]. apply busy_of_refs in Hb; [|done..].
         unfold refs_of in Hb. rewrite Ec in Hb. lia. }
    destruct (recycle_view (es c) i k ROOTDEV b Hk Ei)
      as (Hk' & Hc1 & Hc2 & Hrf); [done|done|].
    assert (i < NBUF)%nat as Hi by (rewrite <- (es_length c Hok); by eapply lookup_lt_Some).
    assert (<[i := dev_read (disk c) b]> (bdata c) !! i = Some (dev_read (disk c) b)) as Hx
      by (apply list_lookup_insert_eq; lia).
    eexists. split.
    { cbn. rewrite (bind_run _ _ _ _ _ Eb). unfold raw_data. run_simpl. cbn. rewrite Hx.
      unfold bmem. rewrite Ec. reflexivity. }
    split.
    { split; [by eexists|]. unfold es. cbn. rewrite HE. split; [done|].
      split; [by apply one_dev_insert|]. rewrite !length_insert. split; [done|]. split; [done|].
      split; [|split; [by apply Forall_insert|done]]. intros j b' s. rewrite list_insert_insert_eq.
      destruct (decide (j = i)) as [->|Hne].
      - intros _. apply list_lookup_insert_eq. lia.
      - rewrite !list_lookup_insert_ne by done. apply Hval. }
    cbn. unfold es, bmem. cbn. unfold es. cbn. rewrite HE. fold (es c). split.
    { intros b'. rewrite Hrf. destruct (decide (b = b')) as [<-|]; [|done].
      unfold refs_of. by rewrite Ec. }
    split; [done|]. split; [done|]. split; [by rewrite Hc1, Hx, Ec|].
    intros b' Hb'. destruct (decide (b = b')) as [<-|Hne]; [by rewrite Hc1, Hx, Ec|].
    rewrite Hc2 by done. destruct (decide (k = (ROOTDEV, b'))) as [->|Hk0].
    + assert (cached (es c) ROOTDEV b' = Some i) as Ec' by (apply cached_Some; [done..|by exists 0]).
      rewrite Ec'. destruct Hb' as [Hb'|Hb'].
      * cbn in Hb'. apply busy_of_refs in Hb'; [|done..].
        rewrite (refs_of_Some (es c) ROOTDEV b' i 0) in Hb' by done. lia.
      * unfold clean in Hb'. cbn in Hb'. unfold bmem in Hb'. by rewrite Ec' in Hb'.
    + destruct (cached (es c) ROOTDEV b') as [j|] eqn:Ej; [|done].
      rewrite list_lookup_insert_ne; [done|]. intros ->.
      apply cached_Some in Ej as [s Ej]; [|done..]. rewrite Ei in Ej. congruence.
Qed.

#[global] Instance Bcache_laws : BlockCacheLaws (Bcache D).
Proof.
  assert (∀ c b, bcache_ok c → b ∈ busy c → 0 < refs c b) as Hbusy.
  { intros c b (_ & Hk & H1 & _). by apply busy_of_refs. }
  split.
  - intros c b (_ & Hk & H1 & _). by apply busy_of_refs.
  - intros c b (_ & Hk & _). cbn. unfold refs_of. destruct (cached _ _ _) as [i|]; [|lia].
    destruct (es c !! i) as [[[d x] r]|] eqn:E; cbn; [|lia]. by destruct (proj2 Hk _ _ _ _ E).
  - intros c b (_ & _ & _ & _ & Hdl & _ & Hblk & Hdev). cbn. unfold bmem.
    destruct (cached _ _ _) as [i|]; [|done].
    destruct (bdata c !! i) as [x|] eqn:E; cbn; [|by split; [|apply Forall_replicate]].
    rewrite Forall_lookup in Hblk. by eapply Hblk.
  - intros c b (_ & _ & _ & _ & _ & _ & _ & Hdev). apply Hdev.
  - apply Bcache_bread_ok.
  - intros c b x Hok Hb. apply Bcache_bset_ok; auto.
  - intros c b Hok Hb. apply Bcache_bwrite_ok; auto.
  - intros c b Hok Hb. apply Bcache_bpin_ok; auto.
  - apply Bcache_bunpin_ok.
  - intros c b Hok Hb. apply Bcache_bdrop_ok; auto.
Qed.
End laws.

(** The state [binit] leaves, over any disk. *)
Section boot.
Context {D : Type} `{!BlockDev D} `{!BlockDevLaws D}.

Lemma boot_ok (d : D) :
  dev_blocks d →
  ∃ c, with_ctrl binit (Bcache_new d) = Done (tt, c) ∧
    arel c {| a_mem := dev_read d; a_dsk := dev_read d; a_refs := ∅; a_writes := [] |}.
Proof.
  intros Hd. destruct binit_ok as (l & E & Hlru & HE & Hk).
  eexists. split; [by apply run_with_ctrl|].
  assert (∀ i k r, entries l !! i = Some (k, r) → k = (0, 0) ∧ r = 0) as H0.
  { intros i k r. rewrite HE. intros [[= -> ->] _]%lookup_replicate. done. }
  assert (∀ b, cached (entries l) ROOTDEV b = None) as Hc.
  { intros b. apply cached_None. intros i r Ei. by apply H0 in Ei as [[=] _]. }
  split; cbn.
  - split; [by eexists|]. split; [done|]. split; [|split; [done|split; [done|split]]].
    + intros i dev b r Ei. apply H0 in Ei as [[= -> _] _]. by left.
    + intros i b r Ei. unfold es in Ei. cbn in Ei. by apply H0 in Ei as [[=] _].
    + split; [|done]. change (Forall is_block (replicate NBUF zero_block)).
      apply Forall_replicate. by split; [|apply Forall_replicate].
  - intros b. unfold bmem, es. cbn. by rewrite Hc.
  - done.
  - intros b. unfold refs_of, es. cbn. by rewrite Hc.
  - done.
  - done.
  - done.
Qed.

Definition boot_cache (d : D) : Bcache D :=
  match with_ctrl binit (Bcache_new d) with Done (_, c) => c | Panic _ => Bcache_new d end.

Lemma boot_cache_ok (d : D) :
  dev_blocks d →
  arel (boot_cache d) {| a_mem := dev_read d; a_dsk := dev_read d; a_refs := ∅; a_writes := [] |}.
Proof. intros Hd. unfold boot_cache. by destruct (boot_ok d Hd) as (c & -> & HR). Qed.

(** C10. The buffer cache implements a write-back cache: from boot, any
    sequence of reads, stores, writes, pins, unpins and releases that follows
    the abstract client's discipline (at most [NBUF] blocks referenced, no last
    release of a dirty block) runs without a panic, every [bread] returns the
    last store to that block (or the disk contents), and the disk ends with
    exactly the written contents. *)
Theorem bcache_refines (d : D) (os : list bop) rs a :
  dev_blocks d →
  arun os {| a_mem := dev_read d; a_dsk := dev_read d; a_refs := ∅; a_writes := [] |} = Some (rs, a) →
  ∃ c, (with_ctrl binit;; crun os) (Bcache_new d) = Done (rs, c) ∧
    (∀ b, bmem c b = a_mem a b) ∧ (∀ b, dev_read (disk c) b = a_dsk a b).
Proof.
  intros Hd Ha. destruct (boot_ok d Hd) as (c0 & E0 & HR).
  destruct (crun_refines _ _ _ _ _ HR Ha) as (c & E & [_ Hm Hdk _ _ _ _]).
  exists c. split; [by rewrite (bind_run _ _ _ _ _ E0)|]. by split.
Qed.

(** Replacement: on a miss [bread] takes over the unreferenced buffer
    released longest ago (every buffer behind it in the release order is
    referenced), gives it to the block with one reference and fills it from
    the disk; it panics exactly when all [NBUF] buffers are referenced. *)
Theorem bread_replaces_lru (c : Bcache D) b :
  bcache_ok c → cached (es c) ROOTDEV b = None →
  (∃ order o1 i o2 k l', lru_ok (ctrl c) order ∧ order = o1 ++ i :: o2 ∧
     es c !! i = Some (k, 0) ∧
     (∀ j k' r, j ∈ o2 → es c !! j = Some (k', r) → r ≠ 0) ∧
     Bcache_bread ROOTDEV b c =
      Done ({| buf_index := i; buf_dev := ROOTDEV; buf_blockno := b; buf_rc := i |},
            {| ctrl := l'; valid := <[i := true]> (<[i := false]> (valid c));
               bdata := <[i := dev_read (disk c) b]> (bdata c); disk := disk c;
               disk_writes := disk_writes c |}) ∧
     lru_ok l' order ∧ entries l' = <[i := ((ROOTDEV, b), 1)]> (es c)) ∨
  ((∀ i k r, es c !! i = Some (k, r) → r ≠ 0) ∧
     Bcache_bread ROOTDEV b c = Panic "no usable buffer").
Proof. apply bread_miss. Qed.
End boot.

(** Releasing the last reference of a buffer makes it the most recently
    released one; releasing any other reference leaves the order alone. *)
Theorem brelse_order l order i k r :
  lru_ok l order → entries l !! i = Some (k, r) → 0 < r →
  ∃ l', move_if_no_ref i l = Done (tt, l') ∧
    lru_ok l' (if decide (r = 1) then released order i else order) ∧
    entries l' = <[i := (k, r - 1)]> (entries l).
Proof. apply move_if_no_ref_spec. Qed.

(** ** The theorems at concrete inputs *)
Definition zero_disk : Z → block := λ _, zero_block.
Lemma zero_disk_blocks : dev_blocks zero_disk.
Proof. intros b. by split; [|apply Forall_replicate]. Qed.

Lemma bcache_refines_witness :
  let x := replicate (Z.to_nat BSIZE) 7 in
  ∃ c, (with_ctrl binit;; crun [Read 5; Store 5 x; Write 5; Release 5; Read 6; Read 5])
         (Bcache_new zero_disk) = Done ([Some zero_block; None; None; None; Some zero_block; Some x], c) ∧
    dev_read (disk c) 5 = x.
Proof.
  intros x.
  edestruct (bcache_refines zero_disk
    [Read 5; Store 5 x; Write 5; Release 5; Read 6; Read 5]) as (c & E & _ & Hd).
  - apply zero_disk_blocks.
  - vm_compute. reflexivity.
  - exists c. split; [exact E|]. rewrite Hd. vm_compute. reflexivity.
Defined.

Lemma bread_replaces_lru_witness :
  ∃ c, with_ctrl binit (Bcache_new zero_disk) = Done (tt, c) ∧
    (∃ b c', Bcache_bread ROOTDEV 5 c = Done (b, c')).
Proof.
  destruct (boot_ok zero_disk zero_disk_blocks) as (c & E & HR).
  exists c. split; [exact E|].
  destruct (bread_replaces_lru c 5 (ar_ok _ _ HR)) as [(? & ? & i & ? & ? & l' & _ & _ & _ & _ & Eb & _)|[Hf _]].
  - vm_compute in E. injection E as <-. vm_compute. reflexivity.
  - eexists _, _. exact Eb.
  - exfalso. vm_compute in E. injection E as <-. apply (Hf 0%nat (0, 0) 0); reflexivity.
Defined.

Lemma brelse_order_witness :
  ∃ c, with_ctrl (binit;; find_cached 0 0) (Bcache_new zero_disk) = Done (Some (0%nat, 0%nat), c) ∧
    ∃ l', move_if_no_ref 0 (ctrl c) = Done (tt, l').
Proof.
  destruct binit_ok as (l & E & Hlru & HE & _).
  destruct (refcnt_store l (seq 0 NBUF) 0 (0, 0) 0 1 Hlru) as (l1 & E1 & Hlru1 & HE1);
    [by rewrite HE|lia|].
  eexists. split.
  - unfold with_ctrl. cbn [ctrl Bcache_new]. rewrite (bind_run _ _ _ _ _ E).
    vm_compute in E. injection E as <-. vm_compute in E1. injection E1 as <-. reflexivity.
  - destruct (brelse_order l1 (seq 0 NBUF) 0 (0, 0) 1 Hlru1) as (l' & El & _).
    + rewrite HE1, HE. reflexivity.
    + lia.
    + exists l'. vm_compute in E. injection E as <-. vm_compute in E1. injection E1 as <-. exact El.
Defined.
