(* ===== verification/Log.v ===== *)
(** * The write-ahead log ([kernel/src/fs/log.rs])

    The log is a client of the buffer cache: everything here is stated over any
    [BlockCache].  [LOG] is guarded by a spin lock; [commit] runs without it but
    under the [committing] flag, which keeps every other operation out, so the
    methods are sequential steps on the log and the cache.  [begin_op] is one
    pass of its loop: it answers whether the operation was admitted, or the
    process went to sleep to try again. *)
From S2P Require Import Prelude Consts Bytes BlockCache Bio.

Record LogHeader := { len : Z; blocknos : list Z }.
Record Log := {
  start : Z; size_ : Z; dev : Z; outstanding : Z; committing : bool; lh : LogHeader;
}.
Definition NBLOCKNOS : nat := Z.to_nat (LOGSIZE - 1).
Definition uninit : Log :=
  {| start := 0; size_ := 0; dev := 0; outstanding := 0; committing := false;
     lh := {| len := 0; blocknos := replicate NBLOCKNOS 0 |} |}.

(** The header as it lies in a block: [repr(C)], little endian. *)
Definition header_bytes (h : LogHeader) : list Z :=
  le_bytes 4 (len h) ++ concat (le_bytes 4 <$> blocknos h).
Definition read_header (x : block) : LogHeader :=
  {| len := read_u32 x 0; blocknos := (λ i, read_u32 x (4 + 4 * i)) <$> seq 0 NBLOCKNOS |}.
Definition write_header (h : LogHeader) (x : block) : block := write_at x 0 (header_bytes h).

Section log.
Context {C : Type} `{!BlockCache C}.

Record fs := { lg : Log; bc : C }.

Definition on_cache {A} (m : M C A) : M fs A := λ s,
  match m (bc s) with
  | Done (a, c) => Done (a, {| lg := lg s; bc := c |})
  | Panic why => Panic why
  end.
Definition set_lg (f : Log → Log) : M fs unit := modify (λ s, {| lg := f (lg s); bc := bc s |}).
Definition set_lh (h : LogHeader) : M fs unit :=
  set_lg (λ l, {| start := start l; size_ := size_ l; dev := dev l; outstanding := outstanding l;
                  committing := committing l; lh := h |}).
Definition set_outstanding (n : Z) : M fs unit :=
  set_lg (λ l, {| start := start l; size_ := size_ l; dev := dev l; outstanding := n;
                  committing := committing l; lh := lh l |}).
Definition set_committing (v : bool) : M fs unit :=
  set_lg (λ l, {| start := start l; size_ := size_ l; dev := dev l; outstanding := outstanding l;
                  committing := v; lh := lh l |}).

Definition read_head : M fs unit :=
  l ← gets lg;
  x ← on_cache (bread (start l));
  set_lh (read_header x);;
  on_cache (bdrop (start l)).

Definition write_head : M fs unit :=
  l ← gets lg;
  x ← on_cache (bread (start l));
  on_cache (bset (start l) (write_header (lh l) x));;
  on_cache (bwrite (start l));;
  on_cache (bdrop (start l)).

Definition empty_head : M fs unit :=
  l ← gets lg;
  set_lh {| len := 0; blocknos := blocknos (lh l) |};;
  x ← on_cache (bread (start l));
  on_cache (bset (start l) (write_u32 x 0 0));;
  on_cache (bwrite (start l));;
  on_cache (bdrop (start l)).

(** [self.start + 1 + i] and [self.lh.blocknos[i]]. *)
Definition log_block (i : Z) : M fs Z :=
  l ← gets lg; t ← lift (add32 (start l) 1); lift (add32 t i).
Definition home_block (i : Z) : M fs Z :=
  l ← gets lg; unwrap (blocknos (lh l) !! Z.to_nat i) "index out of bounds".

Definition install_one (recovering : bool) (i : Z) : M fs unit :=
  lb ← log_block i;
  x ← on_cache (bread lb);
  hb ← home_block i;
  on_cache (bread hb);;
  on_cache (bset hb x);;
  on_cache (bwrite hb);;
  (if recovering then mret tt else on_cache (bunpin hb));;
  on_cache (bdrop lb);;
  on_cache (bdrop hb).
Definition install_trans (recovering : bool) : M fs unit :=
  l ← gets lg; for_range (Z.to_nat (len (lh l))) 0 (install_one recovering).

Definition write_log_one (i : Z) : M fs unit :=
  lb ← log_block i;
  on_cache (bread lb);;
  hb ← home_block i;
  x ← on_cache (bread hb);
  on_cache (bset lb x);;
  on_cache (bwrite lb);;
  on_cache (bdrop hb);;
  on_cache (bdrop lb).
Definition write_log : M fs unit :=
  l ← gets lg; for_range (Z.to_nat (len (lh l))) 0 write_log_one.

Definition commit : M fs unit :=
  l ← gets lg;
  if negb (committing l) then panic "log: committing while the committing flag is not set"
  else if 0 <? len (lh l) then
    write_log;; write_head;; install_trans false;; empty_head
  else mret tt.

Definition recover : M fs unit :=
  read_head;;
  l ← gets lg;
  if 0 <? len (lh l) then install_trans true;; empty_head else mret tt.

(** [init]: [sb] is what [SUPER_BLOCK.read_log] returns. *)
Definition log_init (sb : Z * Z) (d : Z) : M fs unit :=
  set_lg (λ l, {| start := sb.1; size_ := sb.2; dev := d; outstanding := outstanding l;
                  committing := committing l; lh := lh l |});;
  recover.

Definition begin_op : M fs bool :=
  l ← gets lg;
  o ← lift (add32 (outstanding l) 1);
  if committing l || (1 + len (lh l) + o * MAXOPBLOCKS >? LOGSIZE) then mret false
  else set_outstanding o;; mret true.

Fixpoint already_logged (n : nat) (i : nat) (b : Z) : M fs bool :=
  match n with
  | O => mret false
  | S n =>
      l ← gets lg;
      x ← unwrap (blocknos (lh l) !! i) "index out of bounds";
      if x =? b then mret true else already_logged n (S i) b
  end.

(** [write(buf)] for the handle of block [b], which it consumes. *)
Definition log_write (b : Z) : M fs unit :=
  l ← gets lg;
  n1 ← lift (add32 (len (lh l)) 1);
  if (n1 >=? LOGSIZE) || (n1 >=? size_ l) then panic "log: not enough space for ongoing transactions"
  else if outstanding l <? 1 then panic "log: this log write is out of recording"
  else
    dup ← already_logged (Z.to_nat (len (lh l))) 0 b;
    if (dup : bool) then on_cache (bdrop b)
    else
      n2 ← lift (add32 (len (lh l)) 2);
      if (n2 >=? LOGSIZE) || (n2 >=? size_ l) then panic "log: not enough space for this transaction"
      else
        on_cache (bpin b);;
        assertM (Z.to_nat (len (lh l)) <? length (blocknos (lh l)))%nat "index out of bounds";;
        set_lh {| len := n1; blocknos := <[Z.to_nat (len (lh l)) := b]> (blocknos (lh l)) |};;
        on_cache (bdrop b).

Definition end_op : M fs unit :=
  l ← gets lg;
  o ← lift (sub_chk (outstanding l) 1);
  set_outstanding o;;
  if committing l then panic "log: end fs op while the log is committing"
  else if o =? 0 then
    set_committing true;;
    commit;;
    set_committing false
  else mret tt.
End log.
Arguments fs C : clear implicits.

(** * Headers *)
Definition header_wf (h : LogHeader) : Prop :=
  is_u32 (len h) ∧ Forall is_u32 (blocknos h) ∧ length (blocknos h) = NBLOCKNOS.

Lemma length_header_bytes h :
  length (blocknos h) = NBLOCKNOS → length (header_bytes h) = 120%nat.
Proof.
  intros H. unfold header_bytes. by rewrite length_app, length_le_bytes, length_concat_le, H.
Qed.

Lemma header_bytes_is_byte h : Forall is_byte (header_bytes h).
Proof.
  unfold header_bytes. apply Forall_app. split; [apply le_bytes_is_byte|].
  apply Forall_concat, Forall_fmap, Forall_true. intros x. apply le_bytes_is_byte.
Qed.

Lemma read_write_header h x :
  header_wf h → is_block x → read_header (write_header h x) = h.
Proof.
  intros (Hl & Hb & Hn) [Hx _]. destruct h as [n bs].
  cbn [len blocknos] in *.
  pose proof (length_header_bytes {| len := n; blocknos := bs |} Hn) as HL.
  assert (length x = 1024%nat) as Hx' by done.
  unfold read_header, read_u32, read_le, write_header. f_equal.
  - rewrite window_write_sub0 by lia. rewrite drop_0. unfold header_bytes. cbn [len].
    rewrite take_app_length' by (by rewrite length_le_bytes).
    rewrite le_val_le_bytes. apply Z.mod_small. exact Hl.
  - apply list_eq. intros i. rewrite list_lookup_fmap.
    destruct (decide (i < NBLOCKNOS)%nat) as [Hi|Hi].
    + rewrite lookup_seq_lt by done.
      destruct (lookup_lt_is_Some_2 bs i) as [b Eb]; [lia|]. rewrite Eb.
      assert (i < 29)%nat by exact Hi.
      cbn [fmap option_fmap option_map]. f_equal.
      rewrite window_write_sub0 by lia. unfold header_bytes. cbn [len blocknos].
      rewrite drop_app_ge by (rewrite length_le_bytes; lia). rewrite length_le_bytes.
      replace (4 + 4 * (0 + i) - 4)%nat with (4 * i)%nat by lia.
      rewrite (window_concat_le _ _ _ _ Eb), le_val_le_bytes, Z.mod_small; [done|].
      rewrite Forall_lookup in Hb. apply (Hb i b Eb).
    + rewrite lookup_seq_ge by lia. cbn. symmetry. apply lookup_ge_None. lia.
Qed.

Lemma write_header_block h x :
  length (blocknos h) = NBLOCKNOS → is_block x → is_block (write_header h x).
Proof.
  intros Hn [Hx Hb]. pose proof (length_header_bytes h Hn). split.
  - unfold write_header. rewrite length_write_at; [done|].
    assert (length x = 1024%nat) as -> by done. lia.
  - apply write_at_bytes; [done|apply header_bytes_is_byte].
Qed.

Lemma clear_len_block x : is_block x → is_block (write_u32 x 0 0).
Proof.
  intros [Hx Hb]. split.
  - unfold write_u32. rewrite length_write_at; [done|].
    assert (length x = 1024%nat) as -> by done. rewrite length_le_bytes. lia.
  - apply write_at_bytes; [done|apply le_bytes_is_byte].
Qed.

Lemma read_clear_len x : is_block x → len (read_header (write_u32 x 0 0)) = 0.
Proof.
  intros [Hx _]. cbn. unfold read_u32, write_u32. rewrite read_le_write_same; [done|].
  assert (length x = 1024%nat) as -> by done. lia.
Qed.

Lemma read_header_wf x : is_block x → header_wf (read_header x).
Proof.
  intros [_ Hb]. split; [|split; [|done]].
  - by apply (read_le_bounds 4).
  - apply Forall_fmap, Forall_true. intros i. by apply (read_le_bounds 4).
Qed.

(** * The log over the abstract cache *)
Definition put (a : absc) (b : Z) (x : block) : absc := set_dsk (set_mem a b x) b x.
Definition puts (a : absc) (w : list (Z * block)) : absc :=
  {| a_mem := apply_writes w (a_mem a); a_dsk := apply_writes w (a_dsk a);
     a_refs := a_refs a; a_writes := a_writes a ++ w |}.

Section specs.
Context {C : Type} `{!BlockCache C} `{!BlockCacheLaws C}.
Implicit Types (s : fs C) (l : Log) (a : absc).

Definition frel s l a : Prop := lg s = l ∧ arel (bc s) a.

(** One cache operation inside a log operation. *)
Definition ran {A} (m : M (fs C) A) s l (r : A) a : Prop :=
  ∃ s', m s = Done (r, s') ∧ frel s' l a.

Lemma ran_ret {A} (r : A) s l a : frel s l a → ran (mret r) s l r a.
Proof. intros H. by exists s. Qed.

Lemma ran_bind {A B} (m : M (fs C) A) (f : A → M (fs C) B) s l l' r r' a a' :
  ran m s l r a → (∀ s1, frel s1 l a → ran (f r) s1 l' r' a') → ran (m ≫= f) s l' r' a'.
Proof.
  intros (s1 & E1 & H1) Hf. destruct (Hf s1 H1) as (s2 & E2 & H2).
  exists s2. by rewrite (bind_run _ _ _ _ _ E1).
Qed.

Lemma ran_pure {A B} (m : M (fs C) A) (f : A → M (fs C) B) s l r r' a :
  m s = Done (r, s) → ran (f r) s l r' a → ran (m ≫= f) s l r' a.
Proof. intros E (s2 & E2 & H2). exists s2. by rewrite (bind_run _ _ _ _ _ E). Qed.

Lemma ran_on_cache {A} (m : M C A) s l r a a' :
  frel s l a → (∀ c, arel c a → ∃ c', m c = Done (r, c') ∧ arel c' a') →
  ran (on_cache m) s l r a'.
Proof.
  intros [Hl HR] Hm. destruct (Hm (bc s) HR) as (c' & E & HR').
  exists {| lg := lg s; bc := c' |}. unfold on_cache. rewrite E. by split.
Qed.

(** Two abstract states that agree everywhere are the same. *)
Lemma ran_norm {A} (m : M (fs C) A) s l r a1 a2 :
  apos a2 → ran m s l r a1 →
  (∀ b, a_mem a1 b = a_mem a2 b) → (∀ b, a_dsk a1 b = a_dsk a2 b) →
  (∀ b, a_ref a1 b = a_ref a2 b) → a_writes a1 = a_writes a2 →
  ran m s l r a2.
Proof.
  intros Ha (s' & E & Hl & HR) Hm Hd Hr Hw. exists s'. split; [done|]. split; [done|].
  eapply arel_equiv; [done..| |done]. apply apos_refs_eq; [by eapply arel_apos|done|done].
Qed.

Lemma frel_apos s l a : frel s l a → apos a.
Proof. intros [_ HR]. by eapply arel_apos. Qed.
Lemma apos_put a b x : apos a → apos (put a b x).
Proof. done. Qed.
Lemma apos_puts a w : apos a → apos (puts a w).
Proof. done. Qed.

Lemma log_block_run s l a i :
  frel s l a → 0 ≤ start l → 0 ≤ i → start l + 1 + i < 2 ^ 32 →
  log_block i s = Done (start l + 1 + i, s).
Proof.
  intros [<- _] ? ? ?. unfold log_block. run_simpl. unfold add_chk.
  rewrite (proj2 (Z.ltb_lt (start (lg s) + 1) _)) by lia. by rewrite (proj2 (Z.ltb_lt _ _)) by lia.
Qed.

Lemma home_block_run s l a i b :
  frel s l a → blocknos (lh l) !! Z.to_nat i = Some b → home_block i s = Done (b, s).
Proof. intros [<- _] E. unfold home_block. run_simpl. by rewrite E. Qed.

Definition small a : Prop := ∀ b, a_ref a b < 2 ^ 32.

Lemma r_bread s l a b :
  frel s l a → has_room a b → a_ref a b < 2 ^ 64 - 1 →
  ran (on_cache (bread b)) s l (a_mem a b) (set_ref a b (a_ref a b + 1)).
Proof. intros Hf ? ?. eapply ran_on_cache; [done|]. intros c HR. by apply s_bread. Qed.
Lemma r_bset s l a b x :
  frel s l a → 0 < a_ref a b → is_block x → ran (on_cache (bset b x)) s l tt (set_mem a b x).
Proof. intros Hf ? ?. eapply ran_on_cache; [done|]. intros c HR. by apply s_bset. Qed.
Lemma r_bwrite s l a b :
  frel s l a → 0 < a_ref a b → ran (on_cache (bwrite b)) s l tt (set_dsk a b (a_mem a b)).
Proof. intros Hf ?. eapply ran_on_cache; [done|]. intros c HR. by apply s_bwrite. Qed.
Lemma r_bpin s l a b :
  frel s l a → 0 < a_ref a b → a_ref a b < 2 ^ 64 - 1 →
  ran (on_cache (bpin b)) s l tt (set_ref a b (a_ref a b + 1)).
Proof. intros Hf ? ?. eapply ran_on_cache; [done|]. intros c HR. by apply s_bpin. Qed.
Lemma r_bunpin s l a b :
  frel s l a → 1 < a_ref a b →
  ran (on_cache (bunpin b)) s l tt (set_ref a b (a_ref a b - 1)).
Proof. intros Hf ?. eapply ran_on_cache; [done|]. intros c HR. by apply s_bunpin. Qed.
Lemma r_bdrop s l a b :
  frel s l a → 0 < a_ref a b → 1 < a_ref a b ∨ a_mem a b = a_dsk a b →
  ran (on_cache (bdrop b)) s l tt (set_ref a b (a_ref a b - 1)).
Proof. intros Hf ? ?. eapply ran_on_cache; [done|]. intros c HR. by apply s_bdrop. Qed.

Lemma frel_nonneg s l a b : frel s l a → 0 ≤ a_ref a b.
Proof. intros [_ HR]. rewrite <- (ar_refs _ _ HR). apply refs_nonneg, HR. Qed.
Lemma frel_block s l a b : frel s l a → is_block (a_mem a b).
Proof. intros [_ HR]. by eapply arel_block. Qed.

(** One step through [lem], whose side conditions are evaluated. *)
Ltac cache_step lem :=
  eapply ran_bind;
  [eapply lem; [eassumption|absc_simp..] | let s' := fresh "s" in let Hf := fresh "Hf" in intros s' Hf].
Ltac cache_last lem := eapply lem; [eassumption|absc_simp..].

Lemma write_log_one_spec s l a i hb :
  frel s l a → small a → 0 ≤ start l → 0 ≤ i → start l + 1 + i < 2 ^ 32 →
  blocknos (lh l) !! Z.to_nat i = Some hb → start l + 1 + i ≠ hb →
  0 < a_ref a hb → has_room a (start l + 1 + i) →
  ran (write_log_one i) s l tt (put a (start l + 1 + i) (a_mem a hb)).
Proof.
  intros Hf Hsm Hs0 Hi Hlt Eh Hne Hh Hroom. set (lb := start l + 1 + i) in *.
  pose proof (frel_nonneg _ _ _ lb Hf). pose proof (Hsm lb). pose proof (Hsm hb).
  pose proof (frel_block _ _ _ hb Hf).
  eapply ran_norm; [eapply apos_put, frel_apos, Hf| |..].
  { unfold write_log_one. eapply ran_pure; [by eapply log_block_run|]. fold lb.
    cache_step r_bread. eapply ran_pure; [by eapply home_block_run|].
    cache_step r_bread.     cache_step r_bset. cache_step r_bwrite. cache_step r_bdrop.
    cache_last r_bdrop. }
  all: intros; unfold put; absc_simp.
Qed.

(** [install_one] in a commit: the home block is pinned, and unpinned here. *)
Lemma install_one_spec s l a i hb :
  frel s l a → small a → 0 ≤ start l → 0 ≤ i → start l + 1 + i < 2 ^ 32 →
  blocknos (lh l) !! Z.to_nat i = Some hb → start l + 1 + i ≠ hb →
  0 < a_ref a hb → has_room a (start l + 1 + i) → a_mem a (start l + 1 + i) = a_dsk a (start l + 1 + i) →
  ran (install_one false i) s l tt
    (set_ref (put a hb (a_mem a (start l + 1 + i))) hb (a_ref a hb - 1)).
Proof.
  intros Hf Hsm Hs0 Hi Hlt Eh Hne Hh Hroom Hcl. set (lb := start l + 1 + i) in *.
  pose proof (frel_nonneg _ _ _ lb Hf). pose proof (Hsm lb). pose proof (Hsm hb).
  pose proof (frel_block _ _ _ lb Hf).
  eapply ran_norm; [eapply apos_set_ref; [eapply apos_put, frel_apos, Hf|lia]| |..].
  { unfold install_one. eapply ran_pure; [by eapply log_block_run|]. fold lb.
    cache_step r_bread. eapply ran_pure; [by eapply home_block_run|].
    cache_step r_bread. cache_step r_bset. cache_step r_bwrite. cache_step r_bunpin.
    cache_step r_bdrop. cache_last r_bdrop. }
  all: intros; unfold put; absc_simp.
Qed.

Lemma install_one_recovering s l a i hb :
  frel s l a → small a → 0 ≤ start l → 0 ≤ i → start l + 1 + i < 2 ^ 32 →
  blocknos (lh l) !! Z.to_nat i = Some hb → start l + 1 + i ≠ hb →
  (size (dom (a_refs a)) + 1 < NBUF)%nat →
  a_mem a (start l + 1 + i) = a_dsk a (start l + 1 + i) →
  ran (install_one true i) s l tt (put a hb (a_mem a (start l + 1 + i))).
Proof.
  intros Hf Hsm Hs0 Hi Hlt Eh Hne Hroom Hcl. set (lb := start l + 1 + i) in *.
  pose proof (frel_nonneg _ _ _ lb Hf). pose proof (frel_nonneg _ _ _ hb Hf).
  pose proof (Hsm lb). pose proof (Hsm hb). pose proof (frel_block _ _ _ lb Hf).
  pose proof (size_dom_set_ref a lb (a_ref a lb + 1)).
  eapply ran_norm; [eapply apos_put, frel_apos, Hf| |..].
  { unfold install_one. eapply ran_pure; [by eapply log_block_run|]. fold lb.
    cache_step r_bread. eapply ran_pure; [by eapply home_block_run|].
    cache_step r_bread. cache_step r_bset. cache_step r_bwrite.
    eapply ran_bind; [by apply ran_ret|]. intros sr Hfr.
    cache_step r_bdrop. cache_last r_bdrop. }
  all: intros; unfold put; absc_simp.
Qed.

Lemma write_head_spec s l a :
  frel s l a → small a → has_room a (start l) → header_wf (lh l) →
  ran write_head s l tt (put a (start l) (write_header (lh l) (a_mem a (start l)))).
Proof.
  intros Hf Hsm Hroom (_ & _ & Hwf). pose proof (frel_nonneg _ _ _ (start l) Hf).
  pose proof (Hsm (start l)). pose proof (frel_block _ _ _ (start l) Hf).
  assert (is_block (write_header (lh l) (a_mem a (start l)))) by (by apply write_header_block).
  eapply ran_norm; [eapply apos_put, frel_apos, Hf| |..].
  { unfold write_head. eapply (ran_pure _ _ _ _ l); [by rewrite <- (proj1 Hf)|].
    cache_step r_bread. cache_step r_bset. cache_step r_bwrite. cache_last r_bdrop. }
  all: intros; unfold put; absc_simp.
Qed.

Definition with_lh (l : Log) (h : LogHeader) : Log :=
  {| start := start l; size_ := size_ l; dev := dev l; outstanding := outstanding l;
     committing := committing l; lh := h |}.

Lemma r_set_lh s l a h : frel s l a → ran (set_lh h) s (with_lh l h) tt a.
Proof. intros [<- HR]. eexists. split; [done|]. by split. Qed.

Lemma empty_head_spec s l a :
  frel s l a → small a → has_room a (start l) →
  ran empty_head s (with_lh l {| len := 0; blocknos := blocknos (lh l) |}) tt
    (put a (start l) (write_u32 (a_mem a (start l)) 0 0)).
Proof.
  intros Hf Hsm Hroom. pose proof (frel_nonneg _ _ _ (start l) Hf).
  pose proof (Hsm (start l)). pose proof (frel_block _ _ _ (start l) Hf).
  assert (is_block (write_u32 (a_mem a (start l)) 0 0)) by (by apply clear_len_block).
  eapply ran_norm; [eapply apos_put, frel_apos, Hf| |..].
  { unfold empty_head. eapply (ran_pure _ _ _ _ l); [by rewrite <- (proj1 Hf)|].
    eapply ran_bind; [by apply r_set_lh|]. intros s1 Hf1.
    cache_step r_bread. cache_step r_bset. cache_step r_bwrite. cache_last r_bdrop. }
  all: intros; unfold put; absc_simp.
Qed.

Lemma read_head_spec s l a :
  frel s l a → small a → has_room a (start l) → a_mem a (start l) = a_dsk a (start l) →
  ran read_head s (with_lh l (read_header (a_mem a (start l)))) tt a.
Proof.
  intros Hf Hsm Hroom Hcl. pose proof (frel_nonneg _ _ _ (start l) Hf).
  pose proof (Hsm (start l)).
  eapply ran_norm; [eapply frel_apos, Hf| |..].
  { unfold read_head. eapply (ran_pure _ _ _ _ l); [by rewrite <- (proj1 Hf)|].
    cache_step r_bread. eapply ran_bind; [by apply r_set_lh|]. intros s2 Hf2.
    cache_last r_bdrop. }
  all: intros; absc_simp.
Qed.

(** ** The loops *)
Definition homes l : list Z := take (Z.to_nat (len (lh l))) (blocknos (lh l)).
Definition log_writes l (m : Z → block) : list (Z * block) :=
  imap (λ i b, (start l + 1 + Z.of_nat i, m b)) (homes l).
Definition home_writes l (m : Z → block) : list (Z * block) :=
  imap (λ i b, (b, m (start l + 1 + Z.of_nat i))) (homes l).

Definition in_log l (b : Z) : Prop := start l ≤ b < start l + size_ l.
#[global] Instance in_log_dec l b : Decision (in_log l b).
Proof. unfold in_log. apply _. Defined.

(** The log lies inside its region and names blocks outside it. *)
Definition log_wf l : Prop :=
  header_wf (lh l) ∧ len (lh l) < LOGSIZE ∧ len (lh l) + 1 ≤ size_ l ∧
  0 ≤ start l ∧ start l + size_ l ≤ 2 ^ 32 ∧
  NoDup (homes l) ∧ (∀ b, b ∈ homes l → ¬ in_log l b).

Lemma length_homes l : header_wf (lh l) → len (lh l) < LOGSIZE → length (homes l) = Z.to_nat (len (lh l)).
Proof.
  intros ([? ?] & _ & Hn) Hlt. unfold homes. rewrite length_take, Hn.
  change NBLOCKNOS with 29%nat. change LOGSIZE with 30 in Hlt. lia.
Qed.

Lemma homes_lookup l i b :
  homes l !! i = Some b → blocknos (lh l) !! i = Some b.
Proof. unfold homes. intros [? _]%lookup_take_Some. done. Qed.

Lemma log_writes_fst l m b : log_wf l → b ∈ (log_writes l m).*1 → in_log l b ∧ b ≠ start l.
Proof.
  intros (Hh & Hlt & Hsz & _). rewrite list_elem_of_fmap.
  intros ([b' x] & -> & [i Hi]%list_elem_of_lookup). unfold log_writes in Hi.
  rewrite list_lookup_imap in Hi. destruct (homes l !! i) as [h|] eqn:E; [|done].
  injection Hi as <- <-. apply lookup_lt_Some in E. rewrite length_homes in E by done.
  unfold in_log. cbn. lia.
Qed.

Lemma home_writes_fst l m : (home_writes l m).*1 = homes l.
Proof.
  unfold home_writes. apply list_eq. intros i.
  rewrite list_lookup_fmap, list_lookup_imap. by destruct (homes l !! i).
Qed.

Lemma puts_snoc a w b x : puts a (w ++ [(b, x)]) = put (puts a w) b x.
Proof. unfold puts, put, set_mem, set_dsk. cbn. by rewrite !apply_writes_snoc, app_assoc. Qed.

Lemma write_log_spec s l a :
  frel s l a → small a → log_wf l → (∀ b, b ∈ homes l → 0 < a_ref a b) →
  (size (dom (a_refs a)) < NBUF)%nat →
  ran write_log s l tt (puts a (log_writes l (a_mem a))).
Proof.
  intros Hf Hsm Hwf Hpin Hroom. pose proof Hwf as (Hh & Hlt & Hsz & Hs0 & Hs32 & Hnd & Hout).
  pose proof (length_homes l Hh Hlt) as Hlen. set (w := log_writes l (a_mem a)).
  assert (length w = Z.to_nat (len (lh l))) as Hw by (unfold w, log_writes; by rewrite length_imap).
  unfold write_log. eapply (ran_pure _ _ _ _ l); [by rewrite <- (proj1 Hf)|].
  destruct (for_range_inv (λ j s, frel s l (puts a (take (Z.to_nat j) w)))
    (Z.to_nat (len (lh l))) 0 write_log_one s) as (s' & E & Hf').
  - intros j s1 Hj Hf1. destruct (lookup_lt_is_Some_2 (homes l) (Z.to_nat j)) as [hb Eh]; [lia|].
    assert (hb ∈ homes l) as Hin by (by eapply list_elem_of_lookup_2).
    pose proof (Hout hb Hin) as Hhb. unfold in_log in Hhb.
    assert (w !! Z.to_nat j = Some (start l + 1 + j, a_mem a hb)) as Ew.
    { unfold w, log_writes. rewrite list_lookup_imap, Eh. cbn. by rewrite Z2Nat.id by lia. }
    assert (a_mem (puts a (take (Z.to_nat j) w)) hb = a_mem a hb) as Em.
    { apply apply_writes_out. intros Hi. apply Hhb. eapply (log_writes_fst l (a_mem a)); [done|].
      rewrite fmap_take in Hi. by eapply in_take. }
    destruct (write_log_one_spec s1 l _ j hb Hf1) as (s2 & E2 & Hf2);
      [done|done|lia|lia|by apply homes_lookup|lia|by apply Hpin|by right|].
    exists s2. split; [done|]. rewrite Em in Hf2.
    replace (Z.to_nat (j + 1)) with (S (Z.to_nat j)) by lia.
    by rewrite (take_S_r _ _ _ Ew), puts_snoc.
  - cbn. unfold puts. rewrite app_nil_r. by destruct a.
  - exists s'. split; [done|]. rewrite take_ge in Hf' by lia. done.
Qed.

(** Unpinning. *)
Definition unpin_all a (bs : list Z) : absc :=
  foldl (λ a b, set_ref a b (a_ref a b - 1)) a bs.

Lemma unpin_all_put a bs b x : put (unpin_all a bs) b x = unpin_all (put a b x) bs.
Proof. revert a. induction bs as [|b' bs IH]; intros a; [done|]. cbn. by rewrite IH. Qed.
Lemma unpin_all_mem a bs : a_mem (unpin_all a bs) = a_mem a.
Proof. revert a. induction bs as [|b' bs IH]; intros a; [done|]. cbn. by rewrite IH. Qed.
Lemma unpin_all_dsk a bs : a_dsk (unpin_all a bs) = a_dsk a.
Proof. revert a. induction bs as [|b' bs IH]; intros a; [done|]. cbn. by rewrite IH. Qed.
Lemma unpin_all_writes a bs : a_writes (unpin_all a bs) = a_writes a.
Proof. revert a. induction bs as [|b' bs IH]; intros a; [done|]. cbn. by rewrite IH. Qed.
Lemma unpin_all_snoc a bs b :
  unpin_all a (bs ++ [b]) = set_ref (unpin_all a bs) b (a_ref (unpin_all a bs) b - 1).
Proof. unfold unpin_all. by rewrite foldl_app. Qed.
Lemma unpin_all_ref a bs b :
  NoDup bs → a_ref (unpin_all a bs) b = if decide (b ∈ bs) then a_ref a b - 1 else a_ref a b.
Proof.
  revert a. induction bs as [|b' bs IH]; intros a Hnd; [by rewrite decide_False by set_solver|].
  apply NoDup_cons in Hnd as [Hn Hnd]. cbn. fold (unpin_all (set_ref a b' (a_ref a b' - 1)) bs).
  rewrite IH by done. rewrite a_ref_set. destruct (decide (b' = b)) as [->|Hne].
  - by rewrite decide_False, decide_True by set_solver.
  - destruct (decide (b ∈ bs)); [rewrite decide_True by set_solver|rewrite decide_False by set_solver]; done.
Qed.
Lemma unpin_all_room a bs :
  (∀ b, b ∈ bs → 0 < a_ref a b) → NoDup bs →
  (size (dom (a_refs (unpin_all a bs))) ≤ size (dom (a_refs a)))%nat.
Proof.
  revert a. induction bs as [|b bs IH]; intros a Hp Hnd; [done|]. cbn.
  apply NoDup_cons in Hnd as [Hn Hnd]. etrans; [apply IH|].
  - intros b' Hb'. rewrite a_ref_set. rewrite decide_False by (intros ->; done). apply Hp. by right.
  - done.
  - assert (b ∈ dom (a_refs a)) as Hb.
    { specialize (Hp b ltac:(by left)). unfold a_ref in Hp. apply elem_of_dom.
      destruct (a_refs a !! b); [done|cbn in Hp; lia]. }
    apply subseteq_size. unfold set_ref. cbn. destruct (_ =? 0); [rewrite dom_delete|rewrite dom_insert]; set_solver.
Qed.

Lemma install_spec s l a :
  frel s l a → small a → log_wf l → (∀ b, b ∈ homes l → 0 < a_ref a b) →
  (size (dom (a_refs a)) < NBUF)%nat →
  (∀ b, in_log l b → a_mem a b = a_dsk a b) →
  ran (install_trans false) s l tt (unpin_all (puts a (home_writes l (a_mem a))) (homes l)).
Proof.
  intros Hf Hsm Hwf Hpin Hroom Hcl. pose proof Hwf as (Hh & Hlt & Hsz & Hs0 & Hs32 & Hnd & Hout).
  pose proof (length_homes l Hh Hlt) as Hlen. set (w := home_writes l (a_mem a)).
  assert (length w = Z.to_nat (len (lh l))) as Hw by (unfold w, home_writes; by rewrite length_imap).
  unfold install_trans. eapply (ran_pure _ _ _ _ l); [by rewrite <- (proj1 Hf)|].
  destruct (for_range_inv (λ j s,
      frel s l (unpin_all (puts a (take (Z.to_nat j) w)) (take (Z.to_nat j) (homes l))))
    (Z.to_nat (len (lh l))) 0 (install_one false) s) as (s' & E & Hf').
  - intros j s1 Hj Hf1. set (n := Z.to_nat j) in *.
    destruct (lookup_lt_is_Some_2 (homes l) n) as [hb Eh]; [lia|].
    assert (hb ∈ homes l) as Hin by (by eapply list_elem_of_lookup_2).
    pose proof (Hout hb Hin) as Hhb. unfold in_log in Hhb.
    assert (w !! n = Some (hb, a_mem a (start l + 1 + j))) as Ew.
    { unfold w, home_writes. rewrite list_lookup_imap, Eh. cbn. unfold n. by rewrite Z2Nat.id by lia. }
    assert (hb ∉ take n (homes l)) as Hnot.
    { intros (k & Ek & Hk)%elem_of_take. assert (k = n) by (by eapply NoDup_lookup). lia. }
    assert (NoDup (take n (homes l))) as Hndt by (by eapply NoDup_take).
    assert (∀ b, b ∈ take n (homes l) → b ∈ homes l) as Hsub by (intros b; apply in_take).
    assert (∀ f b, in_log l b → apply_writes (take n w) f b = f b) as Houtw.
    { intros f b Hb. apply apply_writes_out. rewrite fmap_take. unfold w. rewrite home_writes_fst.
      intros Hi%Hsub. by apply (Hout b). }
    assert (in_log l (start l + 1 + j)) as Hlj by (unfold in_log; lia).
    edestruct (install_one_spec s1 l _ j hb Hf1) as (s2 & E2 & Hf2).
    + intros b. rewrite unpin_all_ref by done. pose proof (Hsm b). unfold a_ref in *. cbn.
      case_decide; lia.
    + done.
    + lia.
    + lia.
    + by apply homes_lookup.
    + lia.
    + rewrite unpin_all_ref, decide_False by done. by apply Hpin.
    + right. eapply Nat.le_lt_trans; [apply unpin_all_room|]; [|done|done].
      intros b Hb. apply Hpin. by apply Hsub.
    + rewrite unpin_all_mem, unpin_all_dsk. cbn. rewrite !Houtw by done. by apply Hcl.
    + exists s2. split; [done|]. rewrite unpin_all_mem in Hf2. cbn [a_mem puts] in Hf2.
      rewrite Houtw in Hf2 by done. rewrite unpin_all_put in Hf2.
      replace (Z.to_nat (j + 1)) with (S n) by lia.
      rewrite (take_S_r _ _ _ Ew), (take_S_r _ _ _ Eh), puts_snoc, unpin_all_snoc.
      by rewrite unpin_all_ref in Hf2 |- * by done.
  - cbn. unfold puts. rewrite app_nil_r. by destruct a.
  - exists s'. split; [done|]. rewrite !take_ge in Hf' by lia. done.
Qed.

(** ** Commit and recovery *)
Definition new_header l (m : Z → block) : block := write_header (lh l) (m (start l)).
Definition commit_writes l (m : Z → block) : list (Z * block) :=
  if 0 <? len (lh l) then
    log_writes l m ++ (start l, new_header l m) ::
      ((λ b, (b, m b)) <$> homes l) ++ [(start l, write_u32 (new_header l m) 0 0)]
  else [].

Definition empty_log l : Log := with_lh l {| len := 0; blocknos := blocknos (lh l) |}.

Lemma puts_app a w1 w2 : puts a (w1 ++ w2) = puts (puts a w1) w2.
Proof. unfold puts. cbn. by rewrite !apply_writes_app, app_assoc. Qed.
Lemma put_puts a b x : put a b x = puts a [(b, x)].
Proof. done. Qed.

Lemma start_in_log l : log_wf l → in_log l (start l).
Proof. intros (([? _] & _) & ? & ? & ? & ? & _). unfold in_log. lia. Qed.

Lemma log_writes_start l m f : log_wf l → apply_writes (log_writes l m) f (start l) = f (start l).
Proof. intros Hwf. apply apply_writes_out. intros Hi. by eapply log_writes_fst in Hi as [_ []]. Qed.

Lemma log_writes_home l m f b :
  log_wf l → ¬ in_log l b → apply_writes (log_writes l m) f b = f b.
Proof. intros Hwf Hb. apply apply_writes_out. intros Hi. by eapply log_writes_fst in Hi as [? _]. Qed.

Lemma log_writes_NoDup l m : NoDup (log_writes l m).*1.
Proof.
  apply NoDup_alt. intros i j b. unfold log_writes. rewrite !list_lookup_fmap, !list_lookup_imap.
  destruct (homes l !! i), (homes l !! j); cbn; try done. intros [= <-] [= E]. lia.
Qed.

Lemma log_writes_at l m f i b :
  homes l !! i = Some b → apply_writes (log_writes l m) f (start l + 1 + Z.of_nat i) = m b.
Proof.
  intros E. apply apply_writes_in; [apply log_writes_NoDup|].
  apply (list_elem_of_lookup_2 _ i). unfold log_writes. by rewrite list_lookup_imap, E.
Qed.

(** What the second half of the commit reads back from the log. *)
Lemma home_writes_logged l m m' :
  (∀ i b, homes l !! i = Some b → m' (start l + 1 + Z.of_nat i) = m b) →
  home_writes l m' = (λ b, (b, m b)) <$> homes l.
Proof.
  intros H. unfold home_writes. apply list_eq. intros i.
  rewrite list_lookup_imap, list_lookup_fmap. destruct (homes l !! i) as [b|] eqn:E; [|done].
  cbn. by rewrite (H _ _ E).
Qed.

Lemma homes_fst l (m : Z → block) : ((λ b, (b, m b)) <$> homes l).*1 = homes l.
Proof. rewrite <- list_fmap_compose. apply list_fmap_id. Qed.

Lemma small_puts a w : small a → small (puts a w).
Proof. done. Qed.

Lemma commit_spec s l a :
  frel s l a → small a → log_wf l → committing l = true →
  (∀ b, b ∈ homes l → 0 < a_ref a b) → (size (dom (a_refs a)) < NBUF)%nat →
  (∀ b, in_log l b → a_mem a b = a_dsk a b) →
  ran commit s (empty_log l) tt (unpin_all (puts a (commit_writes l (a_mem a))) (homes l)).
Proof.
  intros Hf Hsm Hwf Hc Hpin Hroom Hcl. unfold commit, commit_writes.
  eapply (ran_pure _ _ _ _ l); [by rewrite <- (proj1 Hf)|]. rewrite Hc. cbn [negb].
  destruct (Z.ltb_spec 0 (len (lh l))) as [Hn|Hn].
  2: { assert (len (lh l) = 0) as H0 by (destruct Hwf as (([? _] & _) & _); lia).
       unfold homes. rewrite H0. cbn. unfold puts. cbn. rewrite app_nil_r. destruct a.
       exists s. split; [done|]. unfold empty_log, with_lh. destruct l as [? ? ? ? ? [n bs]].
       cbn in *. by subst. }
  pose proof Hwf as (Hh & Hlt & Hsz & Hs0 & Hs32 & Hnd & Hout).
  eapply ran_bind; [by apply write_log_spec|]. intros s1 Hf1. set (a1 := puts a _) in Hf1.
  eapply ran_bind; [by apply write_head_spec; [exact Hf1|done|right|]|]. intros s2 Hf2.
  assert (a_mem a1 (start l) = a_mem a (start l)) as E1 by (by apply log_writes_start).
  rewrite E1 in Hf2. fold (new_header l (a_mem a)) in Hf2. set (H := new_header l _) in *.
  rewrite put_puts in Hf2. unfold a1 in Hf2. rewrite <- puts_app in Hf2.
  set (w1 := log_writes _ _ ++ _) in *.
  assert (∀ i b, homes l !! i = Some b →
    a_mem (puts a w1) (start l + 1 + Z.of_nat i) = a_mem a b) as Hback.
  { intros i b Eb. unfold w1. cbn. rewrite apply_writes_app. cbn.
    rewrite fn_lookup_insert_ne by lia. by apply log_writes_at. }
  eapply ran_bind.
  { apply install_spec; [exact Hf2|done..|]. intros b Hb. cbn. apply apply_writes_ext. by apply Hcl. }
  intros s3 Hf3. rewrite (home_writes_logged l (a_mem a)) in Hf3 by done.
  rewrite <- puts_app in Hf3. set (w2 := w1 ++ _) in *.
  assert (a_mem (puts a w2) (start l) = H) as E2.
  { unfold w2, w1. cbn. rewrite apply_writes_app, apply_writes_out, apply_writes_app.
    - apply fn_lookup_insert.
    - rewrite homes_fst. intros Hi. apply (Hout _ Hi). by apply start_in_log. }
  edestruct (empty_head_spec s3 l _ Hf3) as (s4 & E4 & Hf4).
  { intros b. rewrite unpin_all_ref by done. pose proof (Hsm b). unfold a_ref in *. cbn.
    case_decide; lia. }
  { right. eapply Nat.le_lt_trans; [by apply unpin_all_room|done]. }
  exists s4. split; [done|]. rewrite unpin_all_mem, E2, unpin_all_put, put_puts, <- puts_app in Hf4.
  unfold w2, w1 in Hf4. by rewrite <- !app_assoc in Hf4.
Qed.

(** The disk after [recover], from the disk it finds. *)
Definition rec_log l (d : Z → block) : Log := with_lh l (read_header (d (start l))).
Definition recovery_writes l (d : Z → block) : list (Z * block) :=
  if 0 <? len (lh (rec_log l d)) then
    home_writes (rec_log l d) d ++ [(start l, write_u32 (d (start l)) 0 0)]
  else [].
Definition recovered l (d : Z → block) : Z → block := apply_writes (recovery_writes l d) d.

Lemma home_writes_in_homes l m f b :
  b ∉ homes l → apply_writes (home_writes l m) f b = f b.
Proof. intros Hb. apply apply_writes_out. by rewrite home_writes_fst. Qed.

(** [recover] on a cache that holds no references writes exactly
    [recovery_writes]. *)
Lemma recover_spec s l a :
  frel s l a → a_refs a = ∅ → (∀ b, a_mem a b = a_dsk a b) → log_wf (rec_log l (a_dsk a)) →
  ran recover s (empty_log (rec_log l (a_dsk a))) tt (puts a (recovery_writes l (a_dsk a))).
Proof.
  intros Hf Href Hcl Hwf. set (l' := rec_log l (a_dsk a)) in *.
  assert (∀ b, a_ref a b = 0) as H0 by (intros b; unfold a_ref; by rewrite Href).
  assert (size (dom (a_refs a)) = 0%nat) as Hsz0 by (by rewrite Href, dom_empty_L).
  assert (small a) as Hsm by (intros b; by rewrite H0).
  assert (frel s (with_lh l (lh l)) a) as Hfl by (by destruct l).
  pose proof Hwf as (Hh & Hlt & Hsz & Hs0 & Hs32 & Hnd & Hout).
  pose proof (length_homes l' Hh Hlt) as Hlen.
  unfold recover. eapply ran_bind.
  { apply read_head_spec; [exact Hf|done|right; rewrite Hsz0; unfold NBUF; lia|by apply Hcl]. }
  intros s1 Hf1. rewrite Hcl in Hf1. fold (rec_log l (a_dsk a)) in Hf1. fold l' in Hf1.
  eapply (ran_pure _ _ _ _ l'); [by rewrite <- (proj1 Hf1)|].
  unfold recovery_writes. fold l'. destruct (Z.ltb_spec 0 (len (lh l'))) as [Hn|Hn].
  2: { assert (len (lh l') = 0) as E0 by (destruct Hh as ([? _] & _); lia).
       unfold puts. cbn. rewrite app_nil_r. destruct a.
       exists s1. split; [done|]. unfold empty_log, with_lh. clearbody l'.
       destruct l' as [? ? ? ? ? [n bs]]. cbn in *. by subst. }
  set (w := home_writes l' (a_dsk a)).
  assert (length w = Z.to_nat (len (lh l'))) as Hw by (unfold w, home_writes; by rewrite length_imap).
  assert (∀ f b k, in_log l' b → apply_writes (take k w) f b = f b) as Houtw.
  { intros f b k Hb. apply apply_writes_out. rewrite fmap_take. unfold w. rewrite home_writes_fst.
    intros Hi%in_take. by apply (Hout b). }
  eapply ran_bind.
  { unfold install_trans. eapply (ran_pure _ _ _ _ l'); [by rewrite <- (proj1 Hf1)|].
    destruct (for_range_inv (λ j s, frel s l' (puts a (take (Z.to_nat j) w)))
      (Z.to_nat (len (lh l'))) 0 (install_one true) s1) as (s' & E & Hf').
    - intros j s2 Hj Hf2. set (n := Z.to_nat j) in *.
      destruct (lookup_lt_is_Some_2 (homes l') n) as [hb Eh]; [lia|].
      assert (hb ∈ homes l') as Hin by (by eapply list_elem_of_lookup_2).
      pose proof (Hout hb Hin) as Hhb. unfold in_log in Hhb.
      assert (in_log l' (start l' + 1 + j)) as Hlj by (unfold in_log; lia).
      assert (w !! n = Some (hb, a_dsk a (start l' + 1 + j))) as Ew.
      { unfold w, home_writes. rewrite list_lookup_imap, Eh. cbn. unfold n. by rewrite Z2Nat.id by lia. }
      edestruct (install_one_recovering s2 l' _ j hb Hf2) as (s3 & E3 & Hf3).
      + done.
      + done.
      + lia.
      + lia.
      + by apply homes_lookup.
      + lia.
      + cbn [puts a_refs]. rewrite Hsz0. unfold NBUF. lia.
      + cbn. rewrite !Houtw by done. by apply Hcl.
      + exists s3. split; [done|]. cbn [a_mem puts] in Hf3. rewrite Houtw, Hcl in Hf3 by done.
        replace (Z.to_nat (j + 1)) with (S n) by lia. by rewrite (take_S_r _ _ _ Ew), puts_snoc.
    - cbn. unfold puts. cbn. rewrite app_nil_r. by destruct a.
    - exists s'. split; [done|]. rewrite take_ge in Hf' by lia. exact Hf'. }
  intros s2 Hf2. edestruct (empty_head_spec s2 l' _ Hf2) as (s3 & E3 & Hf3).
  { done. }
  { right. cbn [puts a_refs]. rewrite Hsz0. unfold NBUF. lia. }
  exists s3. split; [done|]. cbn [a_mem puts] in Hf3.
  pose proof (Houtw (a_mem a) (start l') (length w) (start_in_log _ Hwf)) as Es.
  rewrite take_ge in Es by lia. rewrite Es, Hcl, put_puts, <- puts_app in Hf3. exact Hf3.
Qed.

(** ** Crashing inside a commit *)
Lemma recovered_idle l d b : len (read_header (d (start l))) = 0 → recovered l d b = d b.
Proof. intros H. unfold recovered, recovery_writes. cbn [lh rec_log with_lh]. by rewrite H. Qed.

Lemma take_commit l m k :
  0 < len (lh l) → log_wf l → (k ≤ length (commit_writes l m))%nat →
  let n := Z.to_nat (len (lh l)) in
  let W := (λ b, (b, m b)) <$> homes l in
  let H := new_header l m in
  ((k ≤ n)%nat ∧ take k (commit_writes l m) = take k (log_writes l m)) ∨
  (∃ j, (n < k)%nat ∧ take k (commit_writes l m) = log_writes l m ++ (start l, H) :: take j W) ∨
  ((n < k)%nat ∧ take k (commit_writes l m) =
     log_writes l m ++ (start l, H) :: W ++ [(start l, write_u32 H 0 0)]).
Proof.
  intros Hn Hwf Hk n W H. unfold commit_writes in *. rewrite (proj2 (Z.ltb_lt _ _)) in * by done.
  assert (length (log_writes l m) = n) as Hl.
  { unfold log_writes. rewrite length_imap. apply length_homes; apply Hwf. }
  rewrite length_app in Hk. cbn [length] in Hk. rewrite length_app in Hk. cbn [length] in Hk.
  fold W H in Hk |- *. destruct (decide (k ≤ n)%nat) as [Hkn|Hkn].
  - left. split; [done|]. rewrite take_app_le; [done|lia].
  - right. rewrite take_app_ge by lia. rewrite Hl.
    destruct (k - n)%nat as [|j] eqn:Ej; [lia|]. cbn [take].
    destruct (decide (j ≤ length W)%nat) as [Hj|Hj].
    + left. exists j. split; [lia|]. by rewrite take_app_le.
    + right. split; [lia|]. rewrite (take_ge (W ++ _)); [done|]. rewrite length_app. cbn. lia.
Qed.

Lemma crash_recovers l m d0 k :
  log_wf l → (∀ b, is_block (m b)) → is_block (d0 (start l)) →
  len (read_header (d0 (start l))) = 0 →
  (∀ b, ¬ in_log l b → b ∉ homes l → m b = d0 b) →
  (k ≤ length (commit_writes l m))%nat →
  let d := apply_writes (take k (commit_writes l m)) d0 in
  (len (read_header (d (start l))) = 0 ∨ read_header (d (start l)) = lh l) ∧
  is_block (d (start l)) ∧
  ∀ b, ¬ in_log l b →
    recovered l d b = if decide (k ≤ Z.to_nat (len (lh l)))%nat then d0 b else m b.
Proof.
  intros Hwf Hm Hb0 Hd0 Hcl Hk d.
  pose proof Hwf as (Hh & Hlt & Hsz & Hs0 & Hs32 & Hnd & Hout).
  set (H := new_header l m).
  assert (is_block H) as HbH by (by apply write_header_block; [apply Hh|]).
  assert (read_header H = lh l) as HrH by (by apply read_write_header).
  destruct (Z.ltb_spec 0 (len (lh l))) as [Hn|Hn].
  2: { assert (len (lh l) = 0) as E0 by (destruct Hh as ([? _] & _); lia).
       unfold commit_writes in *. rewrite E0 in *. cbn in Hk. assert (k = 0%nat) as -> by lia.
       cbn in d. subst d. split; [by left|]. split; [done|]. intros b Hb. rewrite decide_True by lia.
       by apply recovered_idle. }
  set (W := (λ b, (b, m b)) <$> homes l).
  assert (∀ j f, apply_writes (take j W) f (start l) = f (start l)) as HWs.
  { intros j f. apply apply_writes_out. rewrite fmap_take. unfold W. rewrite homes_fst.
    intros Hi%in_take. apply (Hout _ Hi). by apply start_in_log. }
  assert (∀ f b, b ∈ homes l → apply_writes W f b = m b) as HWb.
  { intros f b Hb. apply apply_writes_in; unfold W; [by rewrite homes_fst|].
    apply list_elem_of_fmap. by exists b. }
  destruct (take_commit l m k Hn Hwf Hk) as [[Hkn E]|[(j & Hkn & E)|[Hkn E]]];
    unfold d; rewrite E; clear d E.
  - assert (∀ b, b = start l ∨ ¬ in_log l b → apply_writes (take k (log_writes l m)) d0 b = d0 b) as Hsame.
    { intros b Hb. apply apply_writes_out. rewrite fmap_take. intros Hi%in_take.
      apply log_writes_fst in Hi as [? ?]; [|done]. by destruct Hb. }
    rewrite Hsame by (by left). split; [by left|]. split; [done|]. intros b Hb. rewrite decide_True by done.
    rewrite recovered_idle; [apply Hsame; by right|]. by rewrite Hsame by (by left).
  - set (d := apply_writes _ _).
    assert (d (start l) = H) as Eds.
    { unfold d. rewrite apply_writes_app, apply_writes_cons, HWs. apply fn_lookup_insert. }
    rewrite Eds, HrH. split; [by right|]. split; [done|]. intros b Hb. rewrite decide_False by lia.
    unfold recovered, recovery_writes, rec_log. rewrite Eds, HrH.
    assert (with_lh l (lh l) = l) as -> by (by destruct l). rewrite (proj2 (Z.ltb_lt _ _)) by done.
    assert (start l ≠ b) as Hsb by (intros <-; by apply Hb, start_in_log).
    rewrite apply_writes_snoc, fn_lookup_insert_ne by done.
    rewrite (home_writes_logged l m).
    2: { intros i h Eh. unfold d. rewrite apply_writes_app, apply_writes_cons, apply_writes_out.
         - rewrite fn_lookup_insert_ne by lia. by apply log_writes_at.
         - rewrite fmap_take. unfold W. rewrite homes_fst. intros Hi%in_take.
           apply (Hout _ Hi). unfold in_log. apply lookup_lt_Some in Eh.
           rewrite length_homes in Eh by done. lia. }
    fold W. destruct (decide (b ∈ homes l)) as [Hin|Hin]; [by apply HWb|].
    rewrite apply_writes_out by (unfold W; by rewrite homes_fst).
    unfold d. rewrite apply_writes_app, apply_writes_cons, apply_writes_out.
    + rewrite fn_lookup_insert_ne by done. rewrite log_writes_home by done. symmetry. by apply Hcl.
    + rewrite fmap_take. unfold W. rewrite homes_fst. by intros ?%in_take.
  - set (d := apply_writes _ _).
    assert (d (start l) = write_u32 H 0 0) as Eds.
    { unfold d. rewrite apply_writes_app, apply_writes_cons, apply_writes_snoc. apply fn_lookup_insert. }
    assert (len (read_header (d (start l))) = 0) as El by (rewrite Eds; by apply read_clear_len).
    split; [by left|]. split; [rewrite Eds; by apply clear_len_block|].
    intros b Hb. rewrite decide_False by lia. rewrite recovered_idle by done.
    assert (start l ≠ b) as Hsb by (intros <-; by apply Hb, start_in_log).
    unfold d. rewrite apply_writes_app, apply_writes_cons, apply_writes_snoc.
    rewrite fn_lookup_insert_ne by done. fold W.
    destruct (decide (b ∈ homes l)) as [Hin|Hin]; [by apply HWb|].
    rewrite apply_writes_out by (unfold W; by rewrite homes_fst).
    rewrite fn_lookup_insert_ne by done. rewrite log_writes_home by done. symmetry. by apply Hcl.
Qed.

(** ** Operations between commits *)
Definition with_out (l : Log) (n : Z) : Log :=
  {| start := start l; size_ := size_ l; dev := dev l; outstanding := n;
     committing := committing l; lh := lh l |}.
Definition with_committing (l : Log) (v : bool) : Log :=
  {| start := start l; size_ := size_ l; dev := dev l; outstanding := outstanding l;
     committing := v; lh := lh l |}.

(** Outside a commit, with no buffer held: the logged blocks are pinned once,
    every other block is clean, and the header on disk is empty. *)
Record log_inv s l a : Prop := {
  li_rel : frel s l a;
  li_wf : log_wf l;
  li_committing : committing l = false;
  li_out : 0 ≤ outstanding l ≤ 2;
  li_refs : ∀ b, a_ref a b = if decide (b ∈ homes l) then 1 else 0;
  li_clean : ∀ b, b ∉ homes l → a_mem a b = a_dsk a b;
  li_head : len (read_header (a_dsk a (start l))) = 0;
  li_idle : outstanding l = 0 → homes l = [];
}.

Lemma log_inv_small s l a : log_inv s l a → small a.
Proof. intros H b. rewrite (li_refs _ _ _ H). by case_decide. Qed.

Lemma log_inv_size s l a : log_inv s l a → (size (dom (a_refs a)) ≤ length (homes l))%nat.
Proof.
  intros H. rewrite <- (size_list_to_set (C := gset Z) (homes l)) by apply (li_wf _ _ _ H).
  apply subseteq_size. intros b Hb. rewrite elem_of_list_to_set.
  pose proof (proj2 (li_rel _ _ _ H)) as HR. apply (arel_dom _ _ _ HR) in Hb.
  rewrite (li_refs _ _ _ H) in Hb. case_decide; [done|lia].
Qed.

Lemma log_inv_room s l a : log_inv s l a → (size (dom (a_refs a)) < NBUF)%nat.
Proof.
  intros H. pose proof (log_inv_size _ _ _ H). destruct (li_wf _ _ _ H) as (Hh & Hlt & _).
  rewrite length_homes in * by done. change LOGSIZE with 30 in Hlt. unfold NBUF. lia.
Qed.

Lemma log_inv_in_log s l a b : log_inv s l a → in_log l b → a_mem a b = a_dsk a b.
Proof. intros H Hb. apply (li_clean _ _ _ H). intros Hi. by apply (li_wf _ _ _ H) in Hi. Qed.

Definition admits l : bool :=
  negb (committing l) && (1 + len (lh l) + (outstanding l + 1) * MAXOPBLOCKS <=? LOGSIZE).

Lemma begin_op_spec s l a :
  log_inv s l a →
  if admits l then
    ran begin_op s (with_out l (outstanding l + 1)) true a ∧ outstanding l ≤ 1
  else begin_op s = Done (false, s).
Proof.
  intros H. pose proof H as [[<- HR] Hwf Hc Ho _ _ _ _].
  assert (begin_op s = if admits (lg s)
    then Done (true, {| lg := with_out (lg s) (outstanding (lg s) + 1); bc := bc s |})
    else Done (false, s)) as E.
  { unfold admits, begin_op. run_simpl. unfold add_chk. rewrite (proj2 (Z.ltb_lt _ _)) by lia.
    rewrite Hc. cbn [negb andb orb]. rewrite Z.gtb_ltb, Z.leb_antisym.
    by destruct (LOGSIZE <? _). }
  rewrite E. destruct (admits (lg s)) eqn:Ea; [|done].
  split; [eexists; split; [exact E|]; by split|].
  unfold admits in Ea. apply andb_true_iff in Ea as [_ Ea%Z.leb_le].
  destruct Hwf as (([? _] & _) & _). change LOGSIZE with 30 in Ea. change MAXOPBLOCKS with 10 in Ea. lia.
Qed.

Lemma already_logged_spec s l a b :
  frel s l a → log_wf l →
  already_logged (Z.to_nat (len (lh l))) 0 b s = Done (bool_decide (b ∈ homes l), s).
Proof.
  intros [<- _] (Hh & Hlt & _). pose proof (length_homes _ Hh Hlt) as Hlen.
  unfold homes in *. set (bs := blocknos (lh (lg s))) in *. set (n := Z.to_nat _) in *.
  assert (∀ k i, (i + k = n)%nat →
    already_logged k i b s = Done (bool_decide (b ∈ take k (drop i bs)), s)) as Hk.
  { induction k as [|k IH]; intros i Hi; [done|]. cbn [already_logged].
    destruct (lookup_lt_is_Some_2 (take n bs) i) as [x Ex]; [lia|].
    apply lookup_take_Some in Ex as [Ex _]. run_simpl. fold bs. rewrite Ex.
    rewrite (drop_S _ _ _ Ex). cbn [take]. destruct (Z.eqb_spec x b) as [->|Hne].
    - by rewrite bool_decide_true by (by left).
    - rewrite IH by lia. do 2 f_equal. apply bool_decide_ext. rewrite elem_of_cons. naive_solver. }
  by apply Hk.
Qed.

(** The number of blocks the log has room for. *)
Definition has_space l (n : Z) : bool := (len (lh l) + n <? LOGSIZE) && (len (lh l) + n <? size_ l).

Definition add_home l (b : Z) : Log :=
  with_lh l {| len := len (lh l) + 1;
               blocknos := <[Z.to_nat (len (lh l)) := b]> (blocknos (lh l)) |}.

Definition log_put (b : Z) (x : block) : M (fs C) unit :=
  on_cache (bread b);; on_cache (bset b x);; log_write b.

Lemma log_put_spec s l a b x :
  log_inv s l a → is_block x → ¬ in_log l b → 1 ≤ outstanding l →
  if decide (b ∈ homes l) then
    if has_space l 1 then ran (log_put b x) s l tt (set_mem a b x) else panics (log_put b x s)
  else if has_space l 2 then
    ran (log_put b x) s (add_home l b) tt (set_ref (set_mem a b x) b 1)
  else panics (log_put b x s).
Proof.
  intros H Hx Hb Ho. pose proof H as [Hf Hwf Hc Ho2 Hr Hcl Hhd Hidle].
  pose proof (log_inv_room _ _ _ H) as Hroom. pose proof (Hr b) as Hrb.
  pose proof Hwf as (Hh & Hlt & Hsz & Hs0 & Hs32 & Hnd & Hout).
  assert (0 ≤ len (lh l) < 30) as Hl30 by (destruct Hh as ([? _] & _); done).
  assert (ran (on_cache (bread b)) s l (a_mem a b) (set_ref a b (a_ref a b + 1))) as (s1 & E1 & Hf1).
  { apply r_bread; [done|by right|]. rewrite Hrb. case_decide; lia. }
  assert (ran (on_cache (bset b x)) s1 l tt (set_mem (set_ref a b (a_ref a b + 1)) b x)) as (s2 & E2 & Hf2).
  { apply r_bset; [done| |done]. absc_simp. }
  assert (log_put b x s = log_write b s2) as E.
  { unfold log_put. by rewrite (bind_run _ _ _ _ _ E1), (bind_run _ _ _ _ _ E2). }
  assert (log_write b s2 =
    if negb (has_space l 1) then Panic "log: not enough space for ongoing transactions"
    else if decide (b ∈ homes l) then on_cache (bdrop b) s2
    else if negb (has_space l 2) then Panic "log: not enough space for this transaction"
    else (on_cache (bpin b);;
          assertM (Z.to_nat (len (lh l)) <? length (blocknos (lh l)))%nat "index out of bounds";;
          set_lh {| len := len (lh l) + 1;
                    blocknos := <[Z.to_nat (len (lh l)) := b]> (blocknos (lh l)) |};;
          on_cache (bdrop b)) s2) as Ew.
  { unfold log_write. pose proof (already_logged_spec _ _ _ b Hf2 Hwf) as Eal.
    destruct Hf2 as [El2 _].
    rewrite (bind_run _ _ _ l s2) by (unfold gets; by rewrite El2).
    rewrite (bind_run _ _ _ (len (lh l) + 1) s2) by (rewrite add_chk_ok by lia; done).
    unfold has_space. rewrite !negb_andb, <- !Z.leb_antisym, !Z.geb_leb.
    destruct (_ || _); [done|]. rewrite (proj2 (Z.ltb_ge _ _)) by lia.
    rewrite (bind_run _ _ _ _ _ Eal). case_bool_decide as Hin.
    - by rewrite decide_True by done.
    - rewrite decide_False by done.
      rewrite (bind_run _ _ _ (len (lh l) + 2) s2) by (rewrite add_chk_ok by lia; done).
      rewrite !Z.geb_leb. by destruct (_ || _). }
  rewrite E, Ew. destruct (decide (b ∈ homes l)) as [Hin|Hin].
  - destruct (has_space l 1); cbn [negb] in *; [|by eexists].
    assert (ran (on_cache (bdrop b)) s2 l tt (set_mem a b x)) as (s3 & E3 & Hf3).
    { eapply ran_norm; [eapply (frel_apos s l a), Hf|eapply r_bdrop; [done|absc_simp..]|..];
        intros; absc_simp. }
    exists s3. by rewrite E, Ew.
  - destruct (has_space l 2) eqn:E2s.
    2: { destruct (has_space l 1); by eexists. }
    assert (has_space l 1 = true) as E1s.
    { unfold has_space in *. apply andb_true_iff in E2s as [?%Z.ltb_lt ?%Z.ltb_lt].
      apply andb_true_iff. split; apply Z.ltb_lt; lia. }
    rewrite E1s in *. cbn [negb] in *. unfold has_space in E2s.
    apply andb_true_iff in E2s as [E30%Z.ltb_lt _]. change LOGSIZE with 30 in E30.
    assert ((Z.to_nat (len (lh l)) <? length (blocknos (lh l)))%nat = true) as Elt.
    { apply Nat.ltb_lt. destruct Hh as (_ & _ & ->). change NBLOCKNOS with 29%nat. lia. }
    rewrite Elt in *. cbn [assertM] in Ew.
    lazymatch type of Ew with _ = ?m s2 =>
      assert (ran m s2 (add_home l b) tt (set_ref (set_mem a b x) b 1)) as (s3 & E3 & Hf3)
    end.
    { eapply ran_norm; [eapply apos_set_ref; [exact (frel_apos _ _ _ Hf)|lia]| |..].
      { cache_step r_bpin. eapply ran_bind; [by apply ran_ret|]. intros s4 Hf4.
        eapply ran_bind; [by apply r_set_lh|]. intros s5 Hf5. cache_last r_bdrop. }
      all: intros; absc_simp. }
    exists s3. by rewrite E, Ew.
Qed.

Lemma homes_add l b :
  header_wf (lh l) → len (lh l) + 1 < LOGSIZE → homes (add_home l b) = homes l ++ [b].
Proof.
  intros ([? _] & _ & Hn) Hlt. unfold homes, add_home. cbn.
  replace (Z.to_nat (len (lh l) + 1)) with (S (Z.to_nat (len (lh l)))) by lia.
  change LOGSIZE with 30 in Hlt. change NBLOCKNOS with 29%nat in Hn.
  rewrite (take_S_r _ _ b) by (apply list_lookup_insert_eq; lia).
  by rewrite take_insert_ge by lia.
Qed.

Lemma log_put_idle s l a b x :
  log_inv s l a → is_block x → outstanding l = 0 → panics (log_put b x s).
Proof.
  intros H Hx Ho. pose proof H as [Hf Hwf Hc _ Hr Hcl Hhd Hidle].
  pose proof (log_inv_room _ _ _ H) as Hroom. pose proof (Hr b) as Hrb.
  pose proof Hwf as (Hh & Hlt & _).
  assert (0 ≤ len (lh l) < 30) as Hl30 by (destruct Hh as ([? _] & _); done).
  assert (ran (on_cache (bread b)) s l (a_mem a b) (set_ref a b (a_ref a b + 1))) as (s1 & E1 & Hf1).
  { apply r_bread; [done|by right|]. rewrite Hrb. case_decide; lia. }
  assert (ran (on_cache (bset b x)) s1 l tt (set_mem (set_ref a b (a_ref a b + 1)) b x)) as (s2 & E2 & [El2 _]).
  { apply r_bset; [done| |done]. rewrite a_ref_set, decide_True by done. rewrite Hrb. case_decide; lia. }
  unfold log_put. rewrite (bind_run _ _ _ _ _ E1), (bind_run _ _ _ _ _ E2). unfold log_write.
  rewrite (bind_run _ _ _ l s2) by (unfold gets; by rewrite El2).
  rewrite (bind_run _ _ _ (len (lh l) + 1) s2) by (rewrite add_chk_ok by lia; done).
  destruct (_ || _); [by eexists|]. rewrite Ho. by eexists.
Qed.

(** The invariant after a store to a logged block, and to a new one. *)
Lemma log_inv_store s s' l a b x :
  log_inv s l a → frel s' l (set_mem a b x) → b ∈ homes l → log_inv s' l (set_mem a b x).
Proof.
  intros [Hf Hwf Hc Ho Hr Hcl Hhd Hidle] Hf' Hb. split; try done.
  intros b' Hb'. absc_simp. by apply Hcl.
Qed.

Lemma log_inv_add s s' l a b x :
  log_inv s l a → frel s' (add_home l b) (set_ref (set_mem a b x) b 1) →
  has_space l 2 = true → b ∉ homes l → ¬ in_log l b → is_u32 b → outstanding l ≠ 0 →
  log_inv s' (add_home l b) (set_ref (set_mem a b x) b 1).
Proof.
  intros [Hf Hwf Hc Ho Hr Hcl Hhd Hidle] Hf' Hsp Hb Hout32 Hb32 Hone.
  unfold has_space in Hsp. apply andb_true_iff in Hsp as [H30%Z.ltb_lt Hsz2%Z.ltb_lt].
  pose proof Hwf as (Hh & Hlt & Hsz & Hs0 & Hs32 & Hnd & Hout).
  assert (homes (add_home l b) = homes l ++ [b]) as Eh by (apply homes_add; [done|lia]).
  split; [done| |done|done| | |done|done].
  - pose proof Hh as ([? ?] & HF & Hn). change LOGSIZE with 30 in *.
    split; [split; [split; cbn; lia|split; cbn]|].
    + by apply Forall_insert.
    + by rewrite length_insert.
    + cbn [add_home with_lh lh len size_ start]. change LOGSIZE with 30.
      split; [lia|]. split; [lia|]. split; [done|]. split; [done|].
      rewrite Eh. split.
      * apply NoDup_app. split; [done|]. split; [|apply NoDup_singleton].
        intros b' Hb' ->%list_elem_of_singleton. done.
      * intros b' [Hb'| ->%list_elem_of_singleton]%elem_of_app; [by apply Hout|done].
  - intros b'. rewrite Eh, a_ref_set, a_ref_set_mem, Hr.
    destruct (decide (b = b')) as [<-|Hne].
    + rewrite decide_True; [done|]. apply elem_of_app. right. by apply list_elem_of_singleton.
    + apply decide_ext. rewrite elem_of_app, list_elem_of_singleton. naive_solver.
  - intros b'. rewrite Eh, not_elem_of_app, list_elem_of_singleton. intros [Hb' Hne].
    absc_simp. by apply Hcl.
Qed.

Lemma homes_empty l : homes (empty_log l) = [].
Proof. done. Qed.

Lemma apply_writes_covers w f g b : b ∈ w.*1 → apply_writes w f b = apply_writes w g b.
Proof.
  induction w as [|[b' x] w IH] using rev_ind; [by intros ?%elem_of_nil|].
  rewrite fmap_app, elem_of_app. rewrite !apply_writes_snoc. intros Hb.
  destruct (decide (b' = b)) as [->|Hne]; [by rewrite !fn_lookup_insert|].
  rewrite !fn_lookup_insert_ne by done. apply IH. destruct Hb as [|Hb]; [done|].
  cbn in Hb. apply list_elem_of_singleton in Hb. by subst.
Qed.

(** What a commit leaves outside the log: memory as it was, and on disk. *)
Lemma commit_writes_out l m d b :
  log_wf l → ¬ in_log l b → (b ∉ homes l → m b = d b) →
  apply_writes (commit_writes l m) d b = m b.
Proof.
  intros Hwf Hb Hcl. unfold commit_writes. destruct (Z.ltb_spec 0 (len (lh l))).
  - assert (start l ≠ b) as Hsb by (intros <-; by apply Hb, start_in_log).
    rewrite apply_writes_app, apply_writes_cons, apply_writes_snoc, fn_lookup_insert_ne by done.
    destruct (decide (b ∈ homes l)) as [Hin|Hin].
    + apply apply_writes_in; [rewrite homes_fst; apply Hwf|]. apply list_elem_of_fmap. by exists b.
    + rewrite apply_writes_out by (by rewrite homes_fst). rewrite fn_lookup_insert_ne by done.
      rewrite log_writes_home by done. symmetry. by apply Hcl.
  - cbn. symmetry. apply Hcl. unfold homes.
    replace (Z.to_nat (len (lh l))) with 0%nat by lia. apply not_elem_of_nil.
Qed.

Lemma end_op_spec s l a :
  log_inv s l a →
  if outstanding l =? 0 then panics (end_op s)
  else if outstanding l =? 1 then
    ∃ a', ran end_op s (with_out (empty_log l) 0) tt a' ∧
      a_writes a' = a_writes a ++ commit_writes l (a_mem a) ∧
      (∀ b, a_dsk a' b = apply_writes (commit_writes l (a_mem a)) (a_dsk a) b) ∧
      (∀ b, ¬ in_log l b → a_mem a' b = a_mem a b) ∧
      ∀ s', frel s' (with_out (empty_log l) 0) a' → log_inv s' (with_out (empty_log l) 0) a'
  else ran end_op s (with_out l (outstanding l - 1)) tt a.
Proof.
  intros H. pose proof H as [Hf Hwf Hc Ho Hr Hcl Hhd Hidle].
  pose proof (log_inv_room _ _ _ H) as Hroom. pose proof (log_inv_small _ _ _ H) as Hsm.
  destruct (Z.eqb_spec (outstanding l) 0) as [E0|E0].
  { destruct Hf as [<- _]. eexists. unfold end_op. run_simpl. unfold sub_chk. by rewrite E0. }
  set (l1 := with_out l (outstanding l - 1)).
  assert (frel {| lg := l1; bc := bc s |} l1 a) as Hf1 by (split; [done|apply Hf]).
  assert (end_op s = (if outstanding l - 1 =? 0 then
    set_committing true;; commit;; set_committing false else mret tt) {| lg := l1; bc := bc s |}) as E.
  { destruct Hf as [<- _]. unfold end_op. rewrite (bind_run _ _ _ (lg s) s) by done.
    rewrite (bind_run _ _ _ (outstanding (lg s) - 1) s) by (rewrite sub_chk_ok by lia; done).
    rewrite (bind_run _ _ _ tt {| lg := l1; bc := bc s |}) by done. by rewrite Hc. }
  destruct (Z.eqb_spec (outstanding l) 1) as [E1|E1].
  2: { rewrite (proj2 (Z.eqb_neq (outstanding l - 1) 0)) in E by lia.
       eexists. split; [exact E|done]. }
  rewrite E1 in *. change (1 - 1 =? 0) with true in E. cbv iota in E. set (l2 := with_committing l1 true).
  edestruct (commit_spec {| lg := l2; bc := bc s |} l2 a) as (s3 & E3 & Hf3).
  { split; [done|apply Hf]. }
  { done. }
  { done. }
  { done. }
  { intros b Hb. rewrite Hr. by rewrite decide_True. }
  { done. }
  { intros b. exact (log_inv_in_log s l a b H). }
  set (a' := unpin_all (puts a (commit_writes l (a_mem a))) (homes l)).
  pose proof Hwf as (Hh & Hlt & Hsz & Hs0 & Hs32 & Hnd & Hout).
  assert (∀ b, b ∉ (commit_writes l (a_mem a)).*1 → b ∉ homes l) as Hcov.
  { intros b Hb Hin. apply Hb. unfold commit_writes.
    destruct (Z.ltb_spec 0 (len (lh l))).
    - rewrite !fmap_app, fmap_cons, fmap_app, homes_fst.
      apply elem_of_app. right. apply elem_of_cons. right. apply elem_of_app. by left.
    - unfold homes in Hin. replace (Z.to_nat (len (lh l))) with 0%nat in Hin by lia.
      by apply not_elem_of_nil in Hin. }
  exists a'. split; [|split; [|split; [|split]]].
  - exists {| lg := with_out (empty_log l) 0; bc := bc s3 |}. destruct Hf3 as [El3 HR3]. split; [|done].
    rewrite E. rewrite (bind_run _ _ _ tt {| lg := l2; bc := bc s |}) by done.
    rewrite (bind_run _ _ _ _ _ E3). unfold set_committing, set_lg. run_simpl. rewrite El3.
    unfold with_out, empty_log, with_lh. cbn. by rewrite Hc, E1.
  - unfold a'. by rewrite unpin_all_writes.
  - intros b. unfold a'. by rewrite unpin_all_dsk.
  - intros b Hb. unfold a'. rewrite unpin_all_mem. cbn. by apply commit_writes_out.
  - intros s' Hf'. split; [done| |done|done| | | |done].
    + destruct Hh as ([? ?] & ? & ?). split; [split; [|split]; done|].
      change (homes (with_out (empty_log l) 0)) with (@nil Z). cbn [with_out empty_log with_lh lh len size_ start]. change LOGSIZE with 30.
      split; [lia|]. split; [lia|]. split; [done|]. split; [done|].
      split; [apply NoDup_nil_2|]. by intros b ?%not_elem_of_nil.
    + intros b. rewrite decide_False by apply not_elem_of_nil. unfold a'.
      rewrite unpin_all_ref by done. unfold puts, a_ref in *. cbn. rewrite Hr. case_decide; lia.
    + intros b _. unfold a'. rewrite unpin_all_mem, unpin_all_dsk. cbn.
      destruct (decide (b ∈ (commit_writes l (a_mem a)).*1)) as [Hin|Hin];
        [by apply apply_writes_covers|].
      rewrite !apply_writes_out by done. by apply Hcl, Hcov.
    + unfold a'. rewrite unpin_all_dsk. cbn.
      unfold commit_writes. destruct (Z.ltb_spec 0 (len (lh l))); [|done].
      rewrite apply_writes_app, apply_writes_cons, apply_writes_snoc, fn_lookup_insert.
      refine (read_clear_len (new_header l (a_mem a)) _). apply write_header_block; [apply Hh|]. by eapply frel_block.
Qed.

(** * Traces of file system operations *)
Inductive lop := LBegin | LPut (b : Z) (x : block) | LEnd.

Definition lstep (o : lop) : M (fs C) unit :=
  match o with
  | LBegin => begin_op;; mret tt
  | LPut b x => log_put b x
  | LEnd => end_op
  end.
Fixpoint lrun (tr : list lop) : M (fs C) unit :=
  match tr with
  | [] => mret tt
  | o :: tr => lstep o;; lrun tr
  end.
Definition lop_wf l (o : lop) : Prop :=
  match o with LPut b x => ¬ in_log l b ∧ is_block x ∧ is_u32 b | _ => True end.
Definition op_puts (o : lop) : list (Z * block) :=
  match o with LPut b x => [(b, x)] | _ => [] end.
Definition puts_of (tr : list lop) : list (Z * block) := concat (op_puts <$> tr).

Definition same_region l l' : Prop := start l' = start l ∧ size_ l' = size_ l.

Lemma in_log_region l l' b : same_region l l' → in_log l' b ↔ in_log l b.
Proof. intros [E1 E2]. unfold in_log. by rewrite E1, E2. Qed.

Lemma recovery_writes_region l l' d : same_region l l' → recovery_writes l' d = recovery_writes l d.
Proof. intros [E1 E2]. unfold recovery_writes, rec_log, home_writes, homes. cbn. by rewrite E1. Qed.

Lemma recovered_region l l' d b : same_region l l' → recovered l' d b = recovered l d b.
Proof. intros [E1 E2]. unfold recovered. by rewrite (recovery_writes_region l l'). Qed.

Lemma recovered_ext l d d' b : (∀ b, d b = d' b) → recovered l d b = recovered l d' b.
Proof.
  intros H. unfold recovered, recovery_writes, rec_log. rewrite (H (start l)).
  rewrite (apply_writes_ext _ d d') by done. f_equal.
  assert (∀ l', home_writes l' d = home_writes l' d') as Hh; [|by rewrite Hh].
  intros l'. unfold home_writes. apply imap_ext. intros i x _. by rewrite H.
Qed.

(** The header a crash can leave: [recover] accepts it. *)
Lemma rec_log_wf l d :
  log_wf l → is_block (d (start l)) →
  len (read_header (d (start l))) = 0 ∨ read_header (d (start l)) = lh l → log_wf (rec_log l d).
Proof.
  intros Hwf Hb [E|E].
  - destruct Hwf as (([? ?] & _) & Hlt & Hsz & Hs0 & Hs32 & _).
    split; [by apply read_header_wf|]. unfold homes. cbn [rec_log with_lh lh len size_ start].
    rewrite E. change LOGSIZE with 30. do 2 (split; [lia|]). do 2 (split; [done|]).
    split; [apply NoDup_nil_2|]. by intros b ?%not_elem_of_nil.
  - unfold rec_log. rewrite E. by destruct l.
Qed.

Definition crash_ok l (d : Z → block) : Prop :=
  is_block (d (start l)) ∧ log_wf (rec_log l d).

Lemma crash_ok_ext l l' d' d :
  crash_ok l d' → same_region l l' ∨ same_region l' l → (∀ b, d' b = d b) → crash_ok l' d.
Proof.
  unfold crash_ok, rec_log, log_wf, homes, in_log, header_wf. cbn. intros [Hb Hwf] Hreg E.
  assert (start l' = start l ∧ size_ l' = size_ l) as [E1 E2] by (destruct Hreg as [[]|[]]; done).
  rewrite E1, E2, <- E. done.
Qed.

(** A step that writes nothing. *)
Ltac idle_step :=
  split; [done|]; split; [done|]; split; [done|]; split; [done|left; done].

Lemma lstep_sim o s l a s1 :
  log_inv s l a → lop_wf l o → lstep o s = Done (tt, s1) →
  ∃ l1 a1 ws, log_inv s1 l1 a1 ∧ same_region l l1 ∧ a_writes a1 = a_writes a ++ ws ∧
    (∀ b, a_dsk a1 b = apply_writes ws (a_dsk a) b) ∧
    (∀ b, ¬ in_log l b → a_mem a1 b = apply_writes (op_puts o) (a_mem a) b) ∧
    (ws = [] ∨ (outstanding l1 = 0 ∧ op_puts o = [] ∧
      ∀ k, (k ≤ length ws)%nat →
        let d := apply_writes (take k ws) (a_dsk a) in
        crash_ok l d ∧
        ((∀ b, ¬ in_log l b → recovered l d b = a_dsk a b) ∨
         (∀ b, ¬ in_log l b → recovered l d b = a_mem a b)))).
Proof.
  intros H Hwf Hs. pose proof H as [Hf Hlwf Hc Ho Hr Hcl Hhd Hidle]. destruct o as [|b x|].
  - pose proof (begin_op_spec _ _ _ H) as Hb. cbn [lstep] in Hs. destruct (admits l) eqn:Ea.
    + destruct Hb as [(s' & E & Hf') Ho1]. rewrite (bind_run _ _ _ _ _ E) in Hs.
      injection Hs as <-. exists (with_out l (outstanding l + 1)), a, [].
      rewrite app_nil_r. split; [|by idle_step].
      split; try done; cbn; lia.
    + rewrite (bind_run _ _ _ _ _ Hb) in Hs. injection Hs as <-. exists l, a, [].
      rewrite app_nil_r. split; [done|by idle_step].
  - destruct Hwf as (Hb & Hx & Hb32). cbn [lstep] in Hs.
    destruct (decide (outstanding l = 0)) as [E0|E0].
    + destruct (log_put_idle s l a b x H Hx E0) as [why E]. congruence.
    + pose proof (log_put_spec s l a b x H Hx Hb ltac:(lia)) as Hp.
      assert (∀ why, log_put b x s ≠ Panic why) as Hnp by (intros why E; congruence).
      destruct (decide (b ∈ homes l)) as [Hin|Hin].
      * destruct (has_space l 1); [|by destruct Hp as [why E]; destruct (Hnp why)].
        destruct Hp as (s' & E & Hf'). rewrite E in Hs. injection Hs as <-.
        exists l, (set_mem a b x), []. rewrite app_nil_r.
        split; [by eapply log_inv_store|by idle_step].
      * destruct (has_space l 2) eqn:Esp; [|by destruct Hp as [why E]; destruct (Hnp why)].
        destruct Hp as (s' & E & Hf'). rewrite E in Hs. injection Hs as <-.
        eexists _, _, []. rewrite app_nil_r. split; [by eapply log_inv_add|by idle_step].
  - cbn [lstep] in Hs. pose proof (end_op_spec _ _ _ H) as He.
    destruct (outstanding l =? 0) eqn:E0; [destruct He as [why E]; congruence|].
    apply Z.eqb_neq in E0. destruct (Z.eqb_spec (outstanding l) 1) as [E1|E1].
    + destruct He as (a' & (s' & E & Hf') & Hw & Hd & Hm & Hinv). rewrite E in Hs. injection Hs as <-.
      exists (with_out (empty_log l) 0), a', (commit_writes l (a_mem a)).
      split; [by apply Hinv|]. split; [done|]. split; [done|]. split; [done|]. split; [done|].
      right. split; [done|]. split; [done|]. intros k Hk d.
      destruct (crash_recovers l (a_mem a) (a_dsk a) k Hlwf) as (Hh & Hb & Hrec); try done.
      * intros b. by eapply frel_block.
      * rewrite <- (ar_dsk _ _ (proj2 Hf)). apply dsk_block, Hf.
      * intros b _. apply Hcl.
      * split; [split; [done|by apply rec_log_wf]|].
        destruct (decide (k ≤ Z.to_nat (len (lh l)))%nat); [left|right]; intros b' Hb'; by apply Hrec.
    + destruct He as (s' & E & Hf'). rewrite E in Hs. injection Hs as <-.
      exists (with_out l (outstanding l - 1)), a, []. rewrite app_nil_r. split; [|by idle_step].
      split; try done; cbn; lia.
Qed.

(** Memory and disk after a trace, and after a crash inside it. *)
Lemma trace_sim tr s l a s1 :
  log_inv s l a → Forall (lop_wf l) tr → lrun tr s = Done (tt, s1) →
  ∃ l1 a1 ws, log_inv s1 l1 a1 ∧ same_region l l1 ∧ a_writes a1 = a_writes a ++ ws ∧
    (∀ b, a_dsk a1 b = apply_writes ws (a_dsk a) b) ∧
    (∀ b, ¬ in_log l b → a_mem a1 b = apply_writes (puts_of tr) (a_mem a) b) ∧
    (∀ k, (k ≤ length ws)%nat →
      let d := apply_writes (take k ws) (a_dsk a) in
      crash_ok l d ∧
      ((∀ b, ¬ in_log l b → recovered l d b = a_dsk a b) ∨
       ∃ tr1 tr2 sc, tr = tr1 ++ tr2 ∧ lrun tr1 s = Done (tt, sc) ∧ outstanding (lg sc) = 0 ∧
         ∀ b, ¬ in_log l b → recovered l d b = apply_writes (puts_of tr1) (a_mem a) b)).
Proof.
  revert s l a. induction tr as [|o tr IH]; intros s l a H Hwf Hs.
  { injection Hs as <-. exists l, a, []. rewrite app_nil_r. split; [done|]. split; [done|].
    split; [done|]. split; [done|]. split; [done|]. intros k Hk. cbn in Hk.
    assert (k = 0%nat) as -> by lia. cbn. split.
    - split; [rewrite <- (ar_dsk _ _ (proj2 (li_rel _ _ _ H))); apply dsk_block, (li_rel _ _ _ H)|].
      apply rec_log_wf; [apply H| |left; apply H].
      rewrite <- (ar_dsk _ _ (proj2 (li_rel _ _ _ H))). apply dsk_block, (li_rel _ _ _ H).
    - left. intros b _. apply recovered_idle, H. }
  cbn [lrun] in Hs. mbind_inv Hs as u sm Eo Etr. destruct u.
  apply Forall_cons in Hwf as [Ho Hwf].
  destruct (lstep_sim o s l a sm H Ho Eo) as (lm & am & ws1 & Hm & Hreg & Hw1 & Hd1 & Hm1 & Hc1).
  destruct (IH sm lm am Hm) as (l1 & a1 & ws2 & H1 & Hreg2 & Hw2 & Hd2 & Hm2 & Hc2); [|done|].
  { eapply Forall_impl; [exact Hwf|]. intros [|b x|]; cbn; try done.
    intros (? & ? & ?). by rewrite in_log_region. }
  exists l1, a1, (ws1 ++ ws2). split; [done|].
  split; [by destruct Hreg, Hreg2; split; etrans|]. split; [by rewrite Hw2, Hw1, app_assoc|].
  split; [intros b; rewrite Hd2, apply_writes_app; by apply apply_writes_ext|].
  assert (∀ t b, ¬ in_log l b → apply_writes (puts_of t) (a_mem am) b =
    apply_writes (puts_of (o :: t)) (a_mem a) b) as Hcons.
  { intros t b Hb. unfold puts_of. rewrite fmap_cons. cbn [concat]. rewrite apply_writes_app.
    apply apply_writes_ext. by apply Hm1. }
  split; [intros b Hb; rewrite Hm2 by (by rewrite in_log_region); by apply Hcons|].
  intros k Hk. rewrite length_app in Hk.
  destruct (decide (k ≤ length ws1)%nat) as [Hk1|Hk1].
  - destruct Hc1 as [->|(Hout & Hputs & Hc1)].
    + cbn in Hk1. assert (k = 0%nat) as -> by lia. destruct (Hc2 0%nat ltac:(lia)) as [Hok Hr].
      cbn [app take] in *. change (apply_writes [] (a_dsk a)) with (a_dsk a).
      change (apply_writes [] (a_dsk am)) with (a_dsk am) in *.
      assert (∀ b, a_dsk am b = a_dsk a b) as Hds by done.
      split; [apply (crash_ok_ext lm l (a_dsk am)); [done|by right|done]|].
      left. intros b _. apply recovered_idle, H.
    + rewrite take_app_le by done. destruct (Hc1 k Hk1) as [Hok Hr]. split; [done|].
      destruct Hr as [Hr|Hr]; [by left|]. right. exists [o], tr, sm. split; [done|].
      split; [cbn [lrun]; by rewrite (bind_run _ _ _ _ _ Eo)|].
      split; [by rewrite (proj1 (li_rel _ _ _ Hm))|]. intros b Hb. rewrite Hr by done.
      unfold puts_of. cbn [fmap list_fmap concat]. by rewrite Hputs.
  - rewrite take_app_ge by lia. set (k2 := (k - length ws1)%nat).
    destruct (Hc2 k2) as [Hok Hr]; [lia|]. set (d2 := apply_writes (take k2 ws2) (a_dsk am)) in *.
    set (d := apply_writes (ws1 ++ take k2 ws2) (a_dsk a)).
    assert (∀ b, d2 b = d b) as Edd.
    { intros b. unfold d, d2. rewrite apply_writes_app. by apply apply_writes_ext. }
    split; [apply (crash_ok_ext lm l d2); [done|by right|done]|].
    assert (∀ b, recovered l d b = recovered lm d2 b) as Er.
    { intros b. rewrite (recovered_ext l d d2) by done. symmetry. by apply recovered_region. }
    destruct Hr as [Hr|(tr1 & tr2 & sc & -> & Erun & Hout & Hr)].
    + destruct Hc1 as [->|(Hout & Hputs & Hc1)].
      * left. intros b Hb. rewrite Er, Hr by (by rewrite in_log_region). apply Hd1.
      * right. exists [o], tr, sm. split; [done|].
        split; [cbn [lrun]; by rewrite (bind_run _ _ _ _ _ Eo)|].
        split; [by rewrite (proj1 (li_rel _ _ _ Hm))|]. intros b Hb.
        rewrite Er, Hr by (by rewrite in_log_region). rewrite <- (Hcons [] b Hb). cbn.
        symmetry. apply (li_clean _ _ _ Hm). rewrite (li_idle _ _ _ Hm Hout). apply not_elem_of_nil.
    + right. exists (o :: tr1), tr2, sc. split; [done|].
      split; [cbn [lrun]; by rewrite (bind_run _ _ _ _ _ Eo)|]. split; [done|]. intros b Hb.
      rewrite Er, Hr by (by rewrite in_log_region). by apply Hcons.
Qed.

(** A log with no operation running and nothing to commit. *)
Definition log_quiet s : Prop := outstanding (lg s) = 0 ∧ ∃ a, log_inv s (lg s) a.

(** The machine after a reboot on disk [d]: nothing cached, the log's region
    known from the superblock. *)
Record booted s l (d : Z → block) : Prop := {
  bo_cache : cache_ok (bc s);
  bo_refs : ∀ b, refs (bc s) b = 0;
  bo_mem : ∀ b, mem (bc s) b = d b;
  bo_dsk : ∀ b, dsk (bc s) b = d b;
  bo_region : same_region l (lg s);
  bo_idle : outstanding (lg s) = 0 ∧ committing (lg s) = false;
}.

Lemma booted_recover s l d :
  booted s l d → crash_ok l d →
  ∃ s', recover s = Done (tt, s') ∧ log_quiet s' ∧
    writes (bc s') = writes (bc s) ++ recovery_writes l d ∧
    ∀ b, mem (bc s') b = recovered l d b ∧ dsk (bc s') b = recovered l d b.
Proof.
  intros [Hok Hr Hm Hd Hreg [Ho Hc]] Hcr.
  set (a := {| a_mem := d; a_dsk := d; a_refs := ∅; a_writes := writes (bc s) |}).
  assert (frel s (lg s) a) as Hf by (by split).
  apply (crash_ok_ext l (lg s) d d) in Hcr as [Hb Hwf]; [|by left|done].
  destruct (recover_spec s (lg s) a Hf) as (s' & E & Hf'); [done|done|done|].
  set (w := recovery_writes (lg s) d) in *. set (l' := empty_log (rec_log (lg s) d)) in *.
  assert (∀ b, recovered (lg s) d b = recovered l d b) as Hrec
    by (intros b; by apply recovered_region).
  exists s'. split; [exact E|]. pose proof Hf' as [El HR].
  split; [|split; [rewrite (ar_writes _ _ HR); by rewrite <- (recovery_writes_region l (lg s))|]].
  2: { intros b. rewrite <- Hrec. split; [apply (ar_mem _ _ HR)|apply (ar_dsk _ _ HR)]. }
  split; [by rewrite El|]. exists (puts a w). rewrite El.
  pose proof Hwf as (([? ?] & ? & ?) & Hlt & Hsz & Hs0 & Hs32 & _).
  change (size_ (rec_log (lg s) d)) with (size_ (lg s)) in *.
  change (start (rec_log (lg s) d)) with (start (lg s)) in *.
  split; [done| |done|cbn; lia| |done| |done].
  - split; [split; [|split]; done|]. unfold homes. cbn [l' empty_log rec_log with_lh lh len size_ start].
    change LOGSIZE with 30. do 2 (split; [lia|]). do 2 (split; [done|]).
    split; [apply NoDup_nil_2|]. by intros b ?%not_elem_of_nil.
  - intros b. by rewrite decide_False by apply not_elem_of_nil.
  - cbn [a_dsk puts a l' empty_log rec_log with_lh start]. unfold w, recovery_writes.
    cbn [lh rec_log with_lh]. destruct (Z.ltb_spec 0 (len (read_header (d (start (lg s)))))) as [Hn|Hn].
    + rewrite apply_writes_snoc, fn_lookup_insert. by apply read_clear_len.
    + cbn [lh rec_log with_lh] in *. change (apply_writes [] d) with d. lia.
Qed.

(** C1. Transactions are atomic and ordered: run any interleaving [tr] of
    [begin_op]s, logged stores and [end_op]s from a quiet log, crash after any
    number [k] of the disk writes it made, reboot and [recover].  Recovery
    terminates without a panic, leaves a quiet log, and the disk outside the
    log holds exactly the stores of a prefix of [tr] that ends when no operation
    was running: a commit is never half applied. *)
Theorem log_crash_atomic s0 s tr :
  log_quiet s0 → Forall (lop_wf (lg s0)) tr → lrun tr s0 = Done (tt, s) →
  ∃ ws, writes (bc s) = writes (bc s0) ++ ws ∧
  ∀ k s2, (k ≤ length ws)%nat →
    booted s2 (lg s0) (apply_writes (take k ws) (dsk (bc s0))) →
    ∃ s3 tr1 tr2 s1, recover s2 = Done (tt, s3) ∧ log_quiet s3 ∧
      tr = tr1 ++ tr2 ∧ lrun tr1 s0 = Done (tt, s1) ∧ outstanding (lg s1) = 0 ∧
      ∀ b, ¬ in_log (lg s0) b →
        mem (bc s3) b = apply_writes (puts_of tr1) (dsk (bc s0)) b ∧ dsk (bc s3) b = mem (bc s3) b.
Proof.
  intros [Ho [a H]] Hwf Hs.
  destruct (trace_sim tr s0 _ a s H Hwf Hs) as (l1 & a1 & ws & H1 & _ & Hw & _ & _ & Hc).
  pose proof (proj2 (li_rel _ _ _ H)) as HR. pose proof (proj2 (li_rel _ _ _ H1)) as HR1.
  exists ws. split; [by rewrite (ar_writes _ _ HR1), (ar_writes _ _ HR)|].
  intros k s2 Hk Hboot. destruct (Hc k Hk) as [Hok Hr].
  set (d := apply_writes (take k ws) (dsk (bc s0))) in *.
  set (d' := apply_writes (take k ws) (a_dsk a)) in *.
  assert (∀ b, d b = d' b) as Edd by (intros b; apply apply_writes_ext, (ar_dsk _ _ HR)).
  destruct (booted_recover s2 (lg s0) d Hboot) as (s3 & E3 & Hq & _ & Hmd).
  { apply (crash_ok_ext (lg s0) _ d'); [done|by left|done]. }
  assert (∀ b, a_mem a b = dsk (bc s0) b) as Hmem.
  { intros b. rewrite (ar_dsk _ _ HR). apply (li_clean _ _ _ H).
    rewrite (li_idle _ _ _ H Ho). apply not_elem_of_nil. }
  assert (∀ tr1 b, apply_writes (puts_of tr1) (a_mem a) b = apply_writes (puts_of tr1) (dsk (bc s0)) b)
    as Hpm by (intros tr1 b; by apply apply_writes_ext).
  assert (∀ b, mem (bc s3) b = recovered (lg s0) d' b ∧ dsk (bc s3) b = mem (bc s3) b) as Hrec.
  { intros b. destruct (Hmd b) as [-> ->]. split; [by apply recovered_ext|done]. }
  destruct Hr as [Hr|(tr1 & tr2 & s1 & -> & E1 & Ho1 & Hr)].
  - exists s3, [], tr, s0. split; [done|]. split; [done|]. split; [done|]. split; [done|].
    split; [done|]. intros b Hb. destruct (Hrec b) as [-> ->]. split; [|done].
    rewrite Hr by done. symmetry. apply (ar_dsk _ _ HR).
  - exists s3, tr1, tr2, s1. split; [done|]. split; [done|]. split; [done|]. split; [done|].
    split; [done|]. intros b Hb. destruct (Hrec b) as [-> ->]. split; [|done].
    by rewrite Hr, Hpm by done.
Qed.

(** C22. Durability: when the trace has run and no operation is left, every
    store of every operation is on the disk, and nothing else changed outside
    the log. *)
Theorem log_durable s0 s tr :
  log_quiet s0 → Forall (lop_wf (lg s0)) tr → lrun tr s0 = Done (tt, s) →
  outstanding (lg s) = 0 →
  log_quiet s ∧ ∀ b, ¬ in_log (lg s0) b →
    dsk (bc s) b = apply_writes (puts_of tr) (dsk (bc s0)) b ∧ mem (bc s) b = dsk (bc s) b.
Proof.
  intros [Ho [a H]] Hwf Hs Ho1.
  destruct (trace_sim tr s0 _ a s H Hwf Hs) as (l1 & a1 & ws & H1 & Hreg & _ & _ & Hm & _).
  pose proof (proj2 (li_rel _ _ _ H)) as HR. pose proof (li_rel _ _ _ H1) as [El HR1].
  split; [split; [done|exists a1; by rewrite El]|]. intros b Hb.
  assert (a_mem a1 b = a_dsk a1 b) as Hcl.
  { apply (li_clean _ _ _ H1). rewrite (li_idle _ _ _ H1) by (by rewrite <- El). apply not_elem_of_nil. }
  rewrite (ar_dsk _ _ HR1), (ar_mem _ _ HR1). split; [|done].
  rewrite <- Hcl, Hm by done. apply apply_writes_ext.
  rewrite (ar_dsk _ _ HR). apply (li_clean _ _ _ H).
  rewrite (li_idle _ _ _ H Ho). apply not_elem_of_nil.
Qed.

(** ** Crashing inside a recovery *)
Lemma recovery_crash l d k :
  crash_ok l d → (k ≤ length (recovery_writes l d))%nat →
  let d' := apply_writes (take k (recovery_writes l d)) d in
  crash_ok l d' ∧ ∀ b, ¬ in_log l b → recovered l d' b = recovered l d b.
Proof.
  intros [Hb Hwf] Hk d'. pose proof Hwf as (Hh & Hlt & Hsz & Hs0 & Hs32 & Hnd & Hout).
  unfold recovery_writes in *.
  set (l' := rec_log l d) in *. set (W := home_writes l' d) in *.
  destruct (Z.ltb_spec 0 (len (lh l'))) as [Hn|Hn].
  2: { cbn in Hk. assert (k = 0%nat) as -> by lia. done. }
  assert (∀ j f b, in_log l b → apply_writes (take j W) f b = f b) as HW.
  { intros j f b Hi. apply apply_writes_out. rewrite fmap_take. unfold W. rewrite home_writes_fst.
    intros Hj%in_take. by apply (Hout b). }
  assert (in_log l (start l)) as Hsl by (apply (start_in_log l' Hwf)).
  destruct (decide (k ≤ length W)%nat) as [Hkw|Hkw].
  - assert (d' = apply_writes (take k W) d) as Ed by (unfold d'; by rewrite take_app_le).
    clearbody d'. subst d'. set (d' := apply_writes (take k W) d).
    assert (d' (start l) = d (start l)) as Es by (by apply HW).
    assert (rec_log l d' = l') as El by (unfold rec_log, l'; by rewrite Es).
    split; [split; [by rewrite Es|by rewrite El]|]. intros b Hbl.
    assert (home_writes l' d' = W) as EW.
    { unfold W, home_writes. apply imap_ext. intros i x Ei. f_equal. apply HW.
      apply lookup_lt_Some in Ei. rewrite length_homes in Ei by done.
      change (start l') with (start l) in *. change (size_ l') with (size_ l) in *.
      unfold in_log. lia. }
    unfold recovered, recovery_writes. rewrite El, EW, Es. fold l' W.
    rewrite (proj2 (Z.ltb_lt _ _)) by done.
    destruct (decide (b ∈ W.*1)) as [Hin|Hin].
    + apply apply_writes_covers. rewrite fmap_app, elem_of_app. by left.
    + apply apply_writes_ext. apply apply_writes_out. rewrite fmap_take. by intros ?%in_take.
  - rewrite length_app in Hk. cbn in Hk.
    assert (d' = recovered l d) as Ed.
    { unfold d', recovered, recovery_writes. fold l' W. rewrite (proj2 (Z.ltb_lt _ _)) by done.
      rewrite take_ge; [done|]. rewrite length_app. cbn. lia. }
    clearbody d'. subst d'.
    assert (recovered l d (start l) = write_u32 (d (start l)) 0 0) as Es.
    { unfold recovered, recovery_writes. fold l' W. rewrite (proj2 (Z.ltb_lt _ _)) by done.
      rewrite apply_writes_snoc. apply fn_lookup_insert. }
    assert (len (read_header (recovered l d (start l))) = 0) as E0
      by (rewrite Es; by apply read_clear_len).
    split; [split; [rewrite Es; by apply clear_len_block|]|].
    + apply (rec_log_wf l'); [done|change (start l') with (start l); rewrite Es; by apply clear_len_block|by left].
    + intros b _. by apply recovered_idle.
Qed.

(** C23. Recovery can itself crash: stop [recover] after any of its disk
    writes, reboot and recover again; it finishes and the disk outside the log
    is what the undisturbed recovery would have left. *)
Theorem recovery_restartable l d s1 s1' k s2 :
  crash_ok l d → booted s1 l d → recover s1 = Done (tt, s1') →
  ∃ ws, writes (bc s1') = writes (bc s1) ++ ws ∧
  ((k ≤ length ws)%nat → booted s2 l (apply_writes (take k ws) d) →
   ∃ s3, recover s2 = Done (tt, s3) ∧ log_quiet s3 ∧
     ∀ b, ¬ in_log l b → dsk (bc s3) b = dsk (bc s1') b).
Proof.
  intros Hok Hb1 E1. destruct (booted_recover s1 l d Hb1 Hok) as (s & E & _ & Hw & Hd).
  rewrite E1 in E. injection E as <-. exists (recovery_writes l d). split; [done|].
  intros Hk Hb2. destruct (recovery_crash l d k Hok Hk) as [Hok2 Hrec].
  destruct (booted_recover s2 l _ Hb2 Hok2) as (s3 & E3 & Hq & _ & Hd3).
  exists s3. split; [done|]. split; [done|]. intros b Hb.
  destruct (Hd3 b) as [_ ->]. destruct (Hd b) as [_ ->]. by apply Hrec.
Qed.

(** ** Reservations: clients that log at most [n] blocks each

    [rem] holds, for every admitted operation, how many blocks it may still
    log.  An operation that [begin_op] puts to sleep stays out of [rem] and
    tries again with a later [CBegin]. *)
Inductive cop := CBegin (i : nat) | CPut (i : nat) (b : Z) (x : block) | CEnd (i : nat).

Abbreviation clients := (gmap nat nat).
Definition client_step (n : nat) (o : cop) (rem : clients) : M (fs C) clients :=
  match o with
  | CBegin i =>
      match rem !! i with
      | Some _ => mret rem
      | None => ok ← begin_op; mret (if (ok : bool) then <[i := n]> rem else rem)
      end
  | CPut i b x =>
      match rem !! i with
      | Some (S k) => log_put b x;; mret (<[i := k]> rem)
      | _ => mret rem
      end
  | CEnd i =>
      match rem !! i with
      | Some _ => end_op;; mret (delete i rem)
      | None => mret rem
      end
  end.
Fixpoint client_run (n : nat) (tr : list cop) (rem : clients) : M (fs C) clients :=
  match tr with
  | [] => mret rem
  | o :: tr => rem ← client_step n o rem; client_run n tr rem
  end.
Definition cop_wf l (o : cop) : Prop :=
  match o with CPut _ b x => ¬ in_log l b ∧ is_block x ∧ is_u32 b | _ => True end.

Definition total (rem : clients) : Z := map_fold (λ _ k acc, Z.of_nat k + acc) 0 rem.

Lemma total_insert rem i k : rem !! i = None → total (<[i := k]> rem) = Z.of_nat k + total rem.
Proof. intros H. unfold total.
  apply (map_fold_insert_L (λ (_ k : nat) acc, Z.of_nat k + acc)); [intros; lia|done]. Qed.
Lemma total_delete rem i k : rem !! i = Some k → total rem = Z.of_nat k + total (delete i rem).
Proof. intros H. unfold total.
  apply (map_fold_delete_L (λ (_ k : nat) acc, Z.of_nat k + acc)); [intros; lia|done]. Qed.
Lemma total_update rem i k k' :
  rem !! i = Some k → total (<[i := k']> rem) = total rem - Z.of_nat k + Z.of_nat k'.
Proof.
  intros H. rewrite (total_delete rem i k H), <- insert_delete_eq, total_insert by apply lookup_delete_eq.
  lia.
Qed.

Lemma total_nonneg rem : 0 ≤ total rem.
Proof.
  induction rem as [|i k r Hi IH] using map_ind; [done|]. rewrite total_insert by done. lia.
Qed.
Lemma total_bound n rem :
  (∀ i k, rem !! i = Some k → (k ≤ n)%nat) → total rem ≤ Z.of_nat n * Z.of_nat (size rem).
Proof.
  induction rem as [|i k r Hi IH] using map_ind; intros H; [by rewrite map_size_empty, Z.mul_0_r|].
  rewrite total_insert, map_size_insert_None by done.
  assert (k ≤ n)%nat by (apply (H i); by simplify_map_eq).
  specialize (IH ltac:(intros j k' E; apply (H j); rewrite lookup_insert_ne by congruence; done)). nia.
Qed.
Lemma size_positive (rem : clients) i k : rem !! i = Some k → (0 < size rem)%nat.
Proof.
  intros Ei. destruct (size rem) eqn:E; [|lia]. apply map_size_empty_inv in E.
  by rewrite E, lookup_empty in Ei.
Qed.

Record clients_ok (n : nat) l (rem : clients) : Prop := {
  ck_out : outstanding l = Z.of_nat (size rem);
  ck_each : ∀ i k, rem !! i = Some k → (k ≤ n)%nat;
  ck_room : len (lh l) + total rem ≤ 28;
}.

Lemma client_step_ok n o rem s l a :
  (n < 10)%nat → log_inv s l a → LOGSIZE ≤ size_ l → clients_ok n l rem → cop_wf l o →
  ∃ s' l' a' rem', client_step n o rem s = Done (rem', s') ∧ log_inv s' l' a' ∧
    same_region l l' ∧ clients_ok n l' rem'.
Proof.
  intros Hn H Hsz [Ho Ht Hr] Hwf. pose proof (li_wf _ _ _ H) as (([Hl0 _] & _) & Hlt & _).
  assert (∃ s' l' a' rem', (mret rem : M (fs C) clients) s = Done (rem', s') ∧ log_inv s' l' a' ∧
    same_region l l' ∧ clients_ok n l' rem') as Hskip by (by exists s, l, a, rem).
  destruct o as [i|i b x|i]; cbn [client_step]; destruct (rem !! i) as [k|] eqn:Ei; try done.
  - pose proof (begin_op_spec _ _ _ H) as Hb. pose proof (total_bound n rem Ht).
    destruct (admits l) eqn:Ea; [|rewrite (bind_run _ _ _ _ _ Hb); by exists s, l, a, rem].
    destruct Hb as [(s' & E & Hf') Ho1]. rewrite (bind_run _ _ _ _ _ E).
    unfold admits in Ea. apply andb_true_iff in Ea as [_ Ea%Z.leb_le].
    change LOGSIZE with 30 in Ea. change MAXOPBLOCKS with 10 in Ea.
    eexists s', (with_out l (outstanding l + 1)), a, _. split; [done|].
    split; [destruct H; split; try done; cbn; lia|]. split; [done|].
    split; cbn; rewrite ?map_size_insert_None, ?total_insert by done; [lia| |nia].
    intros j k [[_ <-]|[_ Ej]]%lookup_insert_Some; [done|by eapply Ht].
  - destruct k as [|k]; [done|]. destruct Hwf as (Hb & Hx & Hb32).
    pose proof (size_positive _ _ _ Ei). pose proof (Ht _ _ Ei).
    pose proof (total_delete _ _ _ Ei). pose proof (total_nonneg (delete i rem)).
    pose proof (log_put_spec s l a b x H Hx Hb ltac:(lia)) as Hp.
    assert (has_space l 1 = true ∧ has_space l 2 = true) as [E1 E2].
    { unfold has_space. change LOGSIZE with 30 in *.
      split; apply andb_true_iff; split; apply Z.ltb_lt; lia. }
    assert (∀ j k', <[i := k]> rem !! j = Some k' → (k' ≤ n)%nat) as Ht'.
    { intros j k' [[_ <-]|[_ Ej]]%lookup_insert_Some; [lia|by eapply Ht]. }
    pose proof (map_size_insert_Some i k rem (mk_is_Some _ _ Ei)) as Hsz'.
    pose proof (total_update rem i (S k) k Ei) as Htu.
    rewrite E1, E2 in Hp. destruct (decide (b ∈ homes l)) as [Hin|Hin];
      destruct Hp as (s' & E & Hf'); rewrite (bind_run _ _ _ _ _ E); eexists s', _, _, _;
      (split; [done|]); (split; [first [by eapply log_inv_store|eapply log_inv_add; try done; lia]|]);
      (split; [done|]); split; try done;
      rewrite ?Hsz', ?Htu; cbn; lia.
  - pose proof (end_op_spec _ _ _ H) as He. pose proof (size_positive _ _ _ Ei).
    pose proof (total_delete _ _ _ Ei) as Hd. pose proof (total_nonneg (delete i rem)).
    pose proof (map_size_delete_Some i rem (mk_is_Some _ _ Ei)) as Hsd.
    assert (∀ j k', delete i rem !! j = Some k' → (k' ≤ n)%nat) as Ht'.
    { intros j k' [_ Ej]%lookup_delete_Some. by eapply Ht. }
    pose proof (total_bound n _ Ht'). rewrite (proj2 (Z.eqb_neq _ _)) in He by lia.
    destruct (Z.eqb_spec (outstanding l) 1) as [E1|E1].
    + destruct He as (a' & (s' & E & Hf') & _ & _ & _ & Hinv). rewrite (bind_run _ _ _ _ _ E).
      eexists s', _, a', _. split; [done|]. split; [by apply Hinv|]. split; [done|].
      split; [cbn; lia|done|cbn; nia].
    + destruct He as (s' & E & Hf'). rewrite (bind_run _ _ _ _ _ E).
      eexists s', _, a, _. split; [done|].
      split; [destruct H; split; try done; cbn; lia|]. split; [done|].
      split; [cbn; lia|done|cbn; lia].
Qed.

Lemma client_run_ok n tr rem s l a :
  (n < 10)%nat → log_inv s l a → LOGSIZE ≤ size_ l → clients_ok n l rem → Forall (cop_wf l) tr →
  ∃ s' rem', client_run n tr rem s = Done (rem', s').
Proof.
  intros Hn. revert rem s l a. induction tr as [|o tr IH]; intros rem s l a H Hsz Hck Hwf.
  { by exists s, rem. }
  apply Forall_cons in Hwf as [Ho Hwf].
  destruct (client_step_ok n o rem s l a Hn H Hsz Hck Ho) as (s1 & l1 & a1 & rem1 & E & H1 & Hreg & Hck1).
  destruct (IH rem1 s1 l1 a1 H1) as (s2 & rem2 & E2); [by rewrite (proj2 Hreg)|done| |].
  { eapply Forall_impl; [exact Hwf|]. intros [i|i b x|i]; cbn; try done.
    intros (? & ? & ?). by rewrite in_log_region. }
  exists s2, rem2. cbn [client_run]. by rewrite (bind_run _ _ _ _ _ E).
Qed.

(** C24. Reservations suffice for operations that log at most
    [MAXOPBLOCKS - 1] blocks: however such operations interleave, no logged
    store and no [end_op] ever panics. *)
Theorem log_reservation s tr n :
  log_quiet s → LOGSIZE ≤ size_ (lg s) → len (lh (lg s)) = 0 → Z.of_nat n < MAXOPBLOCKS →
  Forall (cop_wf (lg s)) tr →
  ∃ s' rem, client_run n tr ∅ s = Done (rem, s').
Proof.
  intros [Ho [a H]] Hsz Hl Hn Hwf. apply (client_run_ok n tr ∅ s (lg s) a); try done.
  - change MAXOPBLOCKS with 10 in Hn. lia.
  - split; [by rewrite Ho, map_size_empty|by intros i k ?%lookup_empty_Some|rewrite Hl; done].
Qed.
End specs.

(** * The theorems at concrete inputs: the log of a fresh file system *)
Definition boot_log : Log :=
  {| start := 2; size_ := 30; dev := ROOTDEV; outstanding := 0; committing := false;
     lh := {| len := 0; blocknos := replicate NBLOCKNOS 0 |} |}.
Definition boot_fs : fs (Bcache (Z → block)) := {| lg := boot_log; bc := boot_cache zero_disk |}.

Lemma boot_quiet : log_quiet boot_fs.
Proof.
  pose proof (boot_cache_ok zero_disk zero_disk_blocks) as HR. split; [done|].
  eexists. split; [split; [done|exact HR]| |done|done| |done| |done].
  - split; [split; [done|split; [by apply Forall_replicate|done]]|].
    do 4 (split; [done|]). split; [apply NoDup_nil_2|]. by intros b ?%not_elem_of_nil.
  - intros b. by rewrite decide_False by apply not_elem_of_nil.
  - vm_compute. reflexivity.
Qed.

Definition ones_block : block := replicate (Z.to_nat BSIZE) 1.
Lemma ones_is_block : is_block ones_block.
Proof. split; [done|]. apply Forall_replicate. done. Qed.

Definition demo_trace : list lop :=
  [LBegin; LPut 100 ones_block; LBegin; LPut 101 ones_block; LEnd; LPut 100 zero_block; LEnd].
Lemma demo_wf : Forall (lop_wf boot_log) demo_trace.
Proof.
  assert (∀ b x, 100 ≤ b ≤ 200 → is_block x → lop_wf boot_log (LPut b x)) as H.
  { intros b x Hb Hx. split; [unfold in_log; cbn; lia|]. split; [done|]. unfold is_u32. lia. }
  unfold demo_trace. repeat (apply Forall_cons; split); try done; apply H; try lia;
    try apply ones_is_block; by split; [|apply Forall_replicate].
Qed.

Lemma demo_runs : ∃ s, lrun demo_trace boot_fs = Done (tt, s) ∧ outstanding (lg s) = 0.
Proof.
  assert (match lrun demo_trace boot_fs with Done (_, s) => outstanding (lg s) =? 0 | _ => false end = true) as H
    by (vm_compute; reflexivity).
  destruct (lrun demo_trace boot_fs) as [[[] s]|]; [|done]. exists s. split; [done|by apply Z.eqb_eq].
Qed.

Lemma boot_booted : booted boot_fs boot_log (dsk (bc boot_fs)).
Proof.
  pose proof (boot_cache_ok zero_disk zero_disk_blocks) as HR.
  split; [apply HR| | |done|done|done].
  - intros b. rewrite (ar_refs _ _ HR). done.
  - intros b. cbn [boot_fs bc]. by rewrite (ar_mem _ _ HR), (ar_dsk _ _ HR).
Qed.

Lemma log_crash_atomic_witness :
  ∃ s ws s3, lrun demo_trace boot_fs = Done (tt, s) ∧ writes (bc s) = writes (bc boot_fs) ++ ws ∧
    recover boot_fs = Done (tt, s3).
Proof.
  destruct demo_runs as (s & E & _).
  destruct (log_crash_atomic boot_fs s demo_trace boot_quiet demo_wf E) as (ws & Hw & Hc).
  destruct (Hc 0%nat boot_fs (Nat.le_0_l _) boot_booted) as (s3 & _ & _ & _ & E3 & _).
  exists s, ws, s3. auto.
Defined.

Lemma log_durable_witness :
  ∃ s, lrun demo_trace boot_fs = Done (tt, s) ∧ dsk (bc s) 101 = ones_block ∧
    dsk (bc s) 100 = zero_block.
Proof.
  destruct demo_runs as (s & E & Ho).
  destruct (log_durable boot_fs s demo_trace boot_quiet demo_wf E Ho) as [_ Hd].
  exists s. split; [exact E|].
  destruct (Hd 101) as [-> _]; [unfold in_log; cbn; lia|].
  destruct (Hd 100) as [-> _]; [unfold in_log; cbn; lia|]. split; vm_compute; reflexivity.
Defined.

Lemma boot_crash_ok : crash_ok boot_log (dsk (bc boot_fs)).
Proof.
  pose proof (boot_cache_ok zero_disk zero_disk_blocks) as HR. destruct boot_quiet as [_ [a H]].
  assert (is_block (dsk (bc boot_fs) (start boot_log))) as Hb by (apply dsk_block, HR).
  split; [done|]. apply rec_log_wf; [apply H|done|]. left. vm_compute. reflexivity.
Qed.

Lemma recovery_restartable_witness :
  ∃ s1, recover boot_fs = Done (tt, s1) ∧ ∃ ws, writes (bc s1) = writes (bc boot_fs) ++ ws.
Proof.
  assert (is_panic (recover boot_fs) = false) as Hp by (vm_compute; reflexivity).
  apply not_panic_done in Hp as ([] & s1 & E). exists s1. split; [exact E|].
  destruct (recovery_restartable boot_log _ boot_fs s1 0 boot_fs boot_crash_ok boot_booted E) as (ws & Hw & _).
  by exists ws.
Defined.

Lemma log_reservation_witness :
  ∃ s rem, client_run 9 [CBegin 0; CPut 0 100 ones_block; CEnd 0] ∅ boot_fs = Done (rem, s).
Proof.
  apply (log_reservation boot_fs _ 9 boot_quiet); [vm_compute; discriminate|reflexivity|reflexivity|].
  repeat (apply Forall_cons; split); try done. split; [unfold in_log; cbn; lia|].
  split; [apply ones_is_block|unfold is_u32; lia].
Defined.

(** The reservation is one block too small for an operation that logs
    [MAXOPBLOCKS] blocks: with two operations in progress and a third admitted
    behind a finished one, all within [MAXOPBLOCKS], [write] panics. *)
Theorem log_reservation_short :
  ∃ tr, Forall (cop_wf boot_log) tr ∧
    client_run (Z.to_nat MAXOPBLOCKS) tr ∅ boot_fs =
      Panic "log: not enough space for this transaction".
Proof.
  exists ([CBegin 0; CBegin 1] ++ ((λ i, CPut 0 (100 + Z.of_nat i) zero_block) <$> seq 0 9) ++
    [CEnd 0; CBegin 2] ++ ((λ i, CPut 1 (110 + Z.of_nat i) zero_block) <$> seq 0 10) ++
    ((λ i, CPut 2 (120 + Z.of_nat i) zero_block) <$> seq 0 10)).
  split; [|vm_compute; reflexivity].
  assert (is_block zero_block) as Hz by (split; [done|by apply Forall_replicate]).
  assert (∀ i b k, 100 ≤ b ≤ 200 → (k ≤ 10)%nat →
    Forall (cop_wf boot_log) ((λ j, CPut i (b + Z.of_nat j) zero_block) <$> seq 0 k)) as Hputs.
  { intros i b k Hb Hk. apply Forall_fmap, Forall_forall. intros j Hj%elem_of_seq. cbn.
    split; [unfold in_log; cbn; lia|]. split; [done|]. unfold is_u32. lia. }
  repeat (apply Forall_app; split); try apply Hputs; try lia;
    by repeat constructor.
Qed.
