(* ===== verification/Buddy.v ===== *)
(** * The kernel heap: a buddy allocator ([kernel/src/mm/kalloc.rs])

    Block [bi] of size class [k] covers [2^k] leaves of [LEAF_SIZE] bytes.  For
    every class the allocator keeps an intrusive free list, a bitmap of
    allocated blocks and, above class 0, a bitmap of split blocks.  The lists
    live in the heap itself; they are used through the interface [FreeLists].
    [KernelHeap] wraps the system in a spin lock, so the methods are sequential. *)
From S2P Require Import Prelude Consts Bytes FreeList.

Record BuddyInfo := { free : Z; alloc : list Z; split : list Z }.
(** The size of a [BuddyInfo]: a list and two fat pointers. *)
Definition BUDDY_INFO_SIZE : Z := 48.

Record Layout := { lsize : Z; lalign : Z }.

Definition round_up (n size : Z) : outcome Z :=
  n1 ← sub_chk n 1; Done ((n1 / size + 1) * size).
Definition round_down (n size : Z) : Z := n / size * size.

Fixpoint log2_loop (fuel : nat) (n k : Z) : Z :=
  match fuel with
  | O => k
  | S fuel => if 1 <? n then log2_loop fuel (Z.shiftr n 1) (k + 1) else k
  end.
Definition log2 (n : Z) : Z := log2_loop 64 n 0.

Definition blk_size (k : nat) : Z := Z.shiftl 1 (Z.of_nat k) * LEAF_SIZE.

(** [usize::next_power_of_two] and [usize::trailing_zeros]. *)
Definition next_power_of_two (n : Z) : Z := 2 ^ Z.log2_up n.
Fixpoint trailing_zeros_loop (fuel : nat) (n : Z) : nat :=
  match fuel with
  | O => O
  | S fuel => if Z.odd n then O else S (trailing_zeros_loop fuel (n / 2))
  end.
Definition trailing_zeros (n : Z) : nat := trailing_zeros_loop 64 n.

Section buddy.
Context {F : Type} `{!FreeLists F} {bf : BitField}.

Record BuddySystem := {
  base : Z; actual_end : Z; nsizes : nat; initialized : bool;
  infos : list BuddyInfo; bmem : F;
}.
Definition uninit (f : F) : BuddySystem :=
  {| base := 0; actual_end := 0; nsizes := 0; initialized := false; infos := []; bmem := f |}.

Definition on_lists {A} (m : M F A) : M BuddySystem A := λ b,
  match m (bmem b) with
  | Done (a, f) => Done (a, {| base := base b; actual_end := actual_end b; nsizes := nsizes b;
                               initialized := initialized b; infos := infos b; bmem := f |})
  | Panic why => Panic why
  end.
Definition set_infos (l : list BuddyInfo) : M BuddySystem unit :=
  modify (λ b, {| base := base b; actual_end := actual_end b; nsizes := nsizes b;
                  initialized := initialized b; infos := l; bmem := bmem b |}).

Definition max_size (b : BuddySystem) : nat := (nsizes b - 1)%nat.
Definition n_blk (b : BuddySystem) (k : nat) : Z := Z.shiftl 1 (Z.of_nat (max_size b - k)).
Definition blk_index (k : nat) (addr : Z) : M BuddySystem nat :=
  b ← get; d ← lift (sub_chk addr (base b)); mret (Z.to_nat (d / blk_size k)).
Definition blk_index_next (k : nat) (addr : Z) : M BuddySystem nat :=
  b ← get;
  d ← lift (sub_chk addr (base b));
  let i := d / blk_size k in
  mret (Z.to_nat (if d mod blk_size k >? 0 then i + 1 else i)).
Definition blk_addr (b : BuddySystem) (k bi : nat) : Z := base b + Z.of_nat bi * blk_size k.

(** [get_info_mut] does not check the index; outside the slice the behaviour is
    undefined, which is a panic here. *)
Definition get_info (k : nat) : M BuddySystem BuddyInfo :=
  b ← get; unwrap (infos b !! k) "undefined behaviour".
Definition upd_info (k : nat) (f : BuddyInfo → BuddyInfo) : M BuddySystem unit :=
  b ← get; set_infos (alter f k (infos b)).

(** ** BuddyInfo *)
Definition alloc_set (k index : nat) (set_or_clear : bool) : M BuddySystem unit :=
  info ← get_info k;
  unwrap (alloc info !! (index / 8)%nat) "undefined behaviour";;
  upd_info k (λ i, {| free := free i; alloc := bitmap_set (alloc i) index set_or_clear; split := split i |}).
Definition split_set (k index : nat) (set_or_clear : bool) : M BuddySystem unit :=
  info ← get_info k;
  unwrap (split info !! (index / 8)%nat) "undefined behaviour";;
  upd_info k (λ i, {| free := free i; alloc := alloc i; split := bitmap_set (split i) index set_or_clear |}).
Definition is_alloc_set (k index : nat) : M BuddySystem bool :=
  info ← get_info k; unwrap (bitmap_get (alloc info) index) "undefined behaviour".
Definition is_split_set (k index : nat) : M BuddySystem bool :=
  info ← get_info k; unwrap (bitmap_get (split info) index) "undefined behaviour".

Definition free_push (k : nat) (addr : Z) : M BuddySystem unit :=
  info ← get_info k; on_lists (fl_push (free info) addr).
Definition free_pop (k : nat) : M BuddySystem Z :=
  info ← get_info k; on_lists (fl_pop (free info)).
Definition free_is_empty (k : nat) : M BuddySystem bool :=
  info ← get_info k; b ← get; mret (fl_is_empty (free info) (bmem b)).

(** ** BuddySystem::alloc *)
Definition small_size (size : Z) : nat :=
  if size <=? LEAF_SIZE then O else trailing_zeros (next_power_of_two size / LEAF_SIZE).

Fixpoint find_size (fuel sizei : nat) : M BuddySystem nat :=
  match fuel with
  | O => mret sizei
  | S fuel =>
      e ← free_is_empty sizei;
      if (e : bool) then find_size fuel (sizei + 1) else mret sizei
  end.

Fixpoint split_down (fuel sizei : nat) (raw_addr : Z) : M BuddySystem unit :=
  match fuel with
  | O => mret tt
  | S fuel =>
      bi ← blk_index sizei raw_addr;
      split_set sizei bi true;;
      bi1 ← blk_index (sizei - 1) raw_addr;
      alloc_set (sizei - 1) bi1 true;;
      free_push (sizei - 1) (raw_addr + blk_size (sizei - 1));;
      split_down fuel (sizei - 1) raw_addr
  end.

Definition buddy_alloc (layout : Layout) : M BuddySystem Z :=
  if lsize layout =? 0 then mret 0
  else if lalign layout >? PAGE_SIZE then panic "request layout alignment bigger than PGSIZE"
  else
    let smalli := small_size (lsize layout) in
    b ← get;
    sizei ← find_size (nsizes b - smalli) smalli;
    if (nsizes b <=? sizei)%nat then mret 0
    else
      raw_addr ← free_pop sizei;
      bi ← blk_index sizei raw_addr;
      alloc_set sizei bi true;;
      split_down (sizei - smalli) sizei raw_addr;;
      mret raw_addr.

(** ** BuddySystem::dealloc *)
Fixpoint find_split (fuel i : nat) (raw_addr : Z) : M BuddySystem (option nat) :=
  match fuel with
  | O => mret None
  | S fuel =>
      bi ← blk_index (i + 1) raw_addr;
      s ← is_split_set (i + 1) bi;
      if (s : bool) then mret (Some i) else find_split fuel (i + 1) raw_addr
  end.

Definition buddy_of (bi : nat) : nat := if Nat.even bi then (bi + 1)%nat else (bi - 1)%nat.

Fixpoint merge_up (fuel sizei : nat) (raw_addr : Z) : M BuddySystem (nat * Z) :=
  match fuel with
  | O => mret (sizei, raw_addr)
  | S fuel =>
      bi ← blk_index sizei raw_addr;
      let buddyi := buddy_of bi in
      alloc_set sizei bi false;;
      a ← is_alloc_set sizei buddyi;
      if (a : bool) then mret (sizei, raw_addr)
      else
        b ← get;
        let buddy_addr := blk_addr b sizei buddyi in
        on_lists (fl_remove buddy_addr);;
        let raw_addr := if Nat.even buddyi then buddy_addr else raw_addr in
        spliti ← blk_index (sizei + 1) raw_addr;
        split_set (sizei + 1) spliti false;;
        merge_up fuel (sizei + 1) raw_addr
  end.

Definition buddy_dealloc (ptr : Z) (layout : Layout) : M BuddySystem unit :=
  b ← get;
  if (ptr <? base b) || (ptr >=? actual_end b) then panic "dealloc ptr out of range"
  else
    o ← find_split (max_size b) 0 ptr;
    match o with
    | None => panic "dealloc cannot recycle ptr"
    | Some sizei =>
        if lsize layout >? blk_size sizei then panic "layout > blk size"
        else
          '(sizei, raw_addr) ← merge_up (max_size b - sizei) sizei ptr;
          free_push sizei raw_addr
    end.

(** ** BuddySystem::init *)
Fixpoint mark_blocks (n : nat) (k bi : nat) : M BuddySystem unit :=
  match n with
  | O => mret tt
  | S n =>
      alloc_set k bi true;;
      (if (0 <? k)%nat then split_set k bi true else mret tt);;
      mark_blocks n k (bi + 1)
  end.
Fixpoint for_sizes (n k : nat) (f : nat → M BuddySystem unit) : M BuddySystem unit :=
  match n with
  | O => mret tt
  | S n => f k;; for_sizes n (k + 1) f
  end.
Definition mark (left right : Z) : M BuddySystem unit :=
  assertM (left mod LEAF_SIZE =? 0) "assertion `left == right` failed";;
  assertM (right mod LEAF_SIZE =? 0) "assertion `left == right` failed";;
  b ← get;
  for_sizes (nsizes b) 0 (λ i,
    bi ← blk_index i left;
    bj ← blk_index_next i right;
    mark_blocks (bj - bi) i bi).

Definition mark_meta (cur : Z) : M BuddySystem Z :=
  b ← get; meta ← lift (sub_chk cur (base b)); mark (base b) cur;; mret meta.
Definition mark_unavail : M BuddySystem Z :=
  b ← get;
  used ← lift (sub_chk (actual_end b) (base b));
  unavail ← lift (sub_chk (blk_size (max_size b)) used);
  mark (actual_end b) (actual_end b + unavail);;
  mret unavail.

Definition init_free_pair (sizei bi : nat) : M BuddySystem Z :=
  let buddyi := buddy_of bi in
  b ← get;
  a ← is_alloc_set sizei bi;
  a' ← is_alloc_set sizei buddyi;
  if negb (eqb a a') then
    (if (a : bool) then free_push sizei (blk_addr b sizei buddyi)
     else free_push sizei (blk_addr b sizei bi));;
    mret (blk_size sizei)
  else mret 0.

Fixpoint init_free_loop (n i : nat) (left right free : Z) : M BuddySystem Z :=
  match n with
  | O => mret free
  | S n =>
      lbi ← blk_index_next i left;
      rbi ← blk_index i right;
      f1 ← init_free_pair i lbi;
      f2 ← (if left <? right then init_free_pair i rbi else mret 0);
      init_free_loop n (i + 1) left right (free + f1 + f2)
  end.
Definition init_free (left : Z) : M BuddySystem Z :=
  b ← get; init_free_loop (max_size b) 0 left (actual_end b) 0.

(** Laying out the size classes, then their bitmaps, from [cur]. *)
Fixpoint init_alloc (n i : nat) (cur : Z) : M BuddySystem Z :=
  match n with
  | O => mret cur
  | S n =>
      b ← get;
      info ← get_info i;
      on_lists (fl_init (free info));;
      alloc_size ← lift (round_up (n_blk b i) 8);
      let len := alloc_size / 8 in
      upd_info i (λ x, {| free := free x; alloc := replicate (Z.to_nat len) 0; split := split x |});;
      init_alloc n (i + 1) (cur + len)
  end.
Fixpoint init_split (n i : nat) (cur : Z) : M BuddySystem Z :=
  match n with
  | O => mret cur
  | S n =>
      b ← get;
      split_size ← lift (round_up (n_blk b i) 8);
      let len := split_size / 8 in
      get_info i;;
      upd_info i (λ x, {| free := free x; alloc := alloc x; split := replicate (Z.to_nat len) 0 |});;
      init_split n (i + 1) (cur + len)
  end.

Definition buddy_init (start end_ : Z) : M BuddySystem unit :=
  b ← get;
  if initialized b then panic "init twice"
  else
    let unit_size := Z.max LEAF_SIZE PAGE_SIZE in
    cur ← lift (round_up start unit_size);
    let aend := round_down end_ unit_size in
    heap ← lift (sub_chk aend cur);
    let n1 := Z.to_nat (log2 (heap / LEAF_SIZE) + 1) in
    let n := if heap >? blk_size (n1 - 1) then S n1 else n1 in
    put {| base := cur; actual_end := aend; nsizes := n; initialized := false;
           infos := (λ i, {| free := cur + BUDDY_INFO_SIZE * Z.of_nat i; alloc := []; split := [] |})
                      <$> seq 0 n;
           bmem := bmem b |};;
    cur ← init_alloc n 0 (cur + BUDDY_INFO_SIZE * Z.of_nat n);
    cur ← init_split (n - 1) 1 cur;
    cur ← lift (round_up cur LEAF_SIZE);
    meta ← mark_meta cur;
    unavail ← mark_unavail;
    free ← init_free cur;
    total1 ← lift (sub_chk (blk_size (n - 1)) meta);
    total ← lift (sub_chk total1 unavail);
    if negb (free =? total) then panic "buddy system: meta, free, unavail"
    else modify (λ b, {| base := base b; actual_end := actual_end b; nsizes := nsizes b;
                         initialized := true; infos := infos b; bmem := bmem b |}).
End buddy.
Arguments BuddySystem F : clear implicits.

(** [GlobalAlloc for KernelHeap]: the system behind its lock. *)
Definition heap_alloc {F} `{!FreeLists F} `{!BitField} : Layout → M (BuddySystem F) Z := buddy_alloc.
Definition heap_dealloc {F} `{!FreeLists F} `{!BitField} : Z → Layout → M (BuddySystem F) unit :=
  buddy_dealloc.

(** * The tree of blocks

    A block [(k, i)] exists when it is the whole heap or its parent is split.
    [al] and [sp] are the two bitmaps. *)
Record tree := { al : nat → nat → bool; sp : nat → nat → bool }.
Definition upd2 (f : nat → nat → bool) (k i : nat) (v : bool) : nat → nat → bool :=
  λ k' i', if decide (k' = k ∧ i' = i) then v else f k' i'.
Definition set_al (t : tree) k i v : tree := {| al := upd2 (al t) k i v; sp := sp t |}.
Definition set_sp (t : tree) k i v : tree := {| al := al t; sp := upd2 (sp t) k i v |}.

Section tree.
Context (K : nat).
Implicit Types (t : tree).

Definition blk (k i : nat) : Prop := (k ≤ K)%nat ∧ (i < 2 ^ (K - k))%nat.
Definition exists_blk t k i : Prop := k = K ∨ sp t (S k) (i / 2)%nat = true.

Record tree_ok t : Prop := {
  to_sp : ∀ k i, sp t k i = true → (0 < k)%nat ∧ blk k i ∧ al t k i = true ∧ exists_blk t k i;
  to_al : ∀ k i, al t k i = true → blk k i ∧ exists_blk t k i;
  to_half : ∀ k j, sp t (S k) j = true →
    al t k (2 * j)%nat = true ∨ al t k (2 * j + 1)%nat = true;
}.

Definition free_blk t k i : Prop := blk k i ∧ exists_blk t k i ∧ al t k i = false.
Definition used_blk t k i : Prop := al t k i = true ∧ sp t k i = false.

(** The blocks a partition of the heap consists of. *)
Definition leaf_blk t k i : Prop := blk k i ∧ exists_blk t k i ∧ sp t k i = false.

Lemma used_leaf t k i : tree_ok t → used_blk t k i → leaf_blk t k i.
Proof. intros H [Ha Hs]. by destruct (to_al _ H _ _ Ha). Qed.
Lemma free_leaf t k i : tree_ok t → free_blk t k i → leaf_blk t k i.
Proof.
  intros H (Hb & He & Ha). split; [done|]. split; [done|].
  destruct (sp t k i) eqn:E; [|done]. destruct (to_sp _ H _ _ E) as (_ & _ & ? & _). congruence.
Qed.

Lemma blk_parent k i : blk k i → (k < K)%nat → blk (S k) (i / 2).
Proof.
  intros [Hk Hi] Hlt. split; [lia|]. apply Nat.Div0.div_lt_upper_bound.
  replace (K - k)%nat with (S (K - S k)) in Hi by lia. cbn in Hi. lia.
Qed.
Lemma blk_child k i j : blk (S k) i → (j = 2 * i ∨ j = 2 * i + 1)%nat → blk k j.
Proof.
  intros [Hk Hi] Hj. split; [lia|]. replace (K - k)%nat with (S (K - S k)) by lia. cbn. lia.
Qed.

(** Every proper ancestor of an existing block is split. *)
Lemma ancestor_split t k i d :
  tree_ok t → exists_blk t k i → (k + S d ≤ K)%nat → sp t (k + S d) (i / 2 ^ S d) = true.
Proof.
  intros H He. induction d as [|d IH]; intros Hd.
  - rewrite Nat.add_1_r, Nat.pow_1_r. destruct He as [->|He]; [lia|done].
  - specialize (IH ltac:(lia)). destruct (to_sp _ H _ _ IH) as (_ & _ & _ & [E|E]); [lia|].
    rewrite Nat.Div0.div_div in E. replace (k + S (S d))%nat with (S (k + S d)) by lia.
    by rewrite (Nat.pow_succ_r' 2 (S d)), (Nat.mul_comm 2).
Qed.

(** Two blocks overlap when they share a leaf. *)
Definition covers (k i leaf : nat) : Prop := (i * 2 ^ k ≤ leaf < (i + 1) * 2 ^ k)%nat.

Lemma covers_div k i x : covers k i x ↔ (x / 2 ^ k)%nat = i.
Proof.
  unfold covers. pose proof (Nat.pow_nonzero 2 k ltac:(lia)). split.
  - intros [? ?]. symmetry. apply (Nat.div_unique _ _ _ (x - i * 2 ^ k)); lia.
  - intros <-. pose proof (Nat.div_mod x (2 ^ k) ltac:(done)).
    pose proof (Nat.mod_upper_bound x (2 ^ k) ltac:(done)). nia.
Qed.

Lemma leaf_blk_disjoint t k i k' i' x :
  tree_ok t → leaf_blk t k i → leaf_blk t k' i' → covers k i x → covers k' i' x → k = k' ∧ i = i'.
Proof.
  intros H.
  assert (∀ k i k' i', (k < k')%nat → leaf_blk t k i → leaf_blk t k' i' → covers k i x →
    covers k' i' x → False) as Hlt.
  { clear k i k' i'. intros k i k' i' Hk (_ & He & _) ([Hk' _] & _ & Hs') Hc Hc'.
    apply covers_div in Hc, Hc'. subst i i'.
    pose proof (ancestor_split t k _ (k' - k - 1) H He ltac:(lia)) as Ha.
    replace (k + S (k' - k - 1))%nat with k' in Ha by lia.
    rewrite Nat.Div0.div_div, <- Nat.pow_add_r in Ha.
    replace (k + S (k' - k - 1))%nat with k' in Ha by lia. congruence. }
  intros Hl Hl' Hc Hc'. destruct (Nat.lt_trichotomy k k') as [?|[->|?]].
  - by destruct (Hlt k i k' i').
  - split; [done|]. apply covers_div in Hc, Hc'. congruence.
  - by destruct (Hlt k' i' k i).
Qed.

Lemma covers_start k i : covers k i (i * 2 ^ k).
Proof. unfold covers. pose proof (Nat.pow_nonzero 2 k ltac:(lia)). lia. Qed.

Lemma leaf_blk_start_inj t k i k' i' :
  tree_ok t → leaf_blk t k i → leaf_blk t k' i' → (i * 2 ^ k = i' * 2 ^ k')%nat → k = k' ∧ i = i'.
Proof.
  intros H Hl Hl' E. eapply (leaf_blk_disjoint t k i k' i'); [done..|apply covers_start|].
  rewrite E. apply covers_start.
Qed.

(** ** The steps of [alloc] and [dealloc] on the tree *)
Lemma upd2_spec f k i v k' i' :
  upd2 f k i v k' i' = if decide (k' = k ∧ i' = i) then v else f k' i'.
Proof. done. Qed.

Ltac tree_simp :=
  unfold used_blk, free_blk, exists_blk, set_al, set_sp in *; cbn [al sp] in *; rewrite ?upd2_spec in *.

Lemma take_free t k i :
  tree_ok t → free_blk t k i →
  tree_ok (set_al t k i true) ∧
  (∀ k' i', used_blk (set_al t k i true) k' i' ↔ used_blk t k' i' ∨ (k', i') = (k, i)) ∧
  (∀ k' i', free_blk (set_al t k i true) k' i' ↔ free_blk t k' i' ∧ (k', i') ≠ (k, i)).
Proof.
  intros H Hf. destruct (free_leaf _ _ _ H Hf) as (_ & _ & Hs). destruct Hf as (Hb & He & Ha).
  split; [|split].
  - split.
    + intros k' i' Hs'. destruct (to_sp _ H _ _ Hs') as (H1 & H2 & H3 & H4).
      split; [done|]. split; [done|]. split; [|done]. cbn. rewrite upd2_spec. by case_decide.
    + intros k' i'. cbn. rewrite upd2_spec. case_decide as E; [destruct E as [-> ->]; done|].
      intros Ha'. by apply (to_al _ H).
    + intros k' j Hs'. tree_simp. destruct (to_half _ H _ _ Hs') as [E|E]; rewrite E;
        [left|right]; by case_decide.
  - intros k' i'. tree_simp. case_decide as E; [destruct E as [-> ->]; naive_solver|].
    split; [naive_solver|]. intros [?|[= -> ->]]; [done|by destruct E].
  - intros k' i'. tree_simp. case_decide as E; [destruct E as [-> ->]; naive_solver|].
    split; [|naive_solver]. intros (? & ? & ?). split; [done|]. intros [= -> ->]. by destruct E.
Qed.

Lemma no_child t k i j :
  tree_ok t → sp t (S k) i = false → (j / 2 = i)%nat → (k < K)%nat → al t k j = false ∧ sp t k j = false.
Proof.
  intros H Hs Hj Hk.
  assert (¬ exists_blk t k j) as Hne by (intros [->|E]; [lia|rewrite Hj in E; congruence]).
  split.
  - destruct (al t k j) eqn:E; [|done]. by destruct (to_al _ H _ _ E).
  - destruct (sp t k j) eqn:E; [|done]. by destruct (to_sp _ H _ _ E) as (_ & _ & _ & ?).
Qed.

Lemma half_double i : (2 * i / 2 = i)%nat ∧ ((2 * i + 1) / 2 = i)%nat.
Proof.
  split; [rewrite Nat.mul_comm; by apply Nat.div_mul|].
  symmetry. apply (Nat.div_unique _ _ _ 1); lia.
Qed.
Lemma half_inv j i : (j / 2 = i)%nat → (j = 2 * i ∨ j = 2 * i + 1)%nat.
Proof. intros <-. pose proof (Nat.div_mod j 2 ltac:(lia)). pose proof (Nat.mod_upper_bound j 2). lia. Qed.

Definition split_used_tree t k i : tree := set_al (set_sp t (S k) i true) k (2 * i)%nat true.

Lemma split_used t k i :
  tree_ok t → used_blk t (S k) i →
  tree_ok (split_used_tree t k i) ∧
  (∀ k' i', used_blk (split_used_tree t k i) k' i' ↔
     (used_blk t k' i' ∧ (k', i') ≠ (S k, i)) ∨ (k', i') = (k, 2 * i)%nat) ∧
  (∀ k' i', free_blk (split_used_tree t k i) k' i' ↔
     free_blk t k' i' ∨ (k', i') = (k, 2 * i + 1)%nat).
Proof.
  intros H [Ha Hs]. destruct (to_al _ H _ _ Ha) as [Hb He]. unfold split_used_tree.
  assert (k < K)%nat as Hk by (destruct Hb; lia).
  destruct (half_double i) as [H2 H21].
  destruct (no_child t k i (2 * i) H Hs H2 Hk) as [Ha0 Hs0].
  destruct (no_child t k i (2 * i + 1) H Hs H21 Hk) as [Ha1 Hs1].
  assert (blk k (2 * i) ∧ blk k (2 * i + 1)) as [Hb0 Hb1].
  { split; eapply blk_child; eauto. }
  split; [|split].
  - split.
    + intros k' i'. tree_simp. case_decide as E.
      * destruct E as [-> ->]. intros _. split; [lia|]. split; [done|].
        split; [rewrite decide_False by lia; done|]. destruct He as [->|He]; [by left|].
        right. by rewrite decide_False by lia.
      * intros Hs'. destruct (to_sp _ H _ _ Hs') as (H3 & H4 & H5 & H6).
        split; [done|]. split; [done|]. split; [by case_decide|].
        destruct H6 as [->|H6]; [by left|]. right. by case_decide.
    + intros k' i'. tree_simp. case_decide as E.
      * destruct E as [-> ->]. intros _. split; [done|]. right. by rewrite decide_True by (by rewrite H2).
      * intros Ha'. destruct (to_al _ H _ _ Ha') as (H3 & H4). split; [done|].
        destruct H4 as [->|H4]; [by left|]. right. by case_decide.
    + intros k' j. tree_simp. case_decide as E.
      * destruct E as [[= ->] ->]. intros _. left. by rewrite decide_True.
      * intros Hs'. destruct (to_half _ H _ _ Hs') as [E'|E']; rewrite E'; [left|right]; by case_decide.
  - intros k' i'. tree_simp.
    destruct (decide (k' = k ∧ i' = (2 * i)%nat)) as [[-> ->]|E1].
    + rewrite decide_False by lia. naive_solver.
    + destruct (decide (k' = S k ∧ i' = i)) as [[-> ->]|E2]; [split; [by intros []|]; naive_solver lia|].
      split; [|naive_solver]. intros ?. left. split; [done|]. naive_solver.
  - intros k' i'. tree_simp. split.
    + intros (H3 & H4 & H5). case_decide as E1; [done|].
      case_decide as E2; [|left; naive_solver].
      destruct E2 as [[= ->] E2]. apply half_inv in E2 as [->| ->]; [by destruct E1|by right].
    + intros [(H3 & H4 & H5)|[= -> ->]].
      * split; [done|]. split; [destruct H4 as [->|H4]; [by left|right; by case_decide]|].
        rewrite decide_False; [done|]. intros [-> ->]. destruct H4 as [->|H4]; [lia|]. rewrite H2 in H4. congruence.
      * split; [done|]. split; [right; rewrite decide_True; [done|split; [done|exact H21]]|].
        rewrite decide_False by lia. done.
Qed.

Lemma buddy_spec i :
  (buddy_of i / 2 = i / 2)%nat ∧ buddy_of i ≠ i ∧ buddy_of (buddy_of i) = i ∧
  ∀ j, (j / 2 = i / 2)%nat → j = i ∨ j = buddy_of i.
Proof.
  unfold buddy_of. destruct (Nat.even i) eqn:E.
  - apply Nat.even_spec in E as [m ->]. destruct (half_double m) as [-> E1].
    split; [done|]. split; [lia|]. split.
    + rewrite Nat.add_1_r, Nat.even_succ, Nat.odd_mul. cbn. lia.
    + intros j Hj. apply half_inv in Hj. lia.
  - apply (f_equal negb) in E. rewrite Nat.negb_even in E. apply Nat.odd_spec in E as [m ->].
    destruct (half_double m) as [E0 ->]. replace (2 * m + 1 - 1)%nat with (2 * m)%nat by lia.
    split; [done|]. split; [lia|]. split.
    + by rewrite Nat.even_mul.
    + intros j Hj. apply half_inv in Hj. lia.
Qed.

Lemma release_alone t k i :
  tree_ok t → used_blk t k i → (k < K)%nat → al t k (buddy_of i) = true →
  tree_ok (set_al t k i false) ∧
  (∀ k' i', used_blk (set_al t k i false) k' i' ↔ used_blk t k' i' ∧ (k', i') ≠ (k, i)) ∧
  (∀ k' i', free_blk (set_al t k i false) k' i' ↔ free_blk t k' i' ∨ (k', i') = (k, i)).
Proof.
  intros H [Ha Hs] Hk Hbud. destruct (to_al _ H _ _ Ha) as [Hb He].
  destruct (buddy_spec i) as (Hb1 & Hb2 & Hb3 & Hb4).
  split; [|split].
  - split.
    + intros k' i' Hs'. cbn in Hs'. destruct (to_sp _ H _ _ Hs') as (H1 & H2 & H3 & H4).
      split; [done|]. split; [done|]. split; [|done]. tree_simp. case_decide as E; [|done].
      destruct E as [-> ->]. congruence.
    + intros k' i'. tree_simp. case_decide; [done|]. intros Ha'. by apply (to_al _ H).
    + intros k' j Hs'. tree_simp. destruct (decide (k' = k ∧ (i / 2 = j)%nat)) as [[-> <-]|E].
      * rewrite <- Hb1 in *. destruct (half_inv (buddy_of i) _ eq_refl) as [E|E]; rewrite <- E;
          [left|right]; by rewrite decide_False by naive_solver.
      * destruct (half_double j) as [E0 E1].
        destruct (to_half _ H _ _ Hs') as [E'|E']; rewrite E'; [left|right];
          rewrite decide_False; try done; intros [-> <-]; apply E; done.
  - intros k' i'. tree_simp. case_decide as E; [destruct E as [-> ->]; naive_solver|]. naive_solver.
  - intros k' i'. tree_simp. case_decide as E; [destruct E as [-> ->]; naive_solver|]. naive_solver.
Qed.

Definition merge_tree t k i : tree := set_sp (set_al t k i false) (S k) (i / 2)%nat false.

Lemma release_merge t k i :
  tree_ok t → used_blk t k i → (k < K)%nat → al t k (buddy_of i) = false →
  free_blk t k (buddy_of i) ∧
  tree_ok (merge_tree t k i) ∧
  (∀ k' i', used_blk (merge_tree t k i) k' i' ↔
     (used_blk t k' i' ∧ (k', i') ≠ (k, i)) ∨ (k', i') = (S k, i / 2)%nat) ∧
  (∀ k' i', free_blk (merge_tree t k i) k' i' ↔
     free_blk t k' i' ∧ (k', i') ≠ (k, buddy_of i)).
Proof.
  intros H [Ha Hs] Hk Hbud. destruct (to_al _ H _ _ Ha) as [Hb He].
  destruct (buddy_spec i) as (Hb1 & Hb2 & Hb3 & Hb4).
  assert (sp t (S k) (i / 2) = true) as Hsp by (destruct He; [lia|done]).
  destruct (to_sp _ H _ _ Hsp) as (_ & Hpb & Hpa & Hpe).
  assert (free_blk t k (buddy_of i)) as Hfb.
  { split; [|split; [|done]].
    - eapply blk_child; [exact Hpb|]. by apply half_inv.
    - right. by rewrite Hb1. }
  split; [done|]. unfold merge_tree. split; [|split].
  - split.
    + intros k' i'. tree_simp. case_decide as E; [done|]. intros Hs'.
      destruct (to_sp _ H _ _ Hs') as (H1 & H2 & H3 & H4). split; [done|]. split; [done|].
      assert (al t k' i' = true → ¬ (k' = k ∧ (i' / 2 = i / 2)%nat)) as Hch.
      { intros _ [-> E']. apply Hb4 in E' as [->| ->]; congruence. }
      split.
      * rewrite decide_False; [done|]. intros [-> ->]. by apply Hch.
      * destruct H4 as [->|H4]; [by left|]. right. rewrite decide_False; [done|].
        intros [[= ->] E']. by apply Hch.
    + intros k' i'. tree_simp. case_decide as E; [done|]. intros Ha'.
      destruct (to_al _ H _ _ Ha') as (H1 & H2). split; [done|]. destruct H2 as [->|H2]; [by left|].
      right. rewrite decide_False; [done|]. intros [[= ->] E'].
      apply Hb4 in E' as [->| ->]; [by destruct E|congruence].
    + intros k' j. tree_simp. case_decide as E; [done|]. intros Hs'.
      destruct (half_double j) as [E0 E1].
      destruct (to_half _ H _ _ Hs') as [E'|E']; rewrite E'; [left|right];
        rewrite decide_False; try done; intros [-> <-]; apply E; done.
  - intros k' i'. tree_simp. split.
    + intros [H1 H2]. destruct (decide (k' = k ∧ i' = i)) as [E1|E1]; [done|].
      destruct (decide (k' = S k ∧ i' = (i / 2)%nat)) as [[-> ->]|E2]; [by right|].
      left. naive_solver.
    + intros [[[H1 H2] Hne]|[= -> ->]].
      * rewrite decide_False by naive_solver. split; [done|]. by case_decide.
      * rewrite decide_False by lia. by rewrite decide_True.
  - intros k' i'. tree_simp. split.
    + intros (H1 & H2 & H3).
      assert (¬ (k' = k ∧ (i' / 2 = i / 2)%nat)) as Hne.
      { intros [-> E]. destruct H2 as [->|H2]; [lia|]. by rewrite decide_True in H2. }
      rewrite decide_False in H3 by naive_solver. split; [|naive_solver].
      split; [done|]. split; [|done]. destruct H2 as [->|H2]; [by left|]. right. by case_decide.
    + intros [(H1 & H2 & H3) Hne].
      assert (¬ (k' = k ∧ (i' / 2 = i / 2)%nat)) as Hch.
      { intros [-> E]. apply Hb4 in E as [->| ->]; [congruence|done]. }
      split; [done|]. split; [|by rewrite decide_False by naive_solver].
      destruct H2 as [->|H2]; [by left|]. right. rewrite decide_False; [done|].
      intros [[= ->] E]. by apply Hch.
Qed.
End tree.

(** * The allocator on the tree *)
Section conc.
Context {F : Type} `{!FreeLists F} `{!FreeListsLaws F} {bf : BitField} {bf_laws : BitFieldLaws}.
Context (K : nat).
Implicit Types (b : BuddySystem F) (t : tree) (fl : nat → list Z).

Definition info_rel t k (info : BuddyInfo) : Prop :=
  Forall is_byte (alloc info) ∧ Forall is_byte (split info) ∧
  (2 ^ (K - k) ≤ 8 * length (alloc info))%nat ∧
  ((0 < k)%nat → (2 ^ (K - k) ≤ 8 * length (split info))%nat) ∧
  (∀ i, (i < 2 ^ (K - k))%nat → bitmap_get (alloc info) i = Some (al t k i)) ∧
  ((0 < k)%nat → ∀ i, (i < 2 ^ (K - k))%nat → bitmap_get (split info) i = Some (sp t k i)).

Record brel b t fl : Prop := {
  br_n : nsizes b = S K;
  br_len : length (infos b) = S K;
  br_base : 0 < base b;
  br_info : ∀ k info, infos b !! k = Some info → info_rel t k info;
  br_anchors : ∀ k k' info info', infos b !! k = Some info → infos b !! k' = Some info' →
    free info = free info' → k = k';
  br_lists : ∃ L, fl_rep (bmem b) L ∧
    (∀ k info, infos b !! k = Some info → L !! free info = Some (fl k)) ∧
    (∀ h l, L !! h = Some l → ∃ k info, infos b !! k = Some info ∧ free info = h);
}.

(** What no operation changes after [init]. *)
Definition same_shape b b' : Prop :=
  base b' = base b ∧ actual_end b' = actual_end b ∧ nsizes b' = nsizes b ∧
  free <$> infos b' = free <$> infos b.

Lemma same_shape_trans b1 b2 b3 : same_shape b1 b2 → same_shape b2 b3 → same_shape b1 b3.
Proof. intros (? & ? & ? & ?) (? & ? & ? & ?). repeat split; congruence. Qed.
Lemma same_shape_refl b : same_shape b b.
Proof. done. Qed.

Lemma get_info_run b t fl k :
  brel b t fl → (k ≤ K)%nat → ∃ info, infos b !! k = Some info ∧ get_info k b = Done (info, b).
Proof.
  intros H Hk. destruct (lookup_lt_is_Some_2 (infos b) k) as [info E].
  { rewrite (br_len _ _ _ H). lia. }
  exists info. split; [done|]. unfold get_info. run_simpl. by rewrite E.
Qed.

(** Replacing the bitmaps of one class. *)
Lemma brel_upd b t t' fl k info f :
  brel b t fl → infos b !! k = Some info →
  (∀ i, free (f i) = free i) → info_rel t' k (f info) →
  (∀ k' i, k' ≠ k → al t' k' i = al t k' i ∧ sp t' k' i = sp t k' i) →
  ∃ b', upd_info k f b = Done (tt, b') ∧ brel b' t' fl ∧ same_shape b b'.
Proof.
  intros H Ek Hfree Hrel Hother. destruct H as [Hn Hlen Hbase Hinfo Hanch (L & HL1 & HL2 & HL3)].
  assert (free <$> alter f k (infos b) = free <$> infos b) as Hsame.
  { apply list_eq. intros j. rewrite !list_lookup_fmap. destruct (decide (k = j)) as [<-|].
    - rewrite list_lookup_alter_eq, Ek. cbn. by rewrite Hfree.
    - by rewrite list_lookup_alter_ne. }
  assert (∀ j x, alter f k (infos b) !! j = Some x →
    ∃ y, infos b !! j = Some y ∧ free x = free y ∧ (if decide (j = k) then x = f y else x = y)) as Hl.
  { intros j x. destruct (decide (j = k)) as [->|].
    - rewrite list_lookup_alter_eq, Ek. intros [= <-]. by exists info.
    - rewrite list_lookup_alter_ne by done. intros E. by exists x. }
  eexists. split; [reflexivity|]. split; [|done]. split; cbn.
  - done.
  - by rewrite length_alter.
  - done.
  - intros j x E. destruct (Hl j x E) as (y & Ey & _ & Hx). destruct (decide (j = k)) as [->|Hne].
    + rewrite Ek in Ey. injection Ey as <-. by subst.
    + subst. destruct (Hinfo j y Ey) as (H1 & H2 & H3 & H4 & H5 & H6).
      split; [done|]. split; [done|]. split; [done|]. split; [done|]. split.
      * intros i Hi. rewrite H5 by done. by destruct (Hother j i Hne) as [-> _].
      * intros H0 i Hi. rewrite H6 by done. by destruct (Hother j i Hne) as [_ ->].
  - intros j j' x x' E E' Ex. destruct (Hl _ _ E) as (y & Ey & E1 & _), (Hl _ _ E') as (y' & Ey' & E1' & _).
    eapply Hanch; [done..|congruence].
  - exists L. split; [done|]. split.
    + intros j x E. destruct (Hl _ _ E) as (y & Ey & -> & _). by apply HL2.
    + intros h l Eh. destruct (HL3 h l Eh) as (j & y & Ey & <-). exists j.
      destruct (alter f k (infos b) !! j) as [x|] eqn:Ex.
      * destruct (Hl _ _ Ex) as (y' & Ey' & Efr & _). exists x. split; [done|]. congruence.
      * apply lookup_ge_None in Ex. rewrite length_alter in Ex. apply lookup_lt_Some in Ey. lia.
Qed.

Lemma bitmap_byte_Some (bm : list Z) i n :
  (i < n)%nat → (n ≤ 8 * length bm)%nat → is_Some (bm !! (i / 8)%nat).
Proof. intros. apply lookup_lt_is_Some_2, Nat.Div0.div_lt_upper_bound. lia. Qed.

Lemma alloc_set_ok b t fl k i v :
  brel b t fl → blk K k i →
  ∃ b', alloc_set k i v b = Done (tt, b') ∧ brel b' (set_al t k i v) fl ∧ same_shape b b'.
Proof.
  intros H [Hk Hi]. destruct (get_info_run b t fl k H Hk) as (info & Ei & Eg).
  destruct (br_info _ _ _ H _ _ Ei) as (H1 & H2 & H3 & H4 & H5 & H6).
  destruct (bitmap_byte_Some (alloc info) i _ Hi H3) as [byte Eb].
  edestruct (brel_upd b t (set_al t k i v) fl k info) as (b' & E' & Hb').
  - done.
  - done.
  - shelve.
  - shelve.
  - intros k' i' Hne. cbn. rewrite upd2_spec, decide_False by naive_solver. done.
  - exists b'. split; [|exact Hb']. unfold alloc_set. rewrite (bind_run _ _ _ _ _ Eg).
    rewrite (bind_run _ _ _ byte b) by (unfold unwrap; by rewrite Eb). exact E'.
  Unshelve.
  + done.
  + split; [by apply bitmap_set_bytes|]. split; [done|]. cbn [alloc split]. split; [by rewrite length_bitmap_set|].
    split; [done|]. split; [|done]. intros i' Hi'. cbn [al sp set_al set_sp]. rewrite upd2_spec.
    destruct (decide (i' = i)) as [->|Hne].
    * rewrite decide_True by done. rewrite bitmap_get_set_same; [done|done|lia].
    * rewrite decide_False by naive_solver. rewrite bitmap_get_set_other by done. by apply H5.
Qed.

Lemma split_set_ok b t fl k i v :
  brel b t fl → blk K k i → (0 < k)%nat →
  ∃ b', split_set k i v b = Done (tt, b') ∧ brel b' (set_sp t k i v) fl ∧ same_shape b b'.
Proof.
  intros H [Hk Hi] H0. destruct (get_info_run b t fl k H Hk) as (info & Ei & Eg).
  destruct (br_info _ _ _ H _ _ Ei) as (H1 & H2 & H3 & H4 & H5 & H6).
  destruct (bitmap_byte_Some (split info) i _ Hi (H4 H0)) as [byte Eb].
  edestruct (brel_upd b t (set_sp t k i v) fl k info) as (b' & E' & Hb').
  - done.
  - done.
  - shelve.
  - shelve.
  - intros k' i' Hne. cbn. rewrite upd2_spec, decide_False by naive_solver. done.
  - exists b'. split; [|exact Hb']. unfold split_set. rewrite (bind_run _ _ _ _ _ Eg).
    rewrite (bind_run _ _ _ byte b) by (unfold unwrap; by rewrite Eb). exact E'.
  Unshelve.
  + done.
  + split; [done|]. split; [by apply bitmap_set_bytes|]. cbn [alloc split]. split; [done|].
    split; [by rewrite length_bitmap_set|]. split; [done|]. intros _ i' Hi'. cbn [al sp set_al set_sp]. rewrite upd2_spec.
    specialize (H4 H0). destruct (decide (i' = i)) as [->|Hne].
    * rewrite decide_True by done. rewrite bitmap_get_set_same; [done|done|lia].
    * rewrite decide_False by naive_solver. rewrite bitmap_get_set_other by done. by apply H6.
Qed.

Lemma is_alloc_set_ok b t fl k i :
  brel b t fl → blk K k i → is_alloc_set k i b = Done (al t k i, b).
Proof.
  intros H [Hk Hi]. destruct (get_info_run b t fl k H Hk) as (info & Ei & Eg).
  destruct (br_info _ _ _ H _ _ Ei) as (_ & _ & _ & _ & H5 & _).
  unfold is_alloc_set. rewrite (bind_run _ _ _ _ _ Eg). unfold unwrap. by rewrite H5.
Qed.
Lemma is_split_set_ok b t fl k i :
  brel b t fl → blk K k i → (0 < k)%nat → is_split_set k i b = Done (sp t k i, b).
Proof.
  intros H [Hk Hi] H0. destruct (get_info_run b t fl k H Hk) as (info & Ei & Eg).
  destruct (br_info _ _ _ H _ _ Ei) as (_ & _ & _ & _ & _ & H6).
  unfold is_split_set. rewrite (bind_run _ _ _ _ _ Eg). unfold unwrap. by rewrite H6.
Qed.

(** The lists. *)
Definition list_fresh b fl (x : Z) : Prop :=
  x ≠ 0 ∧ (∀ k, (k ≤ K)%nat → x ∉ fl k) ∧ (∀ k info, infos b !! k = Some info → free info ≠ x).

Lemma brel_lists b t fl fl' f' L k info l :
  brel b t fl → fl_rep (bmem b) L →
  (∀ k info, infos b !! k = Some info → L !! free info = Some (fl k)) →
  (∀ h l, L !! h = Some l → ∃ k info, infos b !! k = Some info ∧ free info = h) →
  infos b !! k = Some info → fl_rep f' (<[free info := l]> L) → fl' = <[k := l]> fl →
  brel {| base := base b; actual_end := actual_end b; nsizes := nsizes b;
          initialized := initialized b; infos := infos b; bmem := f' |} t fl'.
Proof.
  intros [Hn Hlen Hbase Hinfo Hanch _] _ HL2 HL3 Ek HL' ->. split; try done.
  exists (<[free info := l]> L). split; [done|]. cbn. split.
  - intros j x E. destruct (decide (j = k)) as [->|Hne].
    + rewrite Ek in E. injection E as <-. by rewrite lookup_insert_eq, fn_lookup_insert.
    + rewrite fn_lookup_insert_ne by done. rewrite lookup_insert_ne; [by apply HL2|].
      intros E'. apply Hne. symmetry. by eapply Hanch.
  - intros h l' [[<- _]|[_ Eh]]%lookup_insert_Some; [by exists k, info|by eapply HL3].
Qed.

Lemma free_push_ok b t fl k x :
  brel b t fl → (k ≤ K)%nat → list_fresh b fl x →
  ∃ b', free_push k x b = Done (tt, b') ∧ brel b' t (<[k := x :: fl k]> fl) ∧ same_shape b b'.
Proof.
  intros H Hk (Hx0 & Hxl & Hxa). destruct (get_info_run b t fl k H Hk) as (info & Ei & Eg).
  destruct (br_lists _ _ _ H) as (L & HL1 & HL2 & HL3).
  destruct (fl_push_ok (bmem b) L (free info) (fl k) x HL1 (HL2 _ _ Ei)) as (f' & E' & HL').
  { split; [done|]. intros h l Eh. destruct (HL3 h l Eh) as (j & y & Ey & <-).
    rewrite HL2 with (k := j) in Eh by done. injection Eh as <-.
    apply not_elem_of_cons. split; [intros ->; by apply (Hxa j y)|]. apply Hxl.
    apply lookup_lt_Some in Ey. rewrite (br_len _ _ _ H) in Ey. lia. }
  eexists. split.
  { unfold free_push. rewrite (bind_run _ _ _ _ _ Eg). unfold on_lists. by rewrite E'. }
  split; [by eapply brel_lists|done].
Qed.

Lemma free_pop_ok b t fl k x l :
  brel b t fl → (k ≤ K)%nat → fl k = x :: l →
  ∃ b', free_pop k b = Done (x, b') ∧ brel b' t (<[k := l]> fl) ∧ same_shape b b'.
Proof.
  intros H Hk Hx. destruct (get_info_run b t fl k H Hk) as (info & Ei & Eg).
  destruct (br_lists _ _ _ H) as (L & HL1 & HL2 & HL3).
  pose proof (HL2 _ _ Ei) as HLk. rewrite Hx in HLk.
  destruct (fl_pop_ok (bmem b) L (free info) x l HL1 HLk) as (f' & E' & HL').
  eexists. split.
  { unfold free_pop. rewrite (bind_run _ _ _ _ _ Eg). unfold on_lists. by rewrite E'. }
  split; [by eapply brel_lists|done].
Qed.

Lemma free_remove_ok b t fl k l1 x l2 :
  brel b t fl → (k ≤ K)%nat → fl k = l1 ++ x :: l2 →
  ∃ b', on_lists (fl_remove x) b = Done (tt, b') ∧ brel b' t (<[k := l1 ++ l2]> fl) ∧ same_shape b b'.
Proof.
  intros H Hk Hx. destruct (get_info_run b t fl k H Hk) as (info & Ei & Eg).
  destruct (br_lists _ _ _ H) as (L & HL1 & HL2 & HL3).
  pose proof (HL2 _ _ Ei) as HLk. rewrite Hx in HLk.
  destruct (fl_remove_ok (bmem b) L (free info) l1 x l2 HL1 HLk) as (f' & E' & HL').
  eexists. split.
  { unfold on_lists. by rewrite E'. }
  split; [by eapply brel_lists|done].
Qed.

Lemma free_is_empty_ok b t fl k :
  brel b t fl → (k ≤ K)%nat → free_is_empty k b = Done (bool_decide (fl k = []), b).
Proof.
  intros H Hk. destruct (get_info_run b t fl k H Hk) as (info & Ei & Eg).
  destruct (br_lists _ _ _ H) as (L & HL1 & HL2 & HL3).
  unfold free_is_empty. rewrite (bind_run _ _ _ _ _ Eg). run_simpl.
  by rewrite (fl_is_empty_ok (bmem b) L (free info) (fl k) HL1 (HL2 _ _ Ei)).
Qed.

Lemma lists_nodup b t fl k : brel b t fl → (k ≤ K)%nat → NoDup (fl k).
Proof.
  intros H Hk. destruct (get_info_run b t fl k H Hk) as (info & Ei & Eg).
  destruct (br_lists _ _ _ H) as (L & HL1 & HL2 & HL3). by eapply fl_rep_nodup, HL2.
Qed.

(** ** Addresses *)
Lemma blk_size_pow k : blk_size k = 2 ^ Z.of_nat k * 16.
Proof. unfold blk_size. rewrite Z.shiftl_1_l by lia. done. Qed.

Lemma blk_addr_leaf b k i : blk_addr b k i = base b + Z.of_nat (i * 2 ^ k) * 16.
Proof.
  unfold blk_addr. rewrite blk_size_pow, Nat2Z.inj_mul, Nat2Z.inj_pow. lia.
Qed.

Lemma blk_index_run b k k' i :
  blk_index k' (blk_addr b k i) b = Done ((i * 2 ^ k / 2 ^ k')%nat, b).
Proof.
  unfold blk_index. run_simpl. rewrite blk_addr_leaf, sub_chk_ok by lia.
  replace (base b + Z.of_nat (i * 2 ^ k) * 16 - base b) with (Z.of_nat (i * 2 ^ k) * 16) by lia.
  rewrite blk_size_pow, Z.div_mul_cancel_r by (try lia; apply Z.pow_nonzero; lia).
  assert (2 ^ Z.of_nat k' = Z.of_nat (2 ^ k')) as -> by (by rewrite Nat2Z.inj_pow).
  by rewrite <- Nat2Z.inj_div, Nat2Z.id.
Qed.

Lemma shape_addr b b' k i : same_shape b b' → blk_addr b' k i = blk_addr b k i.
Proof. intros (E & _). unfold blk_addr. by rewrite E. Qed.

Lemma blk_index_at b b' k k' i :
  same_shape b b' → blk_index k' (blk_addr b k i) b' = Done ((i * 2 ^ k / 2 ^ k')%nat, b').
Proof. intros Hs. rewrite <- (shape_addr _ _ k i Hs). apply blk_index_run. Qed.

Lemma div_same k i : (i * 2 ^ k / 2 ^ k)%nat = i.
Proof. apply Nat.div_mul, Nat.pow_nonzero. lia. Qed.
Lemma div_up k i d : (i * 2 ^ k / 2 ^ (k + d))%nat = (i / 2 ^ d)%nat.
Proof.
  rewrite Nat.pow_add_r, (Nat.mul_comm (2 ^ k) (2 ^ d)).
  apply Nat.Div0.div_mul_cancel_r, Nat.pow_nonzero. lia.
Qed.
Lemma div_down k i : (i * 2 ^ S k / 2 ^ k)%nat = (2 * i)%nat.
Proof.
  rewrite Nat.pow_succ_r', Nat.mul_assoc, Nat.div_mul by (apply Nat.pow_nonzero; lia). lia.
Qed.

(** ** The invariant

    [R] are the leaves that hold the allocator's own data, or lie past the end
    of memory: used leaf blocks that nobody frees. *)
Record inv b t fl (R : gset nat) : Prop := {
  bi_rel : brel b t fl;
  bi_tree : tree_ok K t;
  bi_lists : ∀ k a, (k ≤ K)%nat → a ∈ fl k ↔ ∃ i, free_blk K t k i ∧ a = blk_addr b k i;
  bi_res : ∀ r, r ∈ R → used_blk t 0 r;
  bi_anch : ∀ a, a ∈ free <$> infos b → ∃ r, r ∈ R ∧
    base b + 16 * Z.of_nat r ≤ a < base b + 16 * (Z.of_nat r + 1);
  bi_end : ∀ r, (r < 2 ^ K)%nat → actual_end b ≤ base b + 16 * Z.of_nat r → r ∈ R;
}.

Lemma inv_heap b t fl R : inv b t fl R → ∃ r, r ∈ R.
Proof.
  intros H. destruct (get_info_run b t fl 0 (bi_rel _ _ _ _ H)) as (info & E & _); [lia|].
  destruct (bi_anch _ _ _ _ H (free info)) as (r & Hr & _); [|by exists r].
  apply list_elem_of_fmap. exists info. split; [done|]. by eapply list_elem_of_lookup_2.
Qed.

Lemma blk_addr_inj b t k i k' i' :
  tree_ok K t → leaf_blk K t k i → leaf_blk K t k' i' → blk_addr b k i = blk_addr b k' i' →
  k = k' ∧ i = i'.
Proof.
  intros Ht Hl Hl' E. rewrite !blk_addr_leaf in E. eapply leaf_blk_start_inj; [done..|lia].
Qed.

(** A block outside the free lists may be pushed once it is a leaf of the new
    partition [t']. *)
Lemma fresh_leaf b t t' fl R k i :
  inv b t fl R → tree_ok K t' → leaf_blk K t' k i →
  (∀ r, r ∈ R → used_blk t' 0 r) → (∀ r, r ∈ R → (k, i) ≠ (0%nat, r)) →
  (∀ k' i', free_blk K t k' i' → (k', i') ≠ (k, i) → leaf_blk K t' k' i') → ¬ free_blk K t k i →
  list_fresh b fl (blk_addr b k i).
Proof.
  intros H Ht' Hl HR Hnr Hsub Hnf. pose proof (bi_rel _ _ _ _ H) as Hrel.
  split; [rewrite blk_addr_leaf; pose proof (br_base _ _ _ Hrel); lia|]. split.
  - intros k' Hk' Hin. apply (bi_lists _ _ _ _ H) in Hin as (i' & Hf & E); [|done].
    destruct (decide ((k', i') = (k, i))) as [[= -> ->]|Hne]; [done|].
    apply Hne. edestruct (blk_addr_inj b t' k i k' i') as [-> ->]; eauto.
  - intros k' info Ei E. destruct (bi_anch _ _ _ _ H (free info)) as (r & Hr & Hb1).
    { apply list_elem_of_fmap. exists info. split; [done|]. by eapply list_elem_of_lookup_2. }
    rewrite E, blk_addr_leaf in Hb1. apply (Hnr r Hr).
    assert ((i * 2 ^ k)%nat = r) as Ex by lia.
    edestruct (leaf_blk_disjoint K t' k i 0 r r Ht' Hl) as [-> ->]; [|rewrite <- Ex; apply covers_start| |done].
    + by apply used_leaf, HR.
    + unfold covers. cbn. lia.
Qed.

Lemma inv_shape b b' t t' fl fl' R :
  inv b t fl R → same_shape b b' → brel b' t' fl' → tree_ok K t' →
  (∀ k a, (k ≤ K)%nat → a ∈ fl' k ↔ ∃ i, free_blk K t' k i ∧ a = blk_addr b k i) →
  (∀ r, r ∈ R → used_blk t' 0 r) → inv b' t' fl' R.
Proof.
  intros H Hs Hrel Ht Hl HR. pose proof Hs as (E1 & E2 & E3 & E4). split; try done.
  - intros k a Hk. rewrite Hl by done. by setoid_rewrite (shape_addr b b' k _ Hs).
  - intros a. rewrite E4, E1. apply H.
  - intros r. rewrite E1, E2. apply H.
Qed.

(** ** Splitting *)
Lemma split_down_ok b t fl R d k i :
  inv b t fl R → used_blk t (k + d) i → (k + d ≤ K)%nat →
  ∃ b' t' fl', split_down d (k + d) (blk_addr b (k + d) i) b = Done (tt, b') ∧
    inv b' t' fl' R ∧ same_shape b b' ∧
    ∀ k' i', used_blk t' k' i' ↔ (used_blk t k' i' ∧ (k', i') ≠ (k + d, i)%nat) ∨
                                 (k', i') = (k, i * 2 ^ d)%nat.
Proof.
  revert b t fl i. induction d as [|d IH]; intros b t fl i H Hu Hk.
  { rewrite Nat.add_0_r in *. exists b, t, fl. split; [done|]. split; [done|]. split; [done|].
    intros k' i'. rewrite Nat.pow_0_r, Nat.mul_1_r. destruct (decide ((k', i') = (k, i))) as [[= -> ->]|]; naive_solver. }
  replace (k + S d)%nat with (S (k + d)) in * by lia. set (m := (k + d)%nat) in *.
  pose proof (bi_rel _ _ _ _ H) as Hrel. pose proof (bi_tree _ _ _ _ H) as Ht.
  pose proof (used_leaf _ _ _ _ Ht Hu) as (Hb & _ & _).
  destruct (split_used K t m i Ht Hu) as (Ht' & Hu' & Hf'). set (t' := split_used_tree t m i) in *.
  assert (∀ r, r ∈ R → used_blk t' 0 r) as HR'.
  { intros r Hr. apply Hu'. left. split; [by apply (bi_res _ _ _ _ H)|congruence]. }
  destruct (split_set_ok b t fl (S m) i true Hrel Hb ltac:(lia)) as (b1 & E1 & Hr1 & Hs1).
  destruct (alloc_set_ok b1 _ fl m (2 * i) true Hr1) as (b2 & E2 & Hr2 & Hs2).
  { eapply blk_child; [exact Hb|by left]. }
  fold (split_used_tree t m i) in Hr2. fold t' in Hr2.
  pose proof (same_shape_trans _ _ _ Hs1 Hs2) as Hs02.
  assert (free_blk K t' m (2 * i + 1)) as Hnew by (apply Hf'; by right).
  assert (list_fresh b2 fl (blk_addr b m (2 * i + 1))) as Hfr.
  { assert (list_fresh b fl (blk_addr b m (2 * i + 1))) as (F1 & F2 & F3).
    - eapply (fresh_leaf b t t'); [exact H|done|by apply free_leaf|done| | |].
      + intros r Hr [= Em E0]. subst r. destruct (HR' _ Hr) as [Ha _].
        destruct Hnew as (_ & _ & Hn).
        assert (al t' m (2 * i + 1)%nat = true) by (rewrite Em; exact Ha). congruence.
      + intros k' i' Hf _. apply free_leaf; [done|]. apply Hf'. by left.
      + intros Hf. apply (free_leaf _ _ _ _ Ht) in Hf as (_ & [?|He] & _); [lia|].
        rewrite (proj2 (half_double i)) in He. destruct Hu. congruence.
    - split; [done|]. split; [done|]. intros k' info Ei E.
      assert (free info ∈ free <$> infos b) as Hin.
      { destruct Hs02 as (_ & _ & _ & <-). apply list_elem_of_fmap. exists info.
        split; [done|]. by eapply list_elem_of_lookup_2. }
      apply list_elem_of_fmap in Hin as (info0 & E0 & [k0 Ek0]%list_elem_of_lookup).
      apply (F3 k0 info0 Ek0). congruence. }
  destruct (free_push_ok b2 t' fl m _ Hr2 ltac:(lia) Hfr) as (b3 & E3 & Hr3 & Hs3).
  pose proof (same_shape_trans _ _ _ Hs02 Hs3) as Hs03.
  assert (inv b3 t' (<[m := blk_addr b m (2 * i + 1) :: fl m]> fl) R) as H3.
  { eapply inv_shape; [exact H|done..| |done]. intros k' a Hk'. destruct (decide (m = k')) as [<-|Hne].
    - rewrite fn_lookup_insert, elem_of_cons, (bi_lists _ _ _ _ H) by done. split.
      + intros [->|(i' & Hf & ->)]; [by eexists|]. exists i'. split; [apply Hf'; by left|done].
      + intros (i' & [Hf|[= ->]]%Hf' & ->); [right; by exists i'|by left].
    - rewrite fn_lookup_insert_ne, (bi_lists _ _ _ _ H) by done. split.
      + intros (i' & Hf & ->). exists i'. split; [apply Hf'; by left|done].
      + intros (i' & [Hf|[= -> _]]%Hf' & ->); [by exists i'|done]. }
  destruct (IH b3 t' _ (2 * i)%nat H3) as (b4 & t4 & fl4 & E4 & H4 & Hs4 & Hu4); [|lia|].
  { apply Hu'. by right. }
  exists b4, t4, fl4. split; [|split; [done|split; [by eapply same_shape_trans|]]].
  - cbn [split_down]. rewrite (bind_run _ _ _ _ _ (blk_index_run b (S m) (S m) i)), div_same.
    rewrite (bind_run _ _ _ _ _ E1). replace (S m - 1)%nat with m by lia.
    rewrite (bind_run _ _ _ _ _ (blk_index_at b b1 (S m) m i Hs1)), div_down.
    rewrite (bind_run _ _ _ _ _ E2).
    replace (blk_addr b (S m) i + blk_size m) with (blk_addr b m (2 * i + 1)).
    2: { rewrite !blk_addr_leaf, blk_size_pow.
         change 2 with (Z.of_nat 2) at 1. rewrite <- Nat2Z.inj_pow, (Nat.pow_succ_r' 2 m). nia. }
    rewrite (bind_run _ _ _ _ _ E3).
    replace (blk_addr b (S m) i) with (blk_addr b3 m (2 * i)); [exact E4|].
    rewrite (shape_addr b b3) by done. rewrite !blk_addr_leaf, (Nat.pow_succ_r' 2 m). nia.
  - intros k' i'. rewrite Hu4, Hu'. rewrite Nat.pow_succ_r'.
    replace (2 * i * 2 ^ d)%nat with (i * (2 * 2 ^ d))%nat by nia.
    split; [naive_solver|]. intros [[Hu0 Hne]|?]; [|by right].
    left. split; [left; done|]. intros [= -> ->]. destruct Hu0 as [Ha _].
    destruct (no_child K t m i (2 * i) Ht) as [Hn _]; [apply Hu|apply half_double|lia|]. cbn [Nat.mul] in Hn. congruence.
Qed.

(** ** Merging *)
Lemma blk_buddy k i : blk K k i → (k < K)%nat → blk K k (buddy_of i).
Proof.
  intros Hb Hk. eapply blk_child; [by eapply (blk_parent K k i)|].
  apply half_inv, buddy_spec.
Qed.

(** The lower of two buddies is where their parent starts. *)
Lemma merge_addr b k i :
  (if Nat.even (buddy_of i) then blk_addr b k (buddy_of i) else blk_addr b k i) =
  blk_addr b (S k) (i / 2).
Proof.
  rewrite !blk_addr_leaf, Nat.pow_succ_r'. unfold buddy_of. destruct (Nat.even i) eqn:E.
  - apply Nat.even_spec in E as [m ->]. rewrite (proj1 (half_double m)).
    rewrite Nat.add_1_r, Nat.even_succ, Nat.odd_mul. cbn [Nat.odd Nat.even negb andb].
    f_equal. nia.
  - apply (f_equal negb) in E. rewrite Nat.negb_even in E. apply Nat.odd_spec in E as [m ->].
    rewrite (proj2 (half_double m)). replace (2 * m + 1 - 1)%nat with (2 * m)%nat by lia.
    rewrite Nat.even_mul. cbn [Nat.even orb]. f_equal. nia.
Qed.

Lemma list_fresh_shape b b' fl x : same_shape b b' → list_fresh b fl x → list_fresh b' fl x.
Proof.
  intros (_ & _ & _ & E) (F1 & F2 & F3). split; [done|]. split; [done|]. intros k info Ei Ex.
  assert (free info ∈ free <$> infos b) as Hin.
  { rewrite <- E. apply list_elem_of_fmap. exists info. split; [done|]. by eapply list_elem_of_lookup_2. }
  apply list_elem_of_fmap in Hin as (info0 & E0 & [k0 Ek0]%list_elem_of_lookup).
  apply (F3 k0 info0 Ek0). congruence.
Qed.

Lemma top_not_free b t fl R k i :
  inv b t fl R → used_blk t k i → (∀ r, r ∈ R → (k, i) ≠ (0%nat, r)) → (k < K)%nat.
Proof.
  intros H Hu Hr. destruct (inv_heap _ _ _ _ H) as [r Hin].
  pose proof (bi_tree _ _ _ _ H) as Ht. pose proof (bi_res _ _ _ _ H r Hin) as Hur.
  pose proof (used_leaf _ _ _ _ Ht Hu) as Hl. pose proof (used_leaf _ _ _ _ Ht Hur) as Hlr.
  destruct (Nat.lt_trichotomy k K) as [?|[->|?]]; [done| |destruct Hl as [[? _] _]; lia].
  exfalso. apply (Hr r Hin). pose proof Hl as ([_ Hi] & _). pose proof Hlr as ([_ Hri] & _).
  rewrite Nat.sub_diag, Nat.sub_0_r in *. cbn in Hi. assert (i = 0%nat) as -> by lia.
  edestruct (leaf_blk_disjoint K t K 0 0 r r Ht Hl Hlr) as [-> ->]; [| |done]; unfold covers; cbn; lia.
Qed.

Lemma merge_push_ok b t fl R d k i :
  inv b t fl R → used_blk t k i → (∀ r, r ∈ R → (k, i) ≠ (0%nat, r)) → (K - k = d)%nat →
  ∃ b' t' fl', ('(s, raw) ← merge_up d k (blk_addr b k i); free_push s raw) b = Done (tt, b') ∧
    inv b' t' fl' R ∧ same_shape b b' ∧
    ∀ k' i', used_blk t' k' i' ↔ used_blk t k' i' ∧ (k', i') ≠ (k, i).
Proof.
  revert b t fl k i. induction d as [|d IH]; intros b t fl k i H Hu Hnr Hd.
  { pose proof (top_not_free _ _ _ _ _ _ H Hu Hnr). lia. }
  pose proof (top_not_free _ _ _ _ _ _ H Hu Hnr) as Hk.
  pose proof (bi_rel _ _ _ _ H) as Hrel. pose proof (bi_tree _ _ _ _ H) as Ht.
  pose proof (used_leaf _ _ _ _ Ht Hu) as (Hb & He & _).
  destruct (alloc_set_ok b t fl k i false Hrel Hb) as (b1 & E1 & Hr1 & Hs1).
  pose proof (is_alloc_set_ok b1 _ fl k (buddy_of i) Hr1 (blk_buddy _ _ Hb Hk)) as Ea.
  assert (al (set_al t k i false) k (buddy_of i) = al t k (buddy_of i)) as Eal.
  { cbn. rewrite upd2_spec, decide_False; [done|]. intros [_ E]. by apply (buddy_spec i). }
  rewrite Eal in Ea.
  assert (∀ A (f : nat * Z → M (BuddySystem F) A), (merge_up (S d) k (blk_addr b k i) ≫= f) b =
    ((if al t k (buddy_of i) then mret (k, blk_addr b k i)
     else b ← get;
        on_lists (fl_remove (blk_addr b k (buddy_of i)));;
        let raw_addr := if Nat.even (buddy_of i) then blk_addr b k (buddy_of i) else blk_addr b1 k i in
        spliti ← blk_index (k + 1) raw_addr;
        split_set (k + 1) spliti false;;
        merge_up d (k + 1) raw_addr) ≫= f) b1) as Estep.
  { intros A f. cbn [merge_up]. unfold mbind at 1, M_bind at 1. 
    rewrite (bind_run _ _ _ _ _ (blk_index_run b k k i)), div_same.
    rewrite (bind_run _ _ _ _ _ E1), (bind_run _ _ _ _ _ Ea).
    rewrite <- (shape_addr b b1 k i Hs1). by destruct (al t k (buddy_of i)). }
  rewrite Estep. clear Estep. destruct (al t k (buddy_of i)) eqn:Ebud.
  - destruct (release_alone K t k i Ht Hu Hk Ebud) as (Ht' & Hu' & Hf').
    set (t' := set_al t k i false) in *.
    assert (∀ r, r ∈ R → used_blk t' 0 r) as HR'.
    { intros r Hr. apply Hu'. split; [by apply (bi_res _ _ _ _ H)|]. intros E. by apply (Hnr r Hr). }
    assert (free_blk K t' k i) as Hnew by (apply Hf'; by right).
    assert (list_fresh b1 fl (blk_addr b k i)) as Hfr.
    { eapply list_fresh_shape; [done|]. eapply (fresh_leaf b t t'); try done.
      - by apply free_leaf.
      - intros k' i' Hf _. apply free_leaf; [done|]. apply Hf'. by left.
      - intros (_ & _ & Hn). destruct Hu. congruence. }
    destruct (free_push_ok b1 t' fl k _ Hr1 ltac:(lia) Hfr) as (b2 & E2 & Hr2 & Hs2).
    pose proof (same_shape_trans _ _ _ Hs1 Hs2) as Hs.
    exists b2, t', (<[k := blk_addr b k i :: fl k]> fl). split; [exact E2|].
    split; [|done]. eapply inv_shape; [exact H|done..| |done].
    intros k' a Hk'. destruct (decide (k = k')) as [<-|Hne].
    + rewrite fn_lookup_insert, elem_of_cons, (bi_lists _ _ _ _ H) by done. split.
      * intros [->|(i' & Hf & ->)]; [by eexists|]. exists i'. split; [apply Hf'; by left|done].
      * intros (i' & [Hf|[= ->]]%Hf' & ->); [right; by exists i'|by left].
    + rewrite fn_lookup_insert_ne, (bi_lists _ _ _ _ H) by done. split.
      * intros (i' & Hf & ->). exists i'. split; [apply Hf'; by left|done].
      * intros (i' & [Hf|[= -> _]]%Hf' & ->); [by exists i'|done].
  - destruct (release_merge K t k i Ht Hu Hk Ebud) as (Hfb & Ht' & Hu' & Hf').
    set (t' := merge_tree t k i) in *.
    assert (∀ r, r ∈ R → used_blk t' 0 r) as HR'.
    { intros r Hr. apply Hu'. left. split; [by apply (bi_res _ _ _ _ H)|]. intros E. by apply (Hnr r Hr). }
    assert (blk_addr b k (buddy_of i) ∈ fl k) as Hin.
    { apply (bi_lists _ _ _ _ H); [lia|]. by eexists. }
    destruct (list_elem_of_split _ _ Hin) as (l1 & l2 & Efl).
    destruct (free_remove_ok b1 _ fl k l1 _ l2 Hr1 ltac:(lia) Efl) as (b2 & E2 & Hr2 & Hs2).
    pose proof (same_shape_trans _ _ _ Hs1 Hs2) as Hs02.
    destruct (split_set_ok b2 _ _ (S k) (i / 2) false Hr2) as (b3 & E3 & Hr3 & Hs3);
      [by apply blk_parent|lia|]. fold (merge_tree t k i) in Hr3. fold t' in Hr3.
    pose proof (same_shape_trans _ _ _ Hs02 Hs3) as Hs03.
    assert (inv b3 t' (<[k := l1 ++ l2]> fl) R) as H3.
    { eapply inv_shape; [exact H|done..| |done]. intros k' a Hk'.
      destruct (decide (k = k')) as [<-|Hne].
      - rewrite fn_lookup_insert. pose proof (lists_nodup b t fl k Hrel ltac:(lia)) as Hnd.
        rewrite Efl in Hnd. rewrite <- Permutation_middle in Hnd. apply NoDup_cons in Hnd as [Hnot _].
        assert (a ∈ l1 ++ l2 ↔ a ∈ fl k ∧ a ≠ blk_addr b k (buddy_of i)) as ->.
        { rewrite Efl, <- Permutation_middle, elem_of_cons. naive_solver. }
        rewrite (bi_lists _ _ _ _ H) by done. split.
        + intros [(i' & Hf & ->) Hne]. exists i'. split; [apply Hf'; split; [done|by intros [= ->]]|done].
        + intros (i' & [Hf Hne]%Hf' & ->). split; [by exists i'|]. intros E. apply Hne.
          edestruct (blk_addr_inj b t k i' k (buddy_of i) Ht) as [_ ->]; [by apply free_leaf..|done|done].
      - rewrite fn_lookup_insert_ne, (bi_lists _ _ _ _ H) by done. split.
        + intros (i' & Hf & ->). exists i'. split; [apply Hf'; split; [done|congruence]|done].
        + intros (i' & [Hf _]%Hf' & ->). by exists i'. }
    destruct (IH b3 t' _ (S k) (i / 2)%nat H3) as (b4 & t4 & fl4 & E4 & H4 & Hs4 & Hu4); [|done|lia|].
    { apply Hu'. by right. }
    exists b4, t4, fl4. split; [|split; [done|split; [by eapply same_shape_trans|]]].
    + unfold mbind at 1, M_bind at 1. rewrite (bind_run _ _ _ b1 b1) by done.
      rewrite (shape_addr b b1 k (buddy_of i) Hs1), (bind_run _ _ _ _ _ E2).
      rewrite (shape_addr b b1 k i Hs1), merge_addr. cbv zeta. rewrite Nat.add_1_r.
      rewrite (bind_run _ _ _ _ _ (blk_index_at b b2 (S k) (S k) (i / 2) Hs02)), div_same.
      rewrite (bind_run _ _ _ _ _ E3). rewrite <- (shape_addr b b3 (S k) _ Hs03).
      unfold mbind, M_bind in E4. exact E4.
    + intros k' i'. rewrite Hu4, Hu'. split.
      * intros [[?|?] ?]; done.
      * intros [Hu0 Hne]. split; [by left|]. intros E.
        assert (k' = S k ∧ i' = (i / 2)%nat) as [-> ->] by (split; congruence).
        destruct Hu0 as [_ Hs]. destruct He as [->|He]; [lia|congruence].
Qed.

(** ** Size classes *)
Lemma trailing_zeros_pow q : (q < 64)%nat → trailing_zeros (2 ^ Z.of_nat q) = q.
Proof.
  assert (∀ fuel q, (q < fuel)%nat → trailing_zeros_loop fuel (2 ^ Z.of_nat q) = q) as H.
  { induction fuel as [|fuel IH]; intros p Hp; [lia|]. cbn [trailing_zeros_loop].
    destruct p as [|p]; [done|].
    rewrite Nat2Z.inj_succ, Z.pow_succ_r, Z.odd_mul by lia. cbn [Z.odd andb].
    rewrite (Z.mul_comm 2), Z.div_mul by lia. f_equal. apply IH. lia. }
  apply H.
Qed.

(** The smallest class whose blocks hold [size] bytes. *)
Lemma small_size_spec size :
  0 < size < 2 ^ 63 →
  size ≤ blk_size (small_size size) ∧
  (small_size size = 0%nat ∨ blk_size (small_size size - 1) < size).
Proof.
  intros Hs. unfold small_size. change LEAF_SIZE with 16.
  destruct (Z.leb_spec size 16) as [Hle|Hgt].
  { split; [|by left]. rewrite blk_size_pow. cbn. lia. }
  unfold next_power_of_two. set (p := Z.log2_up size).
  pose proof (Z.log2_up_spec size ltac:(lia)) as [Hp1 Hp2]. fold p in Hp1, Hp2.
  assert (4 < p) as Hp4.
  { assert (¬ p ≤ 4); [|lia]. intros Hp. pose proof (Z.pow_le_mono_r 2 p 4 ltac:(lia) Hp). lia. }
  assert (p ≤ 63) as Hp63.
  { pose proof (Z.log2_up_le_mono size (2 ^ 63) ltac:(lia)) as H. rewrite Z.log2_up_pow2 in H by lia. done. }
  assert (2 ^ p / 16 = 2 ^ Z.of_nat (Z.to_nat (p - 4))) as E.
  { rewrite Z2Nat.id by lia. change 16 with (2 ^ 4). by rewrite <- Z.pow_sub_r by lia. }
  rewrite E, trailing_zeros_pow by lia. rewrite !blk_size_pow, Z2Nat.id by lia.
  change 16 with (2 ^ 4) at 1 2. split.
  - rewrite <- Z.pow_add_r by lia. by replace (p - 4 + 4) with p by lia.
  - right. replace (Z.of_nat (Z.to_nat (p - 4) - 1)) with (p - 5) by lia.
    rewrite <- Z.pow_add_r by lia. replace (p - 5 + 4) with (Z.pred p) by lia. done.
Qed.

Lemma find_size_ok b t fl n k :
  brel b t fl → (k + n = S K)%nat →
  ∃ k', find_size n k b = Done (k', b) ∧ (k ≤ k' ≤ S K)%nat ∧
    (∀ j, (k ≤ j < k')%nat → fl j = []) ∧ ((k' ≤ K)%nat → fl k' ≠ []).
Proof.
  intros H. revert k. induction n as [|n IH]; intros k Hk.
  { exists k. split; [done|]. split; [lia|]. split; lia. }
  cbn [find_size]. rewrite (bind_run _ _ _ _ _ (free_is_empty_ok b t fl k H ltac:(lia))).
  case_bool_decide as E.
  - destruct (IH (k + 1)%nat ltac:(lia)) as (k' & Ek & Hb & Hemp & Hne).
    exists k'. split; [done|]. split; [lia|]. split; [|done].
    intros j Hj. destruct (decide (j = k)) as [->|]; [done|]. apply Hemp. lia.
  - exists k. split; [done|]. split; [lia|]. split; [lia|done].
Qed.

Lemma find_split_ok b t fl R k i n j :
  inv b t fl R → leaf_blk K t k i → (j ≤ k)%nat → (k < K)%nat → (n = K - j)%nat →
  find_split n j (blk_addr b k i) b = Done (Some k, b).
Proof.
  intros H Hl. pose proof (bi_rel _ _ _ _ H) as Hrel. pose proof (bi_tree _ _ _ _ H) as Ht.
  pose proof Hl as (Hb & He & Hs).
  revert j. induction n as [|n IH]; intros j Hj Hk Hn; [lia|]. cbn [find_split].
  rewrite (bind_run _ _ _ _ _ (blk_index_run b k (j + 1) i)).
  assert ((k - j) = 0 ∨ ∃ d, k = j + 1 + d)%nat as Hcase.
  { destruct (decide (j = k)) as [->|]; [left; lia|right; exists (k - j - 1)%nat; lia]. }
  destruct Hcase as [E0|[d Ed]].
  - assert (j = k) as -> by lia. rewrite div_up, Nat.pow_1_r.
    rewrite (bind_run _ _ _ _ _ (is_split_set_ok b t fl (k + 1) (i / 2) Hrel
      ltac:(rewrite Nat.add_1_r; by apply blk_parent) ltac:(lia))).
    destruct He as [->|He]; [lia|]. rewrite Nat.add_1_r, He. done.
  - assert (i * 2 ^ k / 2 ^ (j + 1) = i * 2 ^ d)%nat as Ei.
    { rewrite Ed, Nat.pow_add_r, (Nat.mul_comm (2 ^ (j + 1))), Nat.mul_assoc.
      apply Nat.div_mul, Nat.pow_nonzero. lia. }
    rewrite Ei. assert (blk K (j + 1) (i * 2 ^ d)) as Hb'.
    { destruct Hb as [_ Hi]. split; [lia|]. replace (K - (j + 1))%nat with (d + (K - k))%nat by lia.
      rewrite Nat.pow_add_r. pose proof (Nat.pow_nonzero 2 d ltac:(lia)). nia. }
    rewrite (bind_run _ _ _ _ _ (is_split_set_ok b t fl _ _ Hrel Hb' ltac:(lia))).
    destruct (sp t (j + 1) (i * 2 ^ d)) eqn:Es; [exfalso|apply IH; lia].
    destruct (to_sp _ _ Ht _ _ Es) as (_ & _ & _ & He').
    destruct d as [|d]; [rewrite Nat.pow_0_r, Nat.mul_1_r in Es; replace k with (j + 1)%nat in Hs by lia; congruence|].
    pose proof (ancestor_split K t _ _ d Ht He' ltac:(lia)) as Ha.
    replace (j + 1 + S d)%nat with k in Ha by lia.
    rewrite Nat.div_mul in Ha by (apply Nat.pow_nonzero; lia). congruence.
Qed.
End conc.

Lemma leaf_partition K t x :
  tree_ok K t → (x < 2 ^ K)%nat →
  ∃ k i, (free_blk K t k i ∨ used_blk t k i) ∧ covers k i x ∧
    ∀ k' i', free_blk K t k' i' ∨ used_blk t k' i' → covers k' i' x → (k', i') = (k, i).
Proof.
  intros H Hx.
  assert (∀ d, (d ≤ K)%nat → exists_blk K t d (x / 2 ^ d) →
    ∃ k, leaf_blk K t k (x / 2 ^ k)) as Hdown.
  { induction d as [|d IH]; intros Hd He.
    - exists 0%nat. split; [split; [lia|]|split; [done|]].
      + rewrite Nat.pow_0_r, Nat.div_1_r. by replace (K - 0)%nat with K by lia.
      + destruct (sp t 0 _) eqn:E; [|done]. destruct (to_sp _ _ H _ _ E). lia.
    - destruct (sp t (S d) (x / 2 ^ S d)) eqn:E.
      + apply IH; [lia|]. right. rewrite Nat.Div0.div_div, (Nat.mul_comm (2 ^ d)), <- Nat.pow_succ_r'. done.
      + exists (S d). split; [split; [lia|]|done]. apply Nat.Div0.div_lt_upper_bound.
        rewrite <- Nat.pow_add_r. by replace (S d + (K - S d))%nat with K by lia. }
  destruct (Hdown K) as [k Hl]; [lia|by left|].
  exists k, (x / 2 ^ k)%nat. split; [|split].
  - destruct (al t k (x / 2 ^ k)) eqn:E; [right|left]; [split; [done|apply Hl]|].
    destruct Hl as (? & ? & _). done.
  - by apply covers_div.
  - intros k' i' Hfu Hc. assert (leaf_blk K t k' i') as Hl'.
    { destruct Hfu; [by apply free_leaf|by apply used_leaf]. }
    edestruct (leaf_blk_disjoint K t k' i' k (x / 2 ^ k)%nat x) as [-> ->]; try done. by apply covers_div.
Qed.

Section theorems.
Context {F : Type} `{!FreeLists F} `{!FreeListsLaws F} {bf : BitField} {bf_laws : BitFieldLaws}.


(** C19. [alloc] hands out one fresh block of the smallest sufficient class: the
    invariant is kept, the used blocks are the old ones and the new one (which
    the partition keeps apart from them), and it answers null only when no
    free block of that class or above is left. *)
Theorem buddy_alloc_correct K b t fl R (layout : Layout) :
  inv (F := F) K b t fl R → 0 < lsize layout < 2 ^ 63 → lalign layout ≤ PAGE_SIZE →
  let k := small_size (lsize layout) in
  lsize layout ≤ blk_size k ∧ (k = 0%nat ∨ blk_size (k - 1) < lsize layout) ∧
  ((∃ i b' t' fl', buddy_alloc layout b = Done (blk_addr b k i, b') ∧ inv K b' t' fl' R ∧
      same_shape b b' ∧ ¬ used_blk t k i ∧
      ∀ k' i', used_blk t' k' i' ↔ used_blk t k' i' ∨ (k', i') = (k, i)) ∨
   (buddy_alloc layout b = Done (0, b) ∧ ∀ k' i', (k ≤ k')%nat → ¬ free_blk K t k' i')).
Proof.
  intros H Hsz Hal k. pose proof (small_size_spec _ Hsz) as [Hs1 Hs2]. split; [done|]. split; [done|].
  pose proof (bi_rel _ _ _ _ _ H) as Hrel. pose proof (bi_tree _ _ _ _ _ H) as Ht.
  unfold buddy_alloc. rewrite (proj2 (Z.eqb_neq _ _)) by lia.
  rewrite Z.gtb_ltb, (proj2 (Z.ltb_ge _ _)) by lia. fold k.
  rewrite (bind_run _ _ _ b b) by done. rewrite (br_n _ _ _ _ Hrel).
  assert (∃ k', find_size (S K - k) k b = Done (k', b) ∧ (k ≤ k')%nat ∧
    (∀ j, (k ≤ j < k')%nat → (j ≤ K)%nat → fl j = []) ∧ ((k' ≤ K)%nat → fl k' ≠ [])) as
    (k' & Ef & Hk' & Hemp & Hne).
  { destruct (decide (k ≤ S K)%nat).
    - destruct (find_size_ok K b t fl (S K - k) k Hrel) as (k' & Ek & Hb & Hemp & Hne); [lia|].
      exists k'. split; [done|]. split; [lia|]. split; [|done]. intros j Hj _. by apply Hemp.
    - exists k. replace (S K - k)%nat with 0%nat by lia. split; [done|]. split; [lia|]. split; lia. }
  rewrite (bind_run _ _ _ _ _ Ef).
  destruct (Nat.leb_spec (S K) k') as [Hge|Hlt].
  { right. split; [done|]. intros j i Hj Hf. pose proof Hf as ([Hjk _] & _).
    assert (blk_addr b j i ∈ fl j) as Hin by (apply (bi_lists _ _ _ _ _ H); [done|by exists i]).
    rewrite Hemp in Hin by lia. by apply elem_of_nil in Hin. }
  left. destruct (fl k') as [|x l] eqn:Efl; [by destruct Hne; [lia|]|].
  assert (x ∈ fl k') as Hin by (rewrite Efl; by left).
  apply (bi_lists _ _ _ _ _ H) in Hin as (i & Hf & ->); [|lia].
  destruct (free_pop_ok K b t fl k' _ l Hrel ltac:(lia) Efl) as (b1 & E1 & Hr1 & Hsh1).
  pose proof Hf as (Hb & _ & _).
  destruct (alloc_set_ok K b1 t _ k' i true Hr1 Hb) as (b2 & E2 & Hr2 & Hsh2).
  pose proof (same_shape_trans _ _ _ Hsh1 Hsh2) as Hsh02.
  destruct (take_free K t k' i Ht Hf) as (Ht' & Hu' & Hf'). set (t1 := set_al t k' i true) in *.
  pose proof (lists_nodup K b t fl k' Hrel ltac:(lia)) as Hnd. rewrite Efl in Hnd.
  apply NoDup_cons in Hnd as [Hnot _].
  assert (inv K b2 t1 (<[k' := l]> fl) R) as H2.
  { eapply inv_shape; [exact H|done..| |].
    - intros j a Hj. destruct (decide (k' = j)) as [<-|Hnej].
      + rewrite fn_lookup_insert.
        assert (a ∈ l ↔ a ∈ fl k' ∧ a ≠ blk_addr b k' i) as ->.
        { rewrite Efl, elem_of_cons. naive_solver. }
        rewrite (bi_lists _ _ _ _ _ H) by done. split.
        * intros [(i' & Hfi & ->) Hne']. exists i'. split; [apply Hf'; split; [done|by intros [= ->]]|done].
        * intros (i' & [Hfi Hne']%Hf' & ->). split; [by exists i'|]. intros E. apply Hne'.
          edestruct (blk_addr_inj K b t k' i' k' i Ht) as [_ ->]; [by apply free_leaf..|done|done].
      + rewrite fn_lookup_insert_ne, (bi_lists _ _ _ _ _ H) by done. split.
        * intros (i' & Hfi & ->). exists i'. split; [apply Hf'; split; [done|congruence]|done].
        * intros (i' & [Hfi _]%Hf' & ->). by exists i'.
    - intros r Hr. apply Hu'. left. by apply (bi_res _ _ _ _ _ H). }
  set (d := (k' - k)%nat). assert (k' = (k + d)%nat) as Ek' by lia.
  destruct (split_down_ok K b2 t1 (<[k' := l]> fl) R d k i) as (b3 & t3 & fl3 & E3 & H3 & Hsh3 & Hu3).
  { done. }
  { rewrite <- Ek'. apply Hu'. by right. }
  { lia. }
  assert (blk_addr b k' i = blk_addr b k (i * 2 ^ d)) as Eaddr.
  { rewrite !blk_addr_leaf, Ek', Nat.pow_add_r. f_equal. nia. }
  exists (i * 2 ^ d)%nat, b3, t3, fl3. split; [|split; [done|split; [by eapply same_shape_trans|split]]].
  - rewrite (bind_run _ _ _ _ _ E1).
    rewrite (bind_run _ _ _ _ _ (blk_index_at b b1 k' k' i Hsh1)), div_same.
    rewrite (bind_run _ _ _ _ _ E2). fold d.
    rewrite (bind_run _ _ _ tt b3); [by rewrite Eaddr|].
    rewrite <- E3, <- Ek'. by rewrite (shape_addr b b2 k' i Hsh02).
  - intros Hu. pose proof (used_leaf _ _ _ _ Ht Hu) as Hl. pose proof (free_leaf _ _ _ _ Ht Hf) as Hl'.
    edestruct (leaf_blk_start_inj K t k (i * 2 ^ d) k' i Ht Hl Hl') as [-> Ei].
    + rewrite Ek', Nat.pow_add_r. nia.
    + replace d with 0%nat in * by lia. rewrite Nat.pow_0_r, Nat.mul_1_r in Hu.
      destruct Hu as [Ha _]. destruct Hf as (_ & _ & Hn). congruence.
  - intros j i'. rewrite Hu3, Hu', <- Ek'. split; [naive_solver|].
    intros [Hu| ->]; [|by right]. left. split; [by left|]. intros [= -> ->].
    destruct Hu as [Ha _]. destruct Hf as (_ & _ & Hn). congruence.
Qed.

(** C20. [dealloc] takes back exactly the block that starts at the pointer,
    found from the split bitmaps alone, and merges it with its free buddies:
    the invariant is kept and the used blocks are the old ones less this one. *)
Theorem buddy_dealloc_correct K b t fl R k i (layout : Layout) :
  inv (F := F) K b t fl R → used_blk t k i → (∀ r, r ∈ R → (k, i) ≠ (0%nat, r)) →
  lsize layout ≤ blk_size k →
  ∃ b' t' fl', buddy_dealloc (blk_addr b k i) layout b = Done (tt, b') ∧ inv K b' t' fl' R ∧
    same_shape b b' ∧ ∀ k' i', used_blk t' k' i' ↔ used_blk t k' i' ∧ (k', i') ≠ (k, i).
Proof.
  intros H Hu Hnr Hsz.
  pose proof (bi_rel _ _ _ _ _ H) as Hrel. pose proof (bi_tree _ _ _ _ _ H) as Ht.
  pose proof (top_not_free K b t fl R k i H Hu Hnr) as Hk.
  pose proof (used_leaf _ _ _ _ Ht Hu) as Hl.
  assert (blk_addr b k i < actual_end b) as Hend.
  { destruct (Z.lt_ge_cases (blk_addr b k i) (actual_end b)) as [?|Hge]; [done|exfalso].
    rewrite blk_addr_leaf in Hge. assert ((i * 2 ^ k)%nat ∈ R) as Hr.
    { apply (bi_end _ _ _ _ _ H); [|lia]. destruct Hl as ([? Hi] & _).
      replace K with (K - k + k)%nat by lia. rewrite Nat.pow_add_r.
      pose proof (Nat.pow_nonzero 2 k ltac:(lia)). nia. }
    pose proof (used_leaf _ _ _ _ Ht (bi_res _ _ _ _ _ H _ Hr)) as Hlr.
    edestruct (leaf_blk_start_inj K t k i 0 (i * 2 ^ k) Ht Hl Hlr) as [-> Ei]; [cbn; lia|].
    apply (Hnr _ Hr). by rewrite <- Ei. }
  unfold buddy_dealloc. rewrite (bind_run _ _ _ b b) by done.
  rewrite (proj2 (Z.ltb_ge _ _)) by (rewrite blk_addr_leaf; lia).
  rewrite Z.geb_leb, (proj2 (Z.leb_gt _ _)) by lia. cbn [orb].
  assert (max_size b = K) as HK by (unfold max_size; rewrite (br_n _ _ _ _ Hrel); lia).
  rewrite HK.
  rewrite (bind_run _ _ _ _ _ (find_split_ok K b t fl R k i K 0 H Hl ltac:(lia) Hk ltac:(lia))).
  rewrite Z.gtb_ltb, (proj2 (Z.ltb_ge _ _)) by lia.
  apply (merge_push_ok K b t fl R); [done|done|done|lia].
Qed.
End theorems.

(** ** The theorems on a heap of two leaves

    Leaf 0, at address 16, is the allocator's own and holds the two anchors;
    leaf 1, at address 32, is free. *)
Definition tiny_tree : tree :=
  {| al := λ k i, (k =? 0)%nat && (i =? 0)%nat || (k =? 1)%nat && (i =? 0)%nat;
     sp := λ k i, (k =? 1)%nat && (i =? 0)%nat |}.
Definition tiny_infos : list BuddyInfo :=
  [{| free := 16; alloc := [1]; split := [] |}; {| free := 24; alloc := [1]; split := [1] |}].
Definition tiny_heap (m : memory) : BuddySystem memory :=
  {| base := 16; actual_end := 48; nsizes := 2; initialized := true; infos := tiny_infos; bmem := m |}.
Definition tiny_lists : nat → list Z := λ k, if (k =? 0)%nat then [32] else [].

Lemma tiny_inv : ∃ m, inv 1 (tiny_heap m) tiny_tree tiny_lists {[0%nat]}.
Proof.
  set (m0 := λ _ : Z, {| prev := 0; next := 0 |}).
  assert (mem_rep m0 ∅) as R0 by (split; intros ??; rewrite lookup_empty; done).
  assert (fl_fresh 16 ∅) as F1 by (split; [done|]; intros ??; rewrite lookup_empty; done).
  destruct (list_init_ok m0 ∅ 16 R0 F1) as (m1 & _ & R1).
  assert (fl_fresh 24 (<[16 := []]> ∅)) as F2.
  { split; [done|]. intros h l. rewrite lookup_insert. case_decide; set_solver. }
  destruct (list_init_ok m1 _ 24 R1 F2) as (m2 & _ & R2).
  assert (fl_fresh 32 (<[24 := []]> (<[16 := []]> ∅))) as F3.
  { split; [done|]. intros h l. rewrite !lookup_insert. repeat case_decide; set_solver. }
  destruct (list_push_ok m2 _ 16 [] 32 R2 eq_refl F3) as (m & _ & R3). exists m. split.
  - split; try done.
    + intros k info. destruct k as [|[|k]]; [intros [= <-]|intros [= <-]|done];
        (split; [first [by apply Forall_nil|by apply Forall_singleton]|]);
        (split; [first [by apply Forall_nil|by apply Forall_singleton]|]);
        (split; [cbn; lia|]); (split; [cbn; lia|]);
        (split; [intros i Hi; destruct i as [|[|i]]; cbn in Hi; first [lia|done]|]);
        intros Hk0 i Hi; destruct i as [|[|i]]; cbn in Hi; first [lia|done].
    + intros k k' info info'.
      destruct k as [|[|k]], k' as [|[|k']]; cbn; try done; by intros [= <-] [= <-].
    + exists (<[16 := [32]]> (<[24 := []]> (<[16 := []]> ∅))). split; [exact R3|]. split.
      * intros k info. destruct k as [|[|k]]; [by intros [= <-]..|done].
      * intros h l. rewrite !lookup_insert. repeat case_decide; try done; subst; intros [= <-].
        -- by exists 0%nat, {| free := 16; alloc := [1]; split := [] |}.
        -- by exists 1%nat, {| free := 24; alloc := [1]; split := [1] |}.
  - assert (∀ k i, al tiny_tree k i = true → i = 0%nat ∧ (k = 0 ∨ k = 1)%nat) as Hal.
    { intros k i. cbn. destruct k as [|[|k]], i as [|i]; cbn; try done; auto. }
    split.
    + intros k i. cbn. destruct k as [|[|k]], i as [|i]; cbn; try done. intros _.
      split; [lia|]. split; [split; cbn; lia|]. split; [done|by left].
    + intros k i H. apply Hal in H as [-> [->| ->]]; (split; [split; cbn; lia|]); [by right|by left].
    + intros k j. cbn. destruct k as [|k], j as [|j]; cbn; try done. by left.
  - intros k a Hk. destruct k as [|[|k]]; [| |lia].
    + cbn [tiny_lists Nat.eqb]. rewrite list_elem_of_singleton. split.
      * intros ->. exists 1%nat. split; [|done]. split; [split; cbn; lia|]. split; [by right|done].
      * intros (i & ([_ Hi] & _ & Ha) & ->). cbn in Hi. destruct i as [|[|i]]; [done|done|lia].
    + split; [by intros ?%elem_of_nil|]. intros (i & ([_ Hi] & _ & Ha) & ->). cbn in Hi.
      destruct i; [done|lia].
  - intros r ->%elem_of_singleton. done.
  - intros a Ha. exists 0%nat. split; [set_solver|]. cbn in Ha.
    cbn. apply elem_of_cons in Ha as [->|Ha]; [lia|]. apply list_elem_of_singleton in Ha as ->. lia.
  - intros r Hr. cbn in *. intros. assert (r = 0 ∨ r = 1)%nat as [->| ->] by lia; [set_solver|lia].
Qed.


(** The only free leaf is handed out, and can be given back. *)
Lemma buddy_alloc_correct_witness :
  ∃ m k i b', inv 1 (tiny_heap m) tiny_tree tiny_lists {[0%nat]} ∧
    buddy_alloc {| lsize := 8; lalign := 8 |} (tiny_heap m) = Done (blk_addr (tiny_heap m) k i, b').
Proof.
  destruct tiny_inv as [m H].
  destruct (buddy_alloc_correct 1 _ _ _ _ {| lsize := 8; lalign := 8 |} H) as
    (_ & _ & [(i & b' & t' & fl' & E & _)|[_ Hno]]).
  - cbn. lia.
  - vm_compute. discriminate.
  - by exists m, 0%nat, i, b'.
  - exfalso. apply (Hno 0%nat 1%nat); [done|]. split; [split; cbn; lia|]. split; [by right|done].
Defined.

Lemma buddy_dealloc_correct_witness :
  ∃ b i b', used_blk (set_al tiny_tree 0 1 true) 0 1 ∧
    buddy_dealloc (blk_addr b 0 i) {| lsize := 8; lalign := 8 |} b = Done (tt, b').
Proof.
  destruct tiny_inv as [m H].
  destruct (buddy_alloc_correct 1 _ _ _ _ {| lsize := 8; lalign := 8 |} H) as
    (_ & _ & [(i & b' & t' & fl' & E & H' & Hs & Hnew & Hu)|[_ Hno]]).
  - cbn. lia.
  - vm_compute. discriminate.
  - destruct (buddy_dealloc_correct 1 b' t' fl' _ 0 i {| lsize := 8; lalign := 8 |} H') as (b2 & _ & _ & E2 & _).
    + apply Hu. by right.
    + intros r ->%elem_of_singleton [= ->]. by apply Hnew.
    + vm_compute. discriminate.
    + exists b', i, b2. split; [done|exact E2].
  - exfalso. apply (Hno 0%nat 1%nat); [done|]. split; [split; cbn; lia|]. split; [by right|done].
Defined.

(** A heap of exactly a power of two of leaves (no unavailable tail) makes
    [init_free] look at the block past the end of the bitmap. *)
Theorem init_exact_power :
  buddy_init 0x80021000 0x80029000 (uninit (λ _ : Z, {| prev := 0; next := 0 |})) =
    Panic "undefined behaviour" ∧
  ∃ b, buddy_init 0x80021000 0x8002a000 (uninit (λ _ : Z, {| prev := 0; next := 0 |})) = Done (tt, b).
Proof.
  split; [vm_compute; reflexivity|].
  assert (is_panic (buddy_init 0x80021000 0x8002a000 (uninit (λ _ : Z, {| prev := 0; next := 0 |}))) = false)
    as H by (vm_compute; reflexivity).
  apply not_panic_done in H as ([] & b & E). by exists b.
Qed.
