(* ===== verification/PageTable.v ===== *)
(** * Sv39 page tables ([kernel/src/mm/pagetable.rs]: [PageTableEntry],
    [PageTable], [map_pages], the [find_*] walks, [Drop])

    Memory is a typed store: [tabs] holds the pages used as tables (512
    entries each), [frs] the pages used as data (bytes); a pointer to a table
    is its address, a [&mut PageTableEntry] a table address with an index.
    Following a pointer to a page of the wrong kind is undefined behaviour in
    the code and a [Panic] here, so a theorem that a call is [Done] rules it
    out.  Pages come from the kernel heap, through the interface [PageHeap]
    ([Box::<PageTable>::try_new_zeroed], [RawSinglePage::*]; one layout, 4096
    bytes aligned to 4096). *)
From S2P Require Import Prelude Consts Addr.

(** ** The page source *)
Class PageHeap (H : Type) := {
  ph_alloc : M H (option Z);
  ph_free : Z → M H unit;
  (** [ph_inv h live]: [live] are the pages handed out and not yet freed. *)
  ph_inv : H → gset Z → Prop;
  (** the addresses the heap may hand out *)
  ph_addr : Z → Prop;
}.
Class PageHeapLaws (H : Type) `{!PageHeap H} := {
  ph_addr_ok p : ph_addr p → 0 < p ≤ PHYSTOP ∧ p `mod` PAGE_SIZE = 0;
  ph_live h live p : ph_inv h live → p ∈ live → ph_addr p;
  ph_alloc_ok h live :
    ph_inv h live →
    (∃ p h', ph_alloc h = Done (Some p, h') ∧ ph_addr p ∧ (p ∉ live) ∧
       ph_inv h' ({[p]} ∪ live)) ∨
    (∃ h', ph_alloc h = Done (None, h') ∧ ph_inv h' live);
  ph_free_ok h live p :
    ph_inv h live → p ∈ live →
    ∃ h', ph_free p h = Done (tt, h') ∧ ph_inv h' (live ∖ {[p]});
}.

(** ** PteFlag *)
Definition PTE_V : Z := Z.shiftl 1 0.
Definition PTE_R : Z := Z.shiftl 1 1.
Definition PTE_W : Z := Z.shiftl 1 2.
Definition PTE_X : Z := Z.shiftl 1 3.
Definition PTE_U : Z := Z.shiftl 1 4.
Definition PTE_G : Z := Z.shiftl 1 5.
Definition PTE_A : Z := Z.shiftl 1 6.
Definition PTE_D : Z := Z.shiftl 1 7.
Definition PTE_RSW : Z := Z.shiftl 3 8.
(** [PteFlag::all()], the mask of [from_bits_truncate] *)
Definition PTE_ALL : Z :=
  Z.lor PTE_V (Z.lor PTE_R (Z.lor PTE_W (Z.lor PTE_X (Z.lor PTE_U
    (Z.lor PTE_G (Z.lor PTE_A (Z.lor PTE_D PTE_RSW))))))).

(** ** PageTableEntry: the [data] word *)
Definition is_valid (data : Z) : bool := Z.land data PTE_V >? 0.
Definition is_access (data : Z) : bool := Z.land data PTE_A >? 0.
Definition clear_access (data : Z) : Z := Z.land data (not_w 64 PTE_A).
Definition is_leaf (data : Z) : bool :=
  negb (Z.land data (Z.lor (Z.lor PTE_R PTE_W) PTE_X) =? 0).
Definition is_user (data : Z) : bool := Z.land data PTE_U >? 0.
Definition clear_user (data : Z) : Z := Z.land data (not_w 64 PTE_U).
Definition as_page_table (data : Z) : Z :=
  wrap 64 (Z.shiftl (Z.shiftr data SV39FLAGLEN) PGSHIFT).
Definition as_phys_addr (data : Z) : Z :=
  wrap 64 (Z.shiftl (Z.shiftr data SV39FLAGLEN) PGSHIFT).
Definition write_zero : Z := 0.
Definition pte_write (pa : Z) : Z :=
  Z.lor (wrap 64 (Z.shiftl (Z.shiftr pa PGSHIFT) SV39FLAGLEN)) PTE_V.
Definition write_perm (pa perm : Z) : Z :=
  Z.lor (wrap 64 (Z.shiftl (Z.shiftr pa PGSHIFT) SV39FLAGLEN)) (Z.lor perm PTE_V).
Definition read_perm (data : Z) : Z := Z.land data PTE_ALL.
Definition copy_from (other : Z) : Z := other.

(** ** Memory *)
Definition table_empty : list Z := replicate 512 0.
Definition page_zero : list Z := replicate (Z.to_nat PAGE_SIZE) 0.

Record pmem (H : Type) := { hp : H; tabs : gmap Z (list Z); frs : gmap Z (list Z) }.
Arguments hp {H} p.
Arguments tabs {H} p.
Arguments frs {H} p.

(** A [&mut PageTableEntry] *)
Definition slot : Type := Z * Z.

Section ops.
Context {H : Type} `{!PageHeap H}.

Definition on_heap {A} (m : M H A) : M (pmem H) A := λ s,
  match m (hp s) with
  | Done (a, h) => Done (a, {| hp := h; tabs := tabs s; frs := frs s |})
  | Panic why => Panic why
  end.
Definition set_tabs (t : gmap Z (list Z)) : M (pmem H) unit :=
  modify (λ s, {| hp := hp s; tabs := t; frs := frs s |}).
Definition set_frs (f : gmap Z (list Z)) : M (pmem H) unit :=
  modify (λ s, {| hp := hp s; tabs := tabs s; frs := f |}).

Definition entry_at (t : gmap Z (list Z)) (e : slot) : option Z :=
  t !! e.1 ≫= (.!! Z.to_nat e.2).
Definition read_pte (e : slot) : M (pmem H) Z :=
  s ← get;
  unwrap (entry_at (tabs s) e) "not a page table".
Definition write_pte (e : slot) (data : Z) : M (pmem H) unit :=
  s ← get;
  es ← unwrap (tabs s !! e.1) "not a page table";
  set_tabs (<[e.1 := <[Z.to_nat e.2 := data]> es]> (tabs s)).

(** [Box::<PageTable>::try_new_zeroed] and the drop of the box's memory *)
Definition new_table : M (pmem H) (option Z) :=
  o ← on_heap ph_alloc;
  match o with
  | None => mret None
  | Some p => s ← get; set_tabs (<[p := table_empty]> (tabs s));; mret (Some p)
  end.
Definition free_table (p : Z) : M (pmem H) unit :=
  s ← get; set_tabs (delete p (tabs s));; on_heap (ph_free p).

(** [RawSinglePage::try_new_zeroed], [try_new_uninit] (no contents yet) and
    [from_raw_and_drop] *)
Definition try_new_zeroed : M (pmem H) (option Z) :=
  o ← on_heap ph_alloc;
  match o with
  | None => mret None
  | Some p => s ← get; set_frs (<[p := page_zero]> (frs s));; mret (Some p)
  end.
Definition try_new_uninit : M (pmem H) (option Z) := on_heap ph_alloc.
Definition from_raw_and_drop (p : Z) : M (pmem H) unit :=
  s ← get; set_frs (delete p (frs s));; on_heap (ph_free p).
Definition read_frame (pa : Z) : M (pmem H) (list Z) :=
  s ← get; unwrap (frs s !! pa) "not a frame".
Definition write_frame (pa : Z) (l : list Z) : M (pmem H) unit :=
  s ← get; set_frs (<[pa := l]> (frs s)).

(** [PageTableEntry::try_clone] *)
Definition try_clone (data : Z) : M (pmem H) (option Z) :=
  if negb (is_valid data) then mret None
  else
    let pa := as_phys_addr data in
    o ← try_new_uninit;
    match o with
    | None => mret None
    | Some mem =>
        bytes ← read_frame pa;
        write_frame mem bytes;;
        mret (Some mem)
    end.

(** ** PageTable: the walks *)
Fixpoint find_pte_create_loop (levels : list Z) (pagetable va : Z) : M (pmem H) (option Z) :=
  match levels with
  | [] => mret (Some pagetable)
  | level :: levels =>
      let e := (pagetable, page_num va level) in
      pte ← read_pte e;
      if is_valid pte then find_pte_create_loop levels (as_page_table pte) va
      else
        o ← new_table;
        match o with
        | None => mret None
        | Some zerod_pgt =>
            match PhysAddr_try_from zerod_pgt with
            | inr why => panic why
            | inl pa =>
                write_pte e (pte_write pa);;
                find_pte_create_loop levels zerod_pgt va
            end
        end
  end.
Definition find_pte_create (self va : Z) : M (pmem H) (option slot) :=
  o ← find_pte_create_loop [2; 1] self va;
  mret ((λ pagetable, (pagetable, page_num va 0)) <$> o).

Fixpoint find_pte_loop (levels : list Z) (pagetable va : Z) : M (pmem H) (option Z) :=
  match levels with
  | [] => mret (Some pagetable)
  | level :: levels =>
      pte ← read_pte (pagetable, page_num va level);
      if is_valid pte then find_pte_loop levels (as_page_table pte) va
      else mret None
  end.
Definition find_pte_mut (self va : Z) : M (pmem H) (option slot) :=
  o ← find_pte_loop [2; 1] self va;
  mret ((λ pagetable, (pagetable, page_num va 0)) <$> o).
Definition find_pte (self va : Z) : M (pmem H) (option slot) :=
  o ← find_pte_loop [2; 1] self va;
  mret ((λ pagetable, (pagetable, page_num va 0)) <$> o).

Definition find_pa_mut (self va : Z) : M (pmem H) (Z + string) :=
  o ← find_pte_mut self va;
  match o with
  | Some e =>
      pte ← read_pte e;
      mret (if negb (is_valid pte) then inr "pte not valid"%string
            else if negb (is_user pte) then inr "pte not mapped for user"%string
            else inl (as_phys_addr pte))
  | None => mret (inr "va not mapped"%string)
  end.
Definition find_pa (self va : Z) : M (pmem H) (Z + string) :=
  o ← find_pte self va;
  match o with
  | Some e =>
      pte ← read_pte e;
      mret (if negb (is_valid pte) then inr "pte not valid"%string
            else if negb (is_user pte) then inr "pte not mapped for user"%string
            else inl (as_phys_addr pte))
  | None => mret (inr "va not mapped"%string)
  end.
Definition find_pa_by_kernel (self va : Z) : M (pmem H) (Z + string) :=
  o ← find_pte self va;
  match o with
  | Some e =>
      pte ← read_pte e;
      mret (if negb (is_valid pte) then inr "pte not valid"%string
            else inl (as_phys_addr pte))
  | None => mret (inr "va not mapped"%string)
  end.

(** ** map_pages: [while va != last], one page per turn *)
Definition enough_err : string :=
  "PageTable.map_pages: not enough memory for new page table".

Fixpoint map_pages_loop (fuel : nat) (self va last pa perm : Z) : M (pmem H) (unit + string) :=
  match fuel with
  | O => panic "out of fuel"
  | S fuel =>
      if va =? last then mret (inl tt)
      else
        o ← find_pte_create self va;
        match o with
        | Some e =>
            pte ← read_pte e;
            if is_valid pte then mret (inr "remap"%string)
            else
              write_pte e (write_perm pa perm);;
              va ← lift (add_page va);
              pa ← lift (add_page pa);
              map_pages_loop fuel self va last pa perm
        | None => mret (inr enough_err)
        end
  end.
Definition map_pages (self va size pa perm : Z) : M (pmem H) (unit + string) :=
  t ← lift (add64 va size);
  match VirtAddr_try_from t with
  | inr why => mret (inr why)
  | inl last =>
      let va := pg_round_down va in
      last ← lift (pg_round_up last);
      map_pages_loop (S (Z.to_nat ((last - va) / PAGE_SIZE))) self va last pa perm
  end.

(** ** [Drop for PageTable] and [PageTableEntry::free]: [fuel] is the depth of
    tables below this one *)
Fixpoint drop_table (fuel : nat) (self : Z) : M (pmem H) unit :=
  for_range 512 0 (λ i,
    pte ← read_pte (self, i);
    if is_valid pte && negb (is_leaf pte) then
      match fuel with
      | O => panic "page tables nested too deeply"
      | S fuel =>
          drop_table fuel (as_page_table pte);;
          free_table (as_page_table pte);;
          write_pte (self, i) 0
      end
    else mret tt).
(** Dropping a [Box<PageTable>]. *)
Definition drop_pagetable (self : Z) : M (pmem H) unit :=
  drop_table 2 self;; free_table self.

Definition as_satp (self : Z) : Z := Z.lor SATP_SV39 (Z.shiftr self PGSHIFT).
End ops.

(** * Bits of a page table entry *)
Lemma land_pow2 a k : 0 ≤ k → Z.land a (2 ^ k) = if Z.testbit a k then 2 ^ k else 0.
Proof.
  intros Hk. apply Z.bits_inj'. intros n Hn. rewrite Z.land_spec, Z.pow2_bits_eqb by lia.
  destruct (Z.eqb_spec k n) as [<-|Hne].
  - destruct (Z.testbit a k); [by rewrite Z.pow2_bits_true|by rewrite Z.bits_0].
  - rewrite andb_false_r. destruct (Z.testbit a k); [|by rewrite Z.bits_0].
    by rewrite Z.pow2_bits_false.
Qed.

Lemma land_pow2_pos a k : 0 ≤ k → (Z.land a (2 ^ k) >? 0) = Z.testbit a k.
Proof.
  intros Hk. rewrite land_pow2 by done. destruct (Z.testbit a k); [|done].
  rewrite Z.gtb_ltb. apply Z.ltb_lt. lia.
Qed.

Lemma is_valid_bit e : is_valid e = Z.testbit e 0.
Proof. apply (land_pow2_pos e 0). lia. Qed.
Lemma is_user_bit e : is_user e = Z.testbit e 4.
Proof. apply (land_pow2_pos e 4). lia. Qed.
Lemma is_leaf_bits e : is_leaf e = Z.testbit e 1 || Z.testbit e 2 || Z.testbit e 3.
Proof.
  unfold is_leaf. change (Z.lor (Z.lor PTE_R PTE_W) PTE_X) with (Z.lor (2 ^ 1) (Z.lor (2 ^ 2) (2 ^ 3))).
  rewrite !Z.land_lor_distr_r, !land_pow2 by lia.
  by destruct (Z.testbit e 1), (Z.testbit e 2), (Z.testbit e 3).
Qed.

Lemma lor_low w hi lo : 0 ≤ w → 0 ≤ lo < 2 ^ w → Z.lor (hi * 2 ^ w) lo = hi * 2 ^ w + lo.
Proof.
  intros Hw Hlo. symmetry.
  rewrite <- Z.lxor_lor; [rewrite Z.add_nocarry_lxor; [done|]|].
  all: apply Z.bits_inj'; intros n Hn; rewrite Z.land_spec, Z.bits_0.
  all: rewrite Z.mul_pow2_bits by lia.
  all: destruct (Z.ltb_spec n w); [by rewrite (Z.testbit_neg_r _ (n - w)) by lia|].
  all: by rewrite (testbit_high w lo n), andb_false_r by lia.
Qed.

Lemma lor_bounds w a b : 0 ≤ w → 0 ≤ a < 2 ^ w → 0 ≤ b < 2 ^ w → 0 ≤ Z.lor a b < 2 ^ w.
Proof.
  intros Hw Ha Hb. split; [apply Z.lor_nonneg; lia|].
  destruct (decide (Z.lor a b = 0)) as [->|Hne]; [lia|].
  assert (0 ≤ Z.lor a b) by (apply Z.lor_nonneg; lia).
  assert (w ≠ 0).
  { intros ->. change (2 ^ 0) with 1 in *. by replace a with 0 in * by lia; replace b with 0 in * by lia. }
  assert (∀ x, 0 ≤ x < 2 ^ w → Z.log2 x < w) as Hlog.
  { intros x Hx. destruct (decide (x = 0)) as [->|]; [cbn; lia|]. apply Z.log2_lt_pow2; lia. }
  apply Z.log2_lt_pow2; [lia|]. rewrite Z.log2_lor by lia. apply Z.max_lub_lt; auto.
Qed.

Section entries.
Context (pa : Z) (Hpa : 0 ≤ pa < 2 ^ 56) (Hal : pa `mod` PAGE_SIZE = 0).

Lemma write_perm_value perm :
  0 ≤ perm < 2 ^ 10 → write_perm pa perm = pa / 2 ^ 12 * 2 ^ 10 + Z.lor perm 1.
Proof.
  intros Hp. unfold write_perm, wrap, PGSHIFT, SV39FLAGLEN.
  rewrite Z.shiftr_div_pow2, Z.shiftl_mul_pow2 by lia.
  rewrite Z.mod_small by dlia. apply lor_low; [lia|]. apply lor_bounds; unfold PTE_V; cbn; lia.
Qed.

Lemma as_page_table_write perm : 0 ≤ perm < 2 ^ 10 → as_page_table (write_perm pa perm) = pa.
Proof.
  intros Hp. rewrite write_perm_value by done.
  assert (0 ≤ Z.lor perm 1 < 2 ^ 10) by (apply lor_bounds; lia).
  unfold as_page_table, wrap, SV39FLAGLEN, PGSHIFT.
  rewrite Z.shiftr_div_pow2, Z.shiftl_mul_pow2 by lia.
  rewrite Z.div_add_l, (Z.div_small (Z.lor perm 1)), Z.add_0_r by lia.
  unfold PAGE_SIZE in Hal. rewrite Z.mod_small; dlia.
Qed.

Lemma write_perm_bit perm n :
  0 ≤ perm < 2 ^ 10 → 0 ≤ n < 10 →
  Z.testbit (write_perm pa perm) n = Z.testbit perm n || (n =? 0).
Proof.
  intros Hp Hn. unfold write_perm, wrap, PGSHIFT, SV39FLAGLEN.
  rewrite !Z.lor_spec, <- Z.land_ones, Z.land_spec, Z.shiftl_spec by lia.
  rewrite (Z.testbit_neg_r _ (n - 10)) by lia. simpl. f_equal.
Qed.

Lemma read_perm_write perm : 0 ≤ perm < 2 ^ 10 → read_perm (write_perm pa perm) = Z.lor perm 1.
Proof.
  intros Hp. rewrite write_perm_value by done.
  assert (0 ≤ Z.lor perm 1 < 2 ^ 10) by (apply lor_bounds; lia).
  unfold read_perm. change PTE_ALL with (Z.ones 10). rewrite Z.land_ones by lia.
  rewrite Z.add_comm, Z_mod_plus_full, Z.mod_small by lia. done.
Qed.
End entries.

Lemma pte_write_perm pa : pte_write pa = write_perm pa 0.
Proof. done. Qed.

(** * Page-table trees *)
Definition idx (va level : Z) : nat := Z.to_nat (page_num va level).

(** The entry a walk ends at when every table on the way exists. *)
Fixpoint look (levels : list Z) (t : gmap Z (list Z)) (pt va : Z) : option Z :=
  match levels with
  | [] => None
  | l :: ls =>
      e ← t !! pt ≫= (.!! idx va l);
      if is_valid e then
        match ls with [] => Some e | _ => look ls t (as_page_table e) va end
      else None
  end.
(** The translation of [va] in the tree at [root]: its valid leaf entry. *)
Definition mapping (t : gmap Z (list Z)) (root va : Z) : option Z := look [2; 1; 0] t root va.

(** [own a = (r, p)]: the table at [a] belongs to the tree rooted at [r], and
    the indices [p] lead to it. *)
Abbreviation owners := (gmap Z (Z * list nat)).

Record wf (own : owners) (t : gmap Z (list Z)) : Prop := {
  wf_dom a : is_Some (t !! a) → is_Some (own !! a);
  wf_len a r p : own !! a = Some (r, p) → (length p ≤ 2)%nat;
  wf_root a r p : own !! a = Some (r, p) → own !! r = Some (r, []);
  wf_nil a r : own !! a = Some (r, []) → a = r;
  wf_tab a r p : own !! a = Some (r, p) → ∃ es, t !! a = Some es ∧ length es = 512%nat;
  wf_child a r p es i e : own !! a = Some (r, p) → t !! a = Some es → es !! i = Some e →
    is_valid e = true → (length p < 2)%nat →
    is_leaf e = false ∧ own !! as_page_table e = Some (r, p ++ [i]);
  wf_leaf a r p es i e : own !! a = Some (r, p) → t !! a = Some es → es !! i = Some e →
    is_valid e = true → length p = 2%nat → is_leaf e = true;
  wf_parent a r p i : own !! a = Some (r, p ++ [i]) →
    ∃ b es e, own !! b = Some (r, p) ∧ t !! b = Some es ∧ es !! i = Some e ∧
      is_valid e = true ∧ as_page_table e = a;
}.

Lemma levels3 l : l ∈ [2; 1; 0] → 0 ≤ l.
Proof. set_solver by lia. Qed.
Lemma levels2 l : l ∈ [2; 1] → 0 ≤ l.
Proof. set_solver by lia. Qed.
Lemma idx_bound va l : 0 ≤ l → (idx va l < 512)%nat.
Proof. intros. pose proof (page_num_bounds va l). unfold idx. lia. Qed.
Create HintDb pt.
#[export] Hint Resolve idx_bound : pt.

(** Two addresses below [2^39] share their indices exactly when they lie in
    the same page. *)
Lemma same_page va va' :
  0 ≤ va < 2 ^ 39 → 0 ≤ va' < 2 ^ 39 →
  (∀ l, l ∈ [2; 1; 0] → idx va l = idx va' l) ↔ floor va = floor va'.
Proof.
  intros Hva Hva'. unfold idx, floor, PAGE_SIZE. split.
  - intros E. pose proof (E 2 ltac:(set_solver)) as E2. pose proof (E 1 ltac:(set_solver)) as E1.
    pose proof (E 0 ltac:(set_solver)) as E0.
    apply Z2Nat.inj in E2, E1, E0; try (apply page_num_bounds; lia).
    rewrite !page_num_div in E2, E1, E0 by lia. cbn in E2, E1, E0.
    change (Z.pow_pos 2 30) with 0x40000000 in *. change (Z.pow_pos 2 21) with 0x200000 in *.
    change (Z.pow_pos 2 12) with 4096 in *. dlia.
  - intros E l Hl. f_equal. rewrite !page_num_div by set_solver by lia.
    assert (∀ a, a / 2 ^ (12 + l * 9) = a / 4096 / 2 ^ (l * 9)) as Ha.
    { intros a. rewrite Z.div_div by (try apply Z.pow_nonzero; set_solver by lia).
      rewrite Z.pow_add_r by set_solver by lia. done. }
    by rewrite !Ha, E.
Qed.

Lemma look_idx ls t pt va va' :
  (∀ l, l ∈ ls → idx va l = idx va' l) → look ls t pt va = look ls t pt va'.
Proof.
  revert pt. induction ls as [|l ls IH]; intros pt Hi; [done|]. cbn [look].
  rewrite (Hi l) by left. destruct (t !! pt ≫= _) as [e|]; [|done].
  cbn [mbind option_bind]. destruct (is_valid e); [|done].
  destruct ls; [done|]. apply IH. intros x Hx. apply Hi. by right.
Qed.

Section tree.
Context (own : owners) (t : gmap Z (list Z)) (Hwf : wf own t).

Lemma table_of a r p : own !! a = Some (r, p) → ∃ es, t !! a = Some es ∧ length es = 512%nat.
Proof. apply (wf_tab _ _ Hwf). Qed.

Lemma entry_of a r p i :
  own !! a = Some (r, p) → (i < 512)%nat → ∃ e, t !! a ≫= (.!! i) = Some e.
Proof.
  intros Ha Hi. destruct (table_of a r p Ha) as (es & -> & Hl). cbn.
  apply lookup_lt_is_Some_2. lia.
Qed.

Lemma entry_inv a i e : t !! a ≫= (.!! i) = Some e → ∃ es, t !! a = Some es ∧ es !! i = Some e.
Proof. intros (es & ? & ?)%bind_Some. eauto. Qed.

Lemma path_unique a b r p : own !! a = Some (r, p) → own !! b = Some (r, p) → a = b.
Proof.
  revert a b. induction p as [|i p IH] using rev_ind; intros a b Ha Hb.
  - by rewrite (wf_nil _ _ Hwf a r Ha), (wf_nil _ _ Hwf b r Hb).
  - apply (wf_parent _ _ Hwf) in Ha as (a' & es & e & Ha & Hes & He & _ & <-).
    apply (wf_parent _ _ Hwf) in Hb as (b' & es' & e' & Hb & Hes' & He' & _ & <-).
    rewrite (IH _ _ Ha Hb) in *. congruence.
Qed.

(** The walk for [va] ends at the table that owns the path of [va]. *)
Lemma mapping_slot a root va :
  own !! a = Some (root, [idx va 2; idx va 1]) → mapping t root va = look [0] t a va.
Proof.
  intros Ha.
  destruct (wf_parent _ _ Hwf a root [idx va 2] (idx va 1) Ha)
    as (b1 & es1 & e1 & Hb1 & Ht1 & Hi1 & Hv1 & <-).
  destruct (wf_parent _ _ Hwf b1 root [] (idx va 2) Hb1)
    as (b2 & es2 & e2 & Hb2 & Ht2 & Hi2 & Hv2 & <-).
  apply (wf_nil _ _ Hwf) in Hb2 as ->.
  unfold mapping. cbn [look]. unfold mbind, option_bind.
  by rewrite Ht2, Hi2, Hv2, Ht1, Hi1, Hv1.
Qed.

(** Reading along a walk never leaves the tree. *)
Lemma look_cons l ls pt va r p :
  own !! pt = Some (r, p) → 0 ≤ l →
  ∃ e, t !! pt ≫= (.!! idx va l) = Some e ∧
    look (l :: ls) t pt va =
      if is_valid e then match ls with [] => Some e | _ => look ls t (as_page_table e) va end
      else None.
Proof.
  intros Hpt Hl. destruct (entry_of pt r p (idx va l) Hpt) as [e E]; [auto with pt|].
  exists e. split; [done|]. cbn [look]. by rewrite E.
Qed.

Lemma child_of pt r p i e :
  own !! pt = Some (r, p) → t !! pt ≫= (.!! i) = Some e → is_valid e = true →
  (length p < 2)%nat → own !! as_page_table e = Some (r, p ++ [i]).
Proof. intros Hpt (es & ? & ?)%entry_inv Hv Hl. by eapply wf_child. Qed.
End tree.

(** Writing an entry of a last-level table. *)
Section write_leaf.
Context (own : owners) (t : gmap Z (list Z)) (Hwf : wf own t).
Context (a r : Z) (p : list nat) (es : list Z) (i0 : nat) (e0 : Z).
Context (Ha : own !! a = Some (r, p)) (Hp : length p = 2%nat).
Context (Hes : t !! a = Some es) (He0 : is_valid e0 = true → is_leaf e0 = true).
Let t' := <[a := <[i0 := e0]> es]> t.

Lemma write_leaf_other b r' p' :
  own !! b = Some (r', p') → (length p' < 2)%nat → t' !! b = t !! b.
Proof.
  intros Hb Hl. unfold t'. rewrite lookup_insert_ne; [done|]. intros ->.
  rewrite Ha in Hb. injection Hb as -> ->. lia.
Qed.

Lemma write_leaf_wf : wf own t'.
Proof.
  pose proof (wf_tab _ _ Hwf a r p Ha) as (es1 & Hes1 & Hlen). rewrite Hes in Hes1. injection Hes1 as <-.
  split.
  - intros b Hb. unfold t' in Hb. destruct (decide (a = b)) as [<-|].
    + rewrite Ha. eauto.
    + rewrite lookup_insert_ne in Hb by done. by apply (wf_dom _ _ Hwf).
  - apply (wf_len _ _ Hwf).
  - apply (wf_root _ _ Hwf).
  - apply (wf_nil _ _ Hwf).
  - intros b r' p' Hb. unfold t'. destruct (decide (a = b)) as [<-|].
    + rewrite lookup_insert_eq. eexists. split; [done|]. by rewrite length_insert.
    + rewrite lookup_insert_ne by done. by eapply wf_tab.
  - intros b r' p' es' i e Hb Ht Hi Hv Hl. erewrite write_leaf_other in Ht by done.
    by eapply wf_child.
  - intros b r' p' es' i e Hb Ht Hi Hv Hl. unfold t' in Ht.
    destruct (decide (a = b)) as [<-|].
    + rewrite lookup_insert_eq in Ht. injection Ht as <-.
      destruct (decide (i = i0)) as [->|].
      * apply list_lookup_insert_Some in Hi. naive_solver.
      * rewrite list_lookup_insert_ne in Hi by done. by eapply wf_leaf.
    + rewrite lookup_insert_ne in Ht by done. by eapply wf_leaf.
  - intros b r' p' i Hb. destruct (wf_parent _ _ Hwf _ _ _ _ Hb) as (c & es' & e & Hc & Ht & H).
    exists c, es', e. split; [done|]. split; [|done]. erewrite write_leaf_other; [done..|].
    pose proof (wf_len _ _ Hwf _ _ _ Hb) as Hl. rewrite length_app in Hl. cbn in Hl. lia.
Qed.

Lemma write_leaf_look ls pt va r' p' :
  own !! pt = Some (r', p') → (length p' + length ls = 3)%nat → (∀ l, l ∈ ls → 0 ≤ l) → ls ≠ [] →
  (r', p' ++ ((λ l, idx va l) <$> ls)) ≠ (r, p ++ [i0]) →
  look ls t' pt va = look ls t pt va.
Proof.
  revert pt p'. induction ls as [|l ls IH]; intros pt p' Hpt Hlen Hls Hnil Hne; [done|].
  assert (0 ≤ l) as Hl by (apply Hls; left).
  destruct (look_cons _ _ Hwf l ls pt va r' p' Hpt Hl) as (e & E & ->).
  destruct (look_cons _ _ write_leaf_wf l ls pt va r' p' Hpt Hl) as (e' & E' & ->).
  destruct ls as [|l' ls].
  - assert (e' = e) as ->; [|done].
    unfold t' in E'. destruct (decide (a = pt)) as [<-|].
    + rewrite lookup_insert_eq in E'. rewrite Hes in E. cbn in E, E'.
      rewrite list_lookup_insert_ne in E'; [congruence|]. intros Ei. apply Hne.
      rewrite Ha in Hpt. injection Hpt as -> ->. by rewrite Ei.
    + rewrite lookup_insert_ne in E' by done. congruence.
  - cbn in Hlen. erewrite write_leaf_other in E' by (done || lia).
    assert (e' = e) as -> by congruence. destruct (is_valid e) eqn:Hv; [|done].
    apply (IH _ (p' ++ [idx va l])).
    + by eapply child_of; [..|lia].
    + rewrite length_app. cbn. lia.
    + intros x Hx. apply Hls. by right.
    + done.
    + by rewrite <- app_assoc.
Qed.
End write_leaf.

(** Hanging a fresh empty table below an invalid entry. *)
Section add_table.
Context (own : owners) (t : gmap Z (list Z)) (Hwf : wf own t).
Context (a r q : Z) (p : list nat) (es : list Z) (i0 : nat) (e0 : Z).
Context (Ha : own !! a = Some (r, p)) (Hp : (length p < 2)%nat) (Hes : t !! a = Some es).
Context (He0 : es !! i0 = Some e0) (Hv0 : is_valid e0 = false).
Context (Hq : own !! q = None) (Hq1 : 0 ≤ q < 2 ^ 56) (Hq2 : q `mod` PAGE_SIZE = 0).
Let own' : owners := <[q := (r, p ++ [i0])]> own.
Let t' := <[a := <[i0 := pte_write q]> es]> (<[q := table_empty]> t).

Lemma ptr_entry : is_valid (pte_write q) = true ∧ is_leaf (pte_write q) = false ∧
  as_page_table (pte_write q) = q.
Proof.
  rewrite pte_write_perm, is_valid_bit, is_leaf_bits, !write_perm_bit, !Z.bits_0 by (done || lia).
  split; [done|]. split; [done|]. by apply as_page_table_write.
Qed.

Lemma add_table_aq : a ≠ q.
Proof. intros ->. congruence. Qed.

Lemma add_table_other b : b ≠ a → b ≠ q → t' !! b = t !! b.
Proof. intros ??. unfold t'. by rewrite !lookup_insert_ne by done. Qed.
Lemma add_table_new : t' !! q = Some table_empty.
Proof. unfold t'. rewrite lookup_insert_ne by apply add_table_aq. apply lookup_insert_eq. Qed.
Lemma add_table_at : t' !! a = Some (<[i0 := pte_write q]> es).
Proof. apply lookup_insert_eq. Qed.

Lemma table_empty_lookup i e : table_empty !! i = Some e → is_valid e = false.
Proof. intros [-> _]%lookup_replicate. done. Qed.

Lemma own_mono b x : own !! b = Some x → own' !! b = Some x.
Proof. intros Hb. unfold own'. rewrite lookup_insert_ne; [done|]. congruence. Qed.
Lemma own_inv b x : own' !! b = Some x → (b = q ∧ x = (r, p ++ [i0])) ∨ (b ≠ q ∧ own !! b = Some x).
Proof.
  unfold own'. intros [[<- <-]|[? ?]]%lookup_insert_Some; eauto.
Qed.

(** No table is lost: an entry of the old tree keeps its meaning. *)
Lemma add_table_entry b es' i e x :
  own !! b = Some x → t' !! b = Some es' → es' !! i = Some e →
  (b = a ∧ i = i0 ∧ e = pte_write q) ∨ ((b, i) ≠ (a, i0) ∧ t !! b ≫= (.!! i) = Some e).
Proof.
  intros Hb Ht Hi. destruct (decide (b = a)) as [->|].
  - rewrite add_table_at in Ht. injection Ht as <-. destruct (decide (i = i0)) as [->|].
    + apply list_lookup_insert_Some in Hi. naive_solver.
    + right. split; [congruence|]. rewrite list_lookup_insert_ne in Hi by done. by rewrite Hes.
  - right. split; [congruence|]. rewrite add_table_other in Ht; [by rewrite Ht|done|congruence].
Qed.

Lemma add_table_wf : wf own' t'.
Proof.
  destruct ptr_entry as (Hpv & Hpl & Hpq).
  split.
  - intros b Hb. unfold own'. destruct (decide (q = b)) as [<-|]; [rewrite lookup_insert_eq; eauto|].
    rewrite lookup_insert_ne by done. destruct (decide (b = a)) as [->|]; [eauto|].
    rewrite add_table_other in Hb by done. by apply (wf_dom _ _ Hwf).
  - intros b r' p' [[-> [= -> ->]]|[_ Hb]]%own_inv; [rewrite length_app; cbn; lia|].
    by eapply (wf_len _ _ Hwf).
  - intros b r' p' [[-> [= -> ->]]|[_ Hb]]%own_inv; apply own_mono; by eapply (wf_root _ _ Hwf).
  - intros b r' [[-> [= _ E]]|[_ Hb]]%own_inv; [by destruct p|]. by eapply (wf_nil _ _ Hwf).
  - intros b r' p' [[-> _]|[Hbq Hb]]%own_inv.
    { rewrite add_table_new. eexists. split; [done|]. apply length_replicate. }
    destruct (decide (b = a)) as [->|].
    + rewrite add_table_at. eexists. split; [done|]. rewrite length_insert.
      destruct (wf_tab _ _ Hwf _ _ _ Ha) as (? & ? & ?). congruence.
    + rewrite add_table_other by done. by eapply wf_tab.
  - intros b r' p' es' i e [[-> _]|[Hbq Hb]]%own_inv Ht Hi Hv Hl.
    { rewrite add_table_new in Ht. injection Ht as <-. apply table_empty_lookup in Hi. congruence. }
    destruct (add_table_entry b es' i e _ Hb Ht Hi) as [(-> & -> & ->)|[_ (es1 & ? & ?)%entry_inv]].
    + split; [done|]. rewrite Hpq. unfold own'. rewrite lookup_insert_eq.
      rewrite Ha in Hb. by injection Hb as -> ->.
    + destruct (wf_child _ _ Hwf b r' p' es1 i e) as [? Hc]; [done..|]. split; [done|]. by apply own_mono.
  - intros b r' p' es' i e [[-> [= -> ->]]|[Hbq Hb]]%own_inv Ht Hi Hv Hl.
    { rewrite add_table_new in Ht. injection Ht as <-. apply table_empty_lookup in Hi. congruence. }
    destruct (add_table_entry b es' i e _ Hb Ht Hi) as [(-> & -> & ->)|[_ (es1 & ? & ?)%entry_inv]].
    + rewrite Ha in Hb. injection Hb as -> ->. lia.
    + by eapply wf_leaf.
  - intros b r' p' i [[-> [= -> [-> [= ->]]%app_inj_tail]]|[Hbq Hb]]%own_inv.
    { exists a, (<[i0 := pte_write q]> es), (pte_write q). split; [by apply own_mono|].
      split; [apply add_table_at|]. split; [|done]. apply list_lookup_insert_eq. by eapply lookup_lt_Some. }
    destruct (wf_parent _ _ Hwf _ _ _ _ Hb) as (c & es' & e & Hc & Ht & Hi & Hv & He).
    destruct (decide (c = a)) as [->|].
    + exists a, (<[i0 := pte_write q]> es), e. split; [by apply own_mono|]. split; [apply add_table_at|].
      split; [|done]. rewrite list_lookup_insert_ne; [congruence|]. intros ->. congruence.
    + exists c, es', e. split; [by apply own_mono|]. split; [|done].
      rewrite add_table_other; [done..|congruence].
Qed.

Lemma look_empty ls va : look ls t' q va = None.
Proof.
  destruct ls as [|l ls]; [done|]. cbn [look]. rewrite add_table_new.
  change (Some table_empty ≫= (.!! idx va l)) with (table_empty !! idx va l).
  destruct (table_empty !! idx va l) as [e|] eqn:E; [|done].
  cbn [mbind option_bind]. by rewrite (table_empty_lookup _ _ E).
Qed.

Lemma add_table_look ls pt va r' p' :
  own !! pt = Some (r', p') → (length p' + length ls = 3)%nat → (∀ l, l ∈ ls → 0 ≤ l) →
  look ls t' pt va = look ls t pt va.
Proof.
  revert pt p'. induction ls as [|l ls IH]; intros pt p' Hpt Hlen Hls; [done|].
  assert (0 ≤ l) as Hl by (apply Hls; left).
  destruct (look_cons _ _ Hwf l ls pt va r' p' Hpt Hl) as (e & E & ->).
  destruct (look_cons _ _ add_table_wf l ls pt va r' p' (own_mono _ _ Hpt) Hl) as (e' & E' & ->).
  apply entry_inv in E' as (es' & Ht & Hi).
  destruct (add_table_entry pt es' _ e' _ Hpt Ht Hi) as [(-> & Hi0 & ->)|[_ E']].
  - rewrite Hes in E. cbn in E. rewrite Hi0 in E. assert (e = e0) as -> by congruence. rewrite Hv0.
    destruct ptr_entry as (-> & _ & ->). rewrite Ha in Hpt. injection Hpt as <- <-.
    destruct ls; [cbn in Hlen; lia|]. apply look_empty.
  - assert (e' = e) as -> by congruence. destruct (is_valid e) eqn:Hv; [|done].
    destruct ls as [|l' ls]; [done|]. cbn in Hlen. apply (IH _ (p' ++ [idx va l])).
    + by eapply child_of; [..|lia].
    + rewrite length_app. cbn. lia.
    + intros x Hx. apply Hls. by right.
Qed.
End add_table.

(** * The operations keep the trees well formed *)
Section specs.
Context {H : Type} `{!PageHeap H, !PageHeapLaws H}.

Record pinv (s : pmem H) (live : gset Z) (own : owners) : Prop := {
  pi_heap : ph_inv (hp s) live;
  pi_wf : wf own (tabs s);
  pi_dom a : is_Some (own !! a) ∨ is_Some (frs s !! a) → a ∈ live ∨ ¬ ph_addr a;
  pi_sep a : is_Some (own !! a) → frs s !! a = None;
}.

(** The heap has run out of pages at some point. *)
Definition heap_exhausted : Prop :=
  ∃ (h : H) live h', ph_inv h live ∧ ph_alloc h = Done (None, h').

(** From [s] to [s'] tables were added, all of them fresh pages. *)
Record grows (live live' : gset Z) (own own' : owners) : Prop := {
  gr_own : own ⊆ own';
  gr_live a : a ∈ live' ↔ a ∈ live ∨ is_Some (own' !! a) ∧ own !! a = None;
  gr_new a : is_Some (own' !! a) → own !! a = None → (a ∉ live) ∧ ph_addr a;
}.

Lemma grows_refl live own : grows live live own own.
Proof. split; [done| |]; intros a; [|intros [x ?]; congruence]. split; [by left|]. intros [?|[[x ?] ?]]; [done|congruence]. Qed.

Lemma grows_trans l1 l2 l3 o1 o2 o3 : grows l1 l2 o1 o2 → grows l2 l3 o2 o3 → grows l1 l3 o1 o3.
Proof.
  intros [S1 L1 N1] [S2 L2 N2]. split; [by etrans| |].
  - intros a. rewrite L2, L1. destruct (o1 !! a) as [x|] eqn:E1.
    { rewrite (lookup_weaken _ _ _ _ E1 S1). naive_solver. }
    destruct (o2 !! a) as [x|] eqn:E2.
    { rewrite (lookup_weaken _ _ _ _ E2 S2). naive_solver. }
    naive_solver.
  - intros a H3 H1. destruct (o2 !! a) as [x|] eqn:E2; [by apply N1; [eauto|]|].
    destruct (N2 a H3 E2) as [Hl ?]. split; [|done]. rewrite L1 in Hl. tauto.
Qed.

Lemma read_pte_run s live own a r p i :
  pinv s live own → own !! a = Some (r, p) → (Z.to_nat i < 512)%nat →
  ∃ e, tabs s !! a ≫= (.!! Z.to_nat i) = Some e ∧ read_pte (a, i) s = Done (e, s).
Proof.
  intros Hs Ha Hi. destruct (entry_of _ _ (pi_wf _ _ _ Hs) a r p _ Ha Hi) as [e E].
  exists e. split; [done|]. unfold read_pte. run_simpl.
  change (tabs s !! a ≫= _) with (entry_at (tabs s) (a, i)) in E. by rewrite E.
Qed.

Lemma find_pte_loop_run s live own r va ls p pt :
  pinv s live own → own !! pt = Some (r, p) → (length p + length ls = 2)%nat →
  (∀ l, l ∈ ls → 0 ≤ l) →
  ∃ o, find_pte_loop ls pt va s = Done (o, s) ∧
    match o with
    | Some a => own !! a = Some (r, p ++ ((λ l, idx va l) <$> ls)) ∧
        look (ls ++ [0]) (tabs s) pt va = look [0] (tabs s) a va
    | None => look (ls ++ [0]) (tabs s) pt va = None
    end.
Proof.
  intros Hs. revert p pt. induction ls as [|l ls IH]; intros p pt Hpt Hlen Hls.
  { exists (Some pt). split; [done|]. cbn [fmap list_fmap]. by rewrite app_nil_r. }
  cbn [find_pte_loop]. cbn in Hlen.
  destruct (read_pte_run s live own pt r p (page_num va l) Hs Hpt) as (e & E & Er).
  { apply idx_bound, Hls. left. }
  rewrite (bind_run _ _ _ _ _ Er). cbn [app].
  destruct (look_cons _ _ (pi_wf _ _ _ Hs) l (ls ++ [0]) pt va r p Hpt) as (e' & E' & ->).
  { apply Hls. left. }
  assert (e' = e) as -> by (unfold idx in E'; congruence).
  destruct (is_valid e) eqn:Hv; [|by exists None].
  destruct (IH (p ++ [idx va l]) (as_page_table e)) as (o & Eo & Ho).
  - eapply child_of; [apply (pi_wf _ _ _ Hs)|done|exact E|done|lia].
  - rewrite length_app. cbn. lia.
  - intros x Hx. apply Hls. by right.
  - exists o. split; [done|]. replace (match ls ++ [0] with [] => Some e | _ :: _ => look (ls ++ [0]) (tabs s) (as_page_table e) va end)
      with (look (ls ++ [0]) (tabs s) (as_page_table e) va) by (by destruct ls).
    destruct o as [a|]; [|done]. cbn [fmap list_fmap]. by rewrite <- app_assoc in Ho.
Qed.

(** [find_pte] and [find_pte_mut] read the tree only; the slot they return is
    the last-level entry of [va]. *)
Lemma find_pte_run s live own root va :
  pinv s live own → own !! root = Some (root, []) →
  ∃ o, find_pte root va s = Done (o, s) ∧ find_pte_mut root va s = Done (o, s) ∧
    match o with
    | Some (a, i) => own !! a = Some (root, [idx va 2; idx va 1]) ∧ i = page_num va 0 ∧
        mapping (tabs s) root va = look [0] (tabs s) a va
    | None => mapping (tabs s) root va = None
    end.
Proof.
  intros Hs Hr. destruct (find_pte_loop_run s live own root va [2; 1] [] root Hs Hr) as (o & E & Ho).
  { done. } { exact levels2. }
  exists ((λ a, (a, page_num va 0)) <$> o). unfold find_pte, find_pte_mut.
  rewrite (bind_run _ _ _ _ _ E). split; [done|]. split; [done|].
  destruct o as [a|]; [|done]. by destruct Ho.
Qed.

Lemma look0 t a va es e :
  t !! a = Some es → es !! idx va 0 = Some e → look [0] t a va = if is_valid e then Some e else None.
Proof. intros Ht He. cbn [look]. rewrite Ht. unfold mbind, option_bind. by rewrite He. Qed.

Lemma new_table_run s live own :
  pinv s live own →
  (∃ q s', new_table s = Done (Some q, s') ∧ ph_addr q ∧ (q ∉ live) ∧
     tabs s' = <[q := table_empty]> (tabs s) ∧ frs s' = frs s ∧
     ph_inv (hp s') ({[q]} ∪ live)) ∨
  (∃ s', new_table s = Done (None, s') ∧ heap_exhausted ∧
     tabs s' = tabs s ∧ frs s' = frs s ∧ ph_inv (hp s') live).
Proof.
  intros Hs. unfold new_table.
  destruct (ph_alloc_ok _ _ (pi_heap _ _ _ Hs)) as [(p & h' & E & Hp & Hn & Hi)|(h' & E & Hi)].
  - left. eexists p, _. run_simpl. unfold on_heap. rewrite E.
    split; [reflexivity|]. done.
  - right. eexists. run_simpl. unfold on_heap. rewrite E. split; [reflexivity|].
    split; [|done]. exists (hp s), live, h'. split; [apply Hs|done].
Qed.

Lemma PhysAddr_ok p : ph_addr p → PhysAddr_try_from p = inl p.
Proof.
  intros [Hp Hm]%ph_addr_ok. unfold PhysAddr_try_from. rewrite Hm. simpl.
  by rewrite (proj2 (Z.ltb_ge _ _)) by lia.
Qed.

Lemma fresh_not_owned s live own q :
  pinv s live own → ph_addr q → q ∉ live → own !! q = None ∧ frs s !! q = None.
Proof.
  intros Hs Hq Hn. split; apply eq_None_not_Some; intros Hx;
    destruct (pi_dom _ _ _ Hs q); auto.
Qed.

(** Hanging a new table below entry [i] of [pt]. *)
Lemma add_table_run s live own pt r p i e q s1 :
  pinv s live own → own !! pt = Some (r, p) → (length p < 2)%nat →
  tabs s !! pt ≫= (.!! Z.to_nat i) = Some e → is_valid e = false →
  ph_addr q → q ∉ live → tabs s1 = <[q := table_empty]> (tabs s) → frs s1 = frs s →
  ph_inv (hp s1) ({[q]} ∪ live) →
  ∃ s2, write_pte (pt, i) (pte_write q) s1 = Done (tt, s2) ∧
    pinv s2 ({[q]} ∪ live) (<[q := (r, p ++ [Z.to_nat i])]> own) ∧ frs s2 = frs s ∧
    grows live ({[q]} ∪ live) own (<[q := (r, p ++ [Z.to_nat i])]> own) ∧
    ∀ r' va, own !! r' = Some (r', []) → mapping (tabs s2) r' va = mapping (tabs s) r' va.
Proof.
  intros Hs Hpt Hp (es & Hes & He)%entry_inv Hv Hq Hn Ht1 Hf1 Hh.
  destruct (fresh_not_owned s live own q Hs Hq Hn) as [Hqo Hqf].
  pose proof (ph_addr_ok _ Hq) as [Hq1 Hq2]. unfold PHYSTOP, const_add, KERNBASE in Hq1.
  assert (pt ≠ q) as Hne by congruence.
  eexists. unfold write_pte. cbn [fst snd]. run_simpl. rewrite Ht1, lookup_insert_ne, Hes by done.
  split; [reflexivity|]. cbn [tabs frs hp]. split; [split|split; [done|split; [split|]]].
  - exact Hh.
  - eapply add_table_wf; try done; [apply Hs|lia].
  - cbn. rewrite Hf1. intros a [Ha|Ha].
    + destruct (decide (a = q)) as [->|]; [set_solver|]. rewrite lookup_insert_ne in Ha by done.
      destruct (pi_dom _ _ _ Hs a); [by left|set_solver|by right].
    + destruct (pi_dom _ _ _ Hs a); [by right|set_solver|by right].
  - cbn. rewrite Hf1. intros a Ha. destruct (decide (a = q)) as [->|]; [done|].
    rewrite lookup_insert_ne in Ha by done. by apply (pi_sep _ _ _ Hs).
  - by apply insert_subseteq.
  - intros a. destruct (decide (a = q)) as [->|].
    + rewrite lookup_insert_eq. set_solver by eauto.
    + rewrite lookup_insert_ne by done. split; [set_solver|].
      intros [?|[[x Hx] Hx']]; [set_solver|congruence].
  - intros a Ha Ha'. destruct (decide (a = q)) as [->|]; [done|].
    rewrite lookup_insert_ne in Ha by done. destruct Ha as [x Hx]. congruence.
  - intros r' va Hr'. eapply add_table_look; try done; [apply Hs|lia|exact levels3].
Qed.

Lemma find_pte_create_loop_run s live own r va ls p pt :
  pinv s live own → own !! pt = Some (r, p) → (length p + length ls = 2)%nat →
  (∀ l, l ∈ ls → 0 ≤ l) →
  ∃ o s' live' own', find_pte_create_loop ls pt va s = Done (o, s') ∧ pinv s' live' own' ∧
    grows live live' own own' ∧ frs s' = frs s ∧
    (∀ r' va', own !! r' = Some (r', []) → mapping (tabs s') r' va' = mapping (tabs s) r' va') ∧
    match o with
    | Some a => own' !! a = Some (r, p ++ ((λ l, idx va l) <$> ls))
    | None => heap_exhausted
    end.
Proof.
  revert s live own p pt. induction ls as [|l ls IH]; intros s live own p pt Hs Hpt Hlen Hls.
  { exists (Some pt), s, live, own. split; [done|]. split; [done|]. split; [apply grows_refl|].
    split; [done|]. split; [done|]. cbn [fmap list_fmap]. by rewrite app_nil_r. }
  cbn [find_pte_create_loop]. cbn in Hlen.
  destruct (read_pte_run s live own pt r p (page_num va l) Hs Hpt) as (e & E & Er).
  { apply idx_bound, Hls. left. }
  rewrite (bind_run _ _ _ _ _ Er).
  assert (∀ x, x ∈ ls → 0 ≤ x) as Hls' by (intros x Hx; apply Hls; by right).
  destruct (is_valid e) eqn:Hv.
  - destruct (IH s live own (p ++ [idx va l]) (as_page_table e)) as (o & s' & live' & own' & Hrun & Hx);
      [done| |rewrite length_app; cbn; lia|done|].
    { eapply child_of; [apply (pi_wf _ _ _ Hs)|done|exact E|done|lia]. }
    exists o, s', live', own'. split; [done|]. rewrite <- app_assoc in Hx. exact Hx.
  - destruct (new_table_run s live own Hs)
      as [(q & s1 & E1 & Hq & Hn & Ht & Hf & Hh)|(s1 & E1 & Hex & Ht & Hf & Hh)].
    + rewrite (bind_run _ _ _ _ _ E1), (PhysAddr_ok q Hq).
      destruct (add_table_run s live own pt r p (page_num va l) e q s1) as (s2 & E2 & Hs2 & Hf2 & Hg & Hm);
        [done|done|lia|done..|].
      rewrite (bind_run _ _ _ _ _ E2).
      destruct (IH s2 _ _ (p ++ [idx va l]) q Hs2) as (o & s' & live' & own' & Hrun & Hs' & Hg' & Hf' & Hm' & Ho);
        [apply lookup_insert_eq|rewrite length_app; cbn; lia|done|].
      exists o, s', live', own'. split; [done|]. split; [done|]. split; [by eapply grows_trans|].
      split; [by rewrite Hf'|]. split.
      * intros r' va' Hr'. rewrite Hm', Hm; [done..|]. eapply lookup_weaken; [done|apply Hg].
      * by rewrite <- app_assoc in Ho.
    + rewrite (bind_run _ _ _ _ _ E1). exists None, s1, live, own. split; [done|].
      split; [|split; [apply grows_refl|]; split; [done|]; split; [by rewrite Ht|done]].
      split; [done|by rewrite Ht; apply Hs| |]; rewrite Hf; apply Hs.
Qed.

Lemma find_pte_create_run s live own root va :
  pinv s live own → own !! root = Some (root, []) →
  ∃ o s' live' own', find_pte_create root va s = Done (o, s') ∧ pinv s' live' own' ∧
    grows live live' own own' ∧ frs s' = frs s ∧
    (∀ r' va', own !! r' = Some (r', []) → mapping (tabs s') r' va' = mapping (tabs s) r' va') ∧
    match o with
    | Some (a, i) => own' !! a = Some (root, [idx va 2; idx va 1]) ∧ i = page_num va 0
    | None => heap_exhausted
    end.
Proof.
  intros Hs Hr.
  destruct (find_pte_create_loop_run s live own root va [2; 1] [] root Hs Hr)
    as (o & s' & live' & own' & E & Hs' & Hg & Hf & Hm & Ho); [done|exact levels2|].
  exists ((λ a, (a, page_num va 0)) <$> o), s', live', own'. unfold find_pte_create.
  rewrite (bind_run _ _ _ _ _ E). do 5 (split; [done|]). by destruct o.
Qed.

(** Writing a leaf slot changes one translation of one tree. *)
Lemma write_slot_run s live own root va a e :
  pinv s live own → own !! a = Some (root, [idx va 2; idx va 1]) →
  (is_valid e = true → is_leaf e = true) →
  ∃ s', write_pte (a, page_num va 0) e s = Done (tt, s') ∧ pinv s' live own ∧
    frs s' = frs s ∧ hp s' = hp s ∧
    (∀ r' va', own !! r' = Some (r', []) →
       (r' ≠ root ∨ ∃ l, l ∈ [2; 1; 0] ∧ idx va' l ≠ idx va l) →
       mapping (tabs s') r' va' = mapping (tabs s) r' va') ∧
    (∀ va', (∀ l, l ∈ [2; 1; 0] → idx va' l = idx va l) →
       mapping (tabs s') root va' = if is_valid e then Some e else None).
Proof.
  intros Hs Ha He. pose proof (pi_wf _ _ _ Hs) as Hwf.
  destruct (wf_tab _ _ Hwf _ _ _ Ha) as (es & Hes & Hlen).
  pose proof (write_leaf_wf own (tabs s) Hwf a root _ es (idx va 0) e Ha eq_refl Hes He) as Hwf'.
  eexists. unfold write_pte. cbn [fst snd]. run_simpl. rewrite Hes.
  split; [reflexivity|]. cbn [tabs frs hp]. change (Z.to_nat (page_num va 0)) with (idx va 0).
  split; [split; [apply Hs|done|apply Hs|apply Hs]|].
  split; [done|]. split; [done|]. split.
  - intros r' va' Hr' Hne. eapply write_leaf_look; try done; [exact levels3|].
    intros [= -> E2 E1 E0]. destruct Hne as [?|(l & Hl & Hne)]; [done|].
    apply Hne. clear -Hl E2 E1 E0. set_solver.
  - intros va' Hsame.
    set (t' := <[a := <[idx va 0 := e]> es]> (tabs s)) in *.
    assert (mapping t' root va' = mapping t' root va) as ->.
    { by apply look_idx. }
    rewrite (mapping_slot own t' Hwf' a root va Ha). cbn [look]. unfold mbind, option_bind.
    unfold t'. rewrite lookup_insert_eq, list_lookup_insert_eq; [done|].
    rewrite Hlen. by apply idx_bound.
Qed.

(** ** Translations by page number *)
Definition tr (s : pmem H) (root n : Z) : option Z := mapping (tabs s) root (n * PAGE_SIZE).
Definition is_root (own : owners) (r : Z) : Prop := own !! r = Some (r, []).
Definition vpn (n : Z) : Prop := 0 ≤ n < 2 ^ 27.

Lemma floor_page n : floor (n * PAGE_SIZE) = n.
Proof. unfold floor, PAGE_SIZE. by rewrite Z.div_mul. Qed.

Lemma mapping_tr s root va : 0 ≤ va < 2 ^ 39 → mapping (tabs s) root va = tr s root (floor va).
Proof.
  intros Hva. unfold tr. apply look_idx.
  apply same_page; [done| |by rewrite floor_page]. unfold floor, PAGE_SIZE. dlia.
Qed.

Lemma find_pte_tr s live own root va :
  pinv s live own → is_root own root → 0 ≤ va < 2 ^ 39 →
  ∃ o, find_pte root va s = Done (o, s) ∧ find_pte_mut root va s = Done (o, s) ∧
    match o with
    | Some (a, i) => i = page_num va 0 ∧ own !! a = Some (root, [idx va 2; idx va 1]) ∧
        ∃ e, read_pte (a, i) s = Done (e, s) ∧
          tr s root (floor va) = if is_valid e then Some e else None
    | None => tr s root (floor va) = None
    end.
Proof.
  intros Hs Hr Hva. destruct (find_pte_run s live own root va Hs Hr) as (o & E & E' & Ho).
  exists o. split; [done|]. split; [done|]. rewrite (mapping_tr s root va Hva) in Ho.
  destruct o as [[a i]|]; [|done]. destruct Ho as (Ha & -> & Hm). split; [done|]. split; [done|].
  destruct (read_pte_run s live own a root _ (page_num va 0) Hs Ha) as (e & He & Er); [by apply idx_bound|].
  exists e. split; [done|]. apply entry_inv in He as (es & Ht & Hi). rewrite Hm. by eapply look0.
Qed.

(** Writing the leaf of page [n], in terms of translations. *)
Lemma write_slot_tr s live own root va a e :
  pinv s live own → own !! a = Some (root, [idx va 2; idx va 1]) → 0 ≤ va < 2 ^ 39 →
  (is_valid e = true → is_leaf e = true) →
  ∃ s', write_pte (a, page_num va 0) e s = Done (tt, s') ∧ pinv s' live own ∧
    frs s' = frs s ∧ hp s' = hp s ∧
    ∀ r' n, is_root own r' → vpn n →
      tr s' r' n = if decide (r' = root ∧ n = floor va)
                   then (if is_valid e then Some e else None) else tr s r' n.
Proof.
  intros Hs Ha Hva He.
  destruct (write_slot_run s live own root va a e Hs Ha He) as (s' & E & Hs' & Hf & Hh & Hne & Heq).
  exists s'. split; [done|]. split; [done|]. split; [done|]. split; [done|].
  intros r' n Hr' Hn. unfold vpn in Hn.
  assert (0 ≤ n * PAGE_SIZE < 2 ^ 39) as Hb by (unfold PAGE_SIZE; lia).
  destruct (decide (r' = root ∧ n = floor va)) as [[-> Hn']|Hd].
  - apply Heq. apply same_page; [done..|]. by rewrite floor_page.
  - apply Hne; [done|]. destruct (decide (r' = root)) as [->|]; [right|by left].
    destruct (decide (Forall (λ l, idx (n * PAGE_SIZE) l = idx va l) [2; 1; 0])) as [Hall|Hex].
    + destruct Hd. split; [done|]. rewrite Forall_forall in Hall.
      apply (same_page _ _ Hb Hva) in Hall. by rewrite floor_page in Hall.
    + apply not_Forall_Exists in Hex; [|apply _]. apply Exists_exists in Hex as (l & Hl & Hx). eauto.
Qed.

(** ** map_pages *)
Lemma MAXVA_value : MAXVA = 2 ^ 38.
Proof. done. Qed.

Definition perm_ok (perm : Z) : Prop := 0 ≤ perm < 2 ^ 10 ∧ is_leaf perm = true.

Lemma write_perm_leaf pa perm :
  0 ≤ pa < 2 ^ 56 → pa `mod` PAGE_SIZE = 0 → perm_ok perm →
  is_valid (write_perm pa perm) = true ∧ is_leaf (write_perm pa perm) = true ∧
  is_user (write_perm pa perm) = is_user perm.
Proof.
  intros Hpa Hal [Hp Hl]. rewrite is_valid_bit, !is_leaf_bits, !is_user_bit in *.
  rewrite !write_perm_bit by (done || lia). rewrite !orb_false_r.
  split; [by rewrite orb_true_r|]. done.
Qed.

(** What [map_pages] promises about the [n] pages from page [v], with [k] of
    them mapped when it stops. *)
Record mapped (s s' : pmem H) (own : owners) (root v pa perm k : Z) : Prop := {
  mp_in n : v ≤ n < v + k → tr s root n = None ∧
    tr s' root n = Some (write_perm (pa + (n - v) * PAGE_SIZE) perm);
  mp_out r n : is_root own r → vpn n → r ≠ root ∨ ¬ v ≤ n < v + k → tr s' r n = tr s r n;
}.

Lemma map_pages_loop_run fuel n s live own root va pa perm :
  pinv s live own → is_root own root → perm_ok perm →
  0 ≤ va → va `mod` PAGE_SIZE = 0 → va + Z.of_nat n * PAGE_SIZE ≤ MAXVA →
  0 ≤ pa → pa `mod` PAGE_SIZE = 0 → pa + Z.of_nat n * PAGE_SIZE ≤ 2 ^ 56 → (n < fuel)%nat →
  ∃ r s' live' own' k,
    map_pages_loop fuel root va (va + Z.of_nat n * PAGE_SIZE) pa perm s = Done (r, s') ∧
    pinv s' live' own' ∧ grows live live' own own' ∧ frs s' = frs s ∧
    0 ≤ k ≤ Z.of_nat n ∧ mapped s s' own root (floor va) pa perm k ∧
    match r with
    | inl _ => k = Z.of_nat n
    | inr why => k < Z.of_nat n ∧
        (why = "remap"%string ∧ is_Some (tr s root (floor va + k)) ∨
         why = enough_err ∧ heap_exhausted)
    end.
Proof.
  revert fuel s live own va pa. induction n as [|n IH]; intros fuel s live own va pa
    Hs Hr Hp Hva Hval Hvb Hpa Hpal Hpb Hfuel; (destruct fuel as [|fuel]; [lia|]); cbn [map_pages_loop].
  { rewrite (proj2 (Z.eqb_eq _ _)) by lia. exists (inl tt), s, live, own, 0.
    split; [done|]. split; [done|]. split; [apply grows_refl|]. split; [done|]. split; [lia|].
    split; [|done]. split; [lia|done]. }
  unfold PAGE_SIZE in Hvb, Hpb. rewrite (proj2 (Z.eqb_neq _ _)) by (unfold PAGE_SIZE; lia).
  assert (0 ≤ va < 2 ^ 39) as Hva' by (rewrite MAXVA_value in Hvb; lia).
  destruct (find_pte_create_run s live own root va Hs Hr)
    as (o & s1 & l1 & o1 & E1 & Hs1 & Hg1 & Hf1 & Hm1 & Ho).
  rewrite (bind_run _ _ _ _ _ E1).
  assert (∀ r n, is_root own r → tr s1 r n = tr s r n) as Ht1 by (intros; by apply Hm1).
  assert (is_root o1 root) as Hr1 by (eapply lookup_weaken; [exact Hr|apply Hg1]).
  destruct o as [[a i]|].
  2: { exists (inr enough_err), s1, l1, o1, 0. split; [done|]. split; [done|]. split; [done|].
       split; [done|]. split; [lia|]. split; [split; [lia|]; auto|]. split; [lia|]. by right. }
  destruct Ho as [Ha ->].
  destruct (read_pte_run s1 l1 o1 a root _ (page_num va 0) Hs1 Ha) as (e & He & Er); [by apply idx_bound|].
  rewrite (bind_run _ _ _ _ _ Er).
  assert (tr s root (floor va) = if is_valid e then Some e else None) as Htr.
  { rewrite <- (Ht1 _ _ Hr). rewrite <- mapping_tr by done.
    rewrite (mapping_slot _ _ (pi_wf _ _ _ Hs1) a root va Ha).
    apply entry_inv in He as (es & Ht & Hi). by eapply look0. }
  destruct (is_valid e) eqn:Hv.
  { exists (inr "remap"%string), s1, l1, o1, 0. split; [done|]. split; [done|]. split; [done|].
    split; [done|]. split; [lia|]. split; [split; [lia|]; auto|]. split; [lia|]. left.
    split; [done|]. rewrite Z.add_0_r, Htr. eauto. }
  assert (0 ≤ pa < 2 ^ 56) as Hpa' by lia.
  destruct (write_perm_leaf pa perm Hpa' Hpal Hp) as (Hwv & Hwl & _).
  destruct (write_slot_tr s1 l1 o1 root va a (write_perm pa perm) Hs1 Ha Hva') as (s2 & E2 & Hs2 & Hf2 & _ & Ht2); [done|].
  rewrite (bind_run _ _ _ _ _ E2). rewrite Hwv in Ht2.
  rewrite (bind_run _ _ _ (va + PAGE_SIZE) s2).
  2: { unfold lift, add_page. rewrite add_chk_ok; [done|]. unfold PAGE_SIZE; lia. }
  rewrite (bind_run _ _ _ (pa + PAGE_SIZE) s2).
  2: { unfold lift, add_page. rewrite add_chk_ok; [done|]. unfold PAGE_SIZE; lia. }
  replace (va + Z.of_nat (S n) * PAGE_SIZE) with (va + PAGE_SIZE + Z.of_nat n * PAGE_SIZE) by lia.
  destruct (IH fuel s2 l1 o1 (va + PAGE_SIZE) (pa + PAGE_SIZE))
    as (r & s3 & l3 & o3 & k & E3 & Hs3 & Hg3 & Hf3 & Hk & Hmp & Hres); try done;
    try (unfold PAGE_SIZE in *; lia).
  { unfold PAGE_SIZE in *. dlia. } { unfold PAGE_SIZE in *. dlia. }
  assert (floor (va + PAGE_SIZE) = floor va + 1) as Hfl by (unfold floor, PAGE_SIZE; dlia).
  assert (0 ≤ floor va ∧ floor va + Z.of_nat (S n) ≤ 2 ^ 26) as Hfb.
  { rewrite MAXVA_value in Hvb. unfold floor, PAGE_SIZE. dlia. }
  rewrite Hfl in Hmp, Hres.
  assert (∀ m, vpn m → m ≠ floor va → tr s2 root m = tr s root m) as Ht2'.
  { intros m Hm Hne. rewrite Ht2, decide_False by (done || naive_solver). auto. }
  exists r, s3, l3, o3, (k + 1). split; [done|]. split; [done|].
  split; [by eapply grows_trans|]. split; [congruence|]. split; [lia|]. split; [split|].
  - intros m Hm. destruct (decide (m = floor va)) as [->|Hne].
    + split; [done|]. rewrite (mp_out _ _ _ _ _ _ _ _ Hmp), Ht2, decide_True by (done || (unfold vpn; lia)).
      by rewrite Z.sub_diag, Z.add_0_r.
    + destruct (mp_in _ _ _ _ _ _ _ _ Hmp m) as [Hold Hnew]; [lia|].
      rewrite Ht2' in Hold by (done || (unfold vpn; lia)). split; [done|]. rewrite Hnew. f_equal. f_equal. lia.
  - intros r' m Hr' Hm Hne. assert (is_root o1 r') as Hr'1 by (eapply lookup_weaken; [exact Hr'|apply Hg1]).
    rewrite (mp_out _ _ _ _ _ _ _ _ Hmp), Ht2, decide_False; [auto|naive_solver lia|done..|].
    destruct Hne; [by left|right; lia].
  - destruct r as [|why]; [lia|]. destruct Hres as [Hlt Hwhy]. split; [lia|].
    destruct Hwhy as [[-> Hsome]|?]; [left|by right]. split; [done|].
    rewrite Ht2' in Hsome by (unfold vpn; lia). by replace (floor va + (k + 1)) with (floor va + 1 + k) by lia.
Qed.

(** The number of pages that [va, va + size) touches. *)
Definition npages (va size : Z) : Z := (va + size + PAGE_SIZE - 1) / PAGE_SIZE - floor va.

Lemma map_pages_run s live own root va size pa perm :
  pinv s live own → is_root own root → perm_ok perm →
  0 ≤ va → 0 ≤ size → va + size ≤ MAXVA →
  0 ≤ pa → pa `mod` PAGE_SIZE = 0 → pa + npages va size * PAGE_SIZE ≤ 2 ^ 56 →
  ∃ r s' live' own' k,
    map_pages root va size pa perm s = Done (r, s') ∧
    pinv s' live' own' ∧ grows live live' own own' ∧ frs s' = frs s ∧
    0 ≤ k ≤ npages va size ∧ mapped s s' own root (floor va) pa perm k ∧
    match r with
    | inl _ => k = npages va size
    | inr why => k < npages va size ∧
        (why = "remap"%string ∧ is_Some (tr s root (floor va + k)) ∨
         why = enough_err ∧ heap_exhausted)
    end.
Proof.
  intros Hs Hr Hp Hva Hsz Hb Hpa Hpal Hpb. rewrite MAXVA_value in Hb.
  assert (pg_round_up (va + size) = Done ((floor va + npages va size) * PAGE_SIZE)) as Hup.
  { unfold pg_round_up. rewrite add_chk_ok by (unfold PAGE_SIZE; lia). cbn [mbind outcome_bind].
    rewrite sub_chk_ok by (unfold PAGE_SIZE; lia). cbn [mbind outcome_bind mret outcome_ret].
    f_equal. change (PAGE_SIZE - 1) with (2 ^ 12 - 1).
    rewrite (land_not_mask 64 12) by (unfold PAGE_SIZE; lia).
    unfold npages. rewrite Zplus_minus. done. }
  unfold map_pages. rewrite (bind_run _ _ _ (va + size) s).
  2: { unfold lift. by rewrite add_chk_ok by lia. }
  unfold VirtAddr_try_from. rewrite MAXVA_value, (proj2 (Z.ltb_ge _ _)) by lia.
  rewrite (bind_run _ _ _ _ s (ltac:(unfold lift; by rewrite Hup) : lift (pg_round_up (va + size)) s = _)).
  rewrite pg_round_down_spec by lia. fold (floor va).
  assert (0 ≤ npages va size) as Hn by (unfold npages, floor, PAGE_SIZE; dlia).
  replace ((floor va + npages va size) * PAGE_SIZE - floor va * PAGE_SIZE)
    with (npages va size * PAGE_SIZE) by lia.
  rewrite Z.div_mul by done.
  replace ((floor va + npages va size) * PAGE_SIZE)
    with (floor va * PAGE_SIZE + Z.of_nat (Z.to_nat (npages va size)) * PAGE_SIZE)
    by (rewrite Z2Nat.id by done; lia).
  destruct (map_pages_loop_run (S (Z.to_nat (npages va size))) (Z.to_nat (npages va size))
    s live own root (floor va * PAGE_SIZE) pa perm) as (r & s' & l' & o' & k & E & Hx); try done.
  - unfold floor, PAGE_SIZE. dlia.
  - apply Z_mod_mult.
  - rewrite MAXVA_value, Z2Nat.id by done. unfold npages, floor, PAGE_SIZE. dlia.
  - by rewrite Z2Nat.id.
  - lia.
  - exists r, s', l', o', k. split; [done|]. rewrite floor_page in Hx.
    by rewrite Z2Nat.id in Hx by done.
Qed.

(** C17. [map_pages] on a well-formed tree: it returns [Ok] after mapping every
    page that the range touches to consecutive frames with the permission
    asked for, each of them unmapped before, and changes no other translation
    of any tree; it stops with "remap" at the first page that is mapped
    already and with the memory error only when the heap is out of pages, and
    then exactly the pages before it are mapped.  The trees stay well formed
    and disjoint, tables are added from fresh pages only, and no data page
    changes.  A range that ends above [MAXVA] is refused untouched. *)
Theorem map_pages_correct s live own root va size pa perm :
  pinv s live own → is_root own root → perm_ok perm →
  0 ≤ va → 0 ≤ size → va + size < 2 ^ 64 →
  0 ≤ pa → pa `mod` PAGE_SIZE = 0 → pa + npages va size * PAGE_SIZE ≤ 2 ^ 56 →
  (MAXVA < va + size ∧ ∃ why, map_pages root va size pa perm s = Done (inr why, s)) ∨
  (va + size ≤ MAXVA ∧ ∃ r s' live' own' k,
    map_pages root va size pa perm s = Done (r, s') ∧
    pinv s' live' own' ∧ grows live live' own own' ∧ frs s' = frs s ∧
    0 ≤ k ≤ npages va size ∧ mapped s s' own root (floor va) pa perm k ∧
    match r with
    | inl _ => k = npages va size
    | inr why => k < npages va size ∧
        (why = "remap"%string ∧ is_Some (tr s root (floor va + k)) ∨
         why = enough_err ∧ heap_exhausted)
    end).
Proof.
  intros Hs Hr Hp Hva Hsz Hov Hpa Hpal Hpb.
  destruct (Z.lt_ge_cases MAXVA (va + size)) as [Hgt|Hle].
  - left. split; [done|]. eexists. unfold map_pages.
    rewrite (bind_run _ _ _ (va + size) s) by (unfold lift; by rewrite add_chk_ok by lia).
    unfold VirtAddr_try_from. by rewrite (proj2 (Z.ltb_lt _ _)) by done.
  - right. split; [done|]. by apply map_pages_run.
Qed.

(** A machine with one static, empty tree satisfies the invariant. *)
Lemma pinv_boot (h : H) root :
  ph_inv h ∅ → ¬ ph_addr root →
  pinv {| hp := h; tabs := {[root := table_empty]}; frs := ∅ |} ∅ {[root := (root, [])]}.
Proof.
  intros Hh Hn. split; cbn [tabs frs hp].
  - done.
  - split.
    + intros a [x Hx]. apply lookup_singleton_Some in Hx as [<- _]. rewrite lookup_singleton_eq. eauto.
    + intros a r p Ha. apply lookup_singleton_Some in Ha as [_ [= _ <-]]. cbn. lia.
    + intros a r p Ha. apply lookup_singleton_Some in Ha as [-> [= -> _]]. apply lookup_singleton_eq.
    + intros a r Ha. apply lookup_singleton_Some in Ha as [-> [= -> ]]. done.
    + intros a r p Ha. apply lookup_singleton_Some in Ha as [-> _]. rewrite lookup_singleton_eq.
      eexists. split; [done|]. apply length_replicate.
    + intros a r p es i e _ Ht Hi Hv. apply lookup_singleton_Some in Ht as [-> <-].
      apply table_empty_lookup in Hi. congruence.
    + intros a r p es i e _ Ht Hi Hv. apply lookup_singleton_Some in Ht as [-> <-].
      apply table_empty_lookup in Hi. congruence.
    + intros a r p i Ha. apply lookup_singleton_Some in Ha as [_ [= _ E]]. by destruct p.
  - intros a [[x Ha]|[x Ha]]; [|done]. apply lookup_singleton_Some in Ha as [<- _]. by right.
  - done.
Qed.
End specs.

(** ** A page source for the examples: consecutive pages, never reused *)
Module Bump.
Definition base : Z := KERNBASE.
#[export] Instance bump : PageHeap Z := {
  ph_alloc := λ h, if h <=? PHYSTOP then Done (Some h, h + PAGE_SIZE) else Done (None, h);
  ph_free := λ _ h, Done (tt, h);
  ph_inv h live := base ≤ h ∧ h `mod` PAGE_SIZE = 0 ∧
    ∀ p, p ∈ live → base ≤ p < h ∧ p ≤ PHYSTOP ∧ p `mod` PAGE_SIZE = 0;
  ph_addr p := base ≤ p ≤ PHYSTOP ∧ p `mod` PAGE_SIZE = 0;
}.
#[export] Instance bump_laws : PageHeapLaws Z.
Proof.
  split; cbn.
  - intros p [? ?]. unfold base, KERNBASE in *. split; [lia|done].
  - intros h live p (_ & _ & Hl) [? ?]%Hl. split; [lia|tauto].
  - intros h live (Hb & Hm & Hl). destruct (Z.leb_spec h PHYSTOP).
    + left. exists h, (h + PAGE_SIZE). split; [done|]. split; [done|]. split; [intros [? _]%Hl; lia|].
      unfold PAGE_SIZE in *. split; [lia|]. split; [dlia|].
      intros p [->%elem_of_singleton|Hp]%elem_of_union; [lia|]. apply Hl in Hp. lia.
    + right. exists h. done.
  - intros h live p (Hb & Hm & Hl) Hp. exists h. split; [done|]. split; [done|]. split; [done|].
    intros q [Hq _]%elem_of_difference. by apply Hl.
Qed.

Definition root0 : Z := 0x1000.
Definition boot : pmem Z := {| hp := base; tabs := {[root0 := table_empty]}; frs := ∅ |}.
Lemma bump_ok : pinv boot ∅ {[root0 := (root0, [])]}.
Proof.
  apply pinv_boot; cbn; [|unfold base, KERNBASE, root0; lia].
  split; [done|]. split; [done|]. intros p Hp. by apply elem_of_empty in Hp.
Qed.
End Bump.
Import Bump.

Lemma map_pages_correct_witness :
  ∃ r s' live' own' k,
    map_pages Bump.root0 0x1234 0x2000 0x80100000 (Z.lor PTE_R PTE_W) Bump.boot = Done (r, s') ∧
    pinv s' live' own' ∧ r = inl tt ∧ k = 3 ∧
    tr s' Bump.root0 2 = Some (write_perm 0x80101000 (Z.lor PTE_R PTE_W)).
Proof.
  destruct (map_pages_correct (H := Z) Bump.boot ∅ {[Bump.root0 := (Bump.root0, [])]} Bump.root0 0x1234 0x2000
    0x80100000 (Z.lor PTE_R PTE_W)) as [[Hbad _]|[_ (r & s' & l' & o' & k & E & Hs & _ & _ & Hk & Hm & Hr)]].
  - apply Bump.bump_ok.
  - apply lookup_singleton_eq.
  - split; [by vm_compute|reflexivity].
  - lia.
  - lia.
  - reflexivity.
  - lia.
  - reflexivity.
  - by vm_compute.
  - by vm_compute in Hbad.
  - assert (∃ s1, map_pages Bump.root0 0x1234 0x2000 0x80100000 (Z.lor PTE_R PTE_W) Bump.boot
      = Done (inl tt, s1)) as [s1 E1] by (vm_compute; eauto).
    rewrite E in E1. injection E1 as -> ->. exists (inl tt), s1, l', o', k.
    split; [done|]. split; [done|]. split; [done|]. split; [done|].
    destruct (mp_in _ _ _ _ _ _ _ _ Hm 2) as [_ Ht]; [|exact Ht].
    subst k. change (floor 0x1234) with 1. change (npages 0x1234 0x2000) with 3. lia.
Defined.
