(* ===== verification/Uvm.v ===== *)
(** * User address spaces ([kernel/src/mm/pagetable.rs], the [uvm_*] and
    [copy_*] methods; [mm/mod.rs]: [trapframe_from_pid], [Address])

    Kernel memory that is not a page of [pmem] (a slice, a stack buffer) is a
    list of bytes: [copy_out] takes the bytes it copies from, [copy_in] returns
    the bytes it wrote to its destination, also when it fails half way. *)
From S2P Require Import Prelude Consts Addr PageTable.

(** ** Where user stacks and trap frames lie *)
Definition ustack_bottom_by_pos (ustack_base pos : Z) : outcome Z :=
  p ← sub_chk pos 1;
  t ← mul64 p (PAGE_SIZE + USER_STACK_SIZE);
  t ← add64 ustack_base t;
  add64 t PAGE_SIZE.

(** [trapframe_from_pid]: [TRAPFRAME.const_sub(pid * 2 pages + 1 page)]. *)
Definition trapframe_from_pid (pid : Z) : outcome Z :=
  t ← mul64 pid (PAGE_SIZE + PAGE_SIZE);
  t ← add64 t PAGE_SIZE;
  sub_chk TRAPFRAME t.

Section ops.
Context {H : Type} `{!PageHeap H}.

Definition PTE_RWU : Z := Z.lor (Z.lor PTE_R PTE_W) PTE_U.
Definition PTE_RWXU : Z := Z.lor (Z.lor (Z.lor PTE_R PTE_W) PTE_X) PTE_U.

(** ** Unmapping *)
Definition uvm_unmap (self va count : Z) (freeing : bool) : M (pmem H) unit :=
  if negb (va `mod` PAGE_SIZE =? 0) then panic "va not page aligned"
  else
    t ← lift (mul64 PGSIZE count);
    t ← lift (add64 va t);
    for_ret (step_by va t PGSIZE) (λ ca,
      o ← find_pte_mut self ca;
      match o with
      | None => mret (Some tt)
      | Some e =>
          pte ← read_pte e;
          if negb (is_valid pte) then mret (Some tt)
          else if negb (is_leaf pte) then panic "this pte is not a leaf"
          else
            (if freeing then from_raw_and_drop (as_phys_addr pte) else mret tt);;
            write_pte e write_zero;;
            mret None
      end);;
    mret tt.

Definition kvm_unmap (self va count : Z) (freeing : bool) : M (pmem H) unit :=
  if negb (va `mod` PAGE_SIZE =? 0) then panic "va not page aligned"
  else
    for_ret (R := unit) (step_by 0 count PAGE_SIZE) (λ i,
      t ← lift (mul64 i PAGE_SIZE);
      t ← lift (add64 va t);
      o ← find_pte_mut self t;
      e ← unwrap o "unable to find va available";
      write_pte e write_zero;;
      mret None);;
    mret tt.

Definition uvm_dealloc (self old_size new_size : Z) : M (pmem H) Z :=
  if old_size <=? new_size then mret old_size
  else
    old_size_aligned ← lift (mm_pg_round_up old_size);
    new_size_aligned ← lift (mm_pg_round_up new_size);
    (if new_size_aligned <? old_size_aligned then
       let count := (old_size_aligned - new_size_aligned) / PAGE_SIZE in
       uvm_unmap self new_size_aligned count true
     else mret tt);;
    mret new_size.

(** ** Growing *)
Definition uvm_alloc (self old_size new_size : Z) : M (pmem H) (Z + unit) :=
  if new_size <=? old_size then mret (inl old_size)
  else
    old_size ← lift (mm_pg_round_up old_size);
    o ← for_ret (step_by old_size new_size PAGE_SIZE) (λ cur_size,
      om ← try_new_zeroed;
      match om with
      | None => uvm_dealloc self cur_size old_size;; mret (Some (inr tt))
      | Some mem =>
          r ← map_pages self cur_size PAGE_SIZE mem PTE_RWXU;
          match r with
          | inr _ =>
              from_raw_and_drop mem;;
              uvm_dealloc self cur_size old_size;;
              mret (Some (inr tt))
          | inl _ => mret None
          end
      end);
    mret (default (inl new_size) o).

Definition uvm_alloc_ustack (self ustack_base pos : Z) : M (pmem H) (Z + string) :=
  if MAX_TASKS_PER_PROC <=? pos then mret (inr "too many tasks"%string)
  else
    ustack_top ← lift (ustack_bottom_by_pos ustack_base pos);
    ustack_bottom ← lift (sub_chk ustack_top USER_STACK_SIZE);
    o ← for_ret (step_by ustack_bottom ustack_top PAGE_SIZE) (λ vaddr,
      om ← try_new_zeroed;
      match om with
      | None => mret (Some (inr "no enough physical memory"%string))
      | Some mem =>
          r ← map_pages self vaddr PAGE_SIZE mem PTE_RWU;
          match r with
          | inr _ => from_raw_and_drop mem;; mret (Some (inr "no enough virtual memory"%string))
          | inl _ => mret None
          end
      end);
    mret (default (inl ustack_top) o).

Definition dealloc_ustack_by_pos (self ustack_base pos : Z) : M (pmem H) unit :=
  ustack_top ← lift (ustack_bottom_by_pos ustack_base pos);
  ustack_bottom ← lift (sub_chk ustack_top USER_STACK_SIZE);
  uvm_unmap self ustack_bottom 4 false.

(** Overwriting part of a page: [ptr::copy] into a frame at offset [off]. *)
Definition poke (off : Z) (src page : list Z) : list Z :=
  list_inserts (Z.to_nat off) src page.

Definition uvm_init (self : Z) (code : list Z) : M (pmem H) unit :=
  if PAGE_SIZE <=? Z.of_nat (length code) then panic "initcode more than a page"
  else
    om ← try_new_zeroed;
    mem ← unwrap om "allocation failed";
    match PhysAddr_try_from mem with
    | inr why => panic why
    | inl pa =>
        r ← map_pages self USERTEXT PAGE_SIZE pa PTE_RWXU;
        match r with
        | inr _ => panic "map_page error"
        | inl _ => page ← read_frame mem; write_frame mem (poke 0 code page)
        end
    end.

Definition uvm_clear (self va : Z) : M (pmem H) unit :=
  match VirtAddr_try_from va with
  | inr why => panic why
  | inl va =>
      o ← find_pte_mut self va;
      e ← unwrap o "cannot find available pte";
      pte ← read_pte e;
      write_pte e (clear_user pte)
  end.

(** ** Copying an address space *)
Definition uvm_copy (self child_pgt size : Z) : M (pmem H) (unit + unit) :=
  o ← for_ret (step_by 0 size PAGE_SIZE) (λ i,
    op ← find_pte self i;
    match op with
    | None => mret (Some (inr tt))
    | Some e =>
        pte ← read_pte e;
        om ← try_clone pte;
        match om with
        | None => mret (Some (inl tt))
        | Some mem =>
            let perm := read_perm pte in
            r ← map_pages child_pgt i PAGE_SIZE mem perm;
            match r with
            | inl _ => mret None
            | inr _ =>
                from_raw_and_drop mem;;
                uvm_unmap child_pgt 0 (i / PAGE_SIZE) true;;
                mret (Some (inr tt))
            end
        end
    end);
  mret (default (inl tt) o).

Definition uvm_copy_ustack (self ustack_base child_pgt : Z) : M (pmem H) (unit + unit) :=
  t ← lift (ustack_bottom_by_pos ustack_base 1);
  ustack_bottom ← lift (sub_chk t USER_STACK_SIZE);
  for_ret (R := unit) (step_by 0 USER_STACK_SIZE PAGE_SIZE) (λ offset,
    va ← lift (add64 ustack_bottom offset);
    oc ← find_pte_create child_pgt va;
    cpte ← unwrap oc "cpte not exist";
    op ← find_pte self va;
    ppte ← unwrap op "ppte not exist";
    p ← read_pte ppte;
    write_pte cpte (copy_from p);;
    mret None);;
  mret (inl tt).

(** ** Copying bytes between the kernel and user memory *)
(** [ptr::copy] to and from a frame. *)
Definition copy_to_frame (pa off : Z) (src : list Z) : M (pmem H) unit :=
  page ← read_frame pa; write_frame pa (poke off src page).
Definition copy_from_frame (pa off n : Z) : M (pmem H) (list Z) :=
  page ← read_frame pa; mret (take (Z.to_nat n) (drop (Z.to_nat off) page)).

Fixpoint copy_out_loop (fuel : nat) (self : Z) (src : list Z) (dst count va : Z)
    : M (pmem H) (unit + unit) :=
  match fuel with
  | O => panic "out of fuel"
  | S fuel =>
      r ← find_pa_mut self va;
      match r with
      | inr _ => panic "no map"
      | inl pa =>
          off ← lift (sub_chk dst va);
          off_from_end ← lift (sub_chk PAGE_SIZE off);
          if count <? off_from_end then
            copy_to_frame pa off (take (Z.to_nat count) src);; mret (inl tt)
          else
            copy_to_frame pa off (take (Z.to_nat off_from_end) src);;
            count ← lift (sub_chk count off_from_end);
            dst ← lift (add64 dst off_from_end);
            va ← lift (add_page va);
            assertM (dst =? va) "assertion `left == right` failed";;
            copy_out_loop fuel self (drop (Z.to_nat off_from_end) src) dst count va
      end
  end.
Definition copy_out (self : Z) (src : list Z) (dst count : Z) : M (pmem H) (unit + unit) :=
  if count =? 0 then mret (inl tt)
  else
    match VirtAddr_try_from dst with
    | inr _ => panic "va error"
    | inl va => copy_out_loop (S (Z.to_nat count)) self src dst count (pg_round_down va)
    end.

(** [copy_in] returns what it wrote to [dst] and its result. *)
Fixpoint copy_in_loop (fuel : nat) (self src count va : Z) (dst : list Z)
    : M (pmem H) (list Z * (unit + unit)) :=
  match fuel with
  | O => panic "out of fuel"
  | S fuel =>
      r ← find_pa self va;
      match r with
      | inr _ => mret (dst, inr tt)
      | inl pa =>
          off ← lift (sub_chk src va);
          off_from_end ← lift (sub_chk PAGE_SIZE off);
          if count <? off_from_end then
            bytes ← copy_from_frame pa off count; mret (dst ++ bytes, inl tt)
          else
            bytes ← copy_from_frame pa off off_from_end;
            count ← lift (sub_chk count off_from_end);
            src ← lift (add64 src off_from_end);
            va ← lift (add_page va);
            assertM (src =? va) "assertion `left == right` failed";;
            copy_in_loop fuel self src count va (dst ++ bytes)
      end
  end.
Definition copy_in (self src count : Z) : M (pmem H) (list Z * (unit + unit)) :=
  match VirtAddr_try_from src with
  | inr why => panic why
  | inl va =>
      let va := pg_round_down va in
      if count =? 0 then
        r ← find_pa self va;
        mret (match r with inl _ => ([], inl tt) | inr _ => ([], inr tt) end)
      else copy_in_loop (S (Z.to_nat count)) self src count va []
  end.

(** The inner loop over the bytes of one page: [Some dst] when the terminator
    was copied. *)
Fixpoint str_bytes (count : nat) (page : list Z) (off : nat) (dst : list Z) (i : nat)
    : list Z * bool :=
  match count with
  | O => (dst, false)
  | S count =>
      let b := nth off page 0 in
      let dst := <[i := b]> dst in
      if b =? 0 then (dst, true) else str_bytes count page (S off) dst (S i)
  end.
Fixpoint copy_in_str_loop (fuel : nat) (self va : Z) (dst : list Z) (i : nat)
    : M (pmem H) (list Z * (unit + string)) :=
  if (length dst <=? i)%nat then mret (dst, inr "copy_in_str: dst not enough space"%string)
  else
    match fuel with
    | O => panic "out of fuel"
    | S fuel =>
        let base := pg_round_down va in
        distance ← lift (VirtAddr_sub va base);
        r ← find_pa self base;
        match r with
        | inr why => mret (dst, inr why)
        | inl pa =>
            let count := Nat.min (Z.to_nat (PAGE_SIZE - distance)) (length dst - i) in
            page ← read_frame pa;
            let '(dst, stop) := str_bytes count page (Z.to_nat distance) dst i in
            if stop then mret (dst, inl tt)
            else
              va ← lift (add_page base);
              copy_in_str_loop fuel self va dst (i + count)
        end
    end.
Definition copy_in_str (self srcva : Z) (dst : list Z) : M (pmem H) (list Z * (unit + string)) :=
  match VirtAddr_try_from srcva with
  | inr why => mret (dst, inr why)
  | inl va => copy_in_str_loop (length dst) self va dst 0
  end.

(** ** A process's page table; [trampoline] is the linker's symbol.  An early
    [?] drops the box, and with it the tables mapped so far. *)
Definition alloc_proc_pagetable (trampoline trapframe usyspage pid : Z)
    : M (pmem H) (option Z) :=
  o ← new_table;
  match o with
  | None => mret None
  | Some pagetable =>
      let map va pa perm (k : M (pmem H) (option Z)) : M (pmem H) (option Z) :=
        match PhysAddr_try_from pa with
        | inr why => panic why
        | inl pa =>
            r ← map_pages pagetable va PAGE_SIZE pa perm;
            match r with
            | inl _ => k
            | inr _ => drop_pagetable pagetable;; mret None
            end
        end in
      map TRAMPOLINE trampoline (Z.lor PTE_R PTE_X)
        (tf ← lift (trapframe_from_pid pid);
         map tf trapframe (Z.lor PTE_R PTE_W)
           (map USYSCALL usyspage (Z.lor PTE_R PTE_U) (mret (Some pagetable))))
  end.

Definition dealloc_proc_pagetable (self proc_size pid : Z) : M (pmem H) unit :=
  uvm_unmap self TRAMPOLINE 1 false;;
  tf ← lift (trapframe_from_pid pid);
  uvm_unmap self tf 1 false;;
  uvm_unmap self USYSCALL 1 false;;
  if 0 <? proc_size then
    t ← lift (mm_pg_round_up proc_size);
    uvm_unmap self 0 (t / PAGE_SIZE) true
  else mret tt.
End ops.

(** ** [Address]: user or kernel memory *)
Inductive Address :=
| Virtual (p : Z)
| Kernel (p : Z)
| KernelMut (p : Z).

Definition isize_max : Z := 2 ^ 63 - 1.
(** Kernel pointers may not leave the 64-bit range either
    ([<*const u8>::offset]). *)
Definition Address_offset (self : Address) (count : Z) : outcome Address :=
  assertO (count <? isize_max) "assertion failed: count < (isize::MAX) as usize";;
  match self with
  | Virtual p => q ← add64 p count; mret (Virtual q)
  | Kernel p => q ← add64 p count; mret (Kernel q)
  | KernelMut p => q ← add64 p count; mret (KernelMut q)
  end.

(** * Single steps *)
Section steps.
Context {H : Type} `{!PageHeap H, !PageHeapLaws H}.
Implicit Types (s : pmem H) (live : gset Z) (own : owners).

Lemma tr_entry s live own root va :
  pinv s live own → is_root own root → 0 ≤ va < 2 ^ 39 →
  match tr s root (floor va) with
  | Some e => is_valid e = true ∧ is_leaf e = true ∧
      ∃ a, find_pte root va s = Done (Some (a, page_num va 0), s) ∧
        find_pte_mut root va s = Done (Some (a, page_num va 0), s) ∧
        own !! a = Some (root, [idx va 2; idx va 1]) ∧
        read_pte (a, page_num va 0) s = Done (e, s)
  | None => ∃ o, find_pte root va s = Done (o, s) ∧ find_pte_mut root va s = Done (o, s) ∧
      match o with
      | Some sl => ∃ e, read_pte sl s = Done (e, s) ∧ is_valid e = false
      | None => True
      end
  end.
Proof.
  intros Hs Hr Hva. destruct (find_pte_tr s live own root va Hs Hr Hva) as (o & E & E' & Ho).
  destruct o as [[a i]|].
  - destruct Ho as (-> & Ha & e & Er & ->). destruct (is_valid e) eqn:Hv.
    + split; [done|]. split; [|eauto].
      destruct (read_pte_run s live own a root _ (page_num va 0) Hs Ha) as (e' & He & Er'); [by apply idx_bound|].
      assert (e' = e) as -> by congruence. apply entry_inv in He as (es & Ht & Hi).
      by eapply (wf_leaf _ _ (pi_wf _ _ _ Hs) a).
    + exists (Some (a, page_num va 0)). split; [done|]. split; [done|]. eauto.
  - rewrite Ho. eauto.
Qed.

(** The user translation of a page, as [find_pa] and [find_pa_mut] give it. *)
Definition user_pa s root n : option Z :=
  e ← tr s root n; if is_user e then Some (as_phys_addr e) else None.

Lemma find_pa_run s live own root va :
  pinv s live own → is_root own root → 0 ≤ va < 2 ^ 39 →
  match user_pa s root (floor va) with
  | Some pa => find_pa root va s = Done (inl pa, s) ∧ find_pa_mut root va s = Done (inl pa, s)
  | None => ∃ why, find_pa root va s = Done (inr why, s) ∧ find_pa_mut root va s = Done (inr why, s)
  end.
Proof.
  intros Hs Hr Hva. pose proof (tr_entry s live own root va Hs Hr Hva) as Ht.
  unfold user_pa, find_pa, find_pa_mut. destruct (tr s root (floor va)) as [e|]; cbn [mbind option_bind].
  - destruct Ht as (Hv & _ & a & E & E' & _ & Er).
    rewrite (bind_run _ _ _ _ _ E), (bind_run _ _ _ _ _ E'), !(bind_run _ _ _ _ _ Er), Hv.
    destruct (is_user e); eauto.
  - destruct Ht as (o & E & E' & Ho). rewrite (bind_run _ _ _ _ _ E), (bind_run _ _ _ _ _ E').
    destruct o as [sl|]; [|eauto]. destruct Ho as (e & Er & Hv).
    rewrite !(bind_run _ _ _ _ _ Er), Hv. eauto.
Qed.

Lemma free_frame_run s live own p :
  pinv s live own → p ∈ live → is_Some (frs s !! p) →
  ∃ s', from_raw_and_drop p s = Done (tt, s') ∧ pinv s' (live ∖ {[p]}) own ∧
    tabs s' = tabs s ∧ frs s' = delete p (frs s).
Proof.
  intros Hs Hp Hf. destruct (ph_free_ok _ _ p (pi_heap _ _ _ Hs) Hp) as (h' & E & Hh).
  eexists. unfold from_raw_and_drop, set_frs, on_heap. run_simpl. cbn [hp]. rewrite E.
  split; [reflexivity|]. split; [split; cbn [hp tabs frs]|done].
  - done.
  - apply Hs.
  - intros a Ha. destruct (decide (a = p)) as [->|Hne].
    + exfalso. rewrite lookup_delete_eq in Ha. destruct Ha as [Ha|[x Hx]]; [|done].
      rewrite (pi_sep _ _ _ Hs p Ha) in Hf. by destruct Hf.
    + rewrite lookup_delete_ne in Ha by done. destruct (pi_dom _ _ _ Hs a Ha); [left|by right].
      apply elem_of_difference. split; [done|]. by intros ->%elem_of_singleton.
  - intros a Ha. apply (pi_sep _ _ _ Hs) in Ha. destruct (decide (a = p)) as [->|].
    + apply lookup_delete_eq.
    + by rewrite lookup_delete_ne.
Qed.

Lemma new_frame_run s live own :
  pinv s live own →
  (∃ p s', try_new_zeroed s = Done (Some p, s') ∧ ph_addr p ∧ (p ∉ live) ∧
     pinv s' ({[p]} ∪ live) own ∧ tabs s' = tabs s ∧ frs s' = <[p := page_zero]> (frs s)) ∨
  (∃ s', try_new_zeroed s = Done (None, s') ∧ heap_exhausted (H := H) ∧ pinv s' live own ∧
     tabs s' = tabs s ∧ frs s' = frs s).
Proof.
  intros Hs. unfold try_new_zeroed, set_frs, on_heap.
  destruct (ph_alloc_ok _ _ (pi_heap _ _ _ Hs)) as [(p & h' & E & Hp & Hn & Hi)|(h' & E & Hi)].
  - left. destruct (fresh_not_owned s live own p Hs Hp Hn) as [Hpo Hpf].
    eexists p, _. run_simpl. rewrite E. split; [reflexivity|]. split; [done|]. split; [done|].
    cbn [hp tabs frs]. split; [split; cbn [hp tabs frs]|done].
    + done.
    + apply Hs.
    + intros a Ha. destruct (decide (a = p)) as [->|]; [left; set_solver|].
      rewrite lookup_insert_ne in Ha by done. destruct (pi_dom _ _ _ Hs a Ha); [left; set_solver|by right].
    + intros a Ha. rewrite lookup_insert_ne; [by apply (pi_sep _ _ _ Hs)|]. intros ->.
      rewrite Hpo in Ha. by destruct Ha.
  - right. eexists. run_simpl. rewrite E. split; [reflexivity|].
    split; [by exists (hp s), live, h'; split; [apply Hs|]|].
    split; [split; [done|apply Hs|apply Hs|apply Hs]|done].
Qed.

(** Clearing a leaf. *)
Lemma clear_slot_run s live own root va a :
  pinv s live own → own !! a = Some (root, [idx va 2; idx va 1]) → 0 ≤ va < 2 ^ 39 →
  ∃ s', write_pte (a, page_num va 0) write_zero s = Done (tt, s') ∧ pinv s' live own ∧
    frs s' = frs s ∧
    ∀ r n, is_root own r → vpn n →
      tr s' r n = if decide (r = root ∧ n = floor va) then None else tr s r n.
Proof.
  intros Hs Ha Hva. destruct (write_slot_tr s live own root va a write_zero Hs Ha Hva)
    as (s' & E & Hs' & Hf & _ & Ht); [done|]. exists s'. done.
Qed.
End steps.

(** * Unmapping *)
Section unmap.
Context {H : Type} `{!PageHeap H, !PageHeapLaws H}.
Implicit Types (s : pmem H) (live : gset Z) (own : owners).

Definition delete_all (ps : list Z) (f : gmap Z (list Z)) : gmap Z (list Z) :=
  foldr delete f ps.

Lemma delete_all_delete ps p f : delete_all ps (delete p f) = delete p (delete_all ps f).
Proof.
  unfold delete_all. induction ps as [|q ps IH]; [done|]. cbn [foldr]. by rewrite IH, delete_delete.
Qed.

Lemma delete_all_ne ps f a : a ∉ ps → delete_all ps f !! a = f !! a.
Proof.
  unfold delete_all. induction ps as [|q ps IH]; intros Ha; [done|].
  apply not_elem_of_cons in Ha as [Hne Ha]. cbn [foldr]. rewrite lookup_delete_ne by done. auto.
Qed.

(** The frames behind the pages from [v] on. *)
Definition backed s root v (ps : list Z) : Prop :=
  ∀ j p, ps !! j = Some p → ∃ e, tr s root (v + Z.of_nat j) = Some e ∧ as_phys_addr e = p.

(** [uvm_unmap] clears the longest mapped prefix of the range. *)
Lemma unmap_loop_run n s live own root va (ps : list Z) (freeing : bool) f :
  pinv s live own → is_root own root → 0 ≤ va → va `mod` PAGE_SIZE = 0 →
  va + Z.of_nat n * PAGE_SIZE ≤ MAXVA →
  (length ps ≤ n)%nat → backed s root (floor va) ps →
  (length ps = n ∨ tr s root (floor va + Z.of_nat (length ps)) = None) →
  (freeing = true → NoDup ps ∧ ∀ p, p ∈ ps → p ∈ live ∧ is_Some (frs s !! p)) →
  f = (λ ca,
      o ← find_pte_mut root ca;
      match o with
      | None => mret (Some tt)
      | Some e =>
          pte ← read_pte e;
          if negb (is_valid pte) then mret (Some tt)
          else if negb (is_leaf pte) then panic "this pte is not a leaf"
          else
            (if freeing then from_raw_and_drop (as_phys_addr pte) else mret tt);;
            write_pte e write_zero;;
            mret None
      end) →
  ∃ o s' live', for_ret (step_by va (va + Z.of_nat n * PAGE_SIZE) PAGE_SIZE) f s = Done (o, s') ∧
    pinv s' live' own ∧
    frs s' = (if freeing then delete_all ps (frs s) else frs s) ∧
    live' = (if freeing then live ∖ list_to_set ps else live) ∧
    ∀ r m, is_root own r → vpn m →
      tr s' r m = if decide (r = root ∧ floor va ≤ m < floor va + Z.of_nat (length ps))
                  then None else tr s r m.
Proof.
  intros Hs Hr Hva Hal Hb Hlen Hps Hend Hfree ->. revert s live va ps Hs Hva Hal Hb Hlen Hps Hend Hfree.
  induction n as [|n IH]; intros s live va ps Hs Hva Hal Hb Hlen Hps Hend Hfree.
  { rewrite step_by_nil by (unfold PAGE_SIZE; lia). destruct ps; [|cbn in Hlen; lia].
    exists None, s, live. split; [done|]. split; [done|]. split; [by destruct freeing|].
    split; [destruct freeing; set_solver|]. intros r m _ _. rewrite decide_False; [done|cbn; lia]. }
  rewrite MAXVA_value in Hb.
  rewrite step_by_cons by (unfold PAGE_SIZE in *; lia). cbn [for_ret].
  assert (0 ≤ va < 2 ^ 39) as Hva' by (unfold PAGE_SIZE in *; lia).
  pose proof (tr_entry s live own root va Hs Hr Hva') as Ht.
  destruct ps as [|p ps].
  { destruct Hend as [?|Hend]; [done|]. cbn [length] in Hend. rewrite Z.add_0_r in Hend. rewrite Hend in Ht.
    destruct Ht as (o & _ & E & Ho). exists (Some tt), s, live.
    split.
    { rewrite (bind_run _ _ _ (Some tt) s); [done|]. rewrite (bind_run _ _ _ _ _ E).
      destruct o as [sl|]; [|done]. destruct Ho as (e & Er & Hv). by rewrite (bind_run _ _ _ _ _ Er), Hv. }
    split; [done|]. split; [by destruct freeing|]. split; [destruct freeing; set_solver|].
    intros r m _ _. rewrite decide_False; [done|cbn; lia]. }
  destruct (Hps 0%nat p) as (e & He & Hpa); [done|]. rewrite Z.add_0_r in He. rewrite He in Ht.
  destruct Ht as (Hv & Hl & a & _ & E & Ha & Er).
  assert (∃ s1 live1, (if freeing then from_raw_and_drop p else mret tt) s = Done (tt, s1) ∧
    pinv s1 live1 own ∧ tabs s1 = tabs s ∧
    frs s1 = (if freeing then delete p (frs s) else frs s) ∧
    live1 = (if freeing then live ∖ {[p]} else live)) as (s1 & l1 & E1 & Hs1 & Ht1 & Hf1 & Hl1).
  { destruct freeing; [|by exists s, live].
    destruct (Hfree eq_refl) as [_ Hp]. destruct (Hp p) as [Hpl Hpf]; [left|].
    destruct (free_frame_run s live own p Hs Hpl Hpf) as (s1 & E1 & Hs1 & Ht1 & Hf1). by exists s1, (live ∖ {[p]}). }
  destruct (clear_slot_run s1 l1 own root va a Hs1 Ha Hva') as (s2 & E2 & Hs2 & Hf2 & Ht2).
  assert (∀ r m, tr s1 r m = tr s r m) as Htr1 by (intros r m; unfold tr; by rewrite Ht1).
  assert (floor (va + PAGE_SIZE) = floor va + 1) as Hfl by (unfold floor, PAGE_SIZE; dlia).
  assert (0 ≤ floor va ∧ floor va + Z.of_nat (S n) ≤ 2 ^ 26) as Hfb by (unfold floor, PAGE_SIZE in *; dlia).
  cbn [length] in Hlen.
  destruct (IH s2 l1 (va + PAGE_SIZE) ps) as (o & s3 & l3 & E3 & Hs3 & Hf3 & Hl3 & Ht3);
    [done|unfold PAGE_SIZE; lia|unfold PAGE_SIZE in *; dlia| |lia| | | |].
  - rewrite MAXVA_value. unfold PAGE_SIZE in *. lia.
  - intros j q Hq. pose proof (lookup_lt_Some _ _ _ Hq).
    destruct (Hps (S j) q Hq) as (e' & He' & Hq'). exists e'. split; [|done]. rewrite Hfl.
    rewrite Ht2, decide_False, Htr1; [|lia|done|unfold vpn; lia]. rewrite <- He'. f_equal. lia.
  - rewrite Hfl. destruct Hend as [Hend|Hend]; [left; cbn in Hend; lia|right].
    rewrite Ht2, decide_False, Htr1; [|lia|done|unfold vpn; lia]. rewrite <- Hend. f_equal. cbn [length]. lia.
  - intros ->. destruct (Hfree eq_refl) as [Hnd Hp]. apply NoDup_cons in Hnd as [Hni Hnd]. split; [done|].
    intros q Hq. assert (q ≠ p) by congruence. destruct (Hp q) as [Hql Hqf]; [by right|].
    rewrite Hf2, Hf1, lookup_delete_ne by done. split; [|done]. rewrite Hl1.
    apply elem_of_difference. split; [done|]. by intros ->%elem_of_singleton.
  - exists o, s3, l3. split; [|split; [done|split; [|split]]].
    + rewrite (bind_run _ _ _ None s2).
      { rewrite <- E3. f_equal. f_equal. lia. }
      rewrite (bind_run _ _ _ _ _ E), (bind_run _ _ _ _ _ Er), Hv, Hl. cbn [negb].
      rewrite Hpa, (bind_run _ _ _ _ _ E1), (bind_run _ _ _ _ _ E2). done.
    + rewrite Hf3, Hf2, Hf1. destruct freeing; [|done]. apply delete_all_delete.
    + rewrite Hl3, Hl1. destruct freeing; [|done]. cbn [list_to_set].
      apply set_eq. intros x. rewrite !elem_of_difference, elem_of_union. tauto.
    + intros r m Hr' Hm. rewrite Ht3, Ht2, Htr1 by done. rewrite Hfl. cbn [length].
      repeat case_decide; done || (exfalso; lia) || (exfalso; naive_solver lia).
Qed.

Lemma uvm_unmap_run s live own root va count (ps : list Z) (freeing : bool) :
  pinv s live own → is_root own root → 0 ≤ va → 0 ≤ count → va `mod` PAGE_SIZE = 0 →
  va + count * PAGE_SIZE ≤ MAXVA → Z.of_nat (length ps) ≤ count → backed s root (floor va) ps →
  (Z.of_nat (length ps) = count ∨ tr s root (floor va + Z.of_nat (length ps)) = None) →
  (freeing = true → NoDup ps ∧ ∀ p, p ∈ ps → p ∈ live ∧ is_Some (frs s !! p)) →
  ∃ s' live', uvm_unmap root va count freeing s = Done (tt, s') ∧ pinv s' live' own ∧
    frs s' = (if freeing then delete_all ps (frs s) else frs s) ∧
    live' = (if freeing then live ∖ list_to_set ps else live) ∧
    ∀ r m, is_root own r → vpn m →
      tr s' r m = if decide (r = root ∧ floor va ≤ m < floor va + Z.of_nat (length ps))
                  then None else tr s r m.
Proof.
  intros Hs Hr Hva Hc Hal Hb Hlen Hps Hend Hfree. pose proof Hb as Hb'. rewrite MAXVA_value in Hb'.
  unfold uvm_unmap. rewrite Hal. cbn [negb Z.eqb].
  rewrite (bind_run _ _ _ (count * PAGE_SIZE) s).
  2: { unfold lift. by rewrite mul_chk_ok, Z.mul_comm by (unfold PAGE_SIZE in *; lia). }
  rewrite (bind_run _ _ _ (va + count * PAGE_SIZE) s).
  2: { unfold lift. by rewrite add_chk_ok by (unfold PAGE_SIZE in *; lia). }
  replace count with (Z.of_nat (Z.to_nat count)) by lia.
  edestruct (unmap_loop_run (Z.to_nat count) s live own root va ps freeing) as (o & s' & l' & E & Hx);
    [done|done|done|done|by rewrite Z2Nat.id|lia|done|destruct Hend; [left; lia|by right]|done|reflexivity|].
  exists s', l'. rewrite (bind_run _ _ _ _ _ E). split; [done|]. exact Hx.
Qed.
End unmap.

(** * Growing an address space page by page

    [extended s0 s v items]: from [s0], the pages from [v] on have been given
    the frames [items] (frame, permission and contents), all of them fresh. *)
Section extend.
Context {H : Type} `{!PageHeap H, !PageHeapLaws H}.
Implicit Types (s : pmem H) (live : gset Z) (own : owners).
Abbreviation item := (Z * (Z * list Z))%type.

Record extended s0 live0 own0 s live own (root v : Z) (items : list item) : Prop := {
  ex_inv : pinv s live own;
  ex_grow : grows live0 (live ∖ list_to_set items.*1) own0 own;
  ex_nodup : NoDup items.*1;
  ex_new p x : (p, x) ∈ items → (p ∉ live0) ∧ p ∈ live ∧ frs s !! p = Some x.2;
  ex_frs : delete_all items.*1 (frs s) = frs s0;
  ex_in j p x : items !! j = Some (p, x) → 0 ≤ p < 2 ^ 56 ∧ p `mod` PAGE_SIZE = 0 ∧ perm_ok x.1 ∧
    tr s0 root (v + Z.of_nat j) = None ∧
    tr s root (v + Z.of_nat j) = Some (write_perm p x.1);
  ex_out r m : is_root own0 r → vpn m → r ≠ root ∨ ¬ v ≤ m < v + Z.of_nat (length items) →
    tr s r m = tr s0 r m;
}.

Lemma extended_nil s0 live0 own0 root v :
  pinv s0 live0 own0 → extended s0 live0 own0 s0 live0 own0 root v [].
Proof.
  intros Hs. split; try done.
  - cbn [fmap list_fmap list_to_set]. rewrite difference_empty_L. apply grows_refl.
  - constructor.
  - intros p x Hx. by apply elem_of_nil in Hx.
Qed.

Lemma npages_one n : npages (n * PAGE_SIZE) PAGE_SIZE = 1.
Proof. unfold npages, floor, PAGE_SIZE. dlia. Qed.

Lemma PA_bound p : ph_addr p → 0 ≤ p ∧ p + PAGE_SIZE ≤ 2 ^ 56 ∧ p `mod` PAGE_SIZE = 0.
Proof.
  intros [Hp Hm]%ph_addr_ok. unfold PHYSTOP, const_add, KERNBASE in Hp. unfold PAGE_SIZE in *. lia.
Qed.

Lemma items_live s0 live0 own0 s live own root v items p :
  extended s0 live0 own0 s live own root v items → p ∈ items.*1 → p ∈ live.
Proof.
  intros Hx ([q x] & -> & Hin)%list_elem_of_fmap. by eapply (ex_new _ _ _ _ _ _ _ _ _ Hx).
Qed.

Lemma grows_frame live0 own0 live own live2 own2 (p : Z) (F : gset Z) :
  grows live0 (live ∖ F) own0 own → grows ({[p]} ∪ live) live2 own own2 →
  (p ∉ live) → (∀ a, a ∈ F → a ∈ live) →
  (∀ a, is_Some (own2 !! a) → a ≠ p) →
  grows live0 (live2 ∖ ({[p]} ∪ F)) own0 own2 ∧ grows live0 ((live2 ∖ {[p]}) ∖ F) own0 own2.
Proof.
  intros [S1 L1 N1] [S2 L2 N2] Hp HF Ho.
  assert (grows live0 (live2 ∖ ({[p]} ∪ F)) own0 own2) as Hg.
  { split; [by etrans| |].
    - intros a. rewrite elem_of_difference, L2, !elem_of_union, elem_of_singleton.
      specialize (L1 a). rewrite elem_of_difference in L1. split.
      + intros [[[->|Hl]|[Hs Hn]] Hna]; [tauto| |].
        * destruct L1 as [L1 _]. destruct L1 as [?|[[x Hx] Hn]]; [tauto|by left|].
          right. split; [|done]. exists x. eapply lookup_weaken; eauto.
        * right. split; [done|]. destruct (own0 !! a) eqn:E; [|done].
          rewrite (lookup_weaken _ _ _ _ E S1) in Hn. done.
      + intros Hl. destruct (own !! a) as [x|] eqn:E.
        * assert (a ∈ live ∧ a ∉ F) as [? ?].
          { apply L1. destruct Hl as [?|[? ?]]; [by left|right]. eauto. }
          split; [tauto|]. intros [->|?]; [done|done].
        * destruct Hl as [Hl|[Hs Hn]].
          -- assert (a ∈ live ∧ a ∉ F) as [? ?] by tauto. split; [tauto|]. intros [->|?]; done.
          -- split; [tauto|]. intros [->|Ha]; [by apply (Ho _ Hs)|].
             destruct (N2 a Hs E) as [Hna _]. apply Hna, elem_of_union. right. auto.
    - intros a Hs Hn. destruct (own !! a) as [x|] eqn:E; [by apply N1; eauto|].
      destruct (N2 a Hs E) as [Hna Hpa]. split; [|done]. intros Hl. apply Hna, elem_of_union. right.
      assert (a ∈ live ∖ F) as Hd by (apply L1; by left). by apply elem_of_difference in Hd as [? _]. }
  split; [done|]. replace ((live2 ∖ {[p]}) ∖ F) with (live2 ∖ ({[p]} ∪ F)); [done|].
  apply set_eq. intros a. rewrite !elem_of_difference, elem_of_union. tauto.
Qed.

(** Mapping one more page at a fresh frame [p]. *)
Lemma extend_step s0 live0 own0 s live own root v items s1 p perm c :
  extended s0 live0 own0 s live own root v items → is_root own0 root →
  0 ≤ v → (v + Z.of_nat (length items) + 1) * PAGE_SIZE ≤ MAXVA → perm_ok perm →
  ph_addr p → (p ∉ live) → pinv s1 ({[p]} ∪ live) own → tabs s1 = tabs s → frs s1 = <[p := c]> (frs s) →
  ∃ r s2 live2 own2,
    map_pages root ((v + Z.of_nat (length items)) * PAGE_SIZE) PAGE_SIZE p perm s1 = Done (r, s2) ∧
    match r with
    | inl _ => extended s0 live0 own0 s2 live2 own2 root v (items ++ [(p, (perm, c))])
    | inr _ => (is_Some (tr s0 root (v + Z.of_nat (length items))) ∨ heap_exhausted (H := H)) ∧
        ∃ s3, from_raw_and_drop p s2 = Done (tt, s3) ∧
          extended s0 live0 own0 s3 (live2 ∖ {[p]}) own2 root v items
    end.
Proof.
  intros Hx Hr Hv Hb Hperm Hpa Hp Hs1 Ht1 Hf1.
  remember (Z.of_nat (length items)) as k eqn:Hkd.
  destruct (PA_bound p Hpa) as (Hpb & Hpb' & Hpal).
  assert (is_root own root) as Hr' by (eapply lookup_weaken; [exact Hr|apply (ex_grow _ _ _ _ _ _ _ _ _ Hx)]).
  assert (p ∉ live0) as Hp0.
  { intros Hl. apply Hp. destruct (ex_grow _ _ _ _ _ _ _ _ _ Hx) as [_ Hlv _].
    assert (p ∈ live ∖ list_to_set items.*1) as Hd by (apply Hlv; by left).
    by apply elem_of_difference in Hd as [? _]. }
  assert (p ∉ items.*1) as Hpi by (intros Hin; by apply Hp; eapply items_live).
  destruct (map_pages_run s1 _ own root ((v + k) * PAGE_SIZE) PAGE_SIZE p perm Hs1 Hr' Hperm)
    as (r & s2 & l2 & o2 & k' & E & Hs2 & Hg & Hf2 & Hk & Hm & Hres).
  { unfold PAGE_SIZE; lia. } { unfold PAGE_SIZE; lia. } { unfold PAGE_SIZE in *; lia. }
  { done. } { done. } { rewrite npages_one. lia. }
  rewrite npages_one in Hres, Hk. rewrite floor_page in Hm, Hres.
  assert (∀ r m, tr s1 r m = tr s r m) as Htr1 by (intros; unfold tr; by rewrite Ht1).
  assert (∀ a, is_Some (o2 !! a) → a ≠ p) as Hop.
  { intros a Ha ->. apply (pi_sep _ _ _ Hs2) in Ha. rewrite Hf2, Hf1, lookup_insert_eq in Ha. done. }
  destruct (grows_frame live0 own0 live own l2 o2 p (list_to_set items.*1)) as [Hg1 Hg2];
    [apply Hx|done|done| |done|].
  { intros a Ha%elem_of_list_to_set. by eapply items_live. }
  assert (∀ a, a ∈ live → a ∈ l2) as Hmono.
  { intros a Ha. apply (gr_live _ _ _ _ Hg). left. apply elem_of_union. by right. }
  assert (p ∈ l2) as Hp2 by (apply (gr_live _ _ _ _ Hg); left; by apply elem_of_union_l, elem_of_singleton).
  assert (∀ r, is_root own0 r → is_root own r) as Hroots.
  { intros r' H'. eapply lookup_weaken; [exact H'|apply (ex_grow _ _ _ _ _ _ _ _ _ Hx)]. }
  assert (vpn (v + k)) as Hvk by (rewrite MAXVA_value in Hb; unfold vpn, PAGE_SIZE in *; lia).
  exists r, s2, l2, o2. split; [done|]. destruct r as [|why].
  - subst k'. split; [done| | | | | |].
    + assert (list_to_set (items ++ [(p, (perm, c))]).*1 = {[p]} ∪ list_to_set items.*1 :> gset Z) as ->; [|done].
      apply set_eq. intros a. rewrite fmap_app, elem_of_union, !elem_of_list_to_set, elem_of_app, elem_of_singleton.
      cbn. rewrite list_elem_of_singleton. tauto.
    + rewrite fmap_app. apply NoDup_app. split; [apply Hx|]. cbn. split; [|apply NoDup_singleton].
      intros a Ha ->%list_elem_of_singleton. done.
    + intros q x [Hq|[= -> ->]%list_elem_of_singleton]%elem_of_app.
      * destruct (ex_new _ _ _ _ _ _ _ _ _ Hx q x Hq) as (? & ? & Hfq).
        split; [done|]. split; [auto|]. rewrite Hf2, Hf1, lookup_insert_ne; [done|].
        intros ->. done.
      * split; [done|]. split; [done|]. rewrite Hf2, Hf1. apply lookup_insert_eq.
    + rewrite fmap_app. cbn. unfold delete_all. rewrite foldr_app. cbn [foldr].
      rewrite Hf2, Hf1, delete_insert_id; [apply Hx|].
      by destruct (fresh_not_owned s live own p (ex_inv _ _ _ _ _ _ _ _ _ Hx) Hpa Hp).
    + intros j q x Hj. apply lookup_snoc_Some in Hj as [[Hlt Hj]|[-> [= <- <-]]].
      * destruct (ex_in _ _ _ _ _ _ _ _ _ Hx j q x Hj) as (? & ? & ? & ? & Htr).
        do 4 (split; [done|]). rewrite (mp_out _ _ _ _ _ _ _ _ Hm), Htr1; [done|done| |right; lia].
        unfold vpn in *. lia.
      * rewrite <- Hkd. split; [unfold PAGE_SIZE in *; lia|]. split; [done|]. split; [done|].
        destruct (mp_in _ _ _ _ _ _ _ _ Hm (v + k)) as [Hn Hs]; [lia|].
        rewrite Htr1, (ex_out _ _ _ _ _ _ _ _ _ Hx) in Hn by (done || lia).
        split; [done|]. by rewrite Z.sub_diag, Z.add_0_r in Hs.
    + intros r m Hr0 Hvm Hne. rewrite length_app in Hne. cbn [length] in Hne.
      rewrite (mp_out _ _ _ _ _ _ _ _ Hm), Htr1.
      * apply (ex_out _ _ _ _ _ _ _ _ _ Hx); [done|done|]. destruct Hne; [by left|right; lia].
      * auto.
      * done.
      * destruct Hne; [by left|right; lia].
  - destruct Hres as [Hk' Hwhy]. assert (k' = 0) as -> by lia.
    split.
    { destruct Hwhy as [[_ Hsome]|[_ ?]]; [left|by right]. rewrite Z.add_0_r in Hsome.
      rewrite Htr1, (ex_out _ _ _ _ _ _ _ _ _ Hx) in Hsome by (done || lia). done. }
    destruct (free_frame_run s2 l2 o2 p Hs2 Hp2) as (s3 & E3 & Hs3 & Ht3 & Hf3).
    { rewrite Hf2, Hf1, lookup_insert_eq. eauto. }
    assert (∀ r m, is_root own0 r → vpn m → tr s3 r m = tr s r m) as Htr3.
    { intros r m Hr0 Hvm. rewrite <- Htr1. unfold tr at 1. rewrite Ht3.
      apply (mp_out _ _ _ _ _ _ _ _ Hm); [auto|done|right; lia]. }
    assert (frs s3 = frs s) as Hf3'.
    { rewrite Hf3, Hf2, Hf1. apply delete_insert_id.
      by destruct (fresh_not_owned s live own p (ex_inv _ _ _ _ _ _ _ _ _ Hx) Hpa Hp). }
    exists s3. split; [done|]. split; [done|done|apply Hx| | | |].
    + intros q x Hq. destruct (ex_new _ _ _ _ _ _ _ _ _ Hx q x Hq) as (? & ? & ?).
      split; [done|]. rewrite Hf3'. split; [|done]. apply elem_of_difference. split; [auto|].
      intros ->%elem_of_singleton. done.
    + rewrite Hf3'. apply Hx.
    + intros j q x Hj. destruct (ex_in _ _ _ _ _ _ _ _ _ Hx j q x Hj) as (? & ? & ? & ? & Htr).
      do 4 (split; [done|]). rewrite Htr3; [done|done|]. pose proof (lookup_lt_Some _ _ _ Hj). unfold vpn in *. lia.
    + intros r m Hr0 Hvm Hne. rewrite Htr3 by done. by apply (ex_out _ _ _ _ _ _ _ _ _ Hx).
Qed.

(** Taking every page back. *)
Lemma rollback s0 live0 own0 s live own root v items :
  extended s0 live0 own0 s live own root v items → is_root own0 root → 0 ≤ v →
  (v + Z.of_nat (length items)) * PAGE_SIZE ≤ MAXVA →
  ∃ s' live', uvm_unmap root (v * PAGE_SIZE) (Z.of_nat (length items)) true s = Done (tt, s') ∧
    pinv s' live' own ∧ frs s' = frs s0 ∧ grows live0 live' own0 own ∧
    ∀ r m, is_root own0 r → vpn m → tr s' r m = tr s0 r m.
Proof.
  intros Hx Hr Hv Hb. pose proof (ex_inv _ _ _ _ _ _ _ _ _ Hx) as Hs.
  assert (∀ r, is_root own0 r → is_root own r) as Hroots.
  { intros r' H'. eapply lookup_weaken; [exact H'|apply (ex_grow _ _ _ _ _ _ _ _ _ Hx)]. }
  destruct (uvm_unmap_run s live own root (v * PAGE_SIZE) (Z.of_nat (length items)) items.*1 true)
    as (s' & l' & E & Hs' & Hf & Hl & Ht).
  - done.
  - auto.
  - unfold PAGE_SIZE; lia.
  - lia.
  - apply Z_mod_mult.
  - lia.
  - rewrite length_fmap. lia.
  - intros j p Hj. rewrite list_lookup_fmap in Hj. destruct (items !! j) as [[q x]|] eqn:Hi; [|done].
    injection Hj as <-. destruct (ex_in _ _ _ _ _ _ _ _ _ Hx j q x Hi) as (Hq1 & Hq2 & Hp & _ & Htr).
    rewrite floor_page. eexists. split; [exact Htr|]. apply as_page_table_write; [done|done|apply Hp].
  - left. by rewrite length_fmap.
  - intros _. split; [apply Hx|]. intros p Hp. split; [by eapply items_live|].
    apply list_elem_of_fmap in Hp as ([q x] & -> & Hin).
    cbn [fst]. destruct (ex_new _ _ _ _ _ _ _ _ _ Hx q x Hin) as (_ & _ & ->). eauto.
  - exists s', l'. split; [done|]. split; [done|]. split; [by rewrite Hf; apply Hx|].
    split; [by rewrite Hl; apply Hx|]. intros r m Hr0 Hvm. rewrite Ht, floor_page, length_fmap by auto.
    case_decide as Hd.
    + destruct Hd as [-> Hm]. destruct (items !! Z.to_nat (m - v)) as [[q x]|] eqn:Hi.
      2: { apply lookup_ge_None in Hi. lia. }
      destruct (ex_in _ _ _ _ _ _ _ _ _ Hx _ q x Hi) as (_ & _ & _ & Hn & _).
      rewrite Z2Nat.id in Hn by lia. by replace (v + (m - v)) with m in Hn by lia.
    + apply (ex_out _ _ _ _ _ _ _ _ _ Hx); [done|done|].
      destruct (decide (r = root)) as [->|]; [right; tauto|by left].
Qed.
End extend.

Section uvm_alloc.
Context {H : Type} `{!PageHeap H, !PageHeapLaws H}.
Implicit Types (s : pmem H) (live : gset Z) (own : owners).

Lemma mm_pg_round_up_value a :
  0 ≤ a ≤ 2 ^ 39 → mm_pg_round_up a = Done ((a + PAGE_SIZE - 1) / PAGE_SIZE * PAGE_SIZE).
Proof.
  intros Ha. unfold mm_pg_round_up. rewrite add_chk_ok by (unfold PAGE_SIZE; lia).
  cbn [mbind outcome_bind mret outcome_ret]. f_equal. change (PAGE_SIZE - 1) with (2 ^ 12 - 1).
  rewrite (land_not_mask 64 12) by lia. change (2 ^ 12) with PAGE_SIZE. f_equal. f_equal. unfold PAGE_SIZE; lia.
Qed.

Lemma round_aligned n : (n * PAGE_SIZE + PAGE_SIZE - 1) / PAGE_SIZE = n.
Proof. unfold PAGE_SIZE. dlia. Qed.

(** The state after a failed attempt: only page tables were added. *)
Definition rolled_back s0 live0 own0 s' : Prop :=
  ∃ live' own', pinv s' live' own' ∧ frs s' = frs s0 ∧ grows live0 live' own0 own' ∧
    ∀ r m, is_root own0 r → vpn m → tr s' r m = tr s0 r m.

Lemma dealloc_rollback s0 live0 own0 s live own root v items :
  extended s0 live0 own0 s live own root v items → is_root own0 root → 0 ≤ v →
  (v + Z.of_nat (length items)) * PAGE_SIZE ≤ MAXVA →
  ∃ z s', uvm_dealloc root ((v + Z.of_nat (length items)) * PAGE_SIZE) (v * PAGE_SIZE) s = Done (z, s') ∧
    rolled_back s0 live0 own0 s'.
Proof.
  intros Hx Hr Hv Hb. unfold uvm_dealloc. destruct items as [|i items].
  - rewrite (proj2 (Z.leb_le _ _)) by (cbn; lia). eexists _, s. split; [done|].
    exists live, own. split; [apply Hx|]. split; [apply (ex_frs _ _ _ _ _ _ _ _ _ Hx)|].
    pose proof (ex_grow _ _ _ _ _ _ _ _ _ Hx) as Hg. cbn [fmap list_fmap list_to_set] in Hg.
    rewrite difference_empty_L in Hg. split; [done|]. intros r m Hr0 Hm.
    apply (ex_out _ _ _ _ _ _ _ _ _ Hx); [done|done|right; cbn; lia].
  - destruct (rollback s0 live0 own0 s live own root v (i :: items) Hx Hr Hv Hb)
      as (s' & l' & E & Hs' & Hf & Hg & Ht).
    remember (Z.of_nat (length (i :: items))) as k eqn:Hk. assert (0 < k) by (cbn in Hk; lia).
    pose proof Hb as Hb'. rewrite MAXVA_value in Hb'.
    rewrite (proj2 (Z.leb_gt _ _)) by (unfold PAGE_SIZE; lia).
    rewrite (bind_run _ _ _ ((v + k) * PAGE_SIZE) s).
    2: { unfold lift. by rewrite mm_pg_round_up_value, round_aligned by (unfold PAGE_SIZE in *; lia). }
    rewrite (bind_run _ _ _ (v * PAGE_SIZE) s).
    2: { unfold lift. by rewrite mm_pg_round_up_value, round_aligned by (unfold PAGE_SIZE in *; lia). }
    rewrite (proj2 (Z.ltb_lt _ _)) by (unfold PAGE_SIZE; lia).
    replace (((v + k) * PAGE_SIZE - v * PAGE_SIZE) / PAGE_SIZE) with k by (unfold PAGE_SIZE; dlia).
    eexists _, s'. rewrite (bind_run _ _ _ _ _ E). split; [done|]. by exists l', own.
Qed.

Definition zero_items (items : list (Z * (Z * list Z))) : Prop :=
  Forall (λ i, i.2 = (PTE_RWXU, page_zero)) items.

Lemma RWXU_ok : perm_ok PTE_RWXU.
Proof. by vm_compute. Qed.

Lemma alloc_loop_run n s0 live0 own0 s live own root v new items f :
  extended s0 live0 own0 s live own root v items → zero_items items → is_root own0 root → 0 ≤ v →
  new ≤ MAXVA → (v + Z.of_nat (length items) + Z.of_nat n) * PAGE_SIZE = pg_round_down (new + PAGE_SIZE - 1) →
  0 ≤ new →
  f = (λ cur_size,
      om ← try_new_zeroed;
      match om with
      | None => uvm_dealloc root cur_size (v * PAGE_SIZE);; mret (Some (inr tt))
      | Some mem =>
          r ← map_pages root cur_size PAGE_SIZE mem PTE_RWXU;
          match r with
          | inr _ =>
              from_raw_and_drop mem;;
              uvm_dealloc root cur_size (v * PAGE_SIZE);;
              mret (Some (inr tt))
          | inl _ => mret None
          end
      end) →
  ∃ o s', for_ret (step_by ((v + Z.of_nat (length items)) * PAGE_SIZE) new PAGE_SIZE) f s = Done (o, s') ∧
    match o with
    | None => ∃ live' own' items', extended s0 live0 own0 s' live' own' root v items' ∧
        zero_items items' ∧ length items' = (length items + n)%nat
    | Some r => r = inr (A := Z) tt ∧ rolled_back s0 live0 own0 s' ∧
        (heap_exhausted (H := H) ∨ ∃ k, Z.of_nat (length items) ≤ k < Z.of_nat (length items + n) ∧
           is_Some (tr s0 root (v + k)))
    end.
Proof.
  intros Hx Hz Hr Hv Hnew Hn Hnew0 ->. rewrite MAXVA_value in Hnew.
  rewrite pg_round_down_spec in Hn by (unfold PAGE_SIZE; lia).
  revert s live own items Hx Hz Hn. induction n as [|n IH]; intros s live own items Hx Hz Hn.
  { rewrite step_by_nil by (unfold PAGE_SIZE in *; dlia). exists None, s. split; [done|].
    exists live, own, items. split; [done|]. split; [done|]. lia. }
  remember (Z.of_nat (length items)) as k eqn:Hk.
  assert ((v + k) * PAGE_SIZE < new) by (unfold PAGE_SIZE in *; dlia).
  assert ((v + k + 1) * PAGE_SIZE ≤ MAXVA) as Hb1 by (rewrite MAXVA_value; unfold PAGE_SIZE in *; dlia).
  assert ((v + k) * PAGE_SIZE ≤ MAXVA) as Hb0 by (unfold PAGE_SIZE in *; lia).
  rewrite step_by_cons by (unfold PAGE_SIZE in *; lia). cbn [for_ret].
  pose proof (ex_inv _ _ _ _ _ _ _ _ _ Hx) as Hs.
  destruct (new_frame_run s live own Hs)
    as [(p & s1 & E1 & Hp & Hpn & Hs1 & Ht1 & Hf1)|(s1 & E1 & Hex & Hs1 & Ht1 & Hf1)].
  2: { assert (extended s0 live0 own0 s1 live own root v items) as Hx1.
       { destruct Hx as [_ ? ? ? ? ? ?]. split; try done; rewrite ?Hf1; try done;
           unfold tr in *; by rewrite ?Ht1. }
       destruct (dealloc_rollback _ _ _ _ _ _ _ _ _ Hx1 Hr Hv) as (z & s2 & E2 & Hrb); [by rewrite <- Hk|].
       exists (Some (inr tt)), s2. split; [|split; [done|split; [done|by left]]].
       rewrite (bind_run _ _ _ (Some (inr tt)) s2); [done|].
       rewrite <- Hk in E2. by rewrite (bind_run _ _ _ _ _ E1), (bind_run _ _ _ _ _ E2). }
  destruct (extend_step _ _ _ _ _ _ _ _ _ s1 p PTE_RWXU page_zero Hx Hr Hv)
    as (r & s2 & l2 & o2 & E2 & Hres); [by rewrite <- Hk|apply RWXU_ok|done..|]. rewrite <- Hk in E2, Hres.
  destruct r as [u|why].
  - destruct (IH s2 l2 o2 _ Hres) as (o & s3 & E3 & Hfin).
    { apply Forall_app. split; [done|]. by constructor. }
    { rewrite length_app. cbn [length]. rewrite <- Hn. f_equal. lia. }
    exists o, s3. split.
    + rewrite (bind_run _ _ _ None s2).
      { rewrite <- E3. f_equal. f_equal. rewrite length_app. cbn [length]. lia. }
      by rewrite (bind_run _ _ _ _ _ E1), (bind_run _ _ _ _ _ E2).
    + rewrite length_app in Hfin. cbn [length] in Hfin. destruct o as [r|].
      * destruct Hfin as (-> & Hrb & Hwhy). split; [done|]. split; [done|].
        destruct Hwhy as [?|(k' & Hk' & ?)]; [by left|right]. exists k'. split; [lia|done].
      * destruct Hfin as (l & o & it & ? & ? & ?). exists l, o, it. split; [done|]. split; [done|]. lia.
  - destruct Hres as (Hwhy & s3 & E3 & Hx3).
    destruct (dealloc_rollback _ _ _ _ _ _ _ _ _ Hx3 Hr Hv) as (z & s4 & E4 & Hrb); [by rewrite <- Hk|].
    rewrite <- Hk in E4. exists (Some (inr tt)), s4. split; [|split; [done|split; [done|]]].
    + rewrite (bind_run _ _ _ (Some (inr tt)) s4); [done|].
      by rewrite (bind_run _ _ _ _ _ E1), (bind_run _ _ _ _ _ E2), (bind_run _ _ _ _ _ E3), (bind_run _ _ _ _ _ E4).
    + destruct Hwhy as [?|?]; [right|by left]. exists k. split; [lia|done].
Qed.

Lemma uvm_alloc_run s live own root old new :
  pinv s live own → is_root own root → 0 ≤ old → new ≤ MAXVA →
  let v := (old + PAGE_SIZE - 1) / PAGE_SIZE in
  (new ≤ old ∧ uvm_alloc root old new s = Done (inl old, s)) ∨
  (old < new ∧ ∃ r s', uvm_alloc root old new s = Done (r, s') ∧
    match r with
    | inl size => size = new ∧ ∃ live' own' items,
        extended s live own s' live' own' root v items ∧ zero_items items ∧
        v + Z.of_nat (length items) = Z.max v ((new + PAGE_SIZE - 1) / PAGE_SIZE)
    | inr _ => rolled_back s live own s' ∧
        (heap_exhausted (H := H) ∨ ∃ n, v ≤ n ∧ n * PAGE_SIZE < new ∧ is_Some (tr s root n))
    end).
Proof.
  intros Hs Hr Hold Hnew v. unfold uvm_alloc.
  destruct (Z.leb_spec new old) as [?|Hlt]; [by left|]. right. split; [done|].
  pose proof Hnew as Hnew'. rewrite MAXVA_value in Hnew'.
  rewrite (bind_run _ _ _ (v * PAGE_SIZE) s).
  2: { unfold lift. by rewrite mm_pg_round_up_value by lia. }
  set (w := (new + PAGE_SIZE - 1) / PAGE_SIZE).
  assert (v ≤ w) as Hvw by (unfold v, w, PAGE_SIZE; dlia).
  edestruct (alloc_loop_run (Z.to_nat (w - v)) s live own s live own root v new []) as (o & s' & E & Hfin).
  - by apply extended_nil.
  - constructor.
  - done.
  - unfold v, PAGE_SIZE. dlia.
  - done.
  - rewrite pg_round_down_spec by (unfold PAGE_SIZE; lia). fold w. f_equal. cbn [length]. lia.
  - lia.
  - reflexivity.
  - cbn [length] in E. rewrite Z.add_0_r in E. rewrite (bind_run _ _ _ _ _ E).
    eexists _, s'. split; [reflexivity|]. destruct o as [r|]; cbn [default].
    + destruct Hfin as (-> & Hrb & Hwhy). split; [done|]. destruct Hwhy as [?|(k & Hk & Hsome)]; [by left|right].
      exists (v + k). split; [lia|]. split; [|done]. cbn [length] in Hk. unfold w, PAGE_SIZE in *. dlia.
    + destruct Hfin as (l & o & items & Hx & Hz & Hlen). split; [done|]. exists l, o, items.
      split; [done|]. split; [done|]. cbn [length] in Hlen. rewrite Hlen. fold w. lia.
Qed.
(** C21. Growing a user address space is all or nothing.  When it succeeds every
    page from the old end to the new one is mapped, with all user permissions,
    to a distinct fresh frame of zeroes, nothing else is translated
    differently and no old frame is touched.  When it fails - the heap is out
    of pages or a page of the range is mapped already - every translation and
    every frame is as before and the only pages kept are page tables. *)
Theorem uvm_alloc_all_or_nothing s live own root old new :
  pinv s live own → is_root own root → 0 ≤ old → new ≤ MAXVA →
  let v := (old + PAGE_SIZE - 1) / PAGE_SIZE in
  (new ≤ old ∧ uvm_alloc root old new s = Done (inl old, s)) ∨
  (old < new ∧ ∃ r s', uvm_alloc root old new s = Done (r, s') ∧
    match r with
    | inl size => size = new ∧ ∃ live' own' items,
        extended s live own s' live' own' root v items ∧ zero_items items ∧
        v + Z.of_nat (length items) = Z.max v ((new + PAGE_SIZE - 1) / PAGE_SIZE)
    | inr _ => rolled_back s live own s' ∧
        (heap_exhausted (H := H) ∨ ∃ n, v ≤ n ∧ n * PAGE_SIZE < new ∧ is_Some (tr s root n))
    end).
Proof. apply uvm_alloc_run. Qed.
End uvm_alloc.

Import Bump.

Lemma uvm_alloc_all_or_nothing_witness :
  ∃ s' live' own' items,
    uvm_alloc Bump.root0 0 0x1800 Bump.boot = Done (inl 0x1800, s') ∧
    extended Bump.boot ∅ {[Bump.root0 := (Bump.root0, [])]} s' live' own' Bump.root0 0 items ∧
    length items = 2%nat.
Proof.
  destruct (uvm_alloc_all_or_nothing (H := Z) Bump.boot ∅ {[Bump.root0 := (Bump.root0, [])]} Bump.root0 0 0x1800)
    as [[Hbad _]|[_ (r & s' & E & Hr)]].
  - apply Bump.bump_ok.
  - apply lookup_singleton_eq.
  - lia.
  - by vm_compute.
  - lia.
  - assert (∃ s1, uvm_alloc Bump.root0 0 0x1800 Bump.boot = Done (inl 0x1800, s1)) as [s1 E1]
      by (vm_compute; eauto).
    rewrite E in E1. injection E1 as -> ->. destruct Hr as (_ & l & o & items & Hx & _ & Hlen).
    exists s1, l, o, items. split; [done|]. split; [exact Hx|].
    change ((0 + PAGE_SIZE - 1) / PAGE_SIZE) with 0 in Hlen.
    change ((0x1800 + PAGE_SIZE - 1) / PAGE_SIZE) with 2 in Hlen. lia.
Defined.

(** * User memory as a byte array *)
Section copy.
Context {H : Type} `{!PageHeap H, !PageHeapLaws H}.
Implicit Types (s : pmem H) (live : gset Z) (own : owners).

(** The byte a user access to [va] reads. *)
Definition ubyte s root va : option Z :=
  pa ← user_pa s root (floor va);
  page ← frs s !! pa;
  page !! Z.to_nat (page_offset va).

(** Page [n] is mapped for the user, to a whole frame. *)
Definition umapped s root n : Prop :=
  ∃ pa page, user_pa s root n = Some pa ∧ frs s !! pa = Some page ∧
    length page = Z.to_nat PAGE_SIZE.

(** No two pages share a frame. *)
Definition unshared s root : Prop :=
  ∀ n n' pa, vpn n → vpn n' → user_pa s root n = Some pa → user_pa s root n' = Some pa → n = n'.

Lemma page_offset_split va : va = floor va * PAGE_SIZE + page_offset va ∧ 0 ≤ page_offset va < PAGE_SIZE.
Proof. rewrite page_offset_mod. unfold floor, PAGE_SIZE. dlia. Qed.

(** [ptr::copy] of [bs] to offset [off] of page [n]. *)
Lemma copy_to_frame_run s live own root n off bs :
  pinv s live own → is_root own root → umapped s root n → unshared s root → vpn n →
  0 ≤ off → off + Z.of_nat (length bs) ≤ PAGE_SIZE →
  ∃ pa s', user_pa s root n = Some pa ∧ copy_to_frame pa off bs s = Done (tt, s') ∧
    pinv s' live own ∧ tabs s' = tabs s ∧ hp s' = hp s ∧
    (∀ m, umapped s root m → umapped s' root m) ∧
    (∀ a, a ≠ pa → frs s' !! a = frs s !! a) ∧
    ∀ va, 0 ≤ va < 2 ^ 39 → ubyte s' root va =
      if decide (n * PAGE_SIZE + off ≤ va < n * PAGE_SIZE + off + Z.of_nat (length bs))
      then bs !! Z.to_nat (va - (n * PAGE_SIZE + off)) else ubyte s root va.
Proof.
  intros Hs Hr (pa & page & Hpa & Hpg & Hlen) Hun Hn Hoff Hend.
  exists pa. eexists. split; [done|]. unfold copy_to_frame, read_frame, write_frame, set_frs.
  run_simpl. rewrite Hpg. split; [reflexivity|]. cbn [tabs hp frs].
  assert (length (poke off bs page) = Z.to_nat PAGE_SIZE) as Hpl by (unfold poke; by rewrite length_inserts).
  split; [split; cbn [tabs hp frs]; [apply Hs|apply Hs| |]|split; [done|split; [done|split; [|split]]]].
  - intros a [Ha|Ha]; apply (pi_dom _ _ _ Hs); [by left|right].
    destruct (decide (pa = a)) as [<-|]; [rewrite Hpg; eauto|]. by rewrite lookup_insert_ne in Ha.
  - intros a Ha. apply (pi_sep _ _ _ Hs) in Ha as Hna. rewrite lookup_insert_ne; [done|]. congruence.
  - intros m (pb & pg & Hpb & Hpgb & Hlb). destruct (decide (pa = pb)) as [->|].
    + exists pb, (poke off bs page). split; [done|]. split; [apply lookup_insert_eq|done].
    + exists pb, pg. split; [done|]. split; [|done]. cbn [frs]. by rewrite lookup_insert_ne.
  - intros a Ha. by rewrite lookup_insert_ne.
  - intros va Hva. destruct (page_offset_split va) as [Hsp Hob].
    unfold ubyte. change (user_pa {| hp := _; tabs := _; frs := _ |} root (floor va)) with (user_pa s root (floor va)).
    cbn [frs]. destruct (user_pa s root (floor va)) as [pb|] eqn:Hpb; cbn [mbind option_bind].
    2: { rewrite decide_False; [done|]. intros Hin. assert (floor va = n) as Hf.
         { unfold floor, PAGE_SIZE in *. dlia. } congruence. }
    destruct (decide (floor va = n)) as [Hf|Hf].
    + rewrite Hf in Hpb. assert (pb = pa) as -> by congruence. rewrite lookup_insert_eq, Hpg.
      cbn [mbind option_bind]. unfold poke. rewrite Hf in Hsp. remember (page_offset va) as po.
      case_decide as Hd.
      * rewrite list_lookup_inserts by lia. f_equal. lia.
      * destruct (decide (po < off)).
        -- rewrite list_lookup_inserts_lt by lia. done.
        -- rewrite list_lookup_inserts_ge by lia. done.
    + rewrite decide_False.
      2: { intros Hin. apply Hf. unfold floor, PAGE_SIZE in *. dlia. }
      rewrite lookup_insert_ne; [done|]. intros ->. apply Hf.
      eapply Hun; [|done|exact Hpb|exact Hpa]. unfold vpn, floor, PAGE_SIZE. dlia.
Qed.

(** The last page [copy_out] and [copy_in] look up: the one after the last
    byte, which is a page of its own when the range ends on a page boundary. *)
Lemma copy_out_loop_run fuel s live own root src dst count :
  pinv s live own → is_root own root → unshared s root →
  0 ≤ dst → 0 < count ∨ dst `mod` PAGE_SIZE = 0 ∧ 0 ≤ count → dst + count < MAXVA → (Z.to_nat count < fuel)%nat →
  count ≤ Z.of_nat (length src) →
  (∀ n, floor dst ≤ n → n * PAGE_SIZE < dst + count → umapped s root n) →
  (umapped s root (floor (dst + count)) →
   ∃ s', copy_out_loop fuel root src dst count (pg_round_down dst) s = Done (inl tt, s') ∧
     pinv s' live own ∧ tabs s' = tabs s ∧ hp s' = hp s ∧
     (∀ m, umapped s root m → umapped s' root m) ∧
     (∀ a, (∀ n, floor dst ≤ n → n * PAGE_SIZE < dst + count → user_pa s root n ≠ Some a) → frs s' !! a = frs s !! a) ∧
     ∀ va, 0 ≤ va < 2 ^ 39 → ubyte s' root va =
       if decide (dst ≤ va < dst + count) then src !! Z.to_nat (va - dst) else ubyte s root va) ∧
  ((dst + count) `mod` PAGE_SIZE = 0 → user_pa s root (floor (dst + count)) = None →
   panics (copy_out_loop fuel root src dst count (pg_round_down dst) s)).
Proof.
  intros Hs Hr Hun Hdst Hc Hb Hfuel Hsrc Hm. rewrite MAXVA_value in Hb.
  revert s src dst count Hs Hun Hdst Hc Hb Hfuel Hsrc Hm.
  induction fuel as [|fuel IH]; intros s src dst count Hs Hun Hdst Hc Hb Hfuel Hsrc Hm; [lia|].
  cbn [copy_out_loop].
  assert (0 ≤ pg_round_down dst < 2 ^ 39 ∧ floor (pg_round_down dst) = floor dst ∧
    pg_round_down dst = floor dst * PAGE_SIZE) as (Hpb & Hpf & Hpd).
  { rewrite pg_round_down_spec by lia. fold (floor dst). rewrite floor_page.
    split; [|done]. unfold floor, PAGE_SIZE. dlia. }
  pose proof (find_pa_run s live own root (pg_round_down dst) Hs Hr Hpb) as Hfind. rewrite Hpf in Hfind.
  destruct (page_offset_split dst) as [Hds Hdo]. remember (page_offset dst) as off eqn:Hoff.
  remember (floor dst) as v eqn:Hv.
  assert (vpn v) as Hvv by (subst v; unfold vpn, floor, PAGE_SIZE; dlia).
  destruct (decide (count = 0)) as [->|Hc0].
  { (* the page after the end *)
    destruct Hc as [Hc|[Hal _]]; [lia|]. rewrite Z.add_0_r. rewrite <- Hv. split.
    - intros (pa & page & Hpa & Hpg & Hlen). rewrite Hpa in Hfind. destruct Hfind as [_ Hfind].
      rewrite (bind_run _ _ _ _ _ Hfind).
      rewrite (bind_run _ _ _ off s) by (unfold lift; rewrite sub_chk_ok by lia; do 2 f_equal; lia).
      rewrite (bind_run _ _ _ (PAGE_SIZE - off) s) by (unfold lift; by rewrite sub_chk_ok by lia).
      rewrite (proj2 (Z.ltb_lt _ _)) by lia.
      destruct (copy_to_frame_run s live own root v off (take (Z.to_nat 0) src))
        as (pa' & s' & Hpa' & E & Hs' & Ht & Hh & Hum & Hfr & Hub); [done|done|by exists pa, page|done|done|lia|rewrite length_take; lia|].
      assert (pa' = pa) as -> by congruence. exists s'. rewrite (bind_run _ _ _ _ _ E). split; [done|].
      do 4 (split; [done|]). split.
      + intros a _. destruct (decide (a = pa)) as [->|]; [|by apply Hfr].
        unfold copy_to_frame, read_frame, write_frame, set_frs in E. run_simpl in E. rewrite Hpg in E.
        injection E as <-. cbn [frs]. rewrite lookup_insert_eq, Hpg. by f_equal.
      + intros va Hva. rewrite (Hub va Hva). change (Z.to_nat 0) with 0%nat.
        rewrite take_0. cbn [length]. rewrite !decide_False by lia. done.
    - intros _ Hnone. rewrite Hnone in Hfind. destruct Hfind as (why & _ & Hfind).
      rewrite (bind_run _ _ _ _ _ Hfind). by eexists. }
  destruct (Hm v) as (pa & page & Hpa & Hpg & Hlen); [lia|lia|].
  rewrite Hpa in Hfind. destruct Hfind as [_ Hfind]. rewrite !(bind_run _ _ _ _ _ Hfind).
  rewrite !(bind_run _ _ _ off s) by (unfold lift; rewrite sub_chk_ok by lia; do 2 f_equal; lia).
  rewrite !(bind_run _ _ _ (PAGE_SIZE - off) s) by (unfold lift; by rewrite sub_chk_ok by lia).
  destruct (Z.ltb_spec count (PAGE_SIZE - off)) as [Hlast|Hmore].
  { (* the last page *)
    split.
    2: { intros Hmod. exfalso. unfold PAGE_SIZE in *. dlia. }
    intros _. destruct (copy_to_frame_run s live own root v off (take (Z.to_nat count) src))
      as (pa' & s' & Hpa' & E & Hs' & Ht & Hh & Hum & Hfr & Hub);
      [done|done|by exists pa, page|done|done|lia|rewrite length_take; lia|].
    assert (pa' = pa) as -> by congruence. exists s'. rewrite (bind_run _ _ _ _ _ E). split; [done|].
    do 4 (split; [done|]). split.
    - intros a Ha. apply Hfr. intros ->. apply (Ha v); [lia|lia|done].
    - intros va Hva. rewrite (Hub va Hva), length_take, <- Hds, Nat.min_l, Z2Nat.id by lia.
      case_decide; [|done]. rewrite lookup_take_lt by lia. done. }
  destruct (copy_to_frame_run s live own root v off (take (Z.to_nat (PAGE_SIZE - off)) src))
    as (pa' & s' & Hpa' & E & Hs' & Ht & Hh & Hum & Hfr & Hub);
    [done|done|by exists pa, page|done|done|lia|rewrite length_take; lia|].
  assert (pa' = pa) as -> by congruence. rewrite !(bind_run _ _ _ _ _ E).
  set (n1 := PAGE_SIZE - off) in *.
  rewrite !(bind_run _ _ _ (count - n1) s') by (unfold lift; by rewrite sub_chk_ok by lia).
  rewrite !(bind_run _ _ _ (dst + n1) s') by (unfold lift; by rewrite add_chk_ok by (unfold n1, PAGE_SIZE in *; lia)).
  assert (dst + n1 = (v + 1) * PAGE_SIZE) as Hd1 by lia.
  assert (pg_round_down dst + PAGE_SIZE = dst + n1) as Hva1 by lia.
  rewrite !(bind_run _ _ _ (dst + n1) s').
  2: { unfold lift, add_page. rewrite add_chk_ok by (unfold PAGE_SIZE in *; lia). by rewrite Hva1. }
  rewrite Z.eqb_refl. rewrite !(bind_run _ _ _ tt s') by done.
  assert (floor (dst + n1) = v + 1) as Hf1 by (rewrite Hd1; apply floor_page).
  assert (pg_round_down (dst + n1) = dst + n1) as Hr1.
  { rewrite pg_round_down_spec by lia. fold (floor (dst + n1)). rewrite Hf1. lia. }
  assert (∀ n, user_pa s' root n = user_pa s root n) as Hup.
  { intros n. unfold user_pa, tr. by rewrite Ht. }
  destruct (IH s' (drop (Z.to_nat n1) src) (dst + n1) (count - n1)) as [IHok IHbad].
  - done.
  - intros n n' a Hn Hn'. rewrite !Hup. by apply Hun.
  - lia.
  - right. rewrite Hd1. split; [apply Z_mod_mult|lia].
  - lia.
  - lia.
  - rewrite length_drop. lia.
  - rewrite Hf1. intros n Hn1 Hn2. apply Hum, Hm; lia.
  - rewrite Hr1 in IHok, IHbad. replace (dst + n1 + (count - n1)) with (dst + count) in IHok, IHbad by lia.
    rewrite Hup in IHbad. split; [|exact IHbad].
    intros Hl. destruct (IHok (Hum _ Hl)) as (s2 & E2 & Hs2 & Ht2 & Hh2 & Hum2 & Hfr2 & Hub2).
    exists s2. split; [done|]. split; [done|]. split; [congruence|]. split; [congruence|]. split; [auto|]. split.
    + intros a Ha. rewrite Hfr2, Hfr; [done| |].
      * intros ->. apply (Ha v); [lia|lia|done].
      * intros n Hn1 Hn2. rewrite Hup. apply Ha; lia.
    + intros va Hva. rewrite (Hub2 va Hva), (Hub va Hva), length_take, <- Hds, Nat.min_l, Z2Nat.id by lia.
      unfold n1 in *. repeat case_decide; try lia; [| |done].
      * rewrite lookup_drop. f_equal. lia.
      * rewrite lookup_take_lt by lia. done.
Qed.

Lemma copy_in_loop_run fuel s live own root src count dst :
  pinv s live own → is_root own root →
  0 ≤ src → 0 < count ∨ src `mod` PAGE_SIZE = 0 ∧ 0 ≤ count → src + count < MAXVA → (Z.to_nat count < fuel)%nat →
  (∀ n, floor src ≤ n → n * PAGE_SIZE < src + count → umapped s root n) →
  ∃ bytes, length bytes = Z.to_nat count ∧
    (∀ j, 0 ≤ j < count → bytes !! Z.to_nat j = ubyte s root (src + j)) ∧
    (umapped s root (floor (src + count)) →
      copy_in_loop fuel root src count (pg_round_down src) dst s = Done ((dst ++ bytes, inl tt), s)) ∧
    ((src + count) `mod` PAGE_SIZE = 0 → user_pa s root (floor (src + count)) = None →
      copy_in_loop fuel root src count (pg_round_down src) dst s = Done ((dst ++ bytes, inr tt), s)).
Proof.
  intros Hs Hr Hsrc Hc Hb Hfuel Hm. rewrite MAXVA_value in Hb. revert src dst count Hsrc Hc Hb Hfuel Hm.
  induction fuel as [|fuel IH]; intros src dst count Hsrc Hc Hb Hfuel Hm; [lia|].
  cbn [copy_in_loop].
  assert (0 ≤ pg_round_down src < 2 ^ 39 ∧ floor (pg_round_down src) = floor src ∧
    pg_round_down src = floor src * PAGE_SIZE) as (Hpb & Hpf & Hpd).
  { rewrite pg_round_down_spec by lia. fold (floor src). rewrite floor_page.
    split; [|done]. unfold floor, PAGE_SIZE. dlia. }
  pose proof (find_pa_run s live own root (pg_round_down src) Hs Hr Hpb) as Hfind. rewrite Hpf in Hfind.
  destruct (page_offset_split src) as [Hds Hdo]. remember (page_offset src) as off eqn:Hoff.
  remember (floor src) as v eqn:Hv.
  assert (∀ pa page n, user_pa s root v = Some pa → frs s !! pa = Some page →
    copy_from_frame pa off n s = Done (take (Z.to_nat n) (drop (Z.to_nat off) page), s)) as Hcopy.
  { intros pa page n _ Hpg. unfold copy_from_frame, read_frame. run_simpl. by rewrite Hpg. }
  (* bytes of one page *)
  assert (∀ pa page j n, user_pa s root v = Some pa → frs s !! pa = Some page →
    length page = Z.to_nat PAGE_SIZE → 0 ≤ j < n → off + n ≤ PAGE_SIZE →
    take (Z.to_nat n) (drop (Z.to_nat off) page) !! Z.to_nat j = ubyte s root (src + j)) as Hbyte.
  { intros pa page j n Hpa Hpg Hlen Hj Hn. rewrite lookup_take_lt, lookup_drop by lia.
    unfold ubyte. assert (floor (src + j) = v) as -> by (rewrite Hds; unfold floor, PAGE_SIZE in *; dlia).
    rewrite Hpa. cbn [mbind option_bind]. rewrite Hpg. cbn [mbind option_bind]. f_equal.
    destruct (page_offset_split (src + j)) as [Hs1 Hs2].
    assert (page_offset (src + j) = off + j); [|lia].
    rewrite page_offset_mod, Hds. unfold PAGE_SIZE in *. dlia. }
  destruct (decide (count = 0)) as [->|Hc0].
  { destruct Hc as [Hc|[Hal _]]; [lia|]. rewrite Z.add_0_r, <- Hv. exists [].
    split; [done|]. split; [lia|]. split.
    - intros (pa & page & Hpa & Hpg & Hlen). rewrite Hpa in Hfind. destruct Hfind as [Hfind _].
      rewrite (bind_run _ _ _ _ _ Hfind).
      rewrite (bind_run _ _ _ off s) by (unfold lift; rewrite sub_chk_ok by lia; do 2 f_equal; lia).
      rewrite (bind_run _ _ _ (PAGE_SIZE - off) s) by (unfold lift; by rewrite sub_chk_ok by lia).
      rewrite (proj2 (Z.ltb_lt _ _)) by lia.
      by rewrite (bind_run _ _ _ _ _ (Hcopy _ _ _ Hpa Hpg)).
    - intros _ Hnone. rewrite Hnone in Hfind. destruct Hfind as (why & Hfind & _).
      rewrite (bind_run _ _ _ _ _ Hfind). by rewrite app_nil_r. }
  destruct (Hm v) as (pa & page & Hpa & Hpg & Hlen); [lia|lia|].
  rewrite Hpa in Hfind. destruct Hfind as [Hfind _]. rewrite !(bind_run _ _ _ _ _ Hfind).
  rewrite !(bind_run _ _ _ off s) by (unfold lift; rewrite sub_chk_ok by lia; do 2 f_equal; lia).
  rewrite !(bind_run _ _ _ (PAGE_SIZE - off) s) by (unfold lift; by rewrite sub_chk_ok by lia).
  destruct (Z.ltb_spec count (PAGE_SIZE - off)) as [Hlast|Hmore].
  { exists (take (Z.to_nat count) (drop (Z.to_nat off) page)).
    split; [rewrite length_take, length_drop; lia|]. split.
    - intros j Hj. eapply Hbyte; [done..|lia].
    - rewrite !(bind_run _ _ _ _ _ (Hcopy _ _ _ Hpa Hpg)). split; [done|].
      intros Hmod. exfalso. unfold PAGE_SIZE in *. dlia. }
  rewrite !(bind_run _ _ _ _ _ (Hcopy _ _ _ Hpa Hpg)).
  set (n1 := PAGE_SIZE - off) in *.
  rewrite !(bind_run _ _ _ (count - n1) s) by (unfold lift; by rewrite sub_chk_ok by lia).
  rewrite !(bind_run _ _ _ (src + n1) s) by (unfold lift; by rewrite add_chk_ok by (unfold n1, PAGE_SIZE in *; lia)).
  assert (src + n1 = (v + 1) * PAGE_SIZE) as Hd1 by lia.
  assert (pg_round_down src + PAGE_SIZE = src + n1) as Hva1 by lia.
  rewrite !(bind_run _ _ _ (src + n1) s).
  2: { unfold lift, add_page. rewrite add_chk_ok by (unfold PAGE_SIZE in *; lia). by rewrite Hva1. }
  rewrite Z.eqb_refl. rewrite !(bind_run _ _ _ tt s) by done.
  assert (floor (src + n1) = v + 1) as Hf1 by (rewrite Hd1; apply floor_page).
  assert (pg_round_down (src + n1) = src + n1) as Hr1.
  { rewrite pg_round_down_spec by lia. fold (floor (src + n1)). rewrite Hf1. lia. }
  destruct (IH (src + n1) (dst ++ take (Z.to_nat n1) (drop (Z.to_nat off) page)) (count - n1))
    as (bytes & Hbl & Hbj & IHok & IHbad); [lia| |lia|lia| |].
  { right. rewrite Hd1. split; [apply Z_mod_mult|lia]. }
  { rewrite Hf1. intros n Hn1 Hn2. apply Hm; lia. }
  rewrite Hr1 in IHok, IHbad. replace (src + n1 + (count - n1)) with (src + count) in IHok, IHbad by lia.
  assert (length (take (Z.to_nat n1) (drop (Z.to_nat off) page)) = Z.to_nat n1) as Hl1.
  { rewrite length_take, length_drop. lia. }
  exists (take (Z.to_nat n1) (drop (Z.to_nat off) page) ++ bytes). rewrite !app_assoc.
  split; [rewrite length_app; lia|]. split; [|done].
  intros j Hj. destruct (decide (j < n1)).
  - rewrite lookup_app_l by lia. eapply Hbyte; [done..|lia|lia].
  - rewrite lookup_app_r by lia. rewrite Hl1. replace (Z.to_nat j - Z.to_nat n1)%nat with (Z.to_nat (j - n1)) by lia.
    rewrite Hbj by lia. f_equal. lia.
Qed.

(** C40. [copy_out] writes exactly the bytes asked for: in an address space whose
    pages do not share frames, with every page up to and including the one
    after the last byte mapped for the user, afterwards a user read of an
    address in the range gives the source's byte and of any other address what
    it gave before; page tables, heap and all frames outside the range are
    untouched. *)
Theorem copy_out_writes s live own root src dst count :
  pinv s live own → is_root own root → unshared s root →
  0 ≤ dst → 0 < count → dst + count < MAXVA → count ≤ Z.of_nat (length src) →
  (∀ n, floor dst ≤ n ≤ floor (dst + count) → umapped s root n) →
  ∃ s', copy_out root src dst count s = Done (inl tt, s') ∧
    pinv s' live own ∧ tabs s' = tabs s ∧ hp s' = hp s ∧
    (∀ a, (∀ n, floor dst ≤ n → n * PAGE_SIZE < dst + count → user_pa s root n ≠ Some a) → frs s' !! a = frs s !! a) ∧
    ∀ va, 0 ≤ va < 2 ^ 39 → ubyte s' root va =
      if decide (dst ≤ va < dst + count) then src !! Z.to_nat (va - dst) else ubyte s root va.
Proof.
  intros Hs Hr Hun Hd Hc Hb Hsrc Hm. unfold copy_out, VirtAddr_try_from.
  rewrite (proj2 (Z.eqb_neq _ _)), (proj2 (Z.ltb_ge _ _)) by lia.
  destruct (copy_out_loop_run (S (Z.to_nat count)) s live own root src dst count) as [Hok _];
    [done|done|done|done|by left|done|lia|done| |].
  { intros n Hn1 Hn2. apply Hm. unfold floor, PAGE_SIZE in *. dlia. }
  destruct Hok as (s' & E & Hs' & Ht & Hh & _ & Hx); [apply Hm; unfold floor, PAGE_SIZE; dlia|].
  by exists s'.
Qed.

(** What [copy_out] wrote, [copy_in] reads back. *)
Theorem copy_out_copy_in s live own root src dst count :
  pinv s live own → is_root own root → unshared s root →
  0 ≤ dst → 0 < count → dst + count < MAXVA → count = Z.of_nat (length src) →
  (∀ n, floor dst ≤ n ≤ floor (dst + count) → umapped s root n) →
  ∃ s', copy_out root src dst count s = Done (inl tt, s') ∧
    copy_in root dst count s' = Done ((src, inl tt), s').
Proof.
  intros Hs Hr Hun Hd Hc Hb Hsrc Hm. unfold copy_out, copy_in, VirtAddr_try_from.
  rewrite (proj2 (Z.eqb_neq _ _)), (proj2 (Z.ltb_ge _ _)) by lia.
  destruct (copy_out_loop_run (S (Z.to_nat count)) s live own root src dst count) as [Hok _];
    [done|done|done|done|by left|done|lia|lia| |].
  { intros n Hn1 Hn2. apply Hm. unfold floor, PAGE_SIZE in *. dlia. }
  destruct Hok as (s' & E & Hs' & Ht & Hh & Hum & Hfr & Hub); [apply Hm; unfold floor, PAGE_SIZE; dlia|].
  exists s'. split; [done|].
  destruct (copy_in_loop_run (S (Z.to_nat count)) s' live own root dst count []) as (bytes & Hbl & Hbj & Hok & _);
    [done|done|done|by left|done|lia| |].
  { intros n Hn1 Hn2. apply Hum, Hm. unfold floor, PAGE_SIZE in *. dlia. }
  rewrite Hok by (apply Hum, Hm; unfold floor, PAGE_SIZE; dlia). cbn [app].
  assert (bytes = src) as ->; [|done].
  apply list_eq. intros j. destruct (decide (j < length src)%nat).
  - replace j with (Z.to_nat (Z.of_nat j)) by lia. rewrite Hbj by lia.
    rewrite Hub, decide_True by (rewrite ?MAXVA_value in Hb; lia). f_equal. lia.
  - rewrite !lookup_ge_None_2 by lia. done.
Qed.

(** The page after the last byte is looked up even when no byte of it is
    needed: for a range that ends on a page boundary, with every page of the
    range mapped but not the next one, [copy_out] panics the kernel and
    [copy_in] reports an error although it has copied every byte. *)
Theorem copy_at_page_end s live own root src dst count :
  pinv s live own → is_root own root → unshared s root →
  0 ≤ dst → 0 < count → dst + count < MAXVA → count ≤ Z.of_nat (length src) →
  (dst + count) `mod` PAGE_SIZE = 0 →
  (∀ n, floor dst ≤ n < floor (dst + count) → umapped s root n) →
  user_pa s root (floor (dst + count)) = None →
  panics (copy_out root src dst count s) ∧
  ∃ bytes, copy_in root dst count s = Done ((bytes, inr tt), s) ∧ length bytes = Z.to_nat count.
Proof.
  intros Hs Hr Hun Hd Hc Hb Hsrc Hal Hm Hnone.
  assert (∀ n, floor dst ≤ n → n * PAGE_SIZE < dst + count → umapped s root n) as Hm'.
  { intros n Hn1 Hn2. apply Hm. unfold floor, PAGE_SIZE in *. dlia. }
  unfold copy_out, copy_in, VirtAddr_try_from.
  rewrite (proj2 (Z.eqb_neq _ _)), (proj2 (Z.ltb_ge _ _)) by lia. split.
  - destruct (copy_out_loop_run (S (Z.to_nat count)) s live own root src dst count) as [_ Hbad];
      [done|done|done|done|by left|done|lia|done|done|]. by apply Hbad.
  - destruct (copy_in_loop_run (S (Z.to_nat count)) s live own root dst count []) as (bytes & Hbl & _ & _ & Hbad);
      [done|done|done|by left|done|lia|done|].
    exists bytes. split; [by apply Hbad|done].
Qed.
End copy.

(** ** A process with [n] pages, from an empty address space *)
Lemma RWXU_user pa : 0 ≤ pa < 2 ^ 56 → pa `mod` PAGE_SIZE = 0 →
  is_user (write_perm pa PTE_RWXU) = true ∧ as_phys_addr (write_perm pa PTE_RWXU) = pa.
Proof.
  intros Hp Ha. split.
  - rewrite is_user_bit, write_perm_bit by (done || lia). done.
  - by apply as_page_table_write.
Qed.

Lemma fresh_user n s' : 0 < n → n * PAGE_SIZE ≤ MAXVA →
  uvm_alloc Bump.root0 0 (n * PAGE_SIZE) Bump.boot = Done (inl (n * PAGE_SIZE), s') →
  ∃ live own, pinv s' live own ∧ is_root own Bump.root0 ∧ unshared s' Bump.root0 ∧
    (∀ m, 0 ≤ m < n → umapped s' Bump.root0 m) ∧ (∀ m, vpn m → ¬ 0 ≤ m < n → user_pa s' Bump.root0 m = None).
Proof.
  intros Hn Hmax E. assert (is_root ({[Bump.root0 := (Bump.root0, [])]} : owners) Bump.root0) as Hroot by apply lookup_singleton_eq.
  destruct (uvm_alloc_run (H := Z) Bump.boot ∅ {[Bump.root0 := (Bump.root0, [])]} Bump.root0 0 (n * PAGE_SIZE))
    as [[Hbad _]|[_ (r & s1 & E1 & Hr)]]; [apply Bump.bump_ok|done|lia|done|unfold PAGE_SIZE in *; lia|].
  rewrite E in E1. injection E1 as <- <-. destruct Hr as (_ & live & own & items & Hx & Hz & Hlen).
  change ((0 + PAGE_SIZE - 1) / PAGE_SIZE) with 0 in Hlen, Hx.
  replace ((n * PAGE_SIZE + PAGE_SIZE - 1) / PAGE_SIZE) with n in Hlen by (unfold PAGE_SIZE; dlia).
  assert (∀ m, 0 ≤ m < n → ∃ p, items !! Z.to_nat m = Some (p, (PTE_RWXU, page_zero)) ∧ user_pa s' Bump.root0 m = Some p ∧
    frs s' !! p = Some page_zero) as Hin.
  { intros m Hm. destruct (lookup_lt_is_Some_2 items (Z.to_nat m)) as [[p x] Hi]; [lia|].
    pose proof (Forall_lookup_1 _ _ _ _ Hz Hi) as Ex. cbn in Ex. subst x. exists p. split; [done|].
    destruct (ex_in _ _ _ _ _ _ _ _ _ Hx _ _ _ Hi) as (Hp & Hal & _ & _ & Ht).
    destruct (RWXU_user p Hp Hal) as [Hu Hpa]. split.
    - unfold user_pa. rewrite Z.add_0_l, Z2Nat.id in Ht by lia. rewrite Ht. cbn [mbind option_bind fst]. by rewrite Hu, Hpa.
    - by apply (ex_new _ _ _ _ _ _ _ _ _ Hx p (PTE_RWXU, page_zero)), (list_elem_of_lookup_2 _ (Z.to_nat m)). }
  assert (∀ m, vpn m → ¬ 0 ≤ m < n → user_pa s' Bump.root0 m = None) as Hno.
  { intros m Hm Hm2. unfold user_pa. rewrite (ex_out _ _ _ _ _ _ _ _ _ Hx); [|done|done|right; lia].
    unfold tr, mapping. cbn [look Bump.boot tabs].
    change ({[Bump.root0 := table_empty]} !! Bump.root0) with (Some table_empty).
    change (Some table_empty ≫= ?f) with (f table_empty).
    destruct (table_empty !! idx (m * PAGE_SIZE) 2) as [e|] eqn:Ee; [|done].
    cbn [mbind option_bind]. by rewrite (table_empty_lookup _ _ Ee). }
  exists live, own. split; [apply Hx|]. split; [eapply lookup_weaken; [exact Hroot|apply (ex_grow _ _ _ _ _ _ _ _ _ Hx)]|].
  split; [|split; [|exact Hno]].
  - intros m m' pa Hm Hm' H1 H2.
    destruct (decide (0 ≤ m < n)) as [Hc|Hc]; [|by rewrite (Hno m Hm Hc) in H1].
    destruct (decide (0 ≤ m' < n)) as [Hc'|Hc']; [|by rewrite (Hno m' Hm' Hc') in H2].
    destruct (Hin m Hc) as (p & Hp & Hu & _). destruct (Hin m' Hc') as (p' & Hp' & Hu' & _).
    assert (p = p') as <- by congruence.
    assert (Z.to_nat m = Z.to_nat m'); [|lia]. eapply (NoDup_lookup items.*1); [apply (ex_nodup _ _ _ _ _ _ _ _ _ Hx)|..];
      rewrite list_lookup_fmap; by rewrite ?Hp, ?Hp'.
  - intros m Hm. destruct (Hin m Hm) as (p & _ & Hu & Hf). by exists p, page_zero.
Qed.

(** Two pages. *)
Definition user2 : pmem Z :=
  match uvm_alloc Bump.root0 0 0x2000 Bump.boot with Done (_, s) => s | Panic _ => Bump.boot end.

Lemma user2_alloc : uvm_alloc Bump.root0 0 (2 * PAGE_SIZE) Bump.boot = Done (inl (2 * PAGE_SIZE), user2).
Proof. by vm_compute. Qed.
Lemma user2_ok : ∃ live own, pinv user2 live own ∧ is_root own Bump.root0 ∧ unshared user2 Bump.root0.
Proof. destruct (fresh_user 2 user2) as (live & own & ? & ? & ? & _); [done|by vm_compute|apply user2_alloc|]. by exists live, own. Qed.
Lemma user2_mapped n : 0 ≤ n < 2 → umapped user2 Bump.root0 n.
Proof. destruct (fresh_user 2 user2) as (_ & _ & _ & _ & _ & Hm & _); [done|by vm_compute|apply user2_alloc|apply Hm]. Qed.

Lemma copy_out_writes_witness :
  ∃ s', copy_out Bump.root0 [1; 2; 3; 4] 0xffe 4 user2 = Done (inl tt, s') ∧
    ubyte s' Bump.root0 0x1001 = Some 4.
Proof.
  destruct user2_ok as (live & own & Hs & Hr & Hun).
  destruct (copy_out_writes (H := Z) user2 live own Bump.root0 [1; 2; 3; 4] 0xffe 4)
    as (s' & E & _ & _ & _ & _ & Hub).
  - exact Hs.
  - exact Hr.
  - exact Hun.
  - lia.
  - lia.
  - by vm_compute.
  - cbn. lia.
  - intros n Hn. apply user2_mapped. change (floor 0xffe) with 0 in Hn.
    change (floor (0xffe + 4)) with 1 in Hn. lia.
  - exists s'. split; [exact E|]. rewrite Hub; [reflexivity|lia].
Defined.

Lemma copy_out_copy_in_witness :
  ∃ s', copy_out Bump.root0 [1; 2; 3; 4] 0xffe 4 user2 = Done (inl tt, s') ∧
    copy_in Bump.root0 0xffe 4 s' = Done (([1; 2; 3; 4], inl tt), s').
Proof.
  destruct user2_ok as (live & own & Hs & Hr & Hun).
  apply (copy_out_copy_in (H := Z) user2 live own Bump.root0 [1; 2; 3; 4] 0xffe 4).
  - exact Hs.
  - exact Hr.
  - exact Hun.
  - lia.
  - lia.
  - by vm_compute.
  - reflexivity.
  - intros n Hn. apply user2_mapped. change (floor 0xffe) with 0 in Hn.
    change (floor (0xffe + 4)) with 1 in Hn. lia.
Defined.

Lemma copy_at_page_end_witness :
  panics (copy_out Bump.root0 [1; 2; 3; 4] 0x1ffc 4 user2) ∧
  ∃ bytes, copy_in Bump.root0 0x1ffc 4 user2 = Done ((bytes, inr tt), user2) ∧ length bytes = 4%nat.
Proof.
  destruct user2_ok as (live & own & Hs & Hr & Hun).
  apply (copy_at_page_end (H := Z) user2 live own Bump.root0 [1; 2; 3; 4] 0x1ffc 4).
  - exact Hs.
  - exact Hr.
  - exact Hun.
  - lia.
  - lia.
  - by vm_compute.
  - cbn. lia.
  - reflexivity.
  - intros n Hn. apply user2_mapped. change (floor 0x1ffc) with 1 in Hn.
    change (floor (0x1ffc + 4)) with 2 in Hn. lia.
  - by vm_compute.
Defined.

(** * fork: copying an address space *)
Section uvm_copy.
Context {H : Type} `{!PageHeap H, !PageHeapLaws H}.
Implicit Types (s : pmem H) (live : gset Z) (own : owners).

Lemma try_clone_run s live own e page :
  pinv s live own → is_valid e = true → frs s !! as_phys_addr e = Some page →
  (∃ p s', try_clone e s = Done (Some p, s') ∧ ph_addr p ∧ (p ∉ live) ∧
     pinv s' ({[p]} ∪ live) own ∧ tabs s' = tabs s ∧ frs s' = <[p := page]> (frs s)) ∨
  (∃ s', try_clone e s = Done (None, s') ∧ heap_exhausted (H := H) ∧ pinv s' live own ∧
     tabs s' = tabs s ∧ frs s' = frs s).
Proof.
  intros Hs Hv Hpg. unfold try_clone, try_new_uninit, read_frame, write_frame, set_frs, on_heap.
  rewrite Hv. cbn [negb].
  destruct (ph_alloc_ok _ _ (pi_heap _ _ _ Hs)) as [(p & h' & E & Hp & Hn & Hi)|(h' & E & Hi)].
  - left. destruct (fresh_not_owned s live own p Hs Hp Hn) as [Hpo Hpf].
    eexists p, _. run_simpl. rewrite E. cbn [frs]. rewrite Hpg. split; [reflexivity|].
    split; [done|]. split; [done|]. cbn [hp tabs frs]. split; [split; cbn [hp tabs frs]|done].
    + done.
    + apply Hs.
    + intros a Ha. destruct (decide (a = p)) as [->|]; [left; set_solver|].
      rewrite lookup_insert_ne in Ha by done. destruct (pi_dom _ _ _ Hs a Ha); [left; set_solver|by right].
    + intros a Ha. rewrite lookup_insert_ne; [by apply (pi_sep _ _ _ Hs)|]. intros ->.
      rewrite Hpo in Ha. by destruct Ha.
  - right. eexists. run_simpl. rewrite E. split; [reflexivity|].
    split; [by exists (hp s), live, h'; split; [apply Hs|]|].
    split; [split; [done|apply Hs|apply Hs|apply Hs]|done].
Qed.

Lemma read_perm_bound e : 0 ≤ read_perm e < 2 ^ 10.
Proof. unfold read_perm. change PTE_ALL with (Z.ones 10). rewrite Z.land_ones by lia. apply Z.mod_pos_bound. lia. Qed.

Lemma read_perm_ok e : is_leaf e = true → perm_ok (read_perm e).
Proof.
  intros Hl. split; [apply read_perm_bound|]. rewrite is_leaf_bits in Hl |- *. unfold read_perm.
  change PTE_ALL with (Z.ones 10). by rewrite !Z.land_spec, !Z.testbit_ones_nonneg, !andb_true_r by lia.
Qed.

(** The pages of the parent: entry and contents. *)
Definition parent_pages s root (ps : list (Z * list Z)) : Prop :=
  ∀ j e page, ps !! j = Some (e, page) →
    tr s root (Z.of_nat j) = Some e ∧ frs s !! as_phys_addr e = Some page.

(** [items] are copies of the first pages of [ps]. *)
Definition copies (items : list (Z * (Z * list Z))) (ps : list (Z * list Z)) : Prop :=
  items.*2 = (λ x, (read_perm x.1, x.2)) <$> take (length items) ps.

Lemma copy_loop_run n s0 live0 own0 s live own parent child ps items size f :
  extended s0 live0 own0 s live own child 0 items → is_root own0 parent → is_root own0 child →
  parent ≠ child → parent_pages s0 parent ps → copies items ps →
  length ps = (length items + n)%nat → size ≤ MAXVA → 0 ≤ size →
  Z.of_nat (length ps) = (size + PAGE_SIZE - 1) / PAGE_SIZE →
  f = (λ i,
    op ← find_pte parent i;
    match op with
    | None => mret (Some (inr tt))
    | Some e =>
        pte ← read_pte e;
        om ← try_clone pte;
        match om with
        | None => mret (Some (inl tt))
        | Some mem =>
            let perm := read_perm pte in
            r ← map_pages child i PAGE_SIZE mem perm;
            match r with
            | inl _ => mret None
            | inr _ =>
                from_raw_and_drop mem;;
                uvm_unmap child 0 (i / PAGE_SIZE) true;;
                mret (Some (inr tt))
            end
        end
    end) →
  ∃ o s', for_ret (step_by (Z.of_nat (length items) * PAGE_SIZE) size PAGE_SIZE) f s = Done (o, s') ∧
    match o with
    | None => ∃ live' own' items', extended s0 live0 own0 s' live' own' child 0 items' ∧
        copies items' ps ∧ length items' = length ps
    | Some (inl _) => heap_exhausted (H := H) ∧ ∃ live' own' items',
        extended s0 live0 own0 s' live' own' child 0 items' ∧ copies items' ps ∧
        (length items' < length ps)%nat
    | Some (inr _) => rolled_back s0 live0 own0 s' ∧
        (heap_exhausted (H := H) ∨ ∃ k, 0 ≤ k < Z.of_nat (length ps) ∧ is_Some (tr s0 child k))
    end.
Proof.
  intros Hx Hrp Hrc Hne Hps Hcp Hn Hsz Hsz0 Hlen ->. rewrite MAXVA_value in Hsz.
  revert s live own items Hx Hcp Hn. induction n as [|n IH]; intros s live own items Hx Hcp Hn.
  { rewrite step_by_nil by (unfold PAGE_SIZE in *; dlia). exists None, s. split; [done|].
    exists live, own, items. split; [done|]. split; [done|]. lia. }
  remember (Z.of_nat (length items)) as k eqn:Hk.
  assert (k * PAGE_SIZE < size) by (unfold PAGE_SIZE in *; dlia).
  assert ((0 + k + 1) * PAGE_SIZE ≤ MAXVA) as Hb1 by (rewrite MAXVA_value; unfold PAGE_SIZE in *; dlia).
  rewrite step_by_cons by (unfold PAGE_SIZE in *; lia). cbn [for_ret].
  pose proof (ex_inv _ _ _ _ _ _ _ _ _ Hx) as Hs.
  assert (is_root own parent) as Hrp' by (eapply lookup_weaken; [exact Hrp|apply (ex_grow _ _ _ _ _ _ _ _ _ Hx)]).
  destruct (lookup_lt_is_Some_2 ps (length items)) as [[e page] Hj]; [lia|].
  destruct (Hps _ _ _ Hj) as [Htr Hpg]. rewrite <- Hk in Htr.
  assert (0 ≤ k * PAGE_SIZE < 2 ^ 39) as Hkb by (unfold PAGE_SIZE in *; lia).
  pose proof (tr_entry s live own parent (k * PAGE_SIZE) Hs Hrp' Hkb) as Hent.
  rewrite floor_page in Hent. rewrite (ex_out _ _ _ _ _ _ _ _ _ Hx) in Hent;
    [|done|unfold vpn, PAGE_SIZE in *; lia|by left].
  rewrite Htr in Hent. destruct Hent as (Hv & Hl & a & E & _ & Ha & Er).
  assert (as_phys_addr e ∉ items.*1) as Hold.
  { intros ([q x] & Hq & Hin)%list_elem_of_fmap. cbn in Hq.
    pose proof (ex_frs _ _ _ _ _ _ _ _ _ Hx) as Hfr.
    assert (frs s0 !! q = None) as Hnone.
    { rewrite <- Hfr. assert (q ∈ items.*1) as Hqi by (apply list_elem_of_fmap; by exists (q, x)).
      clear -Hqi. induction items.*1 as [|b l IHl]; [by apply elem_of_nil in Hqi|].
      unfold delete_all in *. cbn [foldr]. apply elem_of_cons in Hqi as [->|Hqi]; [apply lookup_delete_eq|].
      destruct (decide (q = b)) as [->|]; [apply lookup_delete_eq|]. rewrite lookup_delete_ne by done. auto. }
    congruence. }
  assert (frs s !! as_phys_addr e = Some page) as Hpg'.
  { rewrite <- Hpg, <- (ex_frs _ _ _ _ _ _ _ _ _ Hx). by rewrite delete_all_ne. }
  destruct (try_clone_run s live own e page Hs Hv Hpg')
    as [(p & s1 & E1 & Hp & Hpn & Hs1 & Ht1 & Hf1)|(s1 & E1 & Hex & Hs1 & Ht1 & Hf1)].
  2: { exists (Some (inl tt)), s1. split.
       - rewrite (bind_run _ _ _ (Some (inl tt)) s1); [done|].
         by rewrite (bind_run _ _ _ _ _ E), (bind_run _ _ _ _ _ Er), (bind_run _ _ _ _ _ E1).
       - split; [done|]. exists live, own, items. split; [|split; [done|lia]].
         destruct Hx as [_ ? ? ? ? ? ?]. split; try done; rewrite ?Hf1; try done; unfold tr in *; by rewrite ?Ht1. }
  destruct (extend_step _ _ _ _ _ _ _ _ _ s1 p (read_perm e) page Hx Hrc)
    as (r & s2 & l2 & o2 & E2 & Hres); [lia|by rewrite <- Hk|by apply read_perm_ok|done..|].
  rewrite <- Hk, Z.add_0_l in E2. rewrite <- Hk, Z.add_0_l in Hres.
  destruct r as [u|why].
  - destruct (IH s2 l2 o2 _ Hres) as (o & s3 & E3 & Hfin).
    { unfold copies. rewrite fmap_app, length_app. cbn [length]. rewrite Nat.add_1_r, (take_S_r _ _ _ Hj), fmap_app.
      cbn. f_equal. exact Hcp. }
    { rewrite length_app. cbn [length]. lia. }
    exists o, s3. split; [|done]. rewrite (bind_run _ _ _ None s2).
    + rewrite <- E3. f_equal. f_equal. rewrite length_app. cbn [length]. lia.
    + by rewrite (bind_run _ _ _ _ _ E), (bind_run _ _ _ _ _ Er), (bind_run _ _ _ _ _ E1), (bind_run _ _ _ _ _ E2).
  - destruct Hres as (Hwhy & s3 & E3 & Hx3).
    destruct (rollback _ _ _ _ _ _ _ _ _ Hx3 Hrc) as (s4 & l4 & E4 & Hs4 & Hf4 & Hg4 & Ht4);
      [lia|rewrite <- Hk; unfold PAGE_SIZE in *; lia|].
    rewrite <- Hk in E4. change (0 * PAGE_SIZE) with 0 in E4.
    exists (Some (inr tt)), s4. split.
    + rewrite (bind_run _ _ _ (Some (inr tt)) s4); [done|].
      rewrite (bind_run _ _ _ _ _ E), (bind_run _ _ _ _ _ Er), (bind_run _ _ _ _ _ E1), (bind_run _ _ _ _ _ E2).
      rewrite (bind_run _ _ _ _ _ E3), Z.div_mul by done. by rewrite (bind_run _ _ _ _ _ E4).
    + split; [by exists l4, o2|]. destruct Hwhy as [?|?]; [right|by left]. exists k. split; [lia|done].
Qed.

End uvm_copy.

(** * New trees *)
Section new_root.
Context {H : Type} `{!PageHeap H, !PageHeapLaws H}.
Implicit Types (s : pmem H) (live : gset Z) (own : owners).

Lemma new_root_wf own t q : wf own t → own !! q = None → wf (<[q := (q, [])]> own) (<[q := table_empty]> t).
Proof.
  intros Hwf Hq.
  assert (∀ b r p, own !! b = Some (r, p) → b ≠ q ∧ r ≠ q) as Hne.
  { intros b r p Hb. split; [congruence|]. pose proof (wf_root _ _ Hwf _ _ _ Hb). congruence. }
  split.
  - intros a Ha. destruct (decide (a = q)) as [->|]; [rewrite lookup_insert_eq; eauto|].
    rewrite lookup_insert_ne by done. rewrite lookup_insert_ne in Ha by done.
    by apply (wf_dom _ _ Hwf).
  - intros a r p [[<- [= <- <-]]|[_ Ha]]%lookup_insert_Some; [cbn; lia|]. by eapply wf_len.
  - intros a r p [[<- [= <- <-]]|[_ Ha]]%lookup_insert_Some; [apply lookup_insert_eq|].
    rewrite lookup_insert_ne; [by eapply wf_root|]. intros ->. by eapply (Hne a r).
  - intros a r [[<- [= <-]]|[_ Ha]]%lookup_insert_Some; [done|]. by eapply wf_nil.
  - intros a r p [[<- _]|[? Ha]]%lookup_insert_Some.
    + rewrite lookup_insert_eq. eexists. split; [done|apply length_replicate].
    + rewrite lookup_insert_ne by done. by eapply wf_tab.
  - intros a r p es i e [[<- _]|[? Ha]]%lookup_insert_Some Ht Hi Hv Hl.
    { rewrite lookup_insert_eq in Ht. injection Ht as <-. apply table_empty_lookup in Hi. congruence. }
    rewrite lookup_insert_ne in Ht by done.
    destruct (wf_child _ _ Hwf a r p es i e) as [? Hc]; [done..|]. split; [done|].
    rewrite lookup_insert_ne; [done|]. intros E. rewrite <- E in Hc. congruence.
  - intros a r p es i e [[<- [= <- <-]]|[? Ha]]%lookup_insert_Some Ht Hi Hv Hl; [done|].
    rewrite lookup_insert_ne in Ht by done. by eapply wf_leaf.
  - intros a r p i [[<- [= _ E]]|[? Ha]]%lookup_insert_Some; [by destruct p|].
    destruct (wf_parent _ _ Hwf _ _ _ _ Ha) as (b & es & e & Hb & Ht & Hx).
    destruct (Hne _ _ _ Hb). exists b, es, e. by rewrite !lookup_insert_ne.
Qed.

Lemma look_insert_other own t q ls pt va r p :
  wf own t → own !! q = None → own !! pt = Some (r, p) → (length p + length ls = 3)%nat →
  (∀ l, l ∈ ls → 0 ≤ l) → look ls (<[q := table_empty]> t) pt va = look ls t pt va.
Proof.
  intros Hwf Hq. revert pt p. induction ls as [|l ls IH]; intros pt p Hpt Hlen Hls; [done|].
  cbn [look]. rewrite lookup_insert_ne by congruence.
  destruct (look_cons _ _ Hwf l ls pt va r p Hpt) as (e & E & _); [apply Hls; left|].
  rewrite E. cbn [mbind option_bind]. destruct (is_valid e) eqn:Hv; [|done].
  destruct ls as [|l' ls]; [done|]. cbn [length] in Hlen. apply (IH _ (p ++ [idx va l])).
  - eapply child_of; [done|done|done|done|lia].
  - rewrite length_app. cbn [length]. lia.
  - intros x Hx. apply Hls. by right.
Qed.

Lemma look_table_empty t q ls va : t !! q = Some table_empty → look ls t q va = None.
Proof.
  intros Hq. destruct ls as [|l ls]; [done|]. cbn [look]. rewrite Hq.
  change (Some table_empty ≫= (.!! idx va l)) with (table_empty !! idx va l).
  destruct (table_empty !! idx va l) as [e|] eqn:E; [|done].
  cbn [mbind option_bind]. by rewrite (table_empty_lookup _ _ E).
Qed.

(** A fresh, empty address space. *)
Lemma new_root_run s live own :
  pinv s live own →
  (∃ q s', new_table s = Done (Some q, s') ∧ ph_addr q ∧ (q ∉ live) ∧ own !! q = None ∧
     pinv s' ({[q]} ∪ live) (<[q := (q, [])]> own) ∧ frs s' = frs s ∧
     (∀ n, tr s' q n = None) ∧ ∀ r n, is_root own r → tr s' r n = tr s r n) ∨
  (∃ s', new_table s = Done (None, s') ∧ heap_exhausted (H := H) ∧
     pinv s' live own ∧ tabs s' = tabs s ∧ frs s' = frs s).
Proof.
  intros Hs. destruct (new_table_run s live own Hs)
    as [(q & s' & E & Hq & Hn & Ht & Hf & Hh)|(s' & E & Hex & Ht & Hf & Hh)].
  - left. destruct (fresh_not_owned s live own q Hs Hq Hn) as [Hqo Hqf].
    exists q, s'. do 4 (split; [done|]). split; [split|split; [done|split]].
    + done.
    + rewrite Ht. by apply new_root_wf; [apply Hs|].
    + rewrite Hf. intros a Ha. destruct (decide (a = q)) as [->|]; [set_solver|].
      rewrite lookup_insert_ne in Ha by done. destruct (pi_dom _ _ _ Hs a Ha); [set_solver|by right].
    + rewrite Hf. intros a Ha. destruct (decide (a = q)) as [->|]; [done|].
      rewrite lookup_insert_ne in Ha by done. by apply (pi_sep _ _ _ Hs).
    + intros n. unfold tr, mapping. apply look_table_empty. rewrite Ht. apply lookup_insert_eq.
    + intros r n Hr. unfold tr, mapping. rewrite Ht.
      eapply look_insert_other; [apply Hs|done|exact Hr|done|exact levels3].
  - right. exists s'. do 2 (split; [done|]). split; [|done].
    split; [done|rewrite Ht; apply Hs|rewrite Hf; apply Hs|rewrite Hf; apply Hs].
Qed.

(** The entry [map_pages] writes translates its page. *)
Lemma map_one s live own root n pa perm :
  pinv s live own → is_root own root → perm_ok perm → vpn n → n * PAGE_SIZE < MAXVA →
  0 ≤ pa → pa `mod` PAGE_SIZE = 0 → pa + PAGE_SIZE ≤ 2 ^ 56 →
  ∃ r s' live' own', map_pages root (n * PAGE_SIZE) PAGE_SIZE pa perm s = Done (r, s') ∧
    pinv s' live' own' ∧ grows live live' own own' ∧ frs s' = frs s ∧
    match r with
    | inl _ => tr s root n = None ∧ ∀ r m, is_root own r → vpn m →
        tr s' r m = if decide (r = root ∧ m = n) then Some (write_perm pa perm) else tr s r m
    | inr _ => (is_Some (tr s root n) ∨ heap_exhausted (H := H)) ∧
        ∀ r m, is_root own r → vpn m → tr s' r m = tr s r m
    end.
Proof.
  intros Hs Hr Hp Hn Hb Hpa Hpal Hpb.
  destruct (map_pages_run s live own root (n * PAGE_SIZE) PAGE_SIZE pa perm Hs Hr Hp)
    as (r & s' & l' & o' & k & E & Hs' & Hg & Hf & Hk & Hm & Hres).
  { unfold vpn, PAGE_SIZE in *; lia. } { unfold PAGE_SIZE; lia. }
  { rewrite MAXVA_value in *. unfold PAGE_SIZE in *. lia. }
  { done. } { done. } { rewrite npages_one. lia. }
  rewrite npages_one in Hres, Hk. rewrite floor_page in Hm, Hres.
  exists r, s', l', o'. do 4 (split; [done|]). destruct r as [u|why].
  - subst k. destruct (mp_in _ _ _ _ _ _ _ _ Hm n) as [Hnone Hsome]; [lia|]. split; [done|].
    intros r m Hr0 Hvm. case_decide as Hd.
    + destruct Hd as [-> ->]. by rewrite Z.sub_diag, Z.add_0_r in Hsome.
    + apply (mp_out _ _ _ _ _ _ _ _ Hm); [done|done|].
      destruct (decide (r = root)) as [->|]; [right|by left]. intros ?. apply Hd. split; [done|lia].
  - destruct Hres as [Hlt Hwhy]. assert (k = 0) as -> by lia. rewrite Z.add_0_r in Hwhy. split; [tauto|].
    intros r m Hr0 Hvm. apply (mp_out _ _ _ _ _ _ _ _ Hm); [done|done|right; lia].
Qed.
End new_root.

(** The child of the example: a second, empty tree next to [user2]. *)
Definition user2_child : pmem Z :=
  match new_table user2 with Done (_, s) => s | Panic _ => user2 end.
Definition child2 : Z :=
  match new_table user2 with Done (Some q, _) => q | _ => 0 end.

Lemma child2_pages : ∃ e0 e1,
  tr user2_child Bump.root0 0 = Some e0 ∧ frs user2_child !! as_phys_addr e0 = Some page_zero ∧
  read_perm e0 = 0x1f ∧ tr user2_child Bump.root0 1 = Some e1 ∧
  frs user2_child !! as_phys_addr e1 = Some page_zero ∧ read_perm e1 = 0x1f.
Proof. eexists _, _. do 5 (split; [vm_compute; reflexivity|]). vm_compute. reflexivity. Qed.
Lemma child2_copied :
  match uvm_copy Bump.root0 child2 0x2000 user2_child with
  | Done (inl tt, s1) => bool_decide (tr s1 child2 1 ≠ None)
  | _ => false
  end = true.
Proof. vm_compute. reflexivity. Qed.
Lemma child2_other : Bump.root0 ≠ child2.
Proof. by vm_compute. Qed.
Lemma child2_new : match new_table user2 with Done (Some _, _) => True | _ => False end.
Proof. vm_compute. exact I. Qed.


(** * The memory of the calling process, as the file layer sees it *)
Class UserMem (U : Type) := {
  um_copy_out : list Z → Z → Z → M U (unit + unit);
  um_copy_in : Z → Z → M U (list Z * (unit + unit));
}.
#[export] Instance uvm_mem {H} `{!PageHeap H} (root : Z) : UserMem (pmem H) | 100 := {
  um_copy_out := copy_out root;
  um_copy_in := copy_in root;
}.
