(* ===== verification/Kvm.v ===== *)
(** * The kernel's address space ([kernel/src/mm/kvm.rs])

    [KERNEL_PAGE_TABLE] is the tree at [kroot], [kernel_table_lock] guards a
    counter of kernel stacks; [etext] and [trampoline] are symbols of the
    linker.  The lock is held for the whole of a mapping call, so a call is one
    step. *)
From S2P Require Import Prelude Consts Addr PageTable Uvm.

Section kvm.
Context {H : Type} `{!PageHeap H}.

Record kvm := { km : pmem H; kstacks : Z }.
Context (kroot etext trampoline : Z).

Definition on_mem {A} (m : M (pmem H) A) : M kvm A := λ s,
  match m (km s) with
  | Done (a, p) => Done (a, {| km := p; kstacks := kstacks s |})
  | Panic why => Panic why
  end.

Definition kvm_map (va pa size perm : Z) : M kvm unit :=
  r ← on_mem (map_pages kroot va size pa perm);
  match r with inr _ => panic "kvm_map" | inl _ => mret tt end.

Definition kvm_task_kstack_map (va pa tid size perm : Z) : M kvm unit :=
  n ← gets kstacks;
  if n <=? tid then
    r ← on_mem (map_pages kroot va size pa perm);
    match r with
    | inr _ => panic "kvm_map"
    | inl _ =>
        n' ← lift (add64 n 1);
        modify (λ s, {| km := km s; kstacks := n' |})
    end
  else mret tt.

Definition PTE_RW : Z := Z.lor PTE_R PTE_W.
Definition PTE_RX : Z := Z.lor PTE_R PTE_X.

Definition kvm_init : M kvm unit :=
  kvm_map UART0 UART0 UART0_MAP_SIZE PTE_RW;;
  kvm_map VIRTIO0 VIRTIO0 VIRTIO0_MAP_SIZE PTE_RW;;
  kvm_map CLINT CLINT CLINT_MAP_SIZE PTE_RW;;
  kvm_map PLIC PLIC PLIC_MAP_SIZE PTE_RW;;
  code ← lift (sub_chk etext KERNBASE);
  kvm_map KERNBASE KERNBASE code PTE_RX;;
  match VirtAddr_try_from etext, PhysAddr_try_from etext with
  | inl va, inl pa =>
      data ← lift (sub_chk KERNEL_HEAP_END etext);
      kvm_map va pa data PTE_RW
  | _, _ => panic "called `Result::unwrap()` on an `Err` value"
  end;;
  kvm_map KERNEL_HEAP_END KERNEL_HEAP_END (PHYSTOP - KERNEL_HEAP_END) PTE_RW;;
  match PhysAddr_try_from trampoline with
  | inl pa => kvm_map TRAMPOLINE pa PAGE_SIZE PTE_RX
  | inr why => panic why
  end.

(** The value written to [satp] by [kvm_init_hart]. *)
Definition kvm_init_hart : Z := as_satp kroot.

Definition kvm_pa (va : Z) : M kvm Z :=
  let off := va `mod` PAGE_SIZE in
  o ← on_mem (find_pte kroot va);
  match o with
  | Some e =>
      pte ← on_mem (read_pte e);
      if negb (is_valid pte) then panic "kvm_pa: mapped pa not valid"
      else lift (add64 (as_phys_addr pte) off)
  | None => panic "kvm_pa: no mapped pa"
  end.
End kvm.
Arguments kvm H : clear implicits.

(** * What the kernel map contains *)
Section layout.
Context {H : Type} `{!PageHeap H, !PageHeapLaws H}.
Context (kroot etext trampoline : Z).
Hypothesis Hetext : KERNBASE ≤ etext ≤ KERNEL_HEAP_END ∧ etext `mod` PAGE_SIZE = 0.
Hypothesis Htramp : 0 ≤ trampoline ≤ PHYSTOP ∧ trampoline `mod` PAGE_SIZE = 0.

(** A region of the map: pages [rg_lo, rg_hi), frame of the first page,
    permission. *)
Record region := { rg_lo : Z; rg_hi : Z; rg_pa : Z; rg_perm : Z }.
Definition identity (va size perm : Z) : region :=
  {| rg_lo := va / PAGE_SIZE; rg_hi := (va + size) / PAGE_SIZE; rg_pa := va; rg_perm := perm |}.

Definition kernel_regions : list region := [
  identity UART0 UART0_MAP_SIZE PTE_RW;
  identity VIRTIO0 VIRTIO0_MAP_SIZE PTE_RW;
  identity CLINT CLINT_MAP_SIZE PTE_RW;
  identity PLIC PLIC_MAP_SIZE PTE_RW;
  identity KERNBASE (etext - KERNBASE) PTE_RX;
  identity etext (KERNEL_HEAP_END - etext) PTE_RW;
  identity KERNEL_HEAP_END (PHYSTOP - KERNEL_HEAP_END) PTE_RW;
  {| rg_lo := TRAMPOLINE / PAGE_SIZE; rg_hi := MAXVA / PAGE_SIZE; rg_pa := trampoline; rg_perm := PTE_RX |}].

Definition region_ok (g : region) : Prop :=
  0 ≤ rg_lo g ≤ rg_hi g ∧ rg_hi g * PAGE_SIZE ≤ MAXVA ∧ 0 ≤ rg_pa g ∧ rg_pa g `mod` PAGE_SIZE = 0 ∧
  rg_pa g + (rg_hi g - rg_lo g) * PAGE_SIZE ≤ 2 ^ 56 ∧ perm_ok (rg_perm g).
Definition in_region (g : region) (n : Z) : Prop := rg_lo g ≤ n < rg_hi g.
#[global] Instance in_region_dec g n : Decision (in_region g n).
Proof. unfold in_region. apply _. Defined.
Definition region_pte (g : region) (n : Z) : Z := write_perm (rg_pa g + (n - rg_lo g) * PAGE_SIZE) (rg_perm g).

(** The regions as one map from pages to entries: the first region wins. *)
Fixpoint regions_map (gs : list region) (n : Z) : option Z :=
  match gs with
  | [] => None
  | g :: gs => if decide (in_region g n) then Some (region_pte g n) else regions_map gs n
  end.
Definition disjoint_from (gs : list region) (g : region) : Prop :=
  ∀ g', g' ∈ gs → rg_hi g' ≤ rg_lo g ∨ rg_hi g ≤ rg_lo g'.

(** The tree at [kroot] holds exactly the regions [gs]. *)
Definition holds (s : kvm H) (gs : list region) : Prop :=
  ∃ live own, pinv (km s) live own ∧ is_root own kroot ∧
    ∀ n, vpn n → tr (km s) kroot n = regions_map gs n.

Lemma regions_map_None gs n : (∀ g, g ∈ gs → ¬ in_region g n) → regions_map gs n = None.
Proof.
  induction gs as [|g gs IH]; intros Hn; [done|]. cbn [regions_map].
  rewrite decide_False by (apply Hn; left). apply IH. intros g' Hg. apply Hn. by right.
Qed.

Lemma kvm_map_run s gs g va size :
  holds s gs → region_ok g → disjoint_from gs g → va = rg_lo g * PAGE_SIZE →
  size = (rg_hi g - rg_lo g) * PAGE_SIZE →
  (∃ s', kvm_map kroot va (rg_pa g) size (rg_perm g) s = Done (tt, s') ∧ holds s' (g :: gs)) ∨
  (panics (kvm_map kroot va (rg_pa g) size (rg_perm g) s) ∧ heap_exhausted (H := H)).
Proof.
  intros (live & own & Hs & Hr & Ht) (Hlo & Hhi & Hpa & Hpal & Hpb & Hperm) Hdis -> ->.
  assert (npages (rg_lo g * PAGE_SIZE) ((rg_hi g - rg_lo g) * PAGE_SIZE) = rg_hi g - rg_lo g) as Hnp.
  { unfold npages. rewrite floor_page. unfold PAGE_SIZE. dlia. }
  destruct (map_pages_run (km s) live own kroot (rg_lo g * PAGE_SIZE) ((rg_hi g - rg_lo g) * PAGE_SIZE)
    (rg_pa g) (rg_perm g) Hs Hr Hperm) as (r & s' & l' & o' & k & E & Hs' & Hg & _ & Hk & Hm & Hres).
  { unfold PAGE_SIZE. lia. } { unfold PAGE_SIZE. lia. } { lia. } { done. } { done. } { by rewrite Hnp. }
  rewrite Hnp in Hres, Hk. rewrite floor_page in Hm, Hres.
  assert (∀ n, in_region g n → regions_map gs n = None) as Hfree.
  { intros n Hn. apply regions_map_None. intros g' Hg' Hin. unfold in_region in *. destruct (Hdis g' Hg'); lia. }
  unfold kvm_map, on_mem. destruct r as [u|why].
  - left. eexists. run_simpl. rewrite E. split; [reflexivity|]. exists l', o'. cbn [km].
    split; [done|]. split; [eapply lookup_weaken; [exact Hr|apply Hg]|].
    intros n Hn. cbn [regions_map]. case_decide as Hin.
    + destruct (mp_in _ _ _ _ _ _ _ _ Hm n) as [_ ->]; [unfold in_region in Hin; lia|done].
    + rewrite (mp_out _ _ _ _ _ _ _ _ Hm); [by apply Ht|done|done|]. right. unfold in_region in Hin. lia.
  - right. split; [run_simpl; rewrite E; by eexists|]. destruct Hres as [Hlt [[_ Hsome]|[_ ?]]]; [|done].
    exfalso. rewrite MAXVA_value in Hhi. rewrite Ht, Hfree in Hsome; [by destruct Hsome|unfold in_region; lia|].
    unfold vpn, PAGE_SIZE in *. lia.
Qed.

(** The regions by page number; [e] is the first page after the code. *)
Definition kernel_pages (e : Z) : list region := [
  {| rg_lo := 0x10000; rg_hi := 0x10001; rg_pa := UART0; rg_perm := PTE_RW |};
  {| rg_lo := 0x10001; rg_hi := 0x10002; rg_pa := VIRTIO0; rg_perm := PTE_RW |};
  {| rg_lo := 0x2000; rg_hi := 0x2010; rg_pa := CLINT; rg_perm := PTE_RW |};
  {| rg_lo := 0xc000; rg_hi := 0xc400; rg_pa := PLIC; rg_perm := PTE_RW |};
  {| rg_lo := 0x80000; rg_hi := e; rg_pa := KERNBASE; rg_perm := PTE_RX |};
  {| rg_lo := e; rg_hi := 0x88000; rg_pa := e * PAGE_SIZE; rg_perm := PTE_RW |};
  {| rg_lo := 0x88000; rg_hi := 0x8c000; rg_pa := KERNEL_HEAP_END; rg_perm := PTE_RW |};
  {| rg_lo := 0x3ffffff; rg_hi := 0x4000000; rg_pa := trampoline; rg_perm := PTE_RX |}].

Lemma etext_page : ∃ e, etext = e * PAGE_SIZE ∧ 0x80000 ≤ e ≤ 0x88000 ∧ kernel_regions = kernel_pages e.
Proof.
  destruct Hetext as [He Hea]. exists (etext / PAGE_SIZE).
  change KERNBASE with (0x80000 * PAGE_SIZE) in He. change KERNEL_HEAP_END with (0x88000 * PAGE_SIZE) in He.
  assert (etext = etext / PAGE_SIZE * PAGE_SIZE) as E by (unfold PAGE_SIZE in *; dlia).
  split; [done|]. split; [unfold PAGE_SIZE in *; dlia|]. unfold kernel_regions, kernel_pages, identity.
  rewrite <- E. replace (KERNBASE + (etext - KERNBASE)) with etext by lia.
  by replace (etext + (KERNEL_HEAP_END - etext)) with KERNEL_HEAP_END by lia.
Qed.

Lemma RW_ok : perm_ok PTE_RW.
Proof. by vm_compute. Qed.
Lemma RX_ok : perm_ok PTE_RX.
Proof. by vm_compute. Qed.

Lemma kernel_pages_ok e g :
  0x80000 ≤ e ≤ 0x88000 → g ∈ kernel_pages e → region_ok g.
Proof.
  destruct Htramp as [Htr Hta]. change PHYSTOP with 0x8c000000 in Htr. intros He.
  unfold kernel_pages, region_ok. rewrite !elem_of_cons, elem_of_nil, MAXVA_value. unfold PAGE_SIZE.
  intros [->|[->|[->|[->|[->|[->|[->|[->|[]]]]]]]]]; cbn [rg_lo rg_hi rg_pa rg_perm];
    (split; [lia|]); (split; [lia|]).
  5: change KERNBASE with 0x80000000.
  5-6: split; [lia|]; split; [dlia|]; split; [lia|]; first [apply RW_ok|apply RX_ok].
  6: { split; [lia|]. split; [done|]. split; [lia|]. apply RX_ok. }
  all: split; [by vm_compute|]; split; [by vm_compute|]; split; [by vm_compute|apply RW_ok].
Qed.

(** The region at position [i] does not meet the ones mapped before it. *)
Lemma kernel_pages_disjoint e i g :
  0x80000 ≤ e ≤ 0x88000 → kernel_pages e !! i = Some g →
  disjoint_from (reverse (take i (kernel_pages e))) g.
Proof.
  intros He Hi g' Hg'. apply elem_of_reverse, elem_of_take in Hg' as (j & Hj & Hlt).
  unfold kernel_pages in Hi, Hj.
  do 8 (destruct i as [|i]; [cbn in Hi; injection Hi as <-; cbn [rg_lo rg_hi];
    do 8 (destruct j as [|j]; [first [lia|cbn in Hj; injection Hj as <-; cbn [rg_lo rg_hi]; lia]|]); lia|]).
  done.
Qed.

Lemma kvm_map_step e i g s :
  0x80000 ≤ e ≤ 0x88000 → kernel_pages e !! i = Some g →
  holds s (reverse (take i (kernel_pages e))) →
  ∀ va size, va = rg_lo g * PAGE_SIZE → size = (rg_hi g - rg_lo g) * PAGE_SIZE →
  (∃ s', kvm_map kroot va (rg_pa g) size (rg_perm g) s = Done (tt, s') ∧
     holds s' (reverse (take (S i) (kernel_pages e)))) ∨
  (panics (kvm_map kroot va (rg_pa g) size (rg_perm g) s) ∧ heap_exhausted (H := H)).
Proof.
  intros He Hi Hs va size Hva Hsize. rewrite (take_S_r _ _ _ Hi), reverse_snoc.
  apply kvm_map_run; [done| |by eapply kernel_pages_disjoint|done|done].
  eapply kernel_pages_ok; [done|]. by eapply list_elem_of_lookup_2.
Qed.

Lemma bind_stop {S A B} (m : M S A) (f : A → M S B) s : panics (m s) → panics ((m ≫= f) s).
Proof. intros Hp. apply bind_panic. by left. Qed.

Lemma kvm_init_run s :
  holds s [] →
  (∃ e s', etext = e * PAGE_SIZE ∧ 0x80000 ≤ e ≤ 0x88000 ∧ kvm_init kroot etext trampoline s = Done (tt, s') ∧
     holds s' (reverse (kernel_pages e))) ∨
  (panics (kvm_init kroot etext trampoline s) ∧ heap_exhausted (H := H)).
Proof.
  intros H0. destruct etext_page as (e & Ee & He & _). unfold kvm_init.
  pose proof (kvm_map_step e 0 _ s He eq_refl H0 UART0 UART0_MAP_SIZE eq_refl eq_refl)
    as [(s1 & E1 & H1)|[Hp Hex]]; [rewrite (bind_run _ _ _ _ _ E1)|right; split; [by apply bind_stop|done]].
  pose proof (kvm_map_step e 1 _ s1 He eq_refl H1 VIRTIO0 VIRTIO0_MAP_SIZE eq_refl eq_refl)
    as [(s2 & E2 & H2)|[Hp Hex]]; [rewrite (bind_run _ _ _ _ _ E2)|right; split; [by apply bind_stop|done]].
  pose proof (kvm_map_step e 2 _ s2 He eq_refl H2 CLINT CLINT_MAP_SIZE eq_refl eq_refl)
    as [(s3 & E3 & H3)|[Hp Hex]]; [rewrite (bind_run _ _ _ _ _ E3)|right; split; [by apply bind_stop|done]].
  pose proof (kvm_map_step e 3 _ s3 He eq_refl H3 PLIC PLIC_MAP_SIZE eq_refl eq_refl)
    as [(s4 & E4 & H4)|[Hp Hex]]; [rewrite (bind_run _ _ _ _ _ E4)|right; split; [by apply bind_stop|done]].
  assert (etext - KERNBASE = (e - 0x80000) * PAGE_SIZE) as Hcode by (unfold KERNBASE, PAGE_SIZE in *; lia).
  rewrite (bind_run _ _ _ (etext - KERNBASE) s4).
  2: { unfold lift. rewrite sub_chk_ok; [done|]. unfold KERNBASE, PAGE_SIZE in *; lia. }
  pose proof (kvm_map_step e 4 _ s4 He eq_refl H4 KERNBASE (etext - KERNBASE) eq_refl Hcode)
    as [(s5 & E5 & H5)|[Hp Hex]]; [rewrite (bind_run _ _ _ _ _ E5)|right; split; [by apply bind_stop|done]].
  assert (VirtAddr_try_from etext = inl etext) as ->.
  { unfold VirtAddr_try_from. rewrite MAXVA_value, (proj2 (Z.ltb_ge _ _)); [done|]. unfold PAGE_SIZE in *; lia. }
  assert (PhysAddr_try_from etext = inl etext) as ->.
  { unfold PhysAddr_try_from. destruct Hetext as [Hb ->]. cbn [negb Z.eqb].
    rewrite (proj2 (Z.ltb_ge _ _)); [done|]. change KERNEL_HEAP_END with 0x88000000 in Hb.
    change PHYSTOP with 0x8c000000. lia. }
  assert (KERNEL_HEAP_END - etext = (0x88000 - e) * PAGE_SIZE) as Hdata.
  { change KERNEL_HEAP_END with (0x88000 * PAGE_SIZE). lia. }
  pose proof (kvm_map_step e 5 _ s5 He eq_refl H5 etext (KERNEL_HEAP_END - etext) Ee Hdata)
    as Hstep. cbn [rg_pa rg_perm] in Hstep. rewrite <- Ee in Hstep.
  assert (lift (sub_chk KERNEL_HEAP_END etext) s5 = Done (KERNEL_HEAP_END - etext, s5)) as Esub.
  { unfold lift. rewrite sub_chk_ok; [done|]. destruct Hetext as [? _]. lia. }
  destruct Hstep as [(s6 & E6 & H6)|[Hp Hex]].
  2: { right. split; [|done]. apply bind_stop. by rewrite (bind_run _ _ _ _ _ Esub). }
  rewrite (bind_run _ _ _ tt s6) by (by rewrite (bind_run _ _ _ _ _ Esub)).
  pose proof (kvm_map_step e 6 _ s6 He eq_refl H6 KERNEL_HEAP_END (PHYSTOP - KERNEL_HEAP_END) eq_refl eq_refl)
    as [(s7 & E7 & H7)|[Hp Hex]]; [rewrite (bind_run _ _ _ _ _ E7)|right; split; [by apply bind_stop|done]].
  assert (PhysAddr_try_from trampoline = inl trampoline) as ->.
  { unfold PhysAddr_try_from. destruct Htramp as [Hb ->]. cbn [negb Z.eqb].
    rewrite (proj2 (Z.ltb_ge _ _)); [done|lia]. }
  pose proof (kvm_map_step e 7 _ s7 He eq_refl H7 TRAMPOLINE PAGE_SIZE eq_refl eq_refl)
    as [(s8 & E8 & H8)|[Hp Hex]]; [left|by right].
  exists e, s8. split; [done|]. split; [done|]. split; [exact E8|exact H8].
Qed.

Lemma kernel_pages_map e g n :
  0x80000 ≤ e ≤ 0x88000 → g ∈ kernel_pages e → in_region g n →
  regions_map (reverse (kernel_pages e)) n = Some (region_pte g n).
Proof.
  intros He Hg Hn.
  unfold kernel_pages in *. rewrite !elem_of_cons, elem_of_nil in Hg.
  unfold reverse. cbn [rev_append regions_map].
  destruct Hg as [->|[->|[->|[->|[->|[->|[->|[->|[]]]]]]]]]; unfold in_region in *; cbn [rg_lo rg_hi] in *;
    repeat case_decide; done || lia.
Qed.

(** [kvm_init] gives the kernel the memory map of the machine: starting
    from the empty table it either panics because the heap is exhausted or
    ends with each region - the four devices, code up to [etext] executable
    and read-only, data and memory up to [PHYSTOP] writable, the trampoline at
    the top - mapped to the frames and with the permissions asked for, and
    nothing else mapped; [kvm_pa] is then the identity on kernel memory. *)
Theorem kvm_init_maps s :
  holds s [] →
  (panics (kvm_init kroot etext trampoline s) ∧ heap_exhausted (H := H)) ∨
  ∃ s', kvm_init kroot etext trampoline s = Done (tt, s') ∧
    (∀ g n, g ∈ kernel_regions → in_region g n → tr (km s') kroot n = Some (region_pte g n)) ∧
    (∀ n, vpn n → (∀ g, g ∈ kernel_regions → ¬ in_region g n) → tr (km s') kroot n = None) ∧
    ∀ va, KERNBASE ≤ va < PHYSTOP → kvm_pa kroot va s' = Done (va, s').
Proof.
  intros H0. destruct etext_page as (e & Ee & He & Hreg). rewrite Hreg.
  destruct (kvm_init_run s H0) as [(e' & s' & Ee' & _ & E & live & own & Hs & Hr & Ht)|?]; [right|by left].
  assert (e' = e) as -> by (unfold PAGE_SIZE in *; lia).
  assert (∀ g n, g ∈ kernel_pages e → in_region g n → vpn n) as Hvpn.
  { intros g n Hg Hn. destruct (kernel_pages_ok e g He Hg) as (? & Hb & _).
    rewrite MAXVA_value in Hb. unfold in_region, vpn, PAGE_SIZE in *. lia. }
  exists s'. split; [done|]. split; [|split].
  - intros g n Hg Hn. rewrite Ht by (by eapply Hvpn). by apply kernel_pages_map.
  - intros n Hn Hno. rewrite Ht by done. apply regions_map_None. intros g Hg%elem_of_reverse. by apply Hno.
  - intros va Hva. change KERNBASE with 0x80000000 in Hva. change PHYSTOP with 0x8c000000 in Hva.
    assert (∃ perm, perm_ok perm ∧ tr (km s') kroot (floor va) = Some (write_perm (floor va * PAGE_SIZE) perm)) as (perm & Hperm & Htr).
    { assert (0x80000 ≤ floor va < 0x8c000) as Hf by (unfold floor, PAGE_SIZE; dlia).
      assert (∃ g, g ∈ kernel_pages e ∧ in_region g (floor va) ∧ rg_pa g = rg_lo g * PAGE_SIZE) as (g & Hg & Hin & Hpa).
      { destruct (Z.lt_ge_cases (floor va) e); [|destruct (Z.lt_ge_cases (floor va) 0x88000)].
        - exists {| rg_lo := 0x80000; rg_hi := e; rg_pa := KERNBASE; rg_perm := PTE_RX |}.
          split; [by do 4 right; left|]. split; [unfold in_region; cbn; lia|done].
        - exists {| rg_lo := e; rg_hi := 0x88000; rg_pa := e * PAGE_SIZE; rg_perm := PTE_RW |}.
          split; [by do 5 right; left|]. split; [unfold in_region; cbn; lia|done].
        - exists {| rg_lo := 0x88000; rg_hi := 0x8c000; rg_pa := KERNEL_HEAP_END; rg_perm := PTE_RW |}.
          split; [by do 6 right; left|]. split; [unfold in_region; cbn; lia|done]. }
      exists (rg_perm g). split; [by eapply kernel_pages_ok|].
      rewrite Ht, (kernel_pages_map e g) by (done || by eapply Hvpn). unfold region_pte. rewrite Hpa. f_equal. f_equal. lia. }
    unfold kvm_pa, on_mem. run_simpl.
    pose proof (tr_entry (km s') live own kroot va Hs Hr ltac:(lia)) as Hent. rewrite Htr in Hent.
    destruct Hent as (Hv & _ & a & Ef & _ & _ & Er). rewrite Ef. cbn [km kstacks]. rewrite Er, Hv. cbn [negb km kstacks].
    destruct s' as [ms ks]. cbn [km kstacks].
    assert (0 ≤ floor va * PAGE_SIZE < 2 ^ 56) as Hb by (unfold floor, PAGE_SIZE; dlia).
    unfold as_phys_addr. change (wrap 64 _) with (as_page_table (write_perm (floor va * PAGE_SIZE) perm)).
    rewrite as_page_table_write; [|done|apply Z_mod_mult|apply Hperm].
    rewrite add_chk_ok by (unfold floor, PAGE_SIZE; dlia). do 2 f_equal. unfold floor, PAGE_SIZE. dlia.
Qed.
End layout.

Import Bump.

(** The boot state of the examples holds an empty table. *)
Lemma kvm_init_maps_witness :
  let s := {| km := Bump.boot; kstacks := 0 |} in
  holds Bump.root0 s [] ∧
  ((panics (kvm_init Bump.root0 0x80010000 0x8000f000 s) ∧ heap_exhausted (H := Z)) ∨
   ∃ s', kvm_init Bump.root0 0x80010000 0x8000f000 s = Done (tt, s') ∧
     kvm_pa Bump.root0 0x80123456 s' = Done (0x80123456, s')).
Proof.
  intros s.
  assert (holds Bump.root0 s []) as Hs.
  { exists ∅, {[Bump.root0 := (Bump.root0, [])]}. split; [apply Bump.bump_ok|]. split; [apply lookup_singleton_eq|].
    intros n Hn. unfold tr, mapping. apply look_table_empty. apply lookup_singleton_eq. }
  split; [exact Hs|].
  destruct (kvm_init_maps (H := Z) Bump.root0 0x80010000 0x8000f000) with (s := s)
    as [?|(s' & E & _ & _ & Hpa)].
  - split; [split; by vm_compute|reflexivity].
  - split; [split; by vm_compute|reflexivity].
  - exact Hs.
  - left. assumption.
  - right. exists s'. split; [exact E|]. apply Hpa. split; by vm_compute.
Defined.
