(* ===== verification/Pipe.v ===== *)
(** * Pipes ([kernel/src/fs/file/pipe.rs])

    [PipeInner] sits behind a spin lock.  A call of [read] or [write] holds it
    from its first [lock] to the return, except while it sleeps; a *turn* is
    what one call does between two points where the lock is free, so any
    interleaving of processes on a pipe is a sequence of turns.  A turn ends
    with [Asleep] or with the call's result; a sleeping reader starts its turn
    over, a sleeping writer goes on from the count it had reached.  The
    wake-ups that a turn sends are recorded in [woken], by channel. *)
From S2P Require Import Prelude Consts Addr PageTable Uvm.

Inductive chan := ReadCnt | WriteCnt.
#[export] Instance chan_eq_dec : EqDecision chan.
Proof. solve_decision. Defined.

Record PipeInner := {
  read_open : bool;
  write_open : bool;
  read_cnt : Z;
  write_cnt : Z;
  data : list Z;
}.

Inductive turn (A : Type) :=
| Asleep
| Return (r : A).
Arguments Asleep {A}.
Arguments Return {A} r.

Section ops.
Context {U : Type} `{!UserMem U}.

Record pstate := { pin : PipeInner; umem : U; woken : list chan }.

Definition upd_pipe (f : PipeInner → PipeInner) : M pstate unit :=
  modify (λ s, {| pin := f (pin s); umem := umem s; woken := woken s |}).
Definition set_read_cnt (c : Z) (p : PipeInner) : PipeInner :=
  {| read_open := read_open p; write_open := write_open p; read_cnt := c;
     write_cnt := write_cnt p; data := data p |}.
Definition set_write (c : Z) (d : list Z) (p : PipeInner) : PipeInner :=
  {| read_open := read_open p; write_open := write_open p; read_cnt := read_cnt p;
     write_cnt := c; data := d |}.
Definition wakeup (c : chan) : M pstate unit :=
  modify (λ s, {| pin := pin s; umem := umem s; woken := woken s ++ [c] |}).
Definition on_user {A} (m : M U A) : M pstate A := λ s,
  match m (umem s) with
  | Done (a, u) => Done (a, {| pin := pin s; umem := u; woken := woken s |})
  | Panic why => Panic why
  end.

(** [Pipe::create]: zeroed, then both ends opened. *)
Definition create : PipeInner :=
  {| read_open := true; write_open := true; read_cnt := 0; write_cnt := 0;
     data := replicate PIPESIZE 0 |}.

(** The loop [for i in 0..count] of [read]; the result is [read_count]. *)
Fixpoint read_loop (n : nat) (i count addr : Z) : M pstate Z :=
  match n with
  | O => mret count
  | S n =>
      p ← gets pin;
      let index := read_cnt p `mod` PIPESIZE_U32 in
      byte ← unwrap (data p !! Z.to_nat index) "index out of bounds";
      upd_pipe (set_read_cnt (wrap 32 (read_cnt p + 1)));;
      a ← lift (add64 addr i);
      r ← on_user (um_copy_out [byte] a 1);
      match r with
      | inr _ => mret i
      | inl _ => read_loop n (i + 1) count addr
      end
  end.

Definition read_turn (killed : bool) (addr count : Z) : M pstate (turn (Z + unit)) :=
  p ← gets pin;
  if (read_cnt p =? write_cnt p) && write_open p then
    if killed then mret (Return (inr tt)) else mret Asleep
  else
    let count := Z.min count (wrap 32 (write_cnt p - read_cnt p)) in
    read_count ← read_loop (Z.to_nat count) 0 count addr;
    wakeup WriteCnt;;
    mret (Return (inl read_count)).

(** The loop [while write_count < count] of [write], from [write_count] on:
    at most [count - write_count] turns, since each one either leaves the loop
    or writes a byte. *)
Fixpoint write_loop (n : nat) (killed : bool) (addr count write_count : Z)
    : M pstate (Z * turn (Z + unit)) :=
  if write_count <? count then
    match n with
    | O => panic "out of fuel"
    | S n =>
        p ← gets pin;
        if negb (read_open p) || killed then mret (write_count, Return (inr tt))
        else if write_cnt p =? wrap 32 (read_cnt p + PIPESIZE_U32) then
          wakeup ReadCnt;; mret (write_count, Asleep)
        else
          a ← lift (add64 addr write_count);
          '(bytes, r) ← on_user (um_copy_in a 1);
          match r with
          | inr _ => wakeup ReadCnt;; mret (write_count, Return (inl write_count))
          | inl _ =>
              let byte := nth 0 bytes 0 in
              let i := write_cnt p `mod` PIPESIZE_U32 in
              assertM (i <? Z.of_nat (length (data p))) "index out of bounds";;
              upd_pipe (set_write (wrap 32 (write_cnt p + 1)) (<[Z.to_nat i := byte]> (data p)));;
              w ← lift (add32 write_count 1);
              write_loop n killed addr count w
          end
    end
  else wakeup ReadCnt;; mret (write_count, Return (inl write_count)).
Definition write_turn (killed : bool) (addr count write_count : Z) : M pstate (Z * turn (Z + unit)) :=
  write_loop (Z.to_nat (count - write_count)) killed addr count write_count.

Definition close (is_write : bool) : M pstate unit :=
  if is_write then
    upd_pipe (λ p, {| read_open := read_open p; write_open := false; read_cnt := read_cnt p;
                      write_cnt := write_cnt p; data := data p |});;
    wakeup ReadCnt
  else
    upd_pipe (λ p, {| read_open := false; write_open := write_open p; read_cnt := read_cnt p;
                      write_cnt := write_cnt p; data := data p |});;
    wakeup WriteCnt.

(** [Drop for Pipe]: the debug assertion. *)
Definition pipe_drop : M pstate unit :=
  p ← gets pin;
  assertM (Bool.eqb (read_open p) (write_open p)) "assertion failed: guard.read_open == guard.write_open".
End ops.
Arguments pstate U : clear implicits.

(** * A pipe is a queue of at most [PIPESIZE] bytes *)

(** [queue p q w]: the pipe holds the bytes [q], oldest first, and [w] bytes
    have been written to it in all.  The counters are exact as long as they
    have not wrapped. *)
Record queue (p : PipeInner) (q : list Z) (w : Z) : Prop := {
  q_write : write_cnt p = w;
  q_read : read_cnt p = w - Z.of_nat (length q);
  q_pos : 0 ≤ w - Z.of_nat (length q);
  q_wrap : w < 2 ^ 32;
  q_cap : (length q ≤ PIPESIZE)%nat;
  q_data : length (data p) = PIPESIZE;
  q_byte i b : q !! i = Some b →
    data p !! Z.to_nat ((w - Z.of_nat (length q) + Z.of_nat i) `mod` PIPESIZE_U32) = Some b;
}.

Lemma queue_create : queue create [] 0.
Proof. split; try done. cbn. lia. Qed.

Lemma queue_pop p b q w :
  queue p (b :: q) w →
  data p !! Z.to_nat (read_cnt p `mod` PIPESIZE_U32) = Some b ∧
  queue (set_read_cnt (wrap 32 (read_cnt p + 1)) p) q w.
Proof.
  intros [Hw Hr Hp Hlt Hc Hd Hb]. cbn [length] in *. split.
  { rewrite Hr. specialize (Hb 0%nat b eq_refl). by rewrite Z.add_0_r in Hb. }
  split; cbn [set_read_cnt write_cnt read_cnt data]; try done; try lia.
  - unfold wrap. rewrite Z.mod_small; lia.
  - intros i c Hi. specialize (Hb (S i) c Hi). rewrite <- Hb. do 3 f_equal. lia.
Qed.

Lemma queue_push p q w b :
  queue p q w → (length q < PIPESIZE)%nat → w + 1 < 2 ^ 32 →
  queue (set_write (wrap 32 (write_cnt p + 1))
    (<[Z.to_nat (write_cnt p `mod` PIPESIZE_U32) := b]> (data p)) p) (q ++ [b]) (w + 1).
Proof.
  intros [Hw Hr Hp Hlt Hc Hd Hb] Hroom Hlt'.
  assert (∀ x, (Z.to_nat (x `mod` PIPESIZE_U32) < PIPESIZE)%nat) as Hmod.
  { intros x. pose proof (Z.mod_pos_bound x PIPESIZE_U32 eq_refl).
    change (Z.of_nat PIPESIZE) with PIPESIZE_U32 in *. assert (Z.of_nat PIPESIZE = PIPESIZE_U32) by done. lia. }
  assert (Z.of_nat PIPESIZE = PIPESIZE_U32) as HP by done.
  split; cbn [set_write write_cnt read_cnt data]; rewrite ?length_app; cbn [length]; try lia.
  - rewrite Hw. unfold wrap. rewrite Z.mod_small; lia.
  - by rewrite length_insert.
  - intros i c Hi. rewrite Hw.
    replace (w + 1 - Z.of_nat (length q + 1)) with (w - Z.of_nat (length q)) by lia.
    apply lookup_snoc_Some in Hi as [[Hi Hc']|[-> <-]].
    + specialize (Hb i c Hc'). rewrite list_lookup_insert_ne; [done|].
      intros E. apply Z2Nat.inj in E; [|apply Z.mod_pos_bound; done..].
      (* two counters less than PIPESIZE apart have different indices *)
      set (x := w - Z.of_nat (length q) + Z.of_nat i) in *.
      assert (x < w < x + PIPESIZE_U32) as Hx by lia. unfold PIPESIZE_U32 in *. dlia.
    + replace (w - Z.of_nat (length q) + Z.of_nat (length q)) with w by lia.
      apply list_lookup_insert_eq. rewrite Hd. apply Hmod.
Qed.

Section turns.
Context {U : Type} `{!UserMem U}.
(** [I u]: the process's memory is in order; [ok a]: a copy of one byte at [a]
    ends, with success or with an error. *)
Context (I : U → Prop) (ok : Z → Prop).
Hypothesis um_out_ok : ∀ u a b, I u → ok a → ∃ r u', um_copy_out [b] a 1 u = Done (r, u') ∧ I u'.
Hypothesis um_in_ok : ∀ u a, I u → ok a → ∃ bytes r u', um_copy_in a 1 u = Done ((bytes, r), u') ∧ I u'.

(** The bytes [bs] copied one by one to user addresses from [a] on; at the
    end either all went well or the last one failed. *)
Fixpoint copied_out (bs : list Z) (a : Z) (u u' : U) (failed : bool) : Prop :=
  match bs with
  | [] => u' = u ∧ failed = false
  | b :: bs => ∃ r u1, um_copy_out [b] a 1 u = Done (r, u1) ∧
      match r with
      | inl _ => copied_out bs (a + 1) u1 u' failed
      | inr _ => bs = [] ∧ u' = u1 ∧ failed = true
      end
  end.

(** The bytes [bs] fetched one by one from user addresses from [a] on, and
    possibly one more fetch that failed. *)
Fixpoint copied_in (bs : list Z) (a : Z) (u u' : U) (failed : bool) : Prop :=
  match bs with
  | [] => (u' = u ∧ failed = false) ∨ (∃ bytes v, um_copy_in a 1 u = Done ((bytes, inr v), u') ∧ failed = true)
  | b :: bs => ∃ bytes v u1, um_copy_in a 1 u = Done ((bytes, inl v), u1) ∧ b = nth 0 bytes 0 ∧
      copied_in bs (a + 1) u1 u' failed
  end.

Lemma read_loop_run n s q w i count addr :
  queue (pin s) q w → I (umem s) → (n ≤ length q)%nat → i + Z.of_nat n = count → 0 ≤ addr + i →
  addr + count ≤ 2 ^ 64 → (∀ j, i ≤ j < count → ok (addr + j)) →
  ∃ k (failed : bool) s', read_loop n i count addr s = Done ((if failed then i + Z.of_nat k - 1 else count), s') ∧
    (k ≤ n)%nat ∧ (failed = false → k = n) ∧ queue (pin s') (drop k q) w ∧ I (umem s') ∧
    copied_out (take k q) (addr + i) (umem s) (umem s') failed ∧
    read_open (pin s') = read_open (pin s) ∧ write_open (pin s') = write_open (pin s) ∧ woken s' = woken s.
Proof.
  revert s q i. induction n as [|n IH]; intros s q i Hq HI Hn Hi Ha0 Ha Hok.
  { exists 0%nat, false, s. rewrite drop_0, take_0. split_and!; done || lia. }
  destruct q as [|b q]; [cbn in Hn; lia|]. cbn [length] in Hn.
  destruct (queue_pop _ _ _ _ Hq) as [Hb Hq'].
  cbn [read_loop]. rewrite (bind_run _ _ _ (pin s) s) by done. rewrite Hb.
  rewrite (bind_run _ _ _ b s) by done.
  set (s1 := {| pin := set_read_cnt (wrap 32 (read_cnt (pin s) + 1)) (pin s); umem := umem s; woken := woken s |}).
  rewrite (bind_run _ _ _ tt s1) by done.
  rewrite (bind_run _ _ _ (addr + i) s1) by (unfold lift; by rewrite add_chk_ok by lia).
  destruct (um_out_ok (umem s) (addr + i) b HI) as (r & u1 & Eu & HI1); [apply Hok; lia|].
  set (s2 := {| pin := pin s1; umem := u1; woken := woken s |}).
  rewrite (bind_run _ _ _ r s2) by (unfold on_user; cbn [umem s1]; by rewrite Eu).
  destruct r as [v|v].
  - destruct (IH s2 q (i + 1)) as (k & failed & s3 & E3 & Hk & Hkf & Hq3 & HI3 & Hc3 & Hro & Hwo & Hw);
      [done|done|lia|lia|lia|lia| |].
    { intros j Hj. apply Hok. lia. }
    exists (S k), failed, s3. split.
    { rewrite E3. destruct failed; do 2 f_equal. lia. }
    split; [lia|]. split; [intros Hf; rewrite (Hkf Hf); done|]. split; [done|]. split; [done|].
    split; [|done]. cbn [take copied_out]. exists (inl v), u1. split; [done|].
    by replace (addr + i + 1) with (addr + (i + 1)) by lia.
  - exists 1%nat, true, s2. split; [by replace (i + Z.of_nat 1 - 1) with i by lia|]. split; [lia|]. split; [done|]. split; [done|]. split; [done|].
    split; [|done]. cbn [take copied_out]. rewrite take_0. exists (inr v), u1. done.
Qed.

(** One turn of [read]. *)
Lemma read_turn_run s q w killed addr count :
  queue (pin s) q w → I (umem s) → 0 ≤ addr → 0 ≤ count → addr + count ≤ 2 ^ 64 →
  (∀ j, 0 ≤ j < count → ok (addr + j)) →
  (q = [] ∧ write_open (pin s) = true ∧
     read_turn killed addr count s = Done (if killed then Return (inr tt) else Asleep, s)) ∨
  ((q ≠ [] ∨ write_open (pin s) = false) ∧
   ∃ k (failed : bool) s', read_turn killed addr count s =
       Done (Return (inl (if failed then Z.of_nat k - 1 else Z.min count (Z.of_nat (length q)))), s') ∧
     Z.of_nat k ≤ Z.min count (Z.of_nat (length q)) ∧
     (failed = false → Z.of_nat k = Z.min count (Z.of_nat (length q))) ∧
     queue (pin s') (drop k q) w ∧ I (umem s') ∧ copied_out (take k q) addr (umem s) (umem s') failed ∧
     read_open (pin s') = read_open (pin s) ∧ write_open (pin s') = write_open (pin s) ∧
     woken s' = woken s ++ [WriteCnt]).
Proof.
  intros Hq HI Ha0 Hc Ha Hok. unfold read_turn. rewrite (bind_run _ _ _ (pin s) s) by done.
  destruct Hq as [Hw Hr Hp Hlt Hcap Hd Hb] eqn:EHq. clear EHq.
  destruct (decide (q = [] ∧ write_open (pin s) = true)) as [[-> Ho]|Hne].
  - left. split; [done|]. split; [done|]. cbn [length] in *.
    rewrite (proj2 (Z.eqb_eq _ _)), Ho by lia. by destruct killed.
  - right. split; [destruct q; [right; destruct (write_open (pin s)); tauto|by left]|].
    assert (((read_cnt (pin s) =? write_cnt (pin s)) && write_open (pin s)) = false) as ->.
    { destruct (write_open (pin s)); [|by rewrite andb_false_r]. rewrite andb_true_r. apply Z.eqb_neq.
      destruct q as [|b q]; [tauto|]. cbn [length] in *. lia. }
    assert (wrap 32 (write_cnt (pin s) - read_cnt (pin s)) = Z.of_nat (length q)) as ->.
    { unfold wrap. rewrite Z.mod_small by lia. lia. }
    destruct (read_loop_run (Z.to_nat (Z.min count (Z.of_nat (length q)))) s q w 0
      (Z.min count (Z.of_nat (length q))) addr) as (k & failed & s1 & E & Hk & Hkf & Hq1 & HI1 & Hco & Hro & Hwo & Hwk);
      [by split|done|lia|lia|lia|lia| |].
    { intros j Hj. apply Hok. lia. }
    rewrite Z.add_0_r in Hco.
    eexists k, failed, _. rewrite (bind_run _ _ _ _ _ E). split; [reflexivity|]. cbn [pin umem woken].
    split; [lia|]. split; [intros Hf; rewrite (Hkf Hf); lia|]. do 5 (split; [done|]). by rewrite Hwk.
Qed.

Lemma write_loop_run n s q w killed addr count wc :
  queue (pin s) q w → I (umem s) → 0 ≤ wc → wc + Z.of_nat n = count → 0 ≤ addr → addr + count ≤ 2 ^ 64 →
  count < 2 ^ 32 → w + Z.of_nat n < 2 ^ 32 → (∀ j, wc ≤ j < count → ok (addr + j)) →
  ∃ bs failed t s', write_loop n killed addr count wc s = Done ((wc + Z.of_nat (length bs), t), s') ∧
    queue (pin s') (q ++ bs) (w + Z.of_nat (length bs)) ∧ I (umem s') ∧
    (length bs ≤ n)%nat ∧ copied_in bs (addr + wc) (umem s) (umem s') failed ∧
    read_open (pin s') = read_open (pin s) ∧ write_open (pin s') = write_open (pin s) ∧
    match t with
    | Asleep => read_open (pin s) = true ∧ killed = false ∧ (length bs < n)%nat ∧
        length (q ++ bs) = PIPESIZE ∧ failed = false ∧ woken s' = woken s ++ [ReadCnt]
    | Return (inl r) => r = wc + Z.of_nat (length bs) ∧ ((length bs = n ∧ failed = false) ∨ failed = true) ∧
        woken s' = woken s ++ [ReadCnt]
    | Return (inr _) => (read_open (pin s) = false ∨ killed = true) ∧ bs = [] ∧ (0 < n)%nat ∧ failed = false ∧ woken s' = woken s
    end.
Proof.
  revert s q w wc. induction n as [|n IH]; intros s q w wc Hq HI Hwc Hn Ha0 Ha Hc32 Hw32 Hok; cbn [write_loop].
  { rewrite (proj2 (Z.ltb_ge _ _)) by lia. exists [], false, (Return (inl wc)). eexists.
    rewrite (bind_run _ _ _ tt _) by reflexivity. cbn [length]. rewrite Z.add_0_r. split; [reflexivity|].
    cbn [pin umem woken]. rewrite app_nil_r, Z.add_0_r. do 2 (split; [done|]). split; [lia|].
    split; [by left|]. split; [done|]. split; [done|]. split; [lia|]. split; [by left|done]. }
  rewrite (proj2 (Z.ltb_lt _ _)) by lia. rewrite (bind_run _ _ _ (pin s) s) by done.
  destruct (negb (read_open (pin s)) || killed) eqn:Hstop.
  { exists [], false, (Return (inr tt)), s. cbn [length]. rewrite Z.add_0_r, app_nil_r. split; [done|].
    rewrite Z.add_0_r. do 2 (split; [done|]). split; [lia|]. split; [by left|]. split; [done|]. split; [done|].
    split; [|split_and!; done || lia]. destruct (read_open (pin s)), killed; naive_solver. }
  apply orb_false_iff in Hstop as [Hopen ->]. apply negb_false_iff in Hopen.
  pose proof (q_cap _ _ _ Hq) as Hcap. pose proof (q_write _ _ _ Hq) as Hwr. pose proof (q_read _ _ _ Hq) as Hrd.
  pose proof (q_pos _ _ _ Hq) as Hpos. assert (Z.of_nat PIPESIZE = PIPESIZE_U32) as HP by done.
  destruct (decide (length q = PIPESIZE)) as [Hfull|Hroom].
  { assert (write_cnt (pin s) = wrap 32 (read_cnt (pin s) + PIPESIZE_U32)) as ->.
    { unfold wrap. rewrite Z.mod_small; lia. }
    rewrite Z.eqb_refl. exists [], false, Asleep. eexists. rewrite (bind_run _ _ _ tt _) by reflexivity.
    cbn [length]. rewrite Z.add_0_r, app_nil_r. split; [reflexivity|]. rewrite Z.add_0_r. cbn [pin umem woken].
    do 2 (split; [done|]). split; [lia|]. split; [by left|]. split; [done|]. split; [done|]. split_and!; auto; lia. }
  rewrite (proj2 (Z.eqb_neq _ _)).
  2: { unfold wrap. destruct (Z.lt_ge_cases (read_cnt (pin s) + PIPESIZE_U32) (2 ^ 32)).
       - rewrite Z.mod_small by lia. lia.
       - intros E. rewrite E in Hwr. unfold PIPESIZE_U32 in *. dlia. }
  rewrite (bind_run _ _ _ (addr + wc) s) by (unfold lift; by rewrite add_chk_ok by lia).
  destruct (um_in_ok (umem s) (addr + wc) HI) as (bytes & r & u1 & Eu & HI1); [apply Hok; lia|].
  set (s1 := {| pin := pin s; umem := u1; woken := woken s |}).
  rewrite (bind_run _ _ _ (bytes, r) s1) by (unfold on_user; by rewrite Eu).
  destruct r as [v|v].
  2: { exists [], true, (Return (inl wc)). eexists. rewrite (bind_run _ _ _ tt _) by reflexivity.
       cbn [length]. rewrite Z.add_0_r, app_nil_r. split; [reflexivity|]. rewrite Z.add_0_r. cbn [pin umem woken s1].
       do 2 (split; [done|]). split; [lia|]. split; [right; eauto|]. split; [done|]. split; [done|].
       split; [lia|]. split; [by right|done]. }
  assert (((write_cnt (pin s) `mod` PIPESIZE_U32) <? Z.of_nat (length (data (pin s)))) = true) as Hidx.
  { apply Z.ltb_lt. rewrite (q_data _ _ _ Hq), HP. by apply Z.mod_pos_bound. }
  rewrite Hidx, (bind_run _ _ _ tt s1) by done.
  set (b := nth 0 bytes 0).
  set (p2 := set_write (wrap 32 (write_cnt (pin s) + 1))
    (<[Z.to_nat (write_cnt (pin s) `mod` PIPESIZE_U32) := b]> (data (pin s))) (pin s)).
  set (s2 := {| pin := p2; umem := u1; woken := woken s |}).
  rewrite (bind_run _ _ _ tt s2) by done.
  rewrite (bind_run _ _ _ (wc + 1) s2) by (unfold lift; by rewrite add_chk_ok by lia).
  assert (queue p2 (q ++ [b]) (w + 1)) as Hq2 by (apply queue_push; [done|lia|lia]).
  destruct (IH s2 (q ++ [b]) (w + 1) (wc + 1)) as (bs & failed & t & s3 & E3 & Hq3 & HI3 & Hn3 & Hc3 & Hro & Hwo & Ht);
    [done|done|lia|lia|lia|lia|lia|lia| |].
  { intros j Hj. apply Hok. lia. }
  rewrite <- app_assoc in Hq3. cbn [app] in Hq3.
  destruct t as [|[r|e]].
  - exists (b :: bs), failed, Asleep, s3. cbn [length]. split; [rewrite E3; do 3 f_equal; lia|].
    split; [by replace (w + Z.of_nat (S (length bs))) with (w + 1 + Z.of_nat (length bs)) by lia|].
    split; [done|]. split; [lia|]. split.
    { cbn [copied_in]. exists bytes, v, u1. split; [done|]. split; [done|].
      by replace (addr + wc + 1) with (addr + (wc + 1)) by lia. }
    split; [done|]. split; [done|]. destruct Ht as (? & ? & ? & Hl & ? & ?). rewrite <- app_assoc in Hl.
    split_and!; auto; lia.
  - exists (b :: bs), failed, (Return (inl r)), s3. cbn [length]. split; [rewrite E3; do 3 f_equal; lia|].
    split; [by replace (w + Z.of_nat (S (length bs))) with (w + 1 + Z.of_nat (length bs)) by lia|].
    split; [done|]. split; [lia|]. split.
    { cbn [copied_in]. exists bytes, v, u1. split; [done|]. split; [done|].
      by replace (addr + wc + 1) with (addr + (wc + 1)) by lia. }
    split; [done|]. split; [done|]. destruct Ht as (? & Hx & ?). split; [lia|]. split; [|done].
    destruct Hx as [[? ?]|?]; [left; split; [lia|done]|by right].
  - exfalso. destruct Ht as ([Hx|?] & _); [|done]. cbn [s2 pin p2 set_write read_open] in Hx. congruence.
Qed.

Lemma write_turn_run s q w killed addr count wc :
  queue (pin s) q w → I (umem s) → 0 ≤ wc ≤ count → 0 ≤ addr → addr + count ≤ 2 ^ 64 →
  count < 2 ^ 32 → w + (count - wc) < 2 ^ 32 → (∀ j, wc ≤ j < count → ok (addr + j)) →
  ∃ bs failed t s', write_turn killed addr count wc s = Done ((wc + Z.of_nat (length bs), t), s') ∧
    queue (pin s') (q ++ bs) (w + Z.of_nat (length bs)) ∧ I (umem s') ∧
    wc + Z.of_nat (length bs) ≤ count ∧ copied_in bs (addr + wc) (umem s) (umem s') failed ∧
    read_open (pin s') = read_open (pin s) ∧ write_open (pin s') = write_open (pin s) ∧
    match t with
    | Asleep => read_open (pin s) = true ∧ killed = false ∧ wc + Z.of_nat (length bs) < count ∧
        length (q ++ bs) = PIPESIZE ∧ failed = false ∧ woken s' = woken s ++ [ReadCnt]
    | Return (inl r) => r = wc + Z.of_nat (length bs) ∧ (r = count ∧ failed = false ∨ failed = true) ∧
        woken s' = woken s ++ [ReadCnt]
    | Return (inr _) => (read_open (pin s) = false ∨ killed = true) ∧ bs = [] ∧ wc < count ∧ failed = false ∧ woken s' = woken s
    end.
Proof.
  intros Hq HI Hwc Ha0 Ha Hc Hw Hok.
  destruct (write_loop_run (Z.to_nat (count - wc)) s q w killed addr count wc)
    as (bs & failed & t & s' & E & Hq' & HI' & Hn & Hc' & Hro & Hwo & Ht);
    [done|done|lia|lia|lia|lia|lia|lia|done|].
  exists bs, failed, t, s'. split; [done|]. split; [done|]. split; [done|]. split; [lia|].
  do 3 (split; [done|]). destruct t as [|[r|e]].
  - destruct Ht as (? & ? & ? & ? & ?). split_and!; auto; try lia; tauto.
  - destruct Ht as (? & Hx & ?). split; [done|]. split; [|done].
    destruct Hx as [[? ?]|?]; [left; split; [lia|done]|by right].
  - destruct Ht as (? & ? & ? & ?). split_and!; auto; try lia; tauto.
Qed.
End turns.

(** * Any interleaving of turns *)
Inductive op :=
| ORead (killed : bool) (addr count : Z)
| OWrite (killed : bool) (addr count write_count : Z)
| OClose (is_write : bool).
Inductive result :=
| RRead (t : turn (Z + unit))
| RWrite (write_count : Z) (t : turn (Z + unit))
| RClose.

Section runs.
Context {U : Type} `{!UserMem U}.

Definition run_op (o : op) : M (pstate U) result :=
  match o with
  | ORead k a c => t ← read_turn k a c; mret (RRead t)
  | OWrite k a c wc => '(n, t) ← write_turn k a c wc; mret (RWrite n t)
  | OClose b => close b;; mret RClose
  end.
Fixpoint run_ops (os : list op) : M (pstate U) (list result) :=
  match os with
  | [] => mret []
  | o :: os => r ← run_op o; rs ← run_ops os; mret (r :: rs)
  end.

(** What a turn did: the bytes it took out of the pipe and put into it. *)
Record event := { took : list Z; put : list Z }.

(** The result of a turn, in terms of the bytes moved and of the calling
    process's memory. *)
Definition explains (o : op) (r : result) (e : event) (u u' : U) : Prop :=
  match o, r with
  | ORead k a c, RRead t =>
      put e = [] ∧ Z.of_nat (length (took e)) ≤ c ∧ ∃ failed, copied_out (took e) a u u' failed ∧
      match t with
      | Asleep => took e = [] ∧ k = false
      | Return (inl n) => n = Z.of_nat (length (took e)) - (if failed then 1 else 0)
      | Return (inr _) => took e = [] ∧ k = true
      end
  | OWrite k a c wc, RWrite n t =>
      took e = [] ∧ n = wc + Z.of_nat (length (put e)) ∧ n ≤ c ∧
      ∃ failed, copied_in (put e) (a + wc) u u' failed ∧
      match t with
      | Asleep => k = false ∧ n < c
      | Return (inl m) => m = n ∧ (m = c ∨ failed = true)
      | Return (inr _) => put e = []
      end
  | OClose _, RClose => e = {| took := []; put := [] |} ∧ u' = u
  | _, _ => False
  end.

Inductive explained : list op → list result → list event → U → U → Prop :=
| explained_nil u : explained [] [] [] u u
| explained_cons o r e u u1 os rs es u' :
    explains o r e u u1 → explained os rs es u1 u' → explained (o :: os) (r :: rs) (e :: es) u u'.

Definition op_ok (ok : Z → Prop) (o : op) : Prop :=
  match o with
  | ORead _ a c => 0 ≤ a ∧ 0 ≤ c ∧ a + c ≤ 2 ^ 64 ∧ ∀ j, 0 ≤ j < c → ok (a + j)
  | OWrite _ a c wc => 0 ≤ a ∧ 0 ≤ wc ≤ c ∧ c < 2 ^ 32 ∧ a + c ≤ 2 ^ 64 ∧ ∀ j, wc ≤ j < c → ok (a + j)
  | OClose _ => True
  end.
(** Bytes a turn may write. *)
Definition op_writes (o : op) : Z :=
  match o with OWrite _ _ c wc => c - wc | _ => 0 end.
Definition total_writes (os : list op) : Z := foldr (λ o n, op_writes o + n) 0 os.

Lemma total_writes_nonneg ok os : Forall (op_ok ok) os → 0 ≤ total_writes os.
Proof.
  induction 1 as [|o os Ho Hos IH]; [done|].
  unfold total_writes in *. cbn [foldr]. destruct o; cbn [op_writes op_ok] in *; lia.
Qed.

Lemma run_op_queue (I : U → Prop) (ok : Z → Prop) :
  (∀ u a b, I u → ok a → ∃ r u', um_copy_out [b] a 1 u = Done (r, u') ∧ I u') →
  (∀ u a, I u → ok a → ∃ bytes r u', um_copy_in a 1 u = Done ((bytes, r), u') ∧ I u') →
  ∀ o s q w, queue (pin s) q w → I (umem s) → op_ok ok o → w + op_writes o < 2 ^ 32 →
  ∃ r e s' q', run_op o s = Done (r, s') ∧ explains o r e (umem s) (umem s') ∧
    queue (pin s') q' (w + Z.of_nat (length (put e))) ∧ I (umem s') ∧
    q ++ put e = took e ++ q' ∧ Z.of_nat (length (put e)) ≤ op_writes o.
Proof.
  intros Hout Hin o s q w Hq HI Hok Hw. destruct o as [k a c|k a c wc|b]; cbn [run_op op_writes] in *.
  - destruct Hok as (Ha & Hc & Hac & Hok).
    destruct (read_turn_run I ok Hout s q w k a c Hq HI Ha Hc Hac Hok)
      as [(-> & _ & E)|(_ & n & failed & s' & E & Hn & Hnf & Hq' & HI' & Hco & _)];
      rewrite (bind_run _ _ _ _ _ E).
    + exists (RRead (if k then Return (inr tt) else Asleep)), {| took := []; put := [] |}, s, [].
      cbn [took put length app]. rewrite Z.add_0_r. split; [done|].
      split; [|split; [done|split; [done|split; done]]].
      split; [done|]. split; [cbn; lia|]. exists false. split; [done|]. by destruct k.
    + eexists _, {| took := take n q; put := [] |}, s', (drop n q). cbn [took put length]. rewrite Z.add_0_r, app_nil_r.
      split; [reflexivity|]. split; [|split; [done|split; [done|split; [by rewrite take_drop|done]]]].
      assert (length (take n q) = n) as Hl by (rewrite length_take; lia). cbn [explains took put]. rewrite Hl.
      split; [done|]. split; [lia|]. exists failed. split; [done|]. destruct failed; [done|].
      specialize (Hnf eq_refl). lia.
  - destruct Hok as (Ha & Hwc & Hc & Hac & Hok).
    destruct (write_turn_run I ok Hin s q w k a c wc Hq HI Hwc Ha Hac Hc Hw Hok)
      as (bs & failed & t & s' & E & Hq' & HI' & Hle & Hci & _ & _ & Ht); rewrite (bind_run _ _ _ _ _ E).
    eexists _, {| took := []; put := bs |}, s', (q ++ bs). cbn [took put app].
    split; [reflexivity|]. split; [|split; [done|split; [done|split; [done|lia]]]].
    cbn [explains took put]. split; [done|]. split; [done|]. split; [done|]. exists failed. split; [done|].
    destruct t as [|[r|e]]; [by destruct Ht as (_ & -> & ? & _)| |by destruct Ht as (_ & -> & _)].
    destruct Ht as (-> & [[? _]|?] & _); [split; [done|by left]|split; [done|by right]].
  - exists RClose, {| took := []; put := [] |}. unfold close.
    destruct b; eexists _, q; (split; [reflexivity|]); cbn [pin umem length took put];
      rewrite Z.add_0_r, app_nil_r; (split; [done|]); (split; [|done]); destruct Hq; by split.
Qed.

(** C38. A pipe is a first-in first-out queue of at most [PIPESIZE] bytes.  From
    creation, any sequence of turns of readers and writers and of closes, over
    user memory in which a one-byte copy always ends (with success or an
    error), runs without panic as long as fewer than 2^32 bytes are asked to
    be written; each result is what the bytes moved and the user memory say;
    and the bytes taken out by readers, followed by those still in the pipe,
    are exactly the bytes put in by writers, in order. *)
Theorem pipe_fifo (I : U → Prop) (ok : Z → Prop) os u :
  (∀ u a b, I u → ok a → ∃ r u', um_copy_out [b] a 1 u = Done (r, u') ∧ I u') →
  (∀ u a, I u → ok a → ∃ bytes r u', um_copy_in a 1 u = Done ((bytes, r), u') ∧ I u') →
  I u → Forall (op_ok ok) os → total_writes os < 2 ^ 32 →
  ∃ rs es q s', run_ops os {| pin := create; umem := u; woken := [] |} = Done (rs, s') ∧
    explained os rs es u (umem s') ∧
    concat (put <$> es) = concat (took <$> es) ++ q ∧ (length q ≤ PIPESIZE)%nat ∧
    queue (pin s') q (Z.of_nat (length (concat (put <$> es)))).
Proof.
  intros Hout Hin Hu Hos Htot.
  assert (∀ os s q w, queue (pin s) q w → I (umem s) → Forall (op_ok ok) os → w + total_writes os < 2 ^ 32 →
    ∃ rs es q' s', run_ops os s = Done (rs, s') ∧ explained os rs es (umem s) (umem s') ∧
      q ++ concat (put <$> es) = concat (took <$> es) ++ q' ∧
      queue (pin s') q' (w + Z.of_nat (length (concat (put <$> es))))) as Hgen.
  { clear os u Hu Hos Htot. induction os as [|o os IH]; intros s q w Hq HI Hos Hw.
    { exists [], [], q, s. split; [done|]. split; [constructor|]. cbn. rewrite app_nil_r, Z.add_0_r. done. }
    apply Forall_cons in Hos as [Ho Hos]. cbn [total_writes foldr] in Hw. fold (total_writes os) in Hw.
    pose proof (total_writes_nonneg ok os Hos) as Hnn.
    destruct (run_op_queue I ok Hout Hin o s q w Hq HI Ho) as (r & e & s1 & q1 & E1 & He & Hq1 & HI1 & Hbytes & Hle); [lia|].
    destruct (IH s1 q1 _ Hq1 HI1 Hos) as (rs & es & q2 & s2 & E2 & Hes & Hb2 & Hq2); [lia|].
    exists (r :: rs), (e :: es), q2, s2. cbn [run_ops]. rewrite (bind_run _ _ _ _ _ E1), (bind_run _ _ _ _ _ E2).
    split; [done|]. split; [by econstructor|]. cbn [fmap list_fmap concat]. split.
    - rewrite app_assoc, Hbytes, <- !app_assoc. by f_equal.
    - rewrite length_app, Nat2Z.inj_add, Z.add_assoc. done. }
  destruct (Hgen os {| pin := create; umem := u; woken := [] |} [] 0) as (rs & es & q & s' & E & Hes & Hb & Hq);
    [apply queue_create|done|done|lia|].
  exists rs, es, q, s'. split; [done|]. split; [done|]. split; [exact Hb|]. split; [by eapply q_cap|exact Hq].
Qed.
End runs.

(** A process whose pages [pages] are mapped and not shared can hand any byte
    of them to a pipe, provided the page after it is mapped as well. *)
Section uvm_mem.
Context {H : Type} `{!PageHeap H, !PageHeapLaws H} (root : Z) (pages : Z → Prop).

Definition proc_mem (u : pmem H) : Prop :=
  ∃ live own, pinv u live own ∧ is_root own root ∧ unshared u root ∧ ∀ n, pages n → umapped u root n.
Definition proc_addr (a : Z) : Prop :=
  0 ≤ a ∧ a + 1 < MAXVA ∧ pages (floor a) ∧ pages (floor (a + 1)).

Lemma proc_pages (u : pmem H) a :
  (∀ n, pages n → umapped u root n) → proc_addr a →
  ∀ n, floor a ≤ n → n * PAGE_SIZE < a + 1 → umapped u root n.
Proof.
  intros Hm (H0 & _ & Hp & _) n H1 H2. assert (n = floor a) as -> by (unfold floor, PAGE_SIZE in *; dlia).
  by apply Hm.
Qed.

Lemma uvm_out_ok (u : pmem H) a b :
  proc_mem u → proc_addr a →
  ∃ r u', um_copy_out (UserMem := uvm_mem root) [b] a 1 u = Done (r, u') ∧ proc_mem u'.
Proof.
  intros (live & own & Hs & Hr & Hun & Hm) Ha. pose proof (proc_pages u a Hm Ha) as Hpg.
  destruct Ha as (H0 & H1 & Hp & Hp').
  destruct (copy_out_loop_run 2 u live own root [b] a 1) as [Hok _]; try done; [by left|cbn; lia|].
  destruct (Hok (Hm _ Hp')) as (u' & E & Hs' & Ht & _ & Hum & _). exists (inl tt), u'. split.
  - cbn [um_copy_out uvm_mem]. unfold copy_out, VirtAddr_try_from. change (1 =? 0) with false. cbv iota.
    by rewrite (proj2 (Z.ltb_ge _ _)) by lia.
  - exists live, own. split; [done|]. split; [done|]. split; [|intros n Hn; by apply Hum, Hm].
    intros n n' pa Hn Hn'. unfold user_pa, tr. rewrite Ht. by apply Hun.
Qed.

Lemma uvm_in_ok (u : pmem H) a :
  proc_mem u → proc_addr a →
  ∃ bytes r u', um_copy_in (UserMem := uvm_mem root) a 1 u = Done ((bytes, r), u') ∧ proc_mem u'.
Proof.
  intros Hu Ha. pose proof Hu as (live & own & Hs & Hr & Hun & Hm). pose proof (proc_pages u a Hm Ha) as Hpg.
  destruct Ha as (H0 & H1 & Hp & Hp').
  destruct (copy_in_loop_run 2 u live own root a 1 []) as (bytes & _ & _ & Hok & _); try done; [by left|cbn; lia|].
  exists bytes, (inl tt), u. split; [|done].
  cbn [um_copy_in uvm_mem]. unfold copy_in, VirtAddr_try_from.
  rewrite (proj2 (Z.ltb_ge _ _)) by lia. change (1 =? 0) with false. cbv iota. by apply Hok, Hm.
Qed.
End uvm_mem.

(** ** A logging memory: address [a] holds the byte [a mod 256] *)
Record logmem := { fetched : list Z; delivered : list Z }.
#[export] Instance log_mem : UserMem logmem := {
  um_copy_out src dst count := λ u,
    Done (inl tt, {| fetched := fetched u; delivered := delivered u ++ take (Z.to_nat count) src |});
  um_copy_in src count := λ u,
    let bs := (λ a, a `mod` 256) <$> seqZ src count in
    Done ((bs, inl tt), {| fetched := fetched u ++ bs; delivered := delivered u |});
}.

(** [n] rounds of one byte in, one byte out. *)
Fixpoint rounds (n : nat) : list op :=
  match n with
  | O => []
  | S n => OWrite false 0 1 0 :: ORead false 0 1 :: rounds n
  end.
Definition empty_pipe (c : Z) : PipeInner :=
  {| read_open := true; write_open := true; read_cnt := c; write_cnt := c; data := replicate PIPESIZE 0 |}.

Lemma replicate_insert_same {A} (x : A) n i : <[i := x]> (replicate n x) = replicate n x.
Proof.
  apply list_eq. intros j. destruct (decide (i = j)) as [->|].
  - destruct (decide (j < n)%nat).
    + rewrite list_lookup_insert_eq by (by rewrite length_replicate). by rewrite lookup_replicate_2.
    + rewrite list_insert_ge by (rewrite length_replicate; lia). done.
  - by rewrite list_lookup_insert_ne.
Qed.

Lemma rounds_run n c u w :
  0 ≤ c → c + Z.of_nat n < 2 ^ 32 → ∃ rs w',
  run_ops (rounds n) {| pin := empty_pipe c; umem := u; woken := w |} =
    Done (rs, {| pin := empty_pipe (c + Z.of_nat n);
                 umem := {| fetched := fetched u ++ replicate n 0; delivered := delivered u ++ replicate n 0 |};
                 woken := w' |}).
Proof.
  revert c u w. induction n as [|n IH]; intros c u w Hc Hn.
  { exists [], w. cbn. rewrite Z.add_0_r, !app_nil_r. by destruct u. }
  assert ((c =? wrap 32 (c + PIPESIZE_U32)) = false) as Hne.
  { apply Z.eqb_neq. unfold wrap, PIPESIZE_U32. intros E. dlia. }
  assert (((c `mod` PIPESIZE_U32) <? Z.of_nat (length (replicate PIPESIZE 0))) = true) as Hidx.
  { apply Z.ltb_lt. rewrite length_replicate. by apply Z.mod_pos_bound. }
  assert (wrap 32 (c + 1) = c + 1) as Hw by (unfold wrap; rewrite Z.mod_small; lia).
  set (u1 := {| fetched := fetched u ++ [0]; delivered := delivered u |}).
  set (u2 := {| fetched := fetched u ++ [0]; delivered := delivered u ++ [0] |}).
  assert (run_op (OWrite false 0 1 0) {| pin := empty_pipe c; umem := u; woken := w |} =
    Done (RWrite 1 (Return (inl 1)),
      {| pin := {| read_open := true; write_open := true; read_cnt := c; write_cnt := c + 1; data := replicate PIPESIZE 0 |};
         umem := u1; woken := w ++ [ReadCnt] |})) as E1.
  { unfold run_op. rewrite (bind_run _ _ _ (1, Return (inl 1))
      {| pin := {| read_open := true; write_open := true; read_cnt := c; write_cnt := c + 1; data := replicate PIPESIZE 0 |};
         umem := u1; woken := w ++ [ReadCnt] |}); [done|].
    unfold write_turn. change (Z.to_nat (1 - 0)) with 1%nat. cbn [write_loop]. change (0 <? 1) with true. cbv iota.
    rewrite (bind_run _ _ _ (empty_pipe c) {| pin := empty_pipe c; umem := u; woken := w |}) by done.
    cbn [empty_pipe read_open write_cnt read_cnt data negb orb]. rewrite Hne.
    rewrite (bind_run _ _ _ 0 {| pin := empty_pipe c; umem := u; woken := w |}) by done.
    rewrite (bind_run _ _ _ ([0], inl tt) {| pin := empty_pipe c; umem := u1; woken := w |}) by done.
    rewrite Hidx, (bind_run _ _ _ tt {| pin := empty_pipe c; umem := u1; woken := w |}) by done.
    cbn [nth]. rewrite replicate_insert_same, Hw. reflexivity. }
  assert (run_op (ORead false 0 1)
      {| pin := {| read_open := true; write_open := true; read_cnt := c; write_cnt := c + 1; data := replicate PIPESIZE 0 |};
         umem := u1; woken := w ++ [ReadCnt] |} =
    Done (RRead (Return (inl 1)), {| pin := empty_pipe (c + 1); umem := u2; woken := (w ++ [ReadCnt]) ++ [WriteCnt] |})) as E2.
  { unfold run_op. rewrite (bind_run _ _ _ (Return (inl 1))
      {| pin := empty_pipe (c + 1); umem := u2; woken := (w ++ [ReadCnt]) ++ [WriteCnt] |}); [done|].
    set (p1 := {| read_open := true; write_open := true; read_cnt := c; write_cnt := c + 1; data := replicate PIPESIZE 0 |}).
    unfold read_turn. rewrite (bind_run _ _ _ p1 {| pin := p1; umem := u1; woken := w ++ [ReadCnt] |}) by done.
    cbn [p1 read_cnt write_cnt write_open]. rewrite (proj2 (Z.eqb_neq c (c + 1))) by lia. cbn [andb].
    replace (Z.min 1 (wrap 32 (c + 1 - c))) with 1.
    2: { replace (c + 1 - c) with 1 by lia. reflexivity. }
    rewrite (bind_run _ _ _ 1 {| pin := empty_pipe (c + 1); umem := u2; woken := w ++ [ReadCnt] |}); [done|].
    change (Z.to_nat 1) with 1%nat. cbn [read_loop].
    rewrite (bind_run _ _ _ p1 {| pin := p1; umem := u1; woken := w ++ [ReadCnt] |}) by done.
    cbn [p1 read_cnt data]. rewrite lookup_replicate_2.
    2: { apply Z.ltb_lt in Hidx. rewrite length_replicate in Hidx.
         pose proof (Z.mod_pos_bound c PIPESIZE_U32 eq_refl). lia. }
    rewrite (bind_run _ _ _ 0 {| pin := p1; umem := u1; woken := w ++ [ReadCnt] |}) by done.
    rewrite Hw. reflexivity. }
  destruct (IH (c + 1) u2 ((w ++ [ReadCnt]) ++ [WriteCnt])) as (rs & w' & E3); [lia|lia|].
  eexists (_ :: _ :: rs), w'. cbn [rounds run_ops].
  rewrite (bind_run _ _ _ _ _ E1). rewrite (bind_run _ _ _ (RRead (Return (inl 1)) :: rs)
    {| pin := empty_pipe (c + 1 + Z.of_nat n); umem := {| fetched := fetched u2 ++ replicate n 0; delivered := delivered u2 ++ replicate n 0 |}; woken := w' |}).
  - cbn [u2 fetched delivered]. rewrite <- !app_assoc. cbn [app]. replace (c + 1 + Z.of_nat n) with (c + Z.of_nat (S n)) by lia.
    reflexivity.
  - rewrite (bind_run _ _ _ _ _ E2), (bind_run _ _ _ _ _ E3). reflexivity.
Qed.

Lemma run_ops_app {U} `{!UserMem U} os1 os2 (s s1 s2 : pstate U) rs1 rs2 :
  run_ops os1 s = Done (rs1, s1) → run_ops os2 s1 = Done (rs2, s2) →
  run_ops (os1 ++ os2) s = Done (rs1 ++ rs2, s2).
Proof.
  revert s rs1. induction os1 as [|o os1 IH]; intros s rs1 E1 E2.
  { by injection E1 as <- <-. }
  cbn [run_ops app] in *. mbind_inv E1 as r sa Ea E1. mbind_inv E1 as rs sb Eb E1.
  injection E1 as <- <-. rewrite (bind_run _ _ _ _ _ Ea), (bind_run _ _ _ _ _ (IH _ _ Eb E2)). done.
Qed.

(** Writing 177 bytes from counter [2^32 - 176] on, then reading one. *)
Lemma wrap_run F D w : ∃ rs rest s',
  run_ops [OWrite false 1 177 0; ORead false 1 1]
    {| pin := empty_pipe (2 ^ 32 - 176); umem := {| fetched := F; delivered := D |}; woken := w |} =
    Done (rs, s') ∧ fetched (umem s') = F ++ 1 :: rest ∧ delivered (umem s') = D ++ [177].
Proof.
  eexists _, _, _. split; [cbv -[app]; reflexivity|].
  cbn [umem fetched delivered]. split; [rewrite <- !app_assoc|]; reflexivity.
Qed.

(** The pipe is no queue any more once its 32-bit counters wrap: [PIPESIZE]
    (454) does not divide 2^32, so indices jump at the wrap and a byte that has
    not been read yet is overwritten.  There is a run of ordinary reads and
    writes, none of them failing, in which the bytes delivered to the reader
    are not a prefix of the bytes the writer handed over. *)
Theorem pipe_wrap_corrupts : ∃ os rs s',
  Forall (op_ok (λ _, True)) os ∧
  run_ops os {| pin := create; umem := {| fetched := []; delivered := [] |}; woken := [] |} = Done (rs, s') ∧
  ¬ (delivered (umem s') `prefix_of` fetched (umem s')).
Proof.
  assert (∃ n : nat, Z.of_nat n = 2 ^ 32 - 176) as [n Hn].
  { exists (Z.to_nat (2 ^ 32 - 176)). apply Z2Nat.id. by vm_compute. }
  destruct (rounds_run n 0 {| fetched := []; delivered := [] |} []) as (rs1 & w & E1); [done|rewrite Hn; lia|].
  rewrite Hn, Z.add_0_l in E1. cbn [fetched delivered app] in E1.
  destruct (wrap_run (replicate n 0) (replicate n 0) w) as (rs2 & rest & s' & E2 & Hf & Hd).
  exists (rounds n ++ [OWrite false 1 177 0; ORead false 1 1]), (rs1 ++ rs2), s'.
  split; [|split; [by eapply run_ops_app|]].
  - apply Forall_app. split.
    + clear. induction n as [|n IH]; [constructor|]. cbn [rounds]. do 2 (constructor; [by repeat split|]). done.
    + do 2 (constructor; [by repeat split|]). constructor.
  - rewrite Hf, Hd. intros Hp%prefix_app_inv. apply prefix_cons_inv_1 in Hp. done.
Qed.

(** Two writers, a reader whose buffer is shorter than what is queued, and the
    closing of both ends. *)
Lemma pipe_fifo_witness :
  let os := [OWrite false 10 3 0; OWrite false 20 2 0; ORead false 0 4; OClose true; ORead false 0 9; OClose false] in
  ∃ rs es q s', run_ops os {| pin := create; umem := {| fetched := []; delivered := [] |}; woken := [] |} = Done (rs, s') ∧
    explained os rs es {| fetched := []; delivered := [] |} (umem s') ∧
    concat (put <$> es) = concat (took <$> es) ++ q ∧ delivered (umem s') = [10; 11; 12; 20; 21].
Proof.
  intros os.
  destruct (pipe_fifo (λ _ : logmem, True) (λ _, True) os {| fetched := []; delivered := [] |})
    as (rs & es & q & s' & E & He & Hb & _).
  - intros u a b _ _. eexists _, _. split; [reflexivity|exact I].
  - intros u a _ _. eexists _, _, _. split; [reflexivity|exact I].
  - exact I.
  - repeat (constructor; [by repeat split|]). constructor.
  - reflexivity.
  - exists rs, es, q, s'. split; [exact E|]. split; [exact He|]. split; [exact Hb|].
    vm_compute in E. injection E as <- <-. reflexivity.
Defined.
