(* ===== verification/Block.v ===== *)
(** * Superblock, block bitmap and inode table ([kernel/src/fs/superblock.rs],
    [fs/block.rs], and the on-disk data of [fs/inode.rs])

    [BlockStore] is what the file system sees of the buffer cache and the log
    on its one device: a buffer is read, stored to, and then either handed to
    [LOG.write] or dropped; a thread that reads a block whose buffer it holds
    would wait for itself.  [SUPER_BLOCK] is a static, filled once. *)
From S2P Require Import Prelude Consts Bytes BlockCache.

(** ** The block store *)
Class BlockStore (D : Type) := {
  st_bread : Z → M D block;           (* BCACHE.bread *)
  st_set : Z → block → M D unit;      (* stores through raw_data_mut *)
  st_log : Z → M D unit;              (* LOG.write(buf), which takes the buffer *)
  st_drop : Z → M D unit;             (* drop(buf) *)
  (** [st_inv d v h]: the blocks read as [v], the buffers of [h] are held. *)
  st_inv : D → (Z → block) → list Z → Prop;
}.
Class BlockStoreLaws (D : Type) `{!BlockStore D} := {
  st_blocks d v h b : st_inv d v h → is_block (v b);
  st_bread_ok d v h b : st_inv d v h → b ∉ h →
    ∃ d', st_bread b d = Done (v b, d') ∧ st_inv d' v (b :: h);
  st_set_ok d v h b x : st_inv d v h → b ∈ h → is_block x →
    ∃ d', st_set b x d = Done (tt, d') ∧ st_inv d' (<[b := x]> v) h;
  st_log_ok d v h b : st_inv d v (b :: h) → ∃ d', st_log b d = Done (tt, d') ∧ st_inv d' v h;
  st_drop_ok d v h b : st_inv d v (b :: h) → ∃ d', st_drop b d = Done (tt, d') ∧ st_inv d' v h;
}.

(** ** On-disk inodes *)
Inductive InodeType := Empty | Directory | File | Device.
#[export] Instance InodeType_eq_dec : EqDecision InodeType.
Proof. solve_decision. Defined.
Definition itype_code (t : InodeType) : Z :=
  match t with Empty => 0 | Directory => 1 | File => 2 | Device => 3 end.
(** Another code is not a value of the Rust enum. *)
Definition itype_of (x : Z) : option InodeType :=
  if x =? 0 then Some Empty else if x =? 1 then Some Directory
  else if x =? 2 then Some File else if x =? 3 then Some Device else None.

Record DiskInode := {
  itype : InodeType; major : Z; minor : Z; nlink : Z; size : Z;
  addrs : list Z;                       (* NDIRECT + 1 block numbers *)
}.
Definition DiskInode_new : DiskInode :=
  {| itype := Empty; major := 0; minor := 0; nlink := 0; size := 0;
     addrs := replicate (Z.to_nat (NDIRECT + 1)) 0 |}.

(** The [repr(C)] layout: four [u16], one [u32], thirteen [u32]. *)
Definition DINODE_SIZE : Z := 64.
Definition IPB : Z := BSIZE / DINODE_SIZE.
Definition locate_inode_offset (inum : Z) : Z := inum `mod` IPB.

Definition read_dinode (buf : block) (offset : Z) : option DiskInode :=
  let o := Z.to_nat (offset * DINODE_SIZE) in
  t ← itype_of (read_u16 buf o);
  Some {| itype := t; major := read_u16 buf (o + 2); minor := read_u16 buf (o + 4);
          nlink := read_u16 buf (o + 6); size := read_u32 buf (o + 8);
          addrs := (λ i, read_u32 buf (o + 12 + 4 * i)) <$> seq 0 (Z.to_nat (NDIRECT + 1)) |}.
Definition dinode_bytes (d : DiskInode) : list Z :=
  le_bytes 2 (itype_code (itype d)) ++ le_bytes 2 (major d) ++ le_bytes 2 (minor d) ++
  le_bytes 2 (nlink d) ++ le_bytes 4 (size d) ++ concat (le_bytes 4 <$> addrs d).
Definition write_dinode (buf : block) (offset : Z) (d : DiskInode) : block :=
  write_at buf (Z.to_nat (offset * DINODE_SIZE)) (dinode_bytes d).

(** [DiskInode::try_alloc]: the zeroed inode with its new type. *)
Definition try_alloc (t : InodeType) (d : DiskInode) : option DiskInode :=
  if decide (itype d = Empty) then
    Some {| itype := t; major := 0; minor := 0; nlink := 0; size := 0;
            addrs := replicate (Z.to_nat (NDIRECT + 1)) 0 |}
  else None.

(** ** SuperBlock *)
Record RawSuperBlock := {
  magic : Z; sb_size : Z; nblocks : Z; ninodes : Z; nlog : Z; logstart : Z;
  inodestart : Z; bmapstart : Z;
}.
Definition read_raw (buf : block) : RawSuperBlock := {|
  magic := read_u32 buf 0; sb_size := read_u32 buf 4; nblocks := read_u32 buf 8;
  ninodes := read_u32 buf 12; nlog := read_u32 buf 16; logstart := read_u32 buf 20;
  inodestart := read_u32 buf 24; bmapstart := read_u32 buf 28 |}.

Record SuperBlock := { sb_data : option RawSuperBlock; initialized : bool }.
Definition SuperBlock_uninit : SuperBlock := {| sb_data := None; initialized := false |}.

Section ops.
Context {D : Type} `{!BlockStore D} `{!BitField}.

Record fsd := { store : D; sb : SuperBlock }.

Definition on_store {A} (m : M D A) : M fsd A := λ s,
  match m (store s) with
  | Done (a, d) => Done (a, {| store := d; sb := sb s |})
  | Panic why => Panic why
  end.
Definition bread (b : Z) : M fsd block := on_store (st_bread b).
Definition bset (b : Z) (x : block) : M fsd unit := on_store (st_set b x).
Definition log_write (b : Z) : M fsd unit := on_store (st_log b).
Definition bdrop (b : Z) : M fsd unit := on_store (st_drop b).

Definition sb_init : M fsd unit :=
  s ← gets sb;
  if initialized s then mret tt
  else
    buf ← bread 1;
    let raw := read_raw buf in
    if negb (magic raw =? FSMAGIC) then panic "invalid file system magic num"
    else
      modify (λ s, {| store := store s; sb := {| sb_data := Some raw; initialized := true |} |});;
      bdrop 1.

Definition sb_read : M fsd RawSuperBlock :=
  s ← gets sb;
  assertM (initialized s) "assertion failed: self.initialized.load(Ordering::Relaxed)";;
  unwrap (sb_data s) "uninitialised".
Definition read_log : M fsd (Z * Z) := r ← sb_read; mret (logstart r, nlog r).
Definition locate_inode (inum : Z) : M fsd Z :=
  r ← sb_read;
  if ninodes r <=? inum then panic "query inum larger than maximum inode nums"
  else lift (add32 (inum / IPB) (inodestart r)).
Definition inode_size : M fsd Z := r ← sb_read; mret (ninodes r).
Definition bitmap_blockno (blockno : Z) : M fsd Z :=
  r ← sb_read; lift (add32 (blockno / BPB) (bmapstart r)).
Definition get_size : M fsd Z := r ← sb_read; mret (sb_size r).

(** ** block.rs *)
(** The inner loop of [bm_alloc]: the first clear bit of this bitmap block
    below [total_block], if any. *)
Fixpoint bm_scan (n : nat) (buf : block) (base total_block offset : Z) : outcome (option Z) :=
  match n with
  | O => mret None
  | S n =>
      t ← add32 base offset;
      if total_block <=? t then mret None
      else
        bit ← unwrapO (bitmap_get buf (Z.to_nat offset)) "out of the buffer";
        if (bit : bool) then bm_scan n buf base total_block (offset + 1)
        else mret (Some offset)
  end.

Definition bm_alloc : M fsd Z :=
  total_block ← get_size;
  o ← for_ret (step_by 0 total_block BPB) (λ base,
    bn ← bitmap_blockno base;
    buf ← bread bn;
    r ← lift (bm_scan (Z.to_nat BPB) buf base total_block 0);
    match r with
    | Some offset =>
        bset bn (bitmap_set buf (Z.to_nat offset) true);;
        log_write bn;;
        free_bn ← lift (add32 base offset);
        _ ← bread free_bn;
        bset free_bn zero_block;;
        log_write free_bn;;
        mret (Some free_bn)
    | None => bdrop bn;; mret None
    end);
  match o with
  | Some free_bn => mret free_bn
  | None => panic "bitmap: cannot alloc any free block"
  end.

Definition bm_free (blockno : Z) : M fsd unit :=
  bm_blockno ← bitmap_blockno blockno;
  let bm_offset := blockno `mod` BPB in
  buf ← bread bm_blockno;
  bit ← unwrap (bitmap_get buf (Z.to_nat bm_offset)) "out of the buffer";
  if negb bit then panic "bitmap: double freeing a block"
  else
    bset bm_blockno (bitmap_set buf (Z.to_nat bm_offset) false);;
    log_write bm_blockno.

Definition inode_alloc (t : InodeType) : M fsd Z :=
  n ← inode_size;
  o ← for_ret (step_by 1 n 1) (λ inum,
    blockno ← locate_inode inum;
    let offset := locate_inode_offset inum in
    buf ← bread blockno;
    dinode ← unwrap (read_dinode buf offset) "invalid inode type";
    match try_alloc t dinode with
    | Some dinode =>
        bset blockno (write_dinode buf offset dinode);;
        log_write blockno;;
        mret (Some inum)
    | None => bdrop blockno;; mret None
    end);
  match o with
  | Some inum => mret inum
  | None => panic "not enough inode to alloc"
  end.
End ops.
Arguments fsd D : clear implicits.

(** * The on-disk inode *)
Definition is_u16 (x : Z) : Prop := 0 ≤ x < 2 ^ 16.
Record dinode_wf (d : DiskInode) : Prop := {
  dw_major : is_u16 (major d); dw_minor : is_u16 (minor d); dw_nlink : is_u16 (nlink d);
  dw_size : is_u32 (size d); dw_addrs : Forall is_u32 (addrs d);
  dw_len : length (addrs d) = Z.to_nat (NDIRECT + 1);
}.

Lemma itype_of_code t : itype_of (itype_code t) = Some t.
Proof. by destruct t. Qed.
Lemma itype_code_bound t : itype_code t `mod` 256 ^ Z.of_nat 2 = itype_code t.
Proof. by destruct t. Qed.

Lemma length_dinode_bytes d : dinode_wf d → length (dinode_bytes d) = 64%nat.
Proof.
  intros Hd. unfold dinode_bytes. rewrite !length_app, !length_le_bytes, length_concat_le, (dw_len _ Hd). done.
Qed.

Lemma dinode_bytes_is_byte d : Forall is_byte (dinode_bytes d).
Proof.
  unfold dinode_bytes. repeat (apply Forall_app; split; [apply le_bytes_is_byte|]).
  apply Forall_concat, Forall_fmap, Forall_true. intros x. apply le_bytes_is_byte.
Qed.

Lemma dinode_fields d : dinode_wf d →
  read_u16 (dinode_bytes d) 0 = itype_code (itype d) ∧ read_u16 (dinode_bytes d) 2 = major d ∧
  read_u16 (dinode_bytes d) 4 = minor d ∧ read_u16 (dinode_bytes d) 6 = nlink d ∧
  read_u32 (dinode_bytes d) 8 = size d ∧
  ∀ i x, addrs d !! i = Some x → read_u32 (dinode_bytes d) (12 + 4 * i) = x.
Proof.
  intros [Hma Hmi Hnl Hsz Had Hlen]. unfold dinode_bytes, read_u16, read_u32.
  assert (∀ x, is_u16 x → x `mod` 256 ^ Z.of_nat 2 = x) as H16 by (intros x Hx; apply Z.mod_small; exact Hx).
  assert (∀ x, is_u32 x → x `mod` 256 ^ Z.of_nat 4 = x) as H32 by (intros x Hx; apply Z.mod_small; exact Hx).
  split_and!.
  - by rewrite read_le_app_here, itype_code_bound.
  - rewrite (read_le_app_there 2 2 _ _ 0), read_le_app_here. auto.
  - rewrite (read_le_app_there 2 2 _ _ 2), (read_le_app_there 2 2 _ _ 0), read_le_app_here. auto.
  - rewrite (read_le_app_there 2 2 _ _ 4), (read_le_app_there 2 2 _ _ 2), (read_le_app_there 2 2 _ _ 0), read_le_app_here. auto.
  - rewrite (read_le_app_there 4 2 _ _ 6), (read_le_app_there 4 2 _ _ 4), (read_le_app_there 4 2 _ _ 2), (read_le_app_there 4 2 _ _ 0), read_le_app_here. auto.
  - intros i x Hi. change (12 + 4 * i)%nat with (2 + (2 + (2 + (2 + (4 + 4 * i)))))%nat.
    rewrite !read_le_app_there, (read_le_concat _ _ _ _ Hi). apply H32. by eapply Forall_lookup in Had.
Qed.

Lemma write_dinode_read buf d o o' :
  is_block buf → dinode_wf d → 0 ≤ o < IPB → 0 ≤ o' < IPB →
  is_block (write_dinode buf o d) ∧ read_dinode (write_dinode buf o d) o = Some d ∧
  (o ≠ o' → read_dinode (write_dinode buf o d) o' = read_dinode buf o').
Proof.
  intros [Hl Hb] Hd Ho Ho'. change IPB with 16 in *. assert (length buf = 1024%nat) as Hlb by done.
  pose proof (length_dinode_bytes d Hd) as Hlen. unfold write_dinode.
  assert (Z.to_nat (o * DINODE_SIZE) + length (dinode_bytes d) ≤ length buf)%nat as Hfit by (unfold DINODE_SIZE; lia).
  split; [split|split].
  - by rewrite length_write_at.
  - apply write_at_bytes; [done|apply dinode_bytes_is_byte].
  - destruct (dinode_fields d Hd) as (F1 & F2 & F3 & F4 & F5 & F6). unfold read_dinode.
    pose proof (dw_len _ Hd) as H13. change (Z.to_nat (NDIRECT + 1)) with 13%nat in *.
    set (p := Z.to_nat (o * DINODE_SIZE)) in *. unfold read_u16, read_u32 in *.
    replace (read_le 2 (write_at buf p (dinode_bytes d)) p) with (itype_code (itype d)).
    2: { rewrite <- F1. symmetry. pose proof (read_le_write_sub 2 buf (dinode_bytes d) p 0) as E.
         rewrite Nat.add_0_r in E. apply E; lia. }
    rewrite itype_of_code. cbn [mbind option_bind].
    rewrite !read_le_write_sub by lia. rewrite F2, F3, F4, F5. destruct d as [t ma mi nl sz ad]. cbn [addrs itype major minor nlink size] in *. do 2 f_equal.
    apply list_eq. intros i. rewrite list_lookup_fmap. destruct (decide (i < 13)%nat) as [Hi|Hi].
    + rewrite lookup_seq_lt by done. destruct (lookup_lt_is_Some_2 ad i) as [x Hx]; [by rewrite H13|].
      rewrite Hx. cbn [fmap option_fmap option_map]. f_equal. rewrite <- (F6 _ _ Hx).
      replace (p + 12 + 4 * (0 + i))%nat with (p + (12 + 4 * i))%nat by lia. apply read_le_write_sub; lia.
    + rewrite lookup_seq_ge by lia. symmetry. apply lookup_ge_None. lia.
  - intros Hne. unfold read_dinode. unfold read_u16, read_u32.
    assert (∀ n k, (k + n ≤ 64)%nat → read_le n (write_at buf (Z.to_nat (o * DINODE_SIZE)) (dinode_bytes d)) (Z.to_nat (o' * DINODE_SIZE) + k) =
      read_le n buf (Z.to_nat (o' * DINODE_SIZE) + k)) as Hr.
    { intros n k Hk. apply read_le_write_other; [done|]. unfold DINODE_SIZE. lia. }
    pose proof (Hr 2%nat 0%nat ltac:(lia)) as H0. rewrite Nat.add_0_r in H0. rewrite H0.
    rewrite !Hr by lia. destruct (itype_of _) as [t|]; [|done]. cbn [mbind option_bind]. do 2 f_equal.
    apply list_fmap_ext. intros i k Hk. apply lookup_seq in Hk as [-> Hi]. cbn in Hi. rewrite <- Nat.add_assoc.
    apply Hr. change (Z.to_nat (NDIRECT + 1)) with 13%nat in Hi. lia.
Qed.

(** The on-disk form of an inode: what [update] writes to a slot of an
    inode block, [lock] reads back from it, and every other slot of the block
    keeps its contents. *)
Theorem dinode_roundtrip buf d o o' :
  is_block buf → dinode_wf d → 0 ≤ o < IPB → 0 ≤ o' < IPB →
  is_block (write_dinode buf o d) ∧ read_dinode (write_dinode buf o d) o = Some d ∧
  (o ≠ o' → read_dinode (write_dinode buf o d) o' = read_dinode buf o').
Proof. apply write_dinode_read. Qed.

(** * The block bitmap *)
Record layout (r : RawSuperBlock) : Prop := {
  ly_size : 0 ≤ sb_size r; ly_last : sb_size r + BPB < 2 ^ 32;
  ly_bmap : 0 ≤ bmapstart r; ly_bmap_last : bmapstart r + sb_size r / BPB < 2 ^ 32;
}.
Definition bitmap_of (r : RawSuperBlock) (b : Z) : Z := b / BPB + bmapstart r.

Section bitmap_alloc.
Context {D : Type} `{!BlockStore D} `{!BlockStoreLaws D} `{BFL : BitFieldLaws}.

(** Block [b] is marked in use. *)
Definition used (r : RawSuperBlock) (v : Z → block) (b : Z) : bool :=
  default true (bitmap_get (v (bitmap_of r b)) (Z.to_nat (b `mod` BPB))).

(** The file system is mounted with superblock [r], the blocks read as [v]
    and the buffers of [h] are held. *)
Record mounted (s : fsd D) (r : RawSuperBlock) (v : Z → block) (h : list Z) : Prop := {
  mt_sb : sb s = {| sb_data := Some r; initialized := true |};
  mt_store : st_inv (store s) v h;
}.

Lemma sb_read_run s r v h : mounted s r v h → sb_read s = Done (r, s).
Proof. intros Hm. unfold sb_read. rewrite (bind_run _ _ _ (sb s) s) by done. by rewrite (mt_sb _ _ _ _ Hm). Qed.

Lemma bread_run s r v h b : mounted s r v h → b ∉ h →
  ∃ s', bread b s = Done (v b, s') ∧ mounted s' r v (b :: h).
Proof.
  intros [Hsb Hst] Hb. destruct (st_bread_ok _ _ _ _ Hst Hb) as (d & E & Hd).
  unfold bread, on_store. rewrite E. eexists. split; [done|]. by split.
Qed.
Lemma bset_run s r v h b x : mounted s r v h → b ∈ h → is_block x →
  ∃ s', bset b x s = Done (tt, s') ∧ mounted s' r (<[b := x]> v) h.
Proof.
  intros [Hsb Hst] Hb Hx. destruct (st_set_ok _ _ _ _ _ Hst Hb Hx) as (d & E & Hd).
  unfold bset, on_store. rewrite E. eexists. split; [done|]. by split.
Qed.
Lemma log_write_run s r v h b : mounted s r v (b :: h) →
  ∃ s', log_write b s = Done (tt, s') ∧ mounted s' r v h.
Proof.
  intros [Hsb Hst]. destruct (st_log_ok _ _ _ _ Hst) as (d & E & Hd).
  unfold log_write, on_store. rewrite E. eexists. split; [done|]. by split.
Qed.
Lemma bdrop_run s r v h b : mounted s r v (b :: h) →
  ∃ s', bdrop b s = Done (tt, s') ∧ mounted s' r v h.
Proof.
  intros [Hsb Hst]. destruct (st_drop_ok _ _ _ _ Hst) as (d & E & Hd).
  unfold bdrop, on_store. rewrite E. eexists. split; [done|]. by split.
Qed.
Lemma mounted_block s r v h b : mounted s r v h → is_block (v b).
Proof. intros [_ Hst]. by eapply st_blocks. Qed.

Lemma bitmap_blockno_run s r v h b : mounted s r v h → layout r → 0 ≤ b < sb_size r + 1 →
  bitmap_blockno b s = Done (bitmap_of r b, s).
Proof.
  intros Hm Hl Hb. unfold bitmap_blockno. rewrite (bind_run _ _ _ _ _ (sb_read_run _ _ _ _ Hm)).
  unfold lift. rewrite add_chk_ok; [done|]. pose proof (ly_bmap_last _ Hl).
  assert (b / BPB ≤ sb_size r / BPB) by (apply Z.div_le_mono; unfold BPB, BSIZE; lia). lia.
Qed.

Lemma used_bit r v b : is_block (v (bitmap_of r b)) →
  bitmap_get (v (bitmap_of r b)) (Z.to_nat (b `mod` BPB)) = Some (used r v b).
Proof.
  intros [Hl _]. unfold used. destruct (bitmap_get_Some (v (bitmap_of r b)) (Z.to_nat (b `mod` BPB))) as [x E].
  { pose proof (Z.mod_pos_bound b BPB eq_refl). change (Z.to_nat BSIZE) with 1024%nat in Hl.
    rewrite Hl. change BPB with 8192 in *. lia. }
  by rewrite E.
Qed.

(** The blocks whose bits are in the bitmap block of [base]. *)
Lemma bitmap_of_base r base o : base `mod` BPB = 0 → 0 ≤ o < BPB →
  bitmap_of r (base + o) = bitmap_of r base ∧ (base + o) `mod` BPB = o.
Proof. intros Hb Ho. unfold bitmap_of. change BPB with 8192 in *. split; dlia. Qed.

Lemma bm_scan_run n r v base o :
  is_block (v (bitmap_of r base)) → base `mod` BPB = 0 → 0 ≤ base → 0 ≤ o → o + Z.of_nat n = BPB →
  base < sb_size r → sb_size r + BPB < 2 ^ 32 →
  match bm_scan n (v (bitmap_of r base)) base (sb_size r) o with
  | Done (Some k) => o ≤ k < BPB ∧ base + k < sb_size r ∧ used r v (base + k) = false ∧
      ∀ j, o ≤ j < k → used r v (base + j) = true
  | Done None => ∀ j, o ≤ j < BPB → base + j < sb_size r → used r v (base + j) = true
  | Panic _ => False
  end.
Proof.
  intros Hblk Hb Hb0. revert o. induction n as [|n IH]; intros o Ho Hn Hlt H32; cbn [bm_scan].
  { intros j Hj. lia. }
  rewrite add_chk_ok by lia. cbn [mbind outcome_bind].
  destruct (sb_size r <=? base + o) eqn:El.
  { apply Z.leb_le in El. intros j Hj. lia. }
  apply Z.leb_gt in El. destruct (bitmap_of_base r base o Hb) as [E1 E2]; [lia|].
  pose proof (used_bit r v (base + o)) as Hu. rewrite E1, E2 in Hu. rewrite Hu by done. cbn [unwrapO mbind outcome_bind].
  destruct (used r v (base + o)) eqn:Eu.
  - specialize (IH (o + 1) ltac:(lia) ltac:(lia) Hlt H32).
    assert (∀ j, o ≤ j → (o + 1 ≤ j → used r v (base + j) = true) → used r v (base + j) = true) as Hstep.
    { intros j Hj Hn'. destruct (decide (j = o)) as [->|]; [done|]. apply Hn'. lia. }
    destruct (bm_scan n _ _ _ _) as [[k|]|]; [|intros j Hj Hs; apply Hstep; [lia|]; intros; apply IH; lia|done].
    destruct IH as (Hk & Hs & Hf & Hall). split_and!; try lia; [done|].
    intros j Hj. apply Hstep; [lia|]. intros. apply Hall. lia.
  - cbn. split_and!; try lia. done.
Qed.

(** The blocks after [b] was marked, and after it was handed out zeroed. *)
Definition mark (r : RawSuperBlock) (v : Z → block) (b : Z) (x : bool) : Z → block :=
  <[bitmap_of r b := bitmap_set (v (bitmap_of r b)) (Z.to_nat (b `mod` BPB)) x]> v.
Definition handed_out (r : RawSuperBlock) (v : Z → block) (b : Z) : Z → block :=
  <[b := zero_block]> (mark r v b true).

Definition least_free (r : RawSuperBlock) (v : Z → block) (b : Z) : Prop :=
  0 ≤ b < sb_size r ∧ used r v b = false ∧ ∀ c, 0 ≤ c < b → used r v c = true.

(** What the callers respect: the bitmap is not held, nor a free block, and
    the bitmap marks itself. *)
Record bitmap_ok (r : RawSuperBlock) (v : Z → block) (h : list Z) : Prop := {
  bo_layout : layout r;
  bo_held c : 0 ≤ c < sb_size r → (bitmap_of r c ∉ h);
  bo_free b : 0 ≤ b < sb_size r → used r v b = false → (b ∉ h);
  bo_self b c : 0 ≤ b < sb_size r → 0 ≤ c < sb_size r → used r v b = false → b ≠ bitmap_of r c;
}.

Lemma is_block_zero : is_block zero_block.
Proof. split; [done|by apply Forall_replicate]. Qed.
Lemma is_block_bitmap_set x i b : is_block x → is_block (bitmap_set x i b).
Proof. intros [Hl Hb]. split; [by rewrite length_bitmap_set|by apply bitmap_set_bytes]. Qed.

Lemma used_mark r v b x c :
  is_block (v (bitmap_of r b)) → 0 ≤ b → 0 ≤ c →
  used r (mark r v b x) c = if decide (c = b) then x else used r v c.
Proof.
  intros [Hl Hb] Hb0 Hc0. unfold used, mark.
  pose proof (Z.mod_pos_bound b BPB eq_refl) as Hm. pose proof (Z.mod_pos_bound c BPB eq_refl) as Hm'.
  destruct (decide (bitmap_of r c = bitmap_of r b)) as [E|E].
  - rewrite E, fn_lookup_insert. destruct (decide (c = b)) as [->|Hne].
    + rewrite bitmap_get_set_same; [done|done|]. rewrite Hl. change (Z.to_nat BSIZE) with 1024%nat.
      change BPB with 8192 in *. lia.
    + rewrite bitmap_get_set_other; [done|done|]. intros Hi. apply Z2Nat.inj in Hi; [|lia..].
      apply Hne. unfold bitmap_of in E. rewrite (Z.div_mod c BPB), (Z.div_mod b BPB) by done.
      replace (c / BPB) with (b / BPB) by lia. lia.
  - rewrite fn_lookup_insert_ne by done. by destruct (decide (c = b)) as [->|].
Qed.

Lemma used_insert_other r v b x c : b ≠ bitmap_of r c → used r (<[b := x]> v) c = used r v c.
Proof. intros Hn. unfold used. by rewrite fn_lookup_insert_ne. Qed.

(** Marking the block at offset [o] of a bitmap block that is held, and zeroing it. *)
Lemma take_block_run s r v h base o :
  mounted s r v (bitmap_of r base :: h) → bitmap_ok r v h →
  base `mod` BPB = 0 → 0 ≤ base → 0 ≤ o < BPB → base + o < sb_size r → used r v (base + o) = false →
  ∃ s', (bset (bitmap_of r base) (bitmap_set (v (bitmap_of r base)) (Z.to_nat o) true);;
         log_write (bitmap_of r base);;
         free_bn ← lift (add32 base o);
         _ ← bread free_bn;
         bset free_bn zero_block;;
         log_write free_bn;;
         mret (Some free_bn)) s = Done (Some (base + o), s') ∧ mounted s' r (handed_out r v (base + o)) h.
Proof.
  intros Hm Hok Hb Hb0 Ho Hlt Hfree. destruct (bitmap_of_base r base o Hb Ho) as [E1 E2].
  pose proof (ly_last _ (bo_layout _ _ _ Hok)) as H32.
  destruct (bset_run s r v _ (bitmap_of r base) (bitmap_set (v (bitmap_of r base)) (Z.to_nat o) true) Hm)
    as (s1 & R1 & Hm1); [by left|by apply is_block_bitmap_set; eapply mounted_block|].
  rewrite (bind_run _ _ _ _ _ R1). destruct (log_write_run _ _ _ _ _ Hm1) as (s2 & R2 & Hm2).
  rewrite (bind_run _ _ _ _ _ R2). rewrite (bind_run _ _ _ (base + o) s2).
  2: { unfold lift. by rewrite add_chk_ok by lia. }
  destruct (bread_run _ _ _ _ (base + o) Hm2) as (s3 & R3 & Hm3).
  { eapply bo_free; [done|lia|done]. }
  rewrite (bind_run _ _ _ _ _ R3). destruct (bset_run _ _ _ _ (base + o) zero_block Hm3) as (s4 & R4 & Hm4).
  { by left. } { apply is_block_zero. }
  rewrite (bind_run _ _ _ _ _ R4). destruct (log_write_run _ _ _ _ _ Hm4) as (s5 & R5 & Hm5).
  rewrite (bind_run _ _ _ _ _ R5). exists s5. split; [done|].
  unfold handed_out, mark. by rewrite E1, E2.
Qed.

Lemma bm_loop_run n s r v h base :
  mounted s r v h → bitmap_ok r v h → base `mod` BPB = 0 → 0 ≤ base →
  Z.to_nat ((sb_size r - base + BPB - 1) / BPB) = n →
  (∀ c, 0 ≤ c < base → c < sb_size r → used r v c = true) →
  ∃ o s', for_ret (step_by base (sb_size r) BPB) (λ base,
    bn ← bitmap_blockno base;
    buf ← bread bn;
    r ← lift (bm_scan (Z.to_nat BPB) buf base (sb_size r) 0);
    match r with
    | Some offset =>
        bset bn (bitmap_set buf (Z.to_nat offset) true);;
        log_write bn;;
        free_bn ← lift (add32 base offset);
        _ ← bread free_bn;
        bset free_bn zero_block;;
        log_write free_bn;;
        mret (Some free_bn)
    | None => bdrop bn;; mret None
    end) s = Done (o, s') ∧
    match o with
    | Some b => least_free r v b ∧ mounted s' r (handed_out r v b) h
    | None => ∀ c, 0 ≤ c < sb_size r → used r v c = true
    end.
Proof.
  revert s base. induction n as [n IH] using lt_wf_ind. intros s base Hm Hok Hb Hb0 Hn Hall.
  pose proof (bo_layout _ _ _ Hok) as Hly. pose proof (ly_last _ Hly) as H32.
  destruct (Z.lt_ge_cases base (sb_size r)) as [Hlt|Hge].
  2: { rewrite step_by_nil by (done || lia). exists None, s. split; [done|]. intros c Hc. apply Hall; lia. }
  rewrite step_by_cons by (done || lia). cbn [for_ret].
  destruct (bread_run s r v h (bitmap_of r base) Hm) as (s1 & R1 & Hm1); [apply (bo_held _ _ _ Hok); lia|].
  pose proof (bm_scan_run (Z.to_nat BPB) r v base 0 (mounted_block _ _ _ _ _ Hm) Hb Hb0 ltac:(lia) eq_refl Hlt H32) as Hscan.
  destruct (bm_scan (Z.to_nat BPB) (v (bitmap_of r base)) base (sb_size r) 0) as [[o|]|] eqn:Es; [| |done].
  - destruct Hscan as (Ho & Hob & Hfree & Hbef).
    destruct (take_block_run s1 r v h base o) as (s2 & R2 & Hm2); [done..|].
    exists (Some (base + o)), s2. split; [|split; [|done]].
    + rewrite (bind_run _ _ _ (Some (base + o)) s2).
      2: { cbn beta. rewrite (bind_run _ _ _ _ _ (bitmap_blockno_run _ _ _ _ base Hm Hly ltac:(lia))), (bind_run _ _ _ _ _ R1).
           rewrite (bind_run _ _ _ (Some o) s1) by (unfold lift; by rewrite Es). exact R2. }
      done.
    + split; [lia|]. split; [done|]. intros c Hc. destruct (Z.lt_ge_cases c base); [apply Hall; lia|].
      replace c with (base + (c - base)) by lia. apply Hbef. lia.
  - destruct (bdrop_run _ _ _ _ _ Hm1) as (s2 & R2 & Hm2).
    destruct (IH (Z.to_nat ((sb_size r - (base + BPB) + BPB - 1) / BPB))) with (s := s2) (base := base + BPB)
      as (o & s3 & R3 & H3); try done; try (clear Hscan Hall Es; change BPB with 8192 in *; dlia).
    { intros c Hc Hcs. destruct (Z.lt_ge_cases c base); [apply Hall; lia|].
      replace c with (base + (c - base)) by lia. apply Hscan; lia. }
    exists o, s3. split; [|done].
    rewrite (bind_run _ _ _ None s2); [exact R3|]. cbn beta.
    rewrite (bind_run _ _ _ _ _ (bitmap_blockno_run _ _ _ _ base Hm Hly ltac:(lia))), (bind_run _ _ _ _ _ R1).
    rewrite (bind_run _ _ _ None s1) by (unfold lift; by rewrite Es). by rewrite (bind_run _ _ _ _ _ R2).
Qed.

Lemma used_alloc r v h b c : bitmap_ok r v h → is_block (v (bitmap_of r b)) →
  0 ≤ b < sb_size r → used r v b = false → 0 ≤ c < sb_size r →
  used r (handed_out r v b) c = if decide (c = b) then true else used r v c.
Proof.
  intros Hok Hblk Hb Hf Hc. unfold handed_out. rewrite used_insert_other by (by eapply bo_self).
  apply used_mark; [done|lia..].
Qed.

Lemma bm_alloc_run s r v h : mounted s r v h → bitmap_ok r v h →
  match bm_alloc s with
  | Done (b, s') => least_free r v b ∧ mounted s' r (handed_out r v b) h
  | Panic _ => ∀ c, 0 ≤ c < sb_size r → used r v c = true
  end.
Proof.
  intros Hm Hok. destruct (bm_loop_run _ s r v h 0 Hm Hok eq_refl (Z.le_refl _) eq_refl) as (o & s1 & R & H1); [lia|].
  unfold bm_alloc. rewrite (bind_run _ _ _ (sb_size r) s).
  2: { unfold get_size. by rewrite (bind_run _ _ _ _ _ (sb_read_run _ _ _ _ Hm)). }
  rewrite (bind_run _ _ _ o s1) by exact R. by destruct o.
Qed.

Lemma bm_free_run s r v h b : mounted s r v h → bitmap_ok r v h → 0 ≤ b < sb_size r →
  if used r v b then ∃ s', bm_free b s = Done (tt, s') ∧ mounted s' r (mark r v b false) h
  else bm_free b s = Panic "bitmap: double freeing a block".
Proof.
  intros Hm Hok Hb. unfold bm_free. pose proof (bo_layout _ _ _ Hok) as Hly.
  rewrite (bind_run _ _ _ _ _ (bitmap_blockno_run _ _ _ _ b Hm Hly ltac:(lia))).
  destruct (bread_run s r v h (bitmap_of r b) Hm) as (s1 & R1 & Hm1); [by apply (bo_held _ _ _ Hok)|].
  rewrite (bind_run _ _ _ _ _ R1), used_bit by (by eapply mounted_block). cbn [unwrap].
  rewrite (bind_run _ _ _ (used r v b) s1) by done.
  destruct (used r v b) eqn:Eu; cbn [negb]; [|done].
  destruct (bset_run s1 r v _ (bitmap_of r b) (bitmap_set (v (bitmap_of r b)) (Z.to_nat (b `mod` BPB)) false) Hm1)
    as (s2 & R2 & Hm2); [by left|by apply is_block_bitmap_set; eapply mounted_block|].
  rewrite (bind_run _ _ _ _ _ R2). destruct (log_write_run _ _ _ _ _ Hm2) as (s3 & R3 & Hm3).
  by exists s3.
Qed.

End bitmap_alloc.

(** * The inode table *)
Record inodes_ok (r : RawSuperBlock) (v : Z → block) (h : list Z) : Prop := {
  io_last : 0 ≤ inodestart r ∧ ninodes r + inodestart r < 2 ^ 32;
  io_held i : 0 ≤ i < ninodes r → (i / IPB + inodestart r ∉ h);
}.

Section inode_alloc.
Context {D : Type} `{!BlockStore D} `{!BlockStoreLaws D} `{BFL : BitFieldLaws}.

Definition inode_block (r : RawSuperBlock) (i : Z) : Z := i / IPB + inodestart r.
(** The on-disk inode [i]. *)
Definition dinode_at (r : RawSuperBlock) (v : Z → block) (i : Z) : option DiskInode :=
  read_dinode (v (inode_block r i)) (locate_inode_offset i).
Definition set_dinode (r : RawSuperBlock) (v : Z → block) (i : Z) (d : DiskInode) : Z → block :=
  <[inode_block r i := write_dinode (v (inode_block r i)) (locate_inode_offset i) d]> v.
Definition fresh_dinode (t : InodeType) : DiskInode :=
  {| itype := t; major := 0; minor := 0; nlink := 0; size := 0;
     addrs := replicate (Z.to_nat (NDIRECT + 1)) 0 |}.

Lemma fresh_dinode_wf t : dinode_wf (fresh_dinode t).
Proof. split; try done. by apply Forall_replicate. Qed.

Lemma offset_bound i : 0 ≤ locate_inode_offset i < IPB.
Proof. unfold locate_inode_offset. by apply Z.mod_pos_bound. Qed.

Lemma set_dinode_block r v i d : is_block (v (inode_block r i)) → dinode_wf d →
  is_block (write_dinode (v (inode_block r i)) (locate_inode_offset i) d).
Proof. intros Hb Hd. by apply (write_dinode_read _ _ _ 0 Hb Hd (offset_bound i)). Qed.

Lemma dinode_at_set r v i d j : is_block (v (inode_block r i)) → dinode_wf d → 0 ≤ i → 0 ≤ j →
  dinode_at r (set_dinode r v i d) j = if decide (j = i) then Some d else dinode_at r v j.
Proof.
  intros Hb Hd Hi Hj. unfold dinode_at, set_dinode.
  destruct (write_dinode_read _ _ _ (locate_inode_offset j) Hb Hd (offset_bound i) (offset_bound j)) as (_ & Hs & Ho).
  destruct (decide (j = i)) as [->|Hne]; [by rewrite fn_lookup_insert|].
  destruct (decide (inode_block r i = inode_block r j)) as [E|E]; [|by rewrite fn_lookup_insert_ne].
  rewrite <- E, fn_lookup_insert. rewrite Ho, E; [done|]. unfold inode_block, locate_inode_offset in *.
  intros Em. apply Hne. rewrite (Z.div_mod i IPB), (Z.div_mod j IPB) by done.
  replace (i / IPB) with (j / IPB) by lia. lia.
Qed.

Lemma locate_inode_run s r v h i : mounted s r v h → inodes_ok r v h → 0 ≤ i < ninodes r →
  locate_inode i s = Done (inode_block r i, s).
Proof.
  intros Hm Hok Hi. unfold locate_inode. rewrite (bind_run _ _ _ _ _ (sb_read_run _ _ _ _ Hm)).
  rewrite (proj2 (Z.leb_gt _ _)) by lia. unfold lift. pose proof (io_last _ _ _ Hok).
  rewrite add_chk_ok; [done|]. assert (i / IPB ≤ i) by (apply Z.div_le_upper_bound; [done|change IPB with 16; lia]). lia.
Qed.

Definition least_empty (r : RawSuperBlock) (v : Z → block) (i : Z) : Prop :=
  1 ≤ i < ninodes r ∧ itype <$> dinode_at r v i = Some Empty ∧
  ∀ j, 1 ≤ j < i → itype <$> dinode_at r v j ≠ Some Empty.

Lemma inode_loop_run n t s r v h base :
  mounted s r v h → inodes_ok r v h → (∀ i, 1 ≤ i < ninodes r → is_Some (dinode_at r v i)) →
  1 ≤ base → Z.to_nat (ninodes r - base) = n →
  (∀ j, 1 ≤ j < base → j < ninodes r → itype <$> dinode_at r v j ≠ Some Empty) →
  ∃ o s', for_ret (step_by base (ninodes r) 1) (λ inum,
    blockno ← locate_inode inum;
    let offset := locate_inode_offset inum in
    buf ← bread blockno;
    dinode ← unwrap (read_dinode buf offset) "invalid inode type";
    match try_alloc t dinode with
    | Some dinode =>
        bset blockno (write_dinode buf offset dinode);;
        log_write blockno;;
        mret (Some inum)
    | None => bdrop blockno;; mret None
    end) s = Done (o, s') ∧
    match o with
    | Some i => least_empty r v i ∧ mounted s' r (set_dinode r v i (fresh_dinode t)) h
    | None => ∀ i, 1 ≤ i < ninodes r → itype <$> dinode_at r v i ≠ Some Empty
    end.
Proof.
  revert s base. induction n as [|n IH]; intros s base Hm Hok Hty Hb1 Hn Hall.
  { rewrite step_by_nil by lia. exists None, s. split; [done|]. intros i Hi. apply Hall; lia. }
  rewrite step_by_cons by lia. cbn [for_ret].
  destruct (bread_run s r v h (inode_block r base) Hm) as (s1 & R1 & Hm1); [apply (io_held _ _ _ Hok); lia|].
  destruct (Hty base ltac:(lia)) as [d Ed]. pose proof Ed as Ed'. unfold dinode_at in Ed.
  pose proof (locate_inode_run _ _ _ _ base Hm Hok ltac:(lia)) as RL.
  destruct (decide (itype d = Empty)) as [He|He].
  - destruct (bset_run s1 r v _ (inode_block r base)
      (write_dinode (v (inode_block r base)) (locate_inode_offset base) (fresh_dinode t)) Hm1) as (s2 & R2 & Hm2).
    { by left. } { apply set_dinode_block; [by eapply mounted_block|apply fresh_dinode_wf]. }
    destruct (log_write_run _ _ _ _ _ Hm2) as (s3 & R3 & Hm3).
    exists (Some base), s3. split; [|split; [|done]].
    + rewrite (bind_run _ _ _ (Some base) s3); [done|]. cbn beta.
      rewrite (bind_run _ _ _ _ _ RL), (bind_run _ _ _ _ _ R1), Ed. cbn [unwrap].
      rewrite (bind_run _ _ _ d s1) by done. unfold try_alloc. rewrite decide_True by done.
      by rewrite (bind_run _ _ _ _ _ R2), (bind_run _ _ _ _ _ R3).
    + split; [lia|]. rewrite Ed'. cbn. rewrite He. split; [done|]. intros j Hj. apply Hall; lia.
  - destruct (bdrop_run _ _ _ _ _ Hm1) as (s2 & R2 & Hm2).
    destruct (IH s2 (base + 1) Hm2 Hok Hty ltac:(lia) ltac:(lia)) as (o & s3 & R3 & H3).
    { intros j Hj Hjn. destruct (decide (j = base)) as [->|]; [|apply Hall; lia]. rewrite Ed'. cbn. congruence. }
    exists o, s3. split; [|done]. rewrite (bind_run _ _ _ None s2); [exact R3|]. cbn beta.
    rewrite (bind_run _ _ _ _ _ RL), (bind_run _ _ _ _ _ R1), Ed. cbn [unwrap].
    rewrite (bind_run _ _ _ d s1) by done. unfold try_alloc. rewrite decide_False by done.
    by rewrite (bind_run _ _ _ _ _ R2).
Qed.

(** The inode allocator.  [inode_alloc] returns the least inode number
    from 1 on whose on-disk inode is [Empty], and panics exactly when there is
    none; that inode becomes a zeroed one of the new type, and every other
    inode and every other block stays as it was. *)
Theorem inode_alloc_correct t s r v h :
  mounted s r v h → inodes_ok r v h → (∀ i, 1 ≤ i < ninodes r → is_Some (dinode_at r v i)) →
  (panics (inode_alloc t s) ↔ ∀ i, 1 ≤ i < ninodes r → itype <$> dinode_at r v i ≠ Some Empty) ∧
  ∀ i s', inode_alloc t s = Done (i, s') → ∃ v',
    mounted s' r v' h ∧ least_empty r v i ∧ dinode_at r v' i = Some (fresh_dinode t) ∧
    (∀ j, 0 ≤ j → j ≠ i → dinode_at r v' j = dinode_at r v j) ∧
    (∀ b, b ≠ inode_block r i → v' b = v b).
Proof.
  intros Hm Hok Hty.
  destruct (inode_loop_run _ t s r v h 1 Hm Hok Hty (Z.le_refl _) eq_refl) as (o & s1 & R & H1); [lia|].
  assert (inode_alloc t s = match o with Some i => Done (i, s1) | None => Panic "not enough inode to alloc" end) as ->.
  { unfold inode_alloc. rewrite (bind_run _ _ _ (ninodes r) s).
    2: { unfold inode_size. by rewrite (bind_run _ _ _ _ _ (sb_read_run _ _ _ _ Hm)). }
    rewrite (bind_run _ _ _ o s1) by exact R. by destruct o. }
  destruct o as [i|].
  - destruct H1 as (Hl & Hm1). pose proof Hl as (Hi & He & _). split.
    { split; [by intros [? ?]|]. intros Hall. by destruct (Hall i Hi). }
    intros i' s' [= <- <-]. eexists. split; [done|]. split; [done|].
    assert (is_block (v (inode_block r i))) as Hb by by eapply mounted_block.
    split; [|split].
    + rewrite dinode_at_set, decide_True by (done || apply fresh_dinode_wf || lia). done.
    + intros j Hj Hne. by rewrite dinode_at_set, decide_False by (done || apply fresh_dinode_wf || lia).
    + intros b Hne. unfold set_dinode. by rewrite fn_lookup_insert_ne.
  - split; [|done]. split; [done|]. intros _. by eexists.
Qed.
End inode_alloc.

(** ** A plain block store, to run the definitions *)
Record plain := { pv : Z → block; ph : list Z }.
#[export] Instance plain_store : BlockStore plain := {
  st_bread b d :=
    if decide (b ∈ ph d) then Panic "sleeps for ever on its own buffer"
    else Done (pv d b, {| pv := pv d; ph := b :: ph d |});
  st_set b x d :=
    if decide (b ∈ ph d ∧ is_block x) then Done (tt, {| pv := <[b := x]> (pv d); ph := ph d |})
    else Panic "not held";
  st_log b d := Done (tt, {| pv := pv d; ph := filter (λ c, c ≠ b) (ph d) |});
  st_drop b d := Done (tt, {| pv := pv d; ph := filter (λ c, c ≠ b) (ph d) |});
  st_inv d v h := pv d = v ∧ ph d = h ∧ NoDup h ∧ ∀ b, is_block (v b);
}.
#[export] Instance plain_laws : BlockStoreLaws plain.
Proof.
  assert (∀ b (h : list Z), NoDup (b :: h) → filter (λ c, c ≠ b) (b :: h) = h ∧ NoDup h) as Hfil.
  { intros b h [Hb Hn]%NoDup_cons. split; [|done]. rewrite filter_cons_False by naive_solver.
    apply filter_all. intros x Hx ->. done. }
  split; cbn.
  - intros d v h b (_ & _ & _ & Hb). apply Hb.
  - intros [v0 h0] v h b (<- & <- & Hn & Hb) Hnot. rewrite decide_False by done. cbn in *.
    eexists. split; [done|]. split; [done|]. split; [done|]. split; [by constructor|done].
  - intros [v0 h0] v h b x (<- & <- & Hn & Hb) Hin Hx. rewrite decide_True by done. cbn in *.
    eexists. split; [done|]. split; [done|]. split; [done|]. split; [done|].
    intros c. destruct (decide (b = c)) as [->|]; [by rewrite fn_lookup_insert|by rewrite fn_lookup_insert_ne].
  - intros [v0 h0] v h b (<- & Hh & Hn & Hb). cbn [pv ph] in *. subst h0. destruct (Hfil _ _ Hn) as [-> Hn'].
    eexists. split; [done|]. done.
  - intros [v0 h0] v h b (<- & Hh & Hn & Hb). cbn [pv ph] in *. subst h0. destruct (Hfil _ _ Hn) as [-> Hn'].
    eexists. split; [done|]. done.
Qed.

(** A file system of 16 blocks: block 3 is the bitmap, where blocks 0 to 7 are
    in use; block 2 holds the inodes, all of them empty. *)
Module Small.
Definition raw : RawSuperBlock := {|
  magic := FSMAGIC; sb_size := 16; nblocks := 12; ninodes := 16; nlog := 1; logstart := 4;
  inodestart := 2; bmapstart := 3 |}.
Definition blocks : Z → block := <[3 := write_at zero_block 0 [255]]> (λ _, zero_block).
Definition fs : fsd plain :=
  {| store := {| pv := blocks; ph := [] |}; sb := {| sb_data := Some raw; initialized := true |} |}.

Lemma blocks_ok b : is_block (blocks b).
Proof.
  unfold blocks. destruct (decide (3 = b)) as [<-|].
  - rewrite fn_lookup_insert. split; [done|]. apply write_at_bytes; [by apply Forall_replicate|].
    by repeat constructor.
  - rewrite fn_lookup_insert_ne by done. apply is_block_zero.
Qed.
Lemma fs_mounted : mounted fs raw blocks [].
Proof. split; [done|]. split; [done|]. split; [done|]. split; [constructor|apply blocks_ok]. Qed.

Lemma used_low b : 0 ≤ b < 16 → used raw blocks b = (b <? 8).
Proof.
  intros Hb. assert (b ∈ seqZ 0 16) as Hin by (apply elem_of_seqZ; lia). revert b Hin Hb.
  rewrite <- (Forall_forall (λ b, 0 ≤ b < 16 → used raw blocks b = (b <? 8)) (seqZ 0 16)).
  repeat constructor.
Qed.
Lemma raw_bitmap c : 0 ≤ c < 16 → bitmap_of raw c = 3.
Proof. intros Hc. unfold bitmap_of. rewrite Z.div_small; [done|]. change BPB with 8192. lia. Qed.
Lemma fs_bitmap : bitmap_ok raw blocks [].
Proof.
  split; cbn [sb_size raw]; try (intros; apply not_elem_of_nil).
  - by split.
  - intros b c Hb Hc Hf. rewrite raw_bitmap by done. intros ->. by rewrite used_low in Hf.
Qed.
Lemma fs_inodes : inodes_ok raw blocks [].
Proof. split; [done|]. intros. apply not_elem_of_nil. Qed.
Lemma fs_dinode i : 1 ≤ i < 16 → is_Some (dinode_at raw blocks i).
Proof.
  intros Hi. unfold dinode_at, inode_block. rewrite Z.div_small by (change IPB with 16; lia).
  replace (locate_inode_offset i) with i by (unfold locate_inode_offset; rewrite Z.mod_small; [done|change IPB with 16; lia]).
  assert (i ∈ seqZ 0 16) as Hin by (apply elem_of_seqZ; lia). clear Hi. revert i Hin.
  rewrite <- (Forall_forall (λ i, is_Some (read_dinode _ i)) (seqZ 0 16)). repeat constructor; by eexists.
Qed.
End Small.

Lemma dinode_roundtrip_witness :
  let d := {| itype := File; major := 0; minor := 0; nlink := 1; size := 5; addrs := replicate 13 9 |} in
  read_dinode (write_dinode zero_block 3 d) 3 = Some d.
Proof.
  intros d. apply (dinode_roundtrip zero_block d 3 4); [apply is_block_zero|split; try done; by repeat constructor|done..].
Defined.


Lemma inode_alloc_correct_witness :
  ∃ i s', inode_alloc File Small.fs = Done (i, s') ∧ least_empty Small.raw Small.blocks i.
Proof.
  destruct (inode_alloc_correct File _ _ _ _ Small.fs_mounted Small.fs_inodes Small.fs_dinode) as [Hp Hd].
  destruct (inode_alloc File Small.fs) as [[i s']|why] eqn:E.
  - exists i, s'. split; [done|]. by destruct (Hd i s' eq_refl) as (v' & _ & Hl & _).
  - exfalso. assert (panics (Panic why : outcome (Z * fsd plain))) as Hpan by by eexists.
    by destruct (proj1 Hp Hpan 1).
Defined.
