(* ===== verification/Inode.v ===== *)
(** * In-memory inodes ([kernel/src/fs/inode.rs]: [InodeData], [FileStat])

    The state has the block store with the superblock ([Block.fsd]), the
    memory of the calling process, one kernel buffer [kbuf] and the inode
    cache.  A kernel pointer of an [Address] points into [kbuf]: the functions
    that pass one ([dir_lookup] and so on) make it point to a local variable of
    theirs, and a local is dead before the next one is used.

    Everything here runs with the inode's sleep lock held; [self] is the index
    of the cache entry.  The file system has the one device [ROOTDEV], so the
    block numbers name the blocks. *)
From S2P Require Import Prelude Consts Bytes BlockCache Addr PageTable Uvm Block.

(** ** Data *)
Record Inode := { in_dev : Z; in_inum : Z; in_index : nat }.
Record InodeMeta := { im_dev : Z; im_inum : Z; refs : Z }.
Definition InodeMeta_new : InodeMeta := {| im_dev := 0; im_inum := 0; refs := 0 |}.
Record InodeData := { valid : option (Z * Z); dinode : DiskInode }.
Definition InodeData_new : InodeData := {| valid := None; dinode := DiskInode_new |}.

Record FileStat := {
  st_dev : Z; st_inum : Z; st_itype : InodeType; st_nlink : Z; st_size : Z;
}.
Definition FileStat_uninit : FileStat :=
  {| st_dev := 0; st_inum := 0; st_itype := Empty; st_nlink := 0; st_size := 0 |}.

(** Updates of a [DiskInode]. *)
Definition with_nlink (n : Z) (d : DiskInode) : DiskInode :=
  {| itype := itype d; major := major d; minor := minor d; nlink := n; size := size d; addrs := addrs d |}.
Definition with_size (n : Z) (d : DiskInode) : DiskInode :=
  {| itype := itype d; major := major d; minor := minor d; nlink := nlink d; size := n; addrs := addrs d |}.
Definition with_addr (i : nat) (b : Z) (d : DiskInode) : DiskInode :=
  {| itype := itype d; major := major d; minor := minor d; nlink := nlink d; size := size d;
     addrs := <[i := b]> (addrs d) |}.
Definition with_itype (t : InodeType) (d : DiskInode) : DiskInode :=
  {| itype := t; major := major d; minor := minor d; nlink := nlink d; size := size d; addrs := addrs d |}.
Definition with_major_minor (ma mi : Z) (d : DiskInode) : DiskInode :=
  {| itype := itype d; major := ma; minor := mi; nlink := nlink d; size := size d; addrs := addrs d |}.

Section ops.
Context {D U : Type} `{!BlockStore D} `{!UserMem U} `{!BitField}.

Record istate := {
  fsys : fsd D;
  umem : U;
  kbuf : list Z;
  imeta : list InodeMeta;      (* [NINODE] entries *)
  idata : list InodeData;
  ilocked : list bool;         (* the sleep locks of [idata] *)
  cwd : option Inode;          (* of the calling process *)
}.

Definition on_fs {A} (m : M (fsd D) A) : M istate A := λ s,
  match m (fsys s) with
  | Done (a, f) => Done (a, {| fsys := f; umem := umem s; kbuf := kbuf s; imeta := imeta s;
      idata := idata s; ilocked := ilocked s; cwd := cwd s |})
  | Panic why => Panic why
  end.
Definition on_user {A} (m : M U A) : M istate A := λ s,
  match m (umem s) with
  | Done (a, u) => Done (a, {| fsys := fsys s; umem := u; kbuf := kbuf s; imeta := imeta s;
      idata := idata s; ilocked := ilocked s; cwd := cwd s |})
  | Panic why => Panic why
  end.
Definition set_kbuf (l : list Z) : M istate unit := modify (λ s,
  {| fsys := fsys s; umem := umem s; kbuf := l; imeta := imeta s; idata := idata s;
     ilocked := ilocked s; cwd := cwd s |}).
Definition set_meta (f : list InodeMeta → list InodeMeta) : M istate unit := modify (λ s,
  {| fsys := fsys s; umem := umem s; kbuf := kbuf s; imeta := f (imeta s); idata := idata s;
     ilocked := ilocked s; cwd := cwd s |}).
Definition set_data (f : list InodeData → list InodeData) : M istate unit := modify (λ s,
  {| fsys := fsys s; umem := umem s; kbuf := kbuf s; imeta := imeta s; idata := f (idata s);
     ilocked := ilocked s; cwd := cwd s |}).
Definition set_locked (i : nat) (b : bool) : M istate unit := modify (λ s,
  {| fsys := fsys s; umem := umem s; kbuf := kbuf s; imeta := imeta s; idata := idata s;
     ilocked := <[i := b]> (ilocked s); cwd := cwd s |}).

Definition get_data (self : nat) : M istate InodeData :=
  s ← get; unwrap (idata s !! self) "index out of bounds".
Definition get_dinode (self : nat) : M istate DiskInode := d ← get_data self; mret (dinode d).
Definition upd_dinode (self : nat) (f : DiskInode → DiskInode) : M istate unit :=
  set_data (alter (λ d, {| valid := valid d; dinode := f (dinode d) |}) self).
Definition get_valid (self : nat) : M istate (Z * Z) :=
  d ← get_data self; unwrap (valid d) "called `Option::unwrap()` on a `None` value".

(** ** [Address::copy_out], [Address::copy_in] *)
Definition addr_copy_out (self : Address) (src : list Z) (count : Z) : M istate (unit + unit) :=
  match self with
  | Virtual dst => on_user (um_copy_out src dst count)
  | Kernel _ => panic "cannot copy to a const pointer"
  | KernelMut dst =>
      s ← get;
      set_kbuf (write_at (kbuf s) (Z.to_nat dst) (take (Z.to_nat count) src));;
      mret (inl tt)
  end.
Definition addr_copy_in (self : Address) (count : Z) : M istate (list Z * (unit + unit)) :=
  match self with
  | Virtual src => on_user (um_copy_in src count)
  | KernelMut _ => panic "assertion failed: false"
  | Kernel src =>
      s ← get; mret (take (Z.to_nat count) (drop (Z.to_nat src) (kbuf s)), inl tt)
  end.

(** ** InodeData *)
Definition get_dev_inum (self : nat) : M istate (Z * Z) := get_valid self.
Definition get_itype (self : nat) : M istate InodeType := d ← get_dinode self; mret (itype d).
Definition get_devnum (self : nat) : M istate (Z * Z) :=
  d ← get_dinode self; mret (major d, minor d).
Definition link (self : nat) : M istate unit :=
  d ← get_dinode self; n ← lift (add_chk 16 (nlink d) 1); upd_dinode self (with_nlink n).
Definition unlink (self : nat) : M istate unit :=
  d ← get_dinode self; n ← lift (sub_chk (nlink d) 1); upd_dinode self (with_nlink n).

Definition update (self : nat) : M istate unit :=
  '(dev, inum) ← get_valid self;
  bn ← on_fs (locate_inode inum);
  buf ← on_fs (bread bn);
  d ← get_dinode self;
  on_fs (bset bn (write_dinode buf (locate_inode_offset inum) d));;
  on_fs (log_write bn).

Definition truncate (self : nat) : M istate unit :=
  _ ← get_valid self;
  for_range (Z.to_nat NDIRECT) 0 (λ i,
    d ← get_dinode self;
    bn ← unwrap (addrs d !! Z.to_nat i) "index out of bounds";
    if 0 <? bn then
      on_fs (bm_free bn);; upd_dinode self (with_addr (Z.to_nat i) 0)
    else mret tt);;
  d ← get_dinode self;
  ind ← unwrap (addrs d !! Z.to_nat NDIRECT) "index out of bounds";
  (if 0 <? ind then
     buf ← on_fs (bread ind);
     for_range (Z.to_nat NINDIRECT) 0 (λ i,
       let bn := read_u32 buf (4 * Z.to_nat i) in
       if 0 <? bn then on_fs (bm_free bn) else mret tt);;
     on_fs (bdrop ind);;
     on_fs (bm_free ind);;
     upd_dinode self (with_addr (Z.to_nat NDIRECT) 0)
   else mret tt);;
  upd_dinode self (with_size 0);;
  update self.

(** The block of the file's block [offset_bn], allocated when there is none. *)
Definition map_blockno (self : nat) (offset_bn : Z) : M istate Z :=
  _ ← get_valid self;
  d ← get_dinode self;
  if offset_bn <? NDIRECT then
    bn ← unwrap (addrs d !! Z.to_nat offset_bn) "index out of bounds";
    if bn =? 0 then
      free_bn ← on_fs bm_alloc;
      upd_dinode self (with_addr (Z.to_nat offset_bn) free_bn);;
      mret free_bn
    else mret bn
  else if offset_bn <? NDIRECT + NINDIRECT then
    let count := offset_bn - NDIRECT in
    ind ← unwrap (addrs d !! Z.to_nat NDIRECT) "index out of bounds";
    indirect_bn ←
      (if ind =? 0 then
         free_bn ← on_fs bm_alloc;
         upd_dinode self (with_addr (Z.to_nat NDIRECT) free_bn);;
         mret free_bn
       else mret ind);
    indirect_buf ← on_fs (bread indirect_bn);
    let bn := read_u32 indirect_buf (4 * Z.to_nat count) in
    if bn =? 0 then
      free_bn ← on_fs bm_alloc;
      on_fs (bset indirect_bn (write_u32 indirect_buf (4 * Z.to_nat count) free_bn));;
      on_fs (log_write indirect_bn);;
      mret free_bn
    else on_fs (bdrop indirect_bn);; mret bn
  else panic "queried offset_bn out of range".

(** The loop of [iread]: [n] bounds the number of turns, each of which reads
    at least one byte. *)
Fixpoint iread_loop (n : nat) (self : nat) (dst : Address) (count block_base block_offset read_count : Z)
    : M istate (unit + unit) :=
  if 0 <? count then
    match n with
    | O => panic "out of fuel"
    | S n =>
        bn ← map_blockno self block_base;
        buf ← on_fs (bread bn);
        r ← addr_copy_out dst (drop (Z.to_nat block_offset) buf) read_count;
        on_fs (bdrop bn);;
        match r with
        | inr e => mret (inr e)
        | inl _ =>
            let count := count - read_count in
            dst ← lift (Address_offset dst read_count);
            iread_loop n self dst count (block_base + 1) 0 (Z.min BSIZE count)
        end
    end
  else mret (inl tt).

(** [u32::checked_add] *)
Definition checked_add (x y : Z) : option Z := if x + y <? 2 ^ 32 then Some (x + y) else None.

Definition iread (self : nat) (dst : Address) (offset count : Z) : M istate (unit + unit) :=
  d ← get_dinode self;
  match checked_add offset count with
  | None => mret (inr tt)
  | Some e =>
      if size d <? e then mret (inr tt)
      else
        _ ← get_valid self;
        let block_offset := offset `mod` BSIZE in
        iread_loop (Z.to_nat count) self dst count (offset / BSIZE) block_offset (Z.min (BSIZE - block_offset) count)
  end.

Definition try_iread (self : nat) (dst : Address) (offset count : Z) : M istate (Z + unit) :=
  d ← get_dinode self;
  if size d <? offset then mret (inl 0)
  else
    match checked_add offset count with
    | None => mret (inr tt)
    | Some e =>
        let actual_count := if size d <? e then size d - offset else count in
        r ← iread self dst offset actual_count;
        match r with inl _ => mret (inl actual_count) | inr e => mret (inr e) end
    end.

(** The loop of [try_iwrite]; it returns what is left of [count].  A failed
    [copy_in] leaves the loop with what it has copied in the buffer, which is
    not logged. *)
Fixpoint iwrite_loop (n : nat) (self : nat) (src : Address) (count block_base block_offset write_count : Z)
    : M istate Z :=
  if 0 <? count then
    match n with
    | O => panic "out of fuel"
    | S n =>
        bn ← map_blockno self block_base;
        buf ← on_fs (bread bn);
        '(bytes, r) ← addr_copy_in src write_count;
        on_fs (bset bn (write_at buf (Z.to_nat block_offset) bytes));;
        match r with
        | inr _ => on_fs (bdrop bn);; mret count
        | inl _ =>
            on_fs (log_write bn);;
            let count := count - write_count in
            src ← lift (Address_offset src write_count);
            iwrite_loop n self src count (block_base + 1) 0 (Z.min BSIZE count)
        end
    end
  else mret count.

Definition try_iwrite (self : nat) (src : Address) (offset count : Z) : M istate (Z + unit) :=
  d ← get_dinode self;
  if size d <? offset then mret (inr tt)
  else
    match checked_add offset count with
    | None => mret (inr tt)
    | Some e =>
        if MAX_FILE_SIZE <? e then mret (inr tt)
        else
          _ ← get_valid self;
          let block_offset := offset `mod` BSIZE in
          left ← iwrite_loop (Z.to_nat count) self src count (offset / BSIZE) block_offset
            (Z.min (BSIZE - block_offset) count);
          let new_size := e - left in
          d ← get_dinode self;
          (if size d <? new_size then upd_dinode self (with_size new_size) else mret tt);;
          update self;;
          mret (inl (new_size - offset))
    end.

Definition iwrite (self : nat) (src : Address) (offset count : Z) : M istate (unit + unit) :=
  r ← try_iwrite self src offset count;
  match r with
  | inl ret => if ret =? count then mret (inl tt) else mret (inr tt)
  | inr _ => mret (inr tt)
  end.

Definition istat (self : nat) : M istate FileStat :=
  '(dev, inum) ← get_valid self;
  d ← get_dinode self;
  mret {| st_dev := dev; st_inum := inum; st_itype := itype d; st_nlink := nlink d; st_size := size d |}.
End ops.
Arguments istate D U : clear implicits.

(** A thread without a process, to run the definitions. *)
#[export] Instance no_user : UserMem unit :=
  {| um_copy_out _ _ _ := panic "no process"; um_copy_in _ _ := panic "no process" |}.
