(* ===== verification/FileData.v ===== *)
(** * The contents of a file ([kernel/src/fs/inode.rs]: [map_blockno],
    [iread], [try_iwrite])

    A file is an array of [NDIRECT + NINDIRECT] blocks; a block that has no
    disk block yet reads as zeros, so the contents are one list of
    [MAX_FILE_SIZE] bytes, and allocating a block does not change them.  The
    theorems are about transfers between the file and a kernel buffer. *)
From S2P Require Import Prelude Consts Bytes BlockCache Addr PageTable Uvm Block Inode.

(** ** Lists of equal blocks *)
Lemma length_concat_blocks {A} (bs : list (list A)) n :
  Forall (λ b, length b = n) bs → length (concat bs) = (length bs * n)%nat.
Proof.
  induction 1 as [|b bs Hb _ IH]; [done|]. cbn [concat length]. rewrite length_app, Hb, IH. lia.
Qed.

Lemma lookup_concat_blocks {A} (bs : list (list A)) n k b o :
  Forall (λ b, length b = n) bs → bs !! k = Some b → (o < n)%nat → concat bs !! (k * n + o)%nat = b !! o.
Proof.
  intros Hl. revert k. induction Hl as [|c bs Hc Hl IH]; intros k Hk Ho; [done|]. cbn [concat].
  destruct k as [|k].
  - injection Hk as ->. by rewrite Nat.mul_0_l, lookup_app_l by lia.
  - rewrite lookup_app_r by lia. rewrite Hc. replace (S k * n + o - n)%nat with (k * n + o)%nat by lia.
    by apply IH.
Qed.

Lemma window_concat {A} (bs : list (list A)) n k b o m :
  Forall (λ b, length b = n) bs → bs !! k = Some b → (o + m ≤ n)%nat →
  take m (drop (k * n + o) (concat bs)) = take m (drop o b).
Proof.
  intros Hl Hk Hm. apply list_eq. intros i. destruct (decide (i < m)%nat).
  - rewrite !lookup_take_lt, !lookup_drop by done. rewrite <- Nat.add_assoc.
    apply (lookup_concat_blocks _ n k b (o + i)); done || lia.
  - by rewrite !lookup_take_ge by lia.
Qed.

Lemma write_at_concat (bs : list (list Z)) n k b o src :
  Forall (λ b, length b = n) bs → bs !! k = Some b → (o + length src ≤ n)%nat →
  concat (<[k := write_at b o src]> bs) = write_at (concat bs) (k * n + o) src.
Proof.
  intros Hl Hk Hm. pose proof (lookup_lt_Some _ _ _ Hk) as Hlt.
  assert (length b = n) as Hb by exact (Forall_lookup_1 _ _ _ _ Hl Hk).
  assert (Forall (λ b, length b = n) (<[k := write_at b o src]> bs)) as Hl'.
  { apply Forall_insert; [done|]. rewrite length_write_at; lia. }
  pose proof (length_concat_blocks _ _ Hl) as HL. pose proof (length_concat_blocks _ _ Hl') as HL'.
  rewrite length_insert in HL'.
  assert (k * n + n ≤ length bs * n)%nat as Hfit by nia.
  apply list_eq. intros i. destruct (decide (i < length bs * n)%nat) as [Hi|Hi].
  2: { rewrite !lookup_ge_None_2; [done|rewrite length_write_at; lia|lia]. }
  assert (n ≠ 0)%nat as Hn0 by lia.
  rewrite (Nat.div_mod i n Hn0), (Nat.mul_comm n (i / n)). set (q := (i / n)%nat). set (m := (i `mod` n)%nat).
  assert (m < n)%nat as Hmn by (by apply Nat.mod_upper_bound).
  assert (q < length bs)%nat as Hq by (apply Nat.Div0.div_lt_upper_bound; lia).
  destruct (lookup_lt_is_Some_2 bs q Hq) as [c Hc]. destruct (decide (q = k)) as [E|Hne].
  - rewrite E in *. rewrite Hk in Hc. injection Hc as <-.
    rewrite (lookup_concat_blocks _ n k (write_at b o src)) by (done || by rewrite list_lookup_insert_eq).
    destruct (decide (o ≤ m < o + length src)%nat) as [Hin|Hout].
    + rewrite !lookup_write_at_in by lia. f_equal. lia.
    + rewrite !lookup_write_at_out by lia. symmetry. by apply lookup_concat_blocks.
  - rewrite (lookup_concat_blocks _ n q c) by (done || by rewrite list_lookup_insert_ne).
    rewrite lookup_write_at_out by nia. symmetry. by apply lookup_concat_blocks.
Qed.

Lemma write_at_app (l a b : list Z) p :
  (p + length a + length b ≤ length l)%nat →
  write_at (write_at l p a) (p + length a) b = write_at l p (a ++ b).
Proof.
  intros Hl. apply list_eq. intros i. assert (length (write_at l p a) = length l) as Hla by (apply length_write_at; lia).
  destruct (decide (p + length a ≤ i < p + length a + length b)%nat).
  - rewrite lookup_write_at_in by lia. rewrite lookup_write_at_in by (rewrite length_app; lia).
    rewrite lookup_app_r by lia. f_equal. lia.
  - rewrite lookup_write_at_out by lia. destruct (decide (p ≤ i < p + length a)%nat).
    + rewrite lookup_write_at_in by lia. rewrite lookup_write_at_in by (rewrite length_app; lia).
      by rewrite lookup_app_l by lia.
    + rewrite !lookup_write_at_out by (rewrite ?length_app; lia). done.
Qed.

Lemma filter_ext_in {A} (P Q : A → Prop) `{∀ x, Decision (P x), ∀ x, Decision (Q x)} (l : list A) :
  (∀ x, x ∈ l → P x ↔ Q x) → filter P l = filter Q l.
Proof.
  induction l as [|x l IH]; intros Hl; [done|]. rewrite !filter_cons, IH by (intros y Hy; apply Hl; by right).
  destruct (Hl x ltac:(by left)) as [H1 H2]. destruct (decide (P x)), (decide (Q x)); tauto.
Qed.

Lemma write_at_nil (l : list Z) p : write_at l p [] = l.
Proof. unfold write_at. cbn [length app]. by rewrite Nat.add_0_r, take_drop. Qed.

(** * Allocation *)
Section alloc.
Context {D : Type} `{!BlockStore D} `{!BlockStoreLaws D} `{BFL : BitFieldLaws}.

Definition free_blocks (r : RawSuperBlock) (v : Z → block) : list Z :=
  filter (λ c, used r v c = false) (seqZ 0 (sb_size r)).
Definition nfree (r : RawSuperBlock) (v : Z → block) : Z := Z.of_nat (length (free_blocks r v)).

Lemma nfree_alloc r v v' b :
  0 ≤ b < sb_size r → used r v b = false →
  (∀ c, 0 ≤ c < sb_size r → used r v' c = if decide (c = b) then true else used r v c) →
  nfree r v' = nfree r v - 1.
Proof.
  intros Hb Hf Hu. unfold nfree, free_blocks.
  assert (b ∈ seqZ 0 (sb_size r)) as (l1 & l2 & E)%list_elem_of_split by (apply elem_of_seqZ; lia).
  pose proof (NoDup_seqZ 0 (sb_size r)) as Hnd. rewrite E in Hnd.
  assert (∀ c, c ∈ l1 ++ b :: l2 → 0 ≤ c < sb_size r) as Hr by (intros c Hc; rewrite <- E in Hc; apply elem_of_seqZ in Hc; lia).
  apply NoDup_app in Hnd as (_ & Hd & [Hn2 _]%NoDup_cons).
  rewrite E, !filter_app, !filter_cons.
  rewrite (decide_True (P := used r v b = false)) by done.
  rewrite (decide_False (P := used r v' b = false)) by (rewrite Hu, decide_True by done; done).
  assert (∀ l : list Z, (∀ c, c ∈ l → c ≠ b ∧ 0 ≤ c < sb_size r) →
    filter (λ c, used r v' c = false) l = filter (λ c, used r v c = false) l) as Heq.
  { intros l Hl. apply filter_ext_in. intros c Hc. destruct (Hl c Hc) as [Hne Hrc].
    by rewrite Hu, decide_False by done. }
  rewrite (Heq l1), (Heq l2).
  - rewrite !length_app. cbn [length]. lia.
  - intros c Hc. split; [by intros ->|]. apply Hr, elem_of_app. right. by right.
  - intros c Hc. split; [|apply Hr, elem_of_app; by left]. intros ->. apply (Hd b Hc). by left.
Qed.

(** One allocation when there is a free block. *)
Record allocated (r : RawSuperBlock) (v v' : Z → block) (h : list Z) (b : Z) : Prop := {
  al_range : 0 ≤ b < sb_size r;
  al_free : used r v b = false;
  al_held : b ∉ h;
  al_self c : 0 ≤ c < sb_size r → b ≠ bitmap_of r c;
  al_used c : 0 ≤ c < sb_size r → used r v' c = if decide (c = b) then true else used r v c;
  al_zero : v' b = zero_block;
  al_other x : x ≠ b → (∀ c, 0 ≤ c < sb_size r → x ≠ bitmap_of r c) → v' x = v x;
  al_nfree : nfree r v' = nfree r v - 1;
}.

Lemma bm_alloc_step s r v h : mounted s r v h → bitmap_ok r v h → 0 < nfree r v →
  ∃ b s' v', bm_alloc s = Done (b, s') ∧ mounted s' r v' h ∧ bitmap_ok r v' h ∧ allocated r v v' h b.
Proof.
  intros Hm Hok Hn. pose proof (bm_alloc_run s r v h Hm Hok) as Hrun.
  destruct (bm_alloc s) as [[b s']|why].
  2: { exfalso. unfold nfree, free_blocks in Hn. destruct (filter _ _) as [|c l] eqn:E; [done|].
       assert (c ∈ c :: l) as Hc by (by left). rewrite <- E in Hc. apply list_elem_of_filter in Hc as [Hc Hin%elem_of_seqZ].
       rewrite Hrun in Hc by lia. done. }
  destruct Hrun as ((Hb & Hf & _) & Hm'). exists b, s', (handed_out r v b).
  assert (∀ c, 0 ≤ c < sb_size r → used r (handed_out r v b) c = if decide (c = b) then true else used r v c) as Hu.
  { intros c Hc. apply (used_alloc r v h); try done. by eapply mounted_block. }
  split; [done|]. split; [done|]. destruct Hok as [H1 H2 H3 H4]. split; [split|split]; try done.
  - intros c Hc. rewrite Hu by done. destruct (decide (c = b)); [done|by apply H3].
  - intros c c' Hc Hc'. rewrite Hu by done. destruct (decide (c = b)); [done|by apply H4].
  - by apply H3.
  - intros c Hc. by apply H4.
  - unfold handed_out. by rewrite fn_lookup_insert.
  - intros x Hx Hx'. unfold handed_out, mark. rewrite !fn_lookup_insert_ne; [done| |done]. intros E. by eapply Hx'.
  - by apply (nfree_alloc r v _ b).
Qed.

(** * The blocks of a file

    Slot [i] is the disk block of the file's block [i], 0 for none; the last
    slot is the indirect block. *)
Definition NSLOT : nat := 268.
Definition addr (d : DiskInode) (i : nat) : Z := default 0 (addrs d !! i).
Definition slot (v : Z → block) (d : DiskInode) (i : nat) : Z :=
  if decide (i = NSLOT) then addr d 12
  else if decide (i < 12)%nat then addr d i
  else if decide (addr d 12 = 0) then 0
  else read_u32 (v (addr d 12)) (4 * (i - 12)).
Definition fblock (v : Z → block) (d : DiskInode) (k : nat) : block :=
  if decide (slot v d k = 0) then zero_block else v (slot v d k).
(** The contents, up to the largest file there can be. *)
Definition content (v : Z → block) (d : DiskInode) : list Z := concat (fblock v d <$> seq 0 NSLOT).

(** A block that holds data of files: neither the boot block, nor the bitmap,
    nor an inode block. *)
Record data_block (r : RawSuperBlock) (b : Z) : Prop := {
  db_range : 0 < b < sb_size r;
  db_bitmap c : 0 ≤ c < sb_size r → b ≠ bitmap_of r c;
  db_inode j : 0 ≤ j < ninodes r → b ≠ inode_block r j;
}.
Record disk_ok (r : RawSuperBlock) (v : Z → block) (h : list Z) : Prop := {
  dk_bitmap : bitmap_ok r v h;
  dk_inodes : inodes_ok r v h;
  dk_boot : 0 < sb_size r ∧ used r v 0 = true;
  dk_table j : 0 ≤ j < ninodes r → 0 ≤ inode_block r j < sb_size r ∧ used r v (inode_block r j) = true ∧
    ∀ c, 0 ≤ c < sb_size r → inode_block r j ≠ bitmap_of r c;
}.
(** The slots of a file are data blocks in use, all different, and every block
    below the size is there. *)
Record mapping_ok (r : RawSuperBlock) (v : Z → block) (h : list Z) (d : DiskInode) : Prop := {
  mp_wf : dinode_wf d;
  mp_slot i : (i ≤ NSLOT)%nat → slot v d i ≠ 0 →
    data_block r (slot v d i) ∧ used r v (slot v d i) = true ∧ (slot v d i ∉ h);
  mp_inj i j : (i ≤ NSLOT)%nat → (j ≤ NSLOT)%nat → slot v d i ≠ 0 → slot v d i = slot v d j → i = j;
}.
Record covered (v : Z → block) (d : DiskInode) : Prop := {
  cv_max : size d ≤ MAX_FILE_SIZE;
  cv_slot k : Z.of_nat k * BSIZE < size d → slot v d k ≠ 0;
}.

(** Free blocks beyond a reserve for the indirect block. *)
Definition spare (r : RawSuperBlock) (v : Z → block) (d : DiskInode) : Z :=
  nfree r v - if decide (slot v d NSLOT = 0) then 1 else 0.

(** What the operations on a file keep of the disk. *)
Record keeps (r : RawSuperBlock) (v : Z → block) (d : DiskInode) (v' : Z → block) (d' : DiskInode) : Prop := {
  kp_meta : d' = {| itype := itype d; major := major d; minor := minor d; nlink := nlink d; size := size d;
                    addrs := addrs d' |};
  kp_slot i : (i ≤ NSLOT)%nat → slot v d i ≠ 0 → slot v' d' i = slot v d i;
  kp_new i : (i ≤ NSLOT)%nat → slot v d i = 0 → slot v' d' i ≠ 0 →
    0 ≤ slot v' d' i < sb_size r ∧ used r v (slot v' d' i) = false;
  kp_used x : 0 ≤ x < sb_size r → used r v x = true → used r v' x = true;
  kp_other x : 0 ≤ x < sb_size r → used r v x = true → (∀ c, 0 ≤ c < sb_size r → x ≠ bitmap_of r c) →
    (∀ i, (i ≤ NSLOT)%nat → slot v d i ≠ 0 → slot v d i ≠ x) → v' x = v x;
}.
(** A change of the mapping alone. *)
Definition grows (r : RawSuperBlock) (v : Z → block) (d : DiskInode) (v' : Z → block) (d' : DiskInode) : Prop :=
  keeps r v d v' d' ∧ ∀ k, (k < NSLOT)%nat → fblock v' d' k = fblock v d k.

Lemma keeps_refl r v d : keeps r v d v d.
Proof. split; try done. by destruct d. Qed.

Lemma keeps_trans r v d v1 d1 v2 d2 : keeps r v d v1 d1 → keeps r v1 d1 v2 d2 → keeps r v d v2 d2.
Proof.
  intros [M1 S1 N1 U1 O1] [M2 S2 N2 U2 O2]. split.
  - rewrite M2, M1. done.
  - intros i Hi Hs. rewrite S2; [by apply S1|done|by rewrite S1].
  - intros i Hi H0 Hs. destruct (decide (slot v1 d1 i = 0)) as [E|E].
    + destruct (N2 i Hi E Hs) as [Hr Hf]. split; [done|]. apply not_true_is_false. intros Ht.
      by rewrite U1 in Hf.
    + rewrite S2 by done. by apply N1.
  - auto.
  - intros x Hx Hu Hb Hne. rewrite O2; auto. intros i Hi Hs E. destruct (decide (slot v d i = 0)) as [E0|E0].
    + destruct (N1 i Hi E0 Hs) as [_ Hf]. congruence.
    + apply (Hne i Hi E0). by rewrite <- E, S1.
Qed.

Lemma file_grows_refl r v d : grows r v d v d.
Proof. split; [apply keeps_refl|done]. Qed.
Lemma file_grows_trans r v d v1 d1 v2 d2 : grows r v d v1 d1 → grows r v1 d1 v2 d2 → grows r v d v2 d2.
Proof. intros [K1 B1] [K2 B2]. split; [by eapply keeps_trans|]. intros k Hk. by rewrite B2, B1. Qed.

(** A free block becomes slot [i], which was empty. *)
Record attach (r : RawSuperBlock) (v : Z → block) (h : list Z) (d : DiskInode) (i : nat) (b : Z)
    (v' : Z → block) (d' : DiskInode) : Prop := {
  at_range : 0 ≤ b < sb_size r;
  at_free : used r v b = false;
  at_slot : (i ≤ NSLOT)%nat ∧ slot v d i = 0;
  at_used c : 0 ≤ c < sb_size r → used r v' c = if decide (c = b) then true else used r v c;
  at_zero : v' b = zero_block;
  at_new : slot v' d' i = b;
  at_old j : (j ≤ NSLOT)%nat → j ≠ i → slot v' d' j = slot v d j;
  at_other x : x ≠ b → (∀ c, 0 ≤ c < sb_size r → x ≠ bitmap_of r c) → (slot v d NSLOT ≠ 0 → x ≠ slot v d NSLOT) → v' x = v x;
  at_wf : dinode_wf d';
  at_meta : d' = {| itype := itype d; major := major d; minor := minor d; nlink := nlink d; size := size d;
                    addrs := addrs d' |};
}.

Lemma attach_disk r v h d i b v' d' : attach r v h d i b v' d' → disk_ok r v h → disk_ok r v' h.
Proof.
  intros At [[Hly Hheld Hfree Hself] Hi Hboot Htab].
  assert (∀ c, 0 ≤ c < sb_size r → used r v' c = false → used r v c = false) as Hu.
  { intros c Hc. rewrite (at_used _ _ _ _ _ _ _ _ At) by done. by destruct (decide (c = b)). }
  assert (∀ c, 0 ≤ c < sb_size r → used r v c = true → used r v' c = true) as Hu'.
  { intros c Hc. rewrite (at_used _ _ _ _ _ _ _ _ At) by done. by destruct (decide (c = b)). }
  pose proof (at_range _ _ _ _ _ _ _ _ At). split; [split; auto|by destruct Hi| |].
  - destruct Hboot. split; [done|]. by apply Hu'.
  - intros j Hj. destruct (Htab j Hj) as (Hr & Hus & Hne). auto.
Qed.

Lemma attach_data r v h d i b v' d' : attach r v h d i b v' d' → disk_ok r v h → data_block r b ∧ (b ∉ h).
Proof.
  intros At [[Hly Hheld Hfree Hself] Hi Hboot Htab].
  pose proof (at_range _ _ _ _ _ _ _ _ At). pose proof (at_free _ _ _ _ _ _ _ _ At) as Hf.
  split; [|by apply Hfree]. destruct Hboot as [_ Hboot]. split.
  - destruct (decide (b = 0)) as [->|]; [congruence|lia].
  - auto.
  - intros j Hj ->. destruct (Htab j Hj) as (_ & Hu & _). congruence.
Qed.

Lemma attach_mapping r v h d i b v' d' :
  attach r v h d i b v' d' → disk_ok r v h → mapping_ok r v h d → mapping_ok r v' h d'.
Proof.
  intros At Hdk [Hwf Hsl Hinj]. destruct (attach_data _ _ _ _ _ _ _ _ At Hdk) as [Hdb Hbh].
  destruct At as [Hr Hf [Hi H0] Hu _ Hnew Hold _ Hwf' _].
  assert (∀ j, (j ≤ NSLOT)%nat → slot v d j ≠ 0 → slot v d j ≠ b) as Hb.
  { intros j Hj Hn E. destruct (Hsl j Hj Hn) as (_ & Hus & _). congruence. }
  split; [done|..].
  - intros j Hj. destruct (decide (j = i)) as [->|Hne].
    + rewrite Hnew. intros _. split; [done|]. split; [|done]. by rewrite Hu, decide_True by done.
    + rewrite Hold by done. intros Hn. destruct (Hsl j Hj Hn) as (Hd & Hus & Hh). split; [done|]. split; [|done].
      destruct Hd as [[? ?] ? ?]. rewrite Hu by lia. by destruct (decide _).
  - intros j k Hj Hk. destruct (decide (j = i)) as [->|Hji], (decide (k = i)) as [->|Hki].
    + done.
    + rewrite Hnew, Hold by done. intros Hb0 E. exfalso. apply (Hb k Hk); congruence.
    + rewrite Hnew, Hold by done. intros Hb0 E. exfalso. by apply (Hb j Hj).
    + rewrite !Hold by done. by apply Hinj.
Qed.

Lemma attach_grows r v h d i b v' d' :
  attach r v h d i b v' d' → disk_ok r v h → mapping_ok r v h d → grows r v d v' d'.
Proof.
  intros At Hdk [Hwf Hsl Hinj]. destruct (attach_data _ _ _ _ _ _ _ _ At Hdk) as [Hdb Hbh].
  destruct At as [Hr Hf [Hi H0] Hu Hz Hnew Hold Hoth _ Hmeta]. destruct Hdb as [Hb0 Hbb Hbi]. split; [split|].
  - done.
  - intros j Hj Hn. apply Hold; [done|]. by intros ->.
  - intros j Hj Hn0 Hn. destruct (decide (j = i)) as [->|Hne]; [by rewrite Hnew|]. by rewrite Hold in Hn.
  - intros x Hx Hxu. rewrite Hu by done. by destruct (decide _).
  - intros x Hx Hxu Hbm Hn. apply Hoth; [congruence|done|]. intros Hs E. by apply (Hn NSLOT).
  - intros k Hk. unfold fblock. destruct (decide (k = i)) as [->|Hne].
    + rewrite Hnew, H0, decide_False, Hz, decide_True by (done || lia). done.
    + rewrite Hold by (done || lia). destruct (decide _) as [E|E]; [done|].
      destruct (Hsl k ltac:(lia) E) as ([_ Hbm _] & Hus & _). apply Hoth; [congruence|done|].
      intros Hn E'. apply Hinj in E'; [lia|lia|done|done].
Qed.

Lemma attach_nfree r v h d i b v' d' : attach r v h d i b v' d' → nfree r v' = nfree r v - 1.
Proof. intros At. by apply (nfree_alloc r v v' b); destruct At. Qed.

Lemma addr_with i b d j : (i < length (addrs d))%nat →
  addr (with_addr i b d) j = if decide (j = i) then b else addr d j.
Proof.
  intros Hi. unfold addr. cbn [addrs with_addr]. destruct (decide (j = i)) as [->|].
  - by rewrite list_lookup_insert_eq.
  - by rewrite list_lookup_insert_ne.
Qed.

Lemma with_addr_wf i b d : dinode_wf d → 0 ≤ b < 2 ^ 32 → dinode_wf (with_addr i b d).
Proof.
  intros [Hma Hmi Hnl Hsz Had Hlen] Hb. split; cbn [major minor nlink size addrs with_addr]; try done.
  - by apply Forall_insert.
  - by rewrite length_insert.
Qed.

Lemma read_u32_zero o : read_u32 zero_block o = 0.
Proof.
  unfold read_u32, read_le, zero_block. rewrite drop_replicate, take_replicate. generalize (4 `min` (Z.to_nat BSIZE - o))%nat.
  induction n as [|n IH]; [done|]. cbn [replicate le_val]. lia.
Qed.

Lemma slot_direct v d i : (i < 12)%nat → slot v d i = addr d i.
Proof. intros Hi. unfold slot. rewrite decide_False by (unfold NSLOT; lia). by rewrite decide_True. Qed.
Lemma slot_top v d : slot v d NSLOT = addr d 12.
Proof. done. Qed.
Lemma slot_indirect v d i : (12 ≤ i < NSLOT)%nat →
  slot v d i = if decide (addr d 12 = 0) then 0 else read_u32 (v (addr d 12)) (4 * (i - 12)).
Proof. intros Hi. unfold slot. rewrite !decide_False by lia. done. Qed.
Lemma slot_cases i : (i ≤ NSLOT)%nat → (i < 12 ∨ 12 ≤ i < NSLOT ∨ i = NSLOT)%nat.
Proof. lia. Qed.

Lemma block_range r b : layout r → 0 ≤ b < sb_size r → 0 ≤ b < 2 ^ 32.
Proof. intros Hly Hb. pose proof (ly_last _ Hly). change BPB with 8192 in *. lia. Qed.

Section attach.
Context (r : RawSuperBlock) (v v1 : Z → block) (h h' : list Z) (d : DiskInode) (b : Z).
Context (Hdk : disk_ok r v h) (Hmp : mapping_ok r v h d) (Hal : allocated r v v1 h' b).

Lemma attach_ind_same : addr d 12 ≠ 0 → v1 (addr d 12) = v (addr d 12).
Proof using Hal Hmp.
  intros Hn. destruct (mp_slot _ _ _ _ Hmp NSLOT ltac:(done) Hn) as ([_ Hbm _] & Hus & _). rewrite slot_top in *.
  apply (al_other _ _ _ _ _ Hal); [|done]. intros E. pose proof (al_free _ _ _ _ _ Hal). congruence.
Qed.

Lemma attach_direct i : (i < 12)%nat → addr d i = 0 → attach r v h d i b v1 (with_addr i b d).
Proof using Hal Hmp Hdk.
  intros Hi H0. pose proof (dw_len _ (mp_wf _ _ _ _ Hmp)) as Hlen. change (Z.to_nat (NDIRECT + 1)) with 13%nat in Hlen.
  pose proof attach_ind_same as Hind. destruct Hal as [Hr Hf _ _ Hu Hz Ho _].
  assert (addr (with_addr i b d) 12 = addr d 12) as E12 by (rewrite addr_with, decide_False by lia; done).
  split; auto.
  - split; [unfold NSLOT; lia|]. by rewrite slot_direct.
  - rewrite slot_direct, addr_with, decide_True by (done || lia). done.
  - intros j Hj Hne. destruct (slot_cases j Hj) as [Hc|[Hc| ->]].
    + rewrite !slot_direct, addr_with, decide_False by (done || lia). done.
    + rewrite !slot_indirect, E12 by done. destruct (decide _); [done|]. by rewrite Hind.
    + by rewrite !slot_top.
  - apply with_addr_wf; [by destruct Hmp|]. eapply block_range; [|done]. apply Hdk.
Qed.

Lemma attach_top : addr d 12 = 0 → attach r v h d NSLOT b v1 (with_addr 12 b d).
Proof using Hal Hmp Hdk.
  intros H0. pose proof (dw_len _ (mp_wf _ _ _ _ Hmp)) as Hlen. change (Z.to_nat (NDIRECT + 1)) with 13%nat in Hlen.
  destruct Hal as [Hr Hf _ _ Hu Hz Ho _].
  assert (addr (with_addr 12 b d) 12 = b) as E12 by (rewrite addr_with, decide_True by lia; done).
  split; auto.
  - intros j Hj Hne. destruct (slot_cases j Hj) as [Hc|[Hc| ->]]; [..|done].
    + rewrite !slot_direct, addr_with, decide_False by lia. done.
    + rewrite !slot_indirect, E12, H0, Hz, read_u32_zero by done. by destruct (decide _).
  - apply with_addr_wf; [by destruct Hmp|]. eapply block_range; [|done]. apply Hdk.
Qed.

Lemma attach_entry i : (12 ≤ i < NSLOT)%nat → addr d 12 ≠ 0 → slot v d i = 0 → is_block (v (addr d 12)) →
  attach r v h d i b (<[addr d 12 := write_u32 (v (addr d 12)) (4 * (i - 12)) b]> v1) d.
Proof using Hal Hmp Hdk.
  intros Hi Hn H0 [Hlb _]. change (Z.to_nat BSIZE) with 1024%nat in Hlb. unfold NSLOT in Hi. 
  destruct (mp_slot _ _ _ _ Hmp NSLOT ltac:(done) Hn) as ([_ Hbm _] & Hus & _). rewrite slot_top in *.
  pose proof (block_range r b (bo_layout _ _ _ (dk_bitmap _ _ _ Hdk)) (al_range _ _ _ _ _ Hal)) as Hb32.
  destruct Hal as [Hr Hf _ _ Hu Hz Ho _].
  assert (addr d 12 ≠ b) as Hne by congruence.
  split; auto.
  - split; [unfold NSLOT; lia|done].
  - intros c Hc. rewrite used_insert_other by auto. by apply Hu.
  - by rewrite fn_lookup_insert_ne.
  - rewrite slot_indirect, decide_False, fn_lookup_insert by (done || unfold NSLOT; lia). unfold read_u32, write_u32.
    rewrite read_le_write_same by lia. by apply Z.mod_small.
  - intros j Hj Hji. destruct (slot_cases j Hj) as [Hc|[Hc| ->]]; [|..|done].
    + by rewrite !slot_direct.
    + rewrite !slot_indirect, !decide_False, fn_lookup_insert by done. unfold read_u32, write_u32.
      apply read_le_write_other; rewrite ?length_le_bytes; unfold NSLOT in *; lia.
  - intros x Hx Hxb Hxi. rewrite slot_top in Hxi. rewrite fn_lookup_insert_ne by (intros E; by apply (Hxi Hn)).
    by apply Ho.
  - apply Hmp.
  - by destruct d.
Qed.
End attach.

(** ** The disk with a file on it, and the cache entry of the file *)
Record file_at (f : fsd D) (r : RawSuperBlock) (v : Z → block) (h : list Z) (d : DiskInode) : Prop := {
  fa_mounted : mounted f r v h;
  fa_disk : disk_ok r v h;
  fa_mapping : mapping_ok r v h d;
}.

Lemma attach_file f r v h d i b v' d' : mounted f r v' h → attach r v h d i b v' d' →
  disk_ok r v h → mapping_ok r v h d →
  file_at f r v' h d' ∧ grows r v d v' d' ∧ b ≠ 0 ∧
  spare r v' d' = spare r v d - if decide (i = NSLOT) then 0 else 1.
Proof.
  intros Hm At Hdk Hmp. split; [split; [done|by eapply attach_disk|by eapply attach_mapping]|].
  split; [by eapply attach_grows|]. pose proof (attach_nfree _ _ _ _ _ _ _ _ At) as Hn.
  destruct (attach_data _ _ _ _ _ _ _ _ At Hdk) as [[Hb _ _] _]. split; [lia|]. unfold spare.
  destruct (decide (i = NSLOT)) as [->|Hi].
  - rewrite (at_new _ _ _ _ _ _ _ _ At). destruct (at_slot _ _ _ _ _ _ _ _ At) as [_ ->].
    rewrite decide_False, decide_True by (done || lia). lia.
  - rewrite (at_old _ _ _ _ _ _ _ _ At) by done. lia.
Qed.

Lemma disk_ok_hold r v h d i : disk_ok r v h → mapping_ok r v h d → (i ≤ NSLOT)%nat → slot v d i ≠ 0 →
  disk_ok r v (slot v d i :: h).
Proof.
  intros [[Hly Hheld Hfree Hself] [Hi1 Hi2] Hboot Htab] Hmp Hi Hn.
  destruct (mp_slot _ _ _ _ Hmp i Hi Hn) as ([Hr Hbm Hin] & Hus & _).
  assert (∀ x, x ∉ h → x ≠ slot v d i → x ∉ slot v d i :: h) as Hcons by (intros x ? ?; by rewrite not_elem_of_cons).
  split; [split|split| |]; auto.
  - intros c Hc. apply Hcons; auto. intros E. by apply (Hbm c).
  - intros b Hb Hf. apply Hcons; auto. congruence.
  - intros j Hj. apply Hcons; [by apply Hi2|]. intros E. by apply (Hin j).
Qed.

(** ** Contents *)
Lemma fblock_len v d k : (∀ b, is_block (v b)) → length (fblock v d k) = 1024%nat.
Proof. intros Hb. unfold fblock. destruct (decide _); [done|]. apply (Hb _). Qed.

Lemma fblocks_len v d : (∀ b, is_block (v b)) → Forall (λ b, length b = 1024%nat) (fblock v d <$> seq 0 NSLOT).
Proof. intros Hb. apply Forall_fmap, Forall_true. intros k. by apply fblock_len. Qed.

Lemma fblocks_lookup v d k : (k < NSLOT)%nat → (fblock v d <$> seq 0 NSLOT) !! k = Some (fblock v d k).
Proof. intros Hk. by rewrite list_lookup_fmap, lookup_seq_lt. Qed.

Lemma length_content v d : (∀ b, is_block (v b)) → length (content v d) = (NSLOT * 1024)%nat.
Proof.
  intros Hb. unfold content. rewrite (length_concat_blocks _ 1024) by (by apply fblocks_len).
  by rewrite length_fmap, length_seq.
Qed.

Lemma content_grows r v d v' d' : grows r v d v' d' → content v' d' = content v d.
Proof.
  intros [_ Hg]. unfold content. f_equal. apply list_fmap_ext. intros i k [-> Hi]%lookup_seq. by apply Hg.
Qed.

Lemma content_window v d k o m : (∀ b, is_block (v b)) → (k < NSLOT)%nat → (o + m ≤ 1024)%nat →
  take m (drop o (fblock v d k)) = take m (drop (k * 1024 + o) (content v d)).
Proof.
  intros Hb Hk Hm. symmetry. apply window_concat; [by apply fblocks_len|by apply fblocks_lookup|done].
Qed.

(** *** A store into a block that is in use, and is neither part of the bitmap
    nor the indirect block *)
Section store.
Context (r : RawSuperBlock) (v : Z → block) (h : list Z) (d : DiskInode) (b : Z) (x : block).
Context (Hdk : disk_ok r v h) (Hmp : mapping_ok r v h d).
Context (Hbm : ∀ c, 0 ≤ c < sb_size r → b ≠ bitmap_of r c) (Hind : slot v d NSLOT ≠ 0 → b ≠ slot v d NSLOT).

Lemma store_used c : 0 ≤ c < sb_size r → used r (<[b := x]> v) c = used r v c.
Proof using Hbm. intros Hc. apply used_insert_other. by apply Hbm. Qed.

Lemma store_slot i : (i ≤ NSLOT)%nat → slot (<[b := x]> v) d i = slot v d i.
Proof using Hind.
  intros Hi. destruct (slot_cases i Hi) as [Hc|[Hc| ->]]; [by rewrite !slot_direct| |done].
  rewrite !slot_indirect by done. destruct (decide _) as [E|E]; [done|]. rewrite fn_lookup_insert_ne; [done|]. by apply Hind.
Qed.

Lemma store_disk : disk_ok r (<[b := x]> v) h.
Proof using Hdk Hbm.
  destruct Hdk as [[Hly Hheld Hfree Hself] [Hi1 Hi2] Hboot Htab].
  destruct Hboot as [Hs Hboot]. split; [split| | |]; auto.
  - intros c Hc. rewrite store_used by done. auto.
  - intros c c' Hc Hc'. rewrite store_used by done. auto.
  - by split.
  - by rewrite store_used by lia.
  - intros j Hj. destruct (Htab j Hj) as (Hr & Hu & Hne). rewrite store_used by done. auto.
Qed.

Lemma store_mapping : mapping_ok r (<[b := x]> v) h d.
Proof using Hmp Hbm Hind.
  destruct Hmp as [Hwf Hsl Hinj]. split; [done|..].
  - intros i Hi. rewrite store_slot by done. intros Hn. destruct (Hsl i Hi Hn) as (Hd & Hu & Hh).
    rewrite store_used by (destruct Hd; lia). done.
  - intros i j Hi Hj. rewrite !store_slot by done. by apply Hinj.
Qed.

Lemma store_nfree : nfree r (<[b := x]> v) = nfree r v.
Proof using Hbm.
  unfold nfree, free_blocks. do 2 f_equal. apply filter_ext_in. intros c Hc%elem_of_seqZ.
  by rewrite store_used by lia.
Qed.
Lemma store_spare : spare r (<[b := x]> v) d = spare r v d.
Proof using Hbm Hind. unfold spare. by rewrite store_nfree, store_slot. Qed.
End store.

(** A store into a block of the file. *)
Section store_data.
Context (r : RawSuperBlock) (v : Z → block) (h : list Z) (d : DiskInode) (k : nat) (x : block).
Context (Hmp : mapping_ok r v h d) (Hk : (k < NSLOT)%nat) (Hn : slot v d k ≠ 0).

Lemma data_side : (∀ c, 0 ≤ c < sb_size r → slot v d k ≠ bitmap_of r c) ∧
  (slot v d NSLOT ≠ 0 → slot v d k ≠ slot v d NSLOT).
Proof using Hmp Hk Hn.
  destruct (mp_slot _ _ _ _ Hmp k ltac:(lia) Hn) as ([_ Hbm _] & _). split; [done|].
  intros _ E. apply (mp_inj _ _ _ _ Hmp) in E; [lia|lia|done|done].
Qed.

Lemma data_keeps : keeps r v d (<[slot v d k := x]> v) d.
Proof using Hmp Hk Hn.
  destruct data_side as [Hbm Hind].
  split; [by destruct d| | | |].
  - intros i Hi _. by rewrite store_slot.
  - intros i Hi H0. by rewrite store_slot.
  - intros c Hc. by rewrite store_used.
  - intros c _ _ _ Hne. rewrite fn_lookup_insert_ne; [done|]. apply Hne; [lia|done].
Qed.

Lemma data_content o src : (∀ b, is_block (v b)) → (o + length src ≤ 1024)%nat → x = write_at (v (slot v d k)) o src →
  content (<[slot v d k := x]> v) d = write_at (content v d) (k * 1024 + o) src.
Proof using Hmp Hk Hn.
  intros Hb Ho ->. destruct data_side as [Hbm Hind].
  assert (v (slot v d k) = fblock v d k) as Ek by (unfold fblock; by rewrite decide_False).
  unfold content. rewrite <- (write_at_concat _ 1024 k (fblock v d k)) by (done || by apply fblocks_len || by apply fblocks_lookup).
  f_equal. apply list_eq. intros j. rewrite list_lookup_insert, !list_lookup_fmap, length_fmap, length_seq.
  destruct (decide (j < NSLOT)%nat) as [Hj|Hj].
  2: { rewrite lookup_seq_ge by lia. rewrite decide_False by lia. done. }
  rewrite lookup_seq_lt by done. cbn [fmap option_fmap option_map]. unfold fblock at 1. rewrite store_slot by (lia || done).
  destruct (decide (k = j ∧ (k < NSLOT)%nat)) as [[<- _]|Hne].
  - by rewrite decide_False, fn_lookup_insert, Ek by done.
  - unfold fblock. cbn. destruct (decide (slot v d j = 0)) as [|E]; [done|]. rewrite fn_lookup_insert_ne; [done|].
    intros E'. apply (mp_inj _ _ _ _ Hmp) in E'; [tauto|lia|lia|done].
Qed.
End store_data.

Section file.
Context {U : Type} `{!UserMem U}.
Context (self : nat) (s0 : istate D U) (dev inum : Z) (d0 : DiskInode).
Context (Hs0 : idata s0 !! self = Some {| valid := Some (dev, inum); dinode := d0 |}).

(** [s0] with another disk, another copy of the inode, another buffer. *)
Definition with_file (f : fsd D) (d : DiskInode) (kb : list Z) : istate D U := {|
  fsys := f; umem := umem s0; kbuf := kb; imeta := imeta s0;
  idata := alter (λ x, {| valid := valid x; dinode := d |}) self (idata s0);
  ilocked := ilocked s0; cwd := cwd s0 |}.

Lemma with_file_same : with_file (fsys s0) d0 (kbuf s0) = s0.
Proof using Hs0.
  assert (alter (λ x, {| valid := valid x; dinode := d0 |}) self (idata s0) = idata s0) as E.
  { apply list_eq. intros j.
    destruct (decide (self = j)) as [<-|]; [by rewrite list_lookup_alter_eq, Hs0|by rewrite list_lookup_alter_ne]. }
  unfold with_file. rewrite E. by destruct s0.
Qed.

Lemma on_fs_file {A} (m : M (fsd D) A) f d kb a f' :
  m f = Done (a, f') → on_fs m (with_file f d kb) = Done (a, with_file f' d kb).
Proof. intros E. unfold on_fs. cbn [fsys with_file]. by rewrite E. Qed.

Lemma get_data_file f d kb :
  get_data self (with_file f d kb) = Done ({| valid := Some (dev, inum); dinode := d |}, with_file f d kb).
Proof using Hs0. unfold get_data. run_simpl. cbn [idata with_file]. by rewrite list_lookup_alter_eq, Hs0. Qed.

Lemma get_dinode_file f d kb : get_dinode self (with_file f d kb) = Done (d, with_file f d kb).
Proof using Hs0. unfold get_dinode. by rewrite (bind_run _ _ _ _ _ (get_data_file _ _ _)). Qed.

Lemma get_valid_file f d kb : get_valid self (with_file f d kb) = Done ((dev, inum), with_file f d kb).
Proof using Hs0. unfold get_valid. by rewrite (bind_run _ _ _ _ _ (get_data_file _ _ _)). Qed.

Lemma upd_dinode_file g f d kb : upd_dinode self g (with_file f d kb) = Done (tt, with_file f (g d) kb).
Proof.
  unfold upd_dinode, set_data, modify, with_file. cbn. do 3 f_equal. rewrite list_alter_alter_eq.
  apply list_alter_ext; [|done]. done.
Qed.

(** ** [map_blockno] *)
Lemma addr_lookup r v h d i : mapping_ok r v h d → (i ≤ 12)%nat → addrs d !! i = Some (addr d i).
Proof.
  intros Hmp Hi. unfold addr. pose proof (dw_len _ (mp_wf _ _ _ _ Hmp)) as Hlen.
  change (Z.to_nat (NDIRECT + 1)) with 13%nat in Hlen.
  destruct (lookup_lt_is_Some_2 (addrs d) i) as [x ->]; [lia|done].
Qed.

Lemma spare_free r v d : 0 < spare r v d → 0 < nfree r v ∧ (slot v d NSLOT = 0 → 1 < nfree r v).
Proof. unfold spare. destruct (decide _); lia. Qed.

(** A new block for slot [i], recorded in the inode. *)
Lemma attach_run f r v h d kb i j : file_at f r v h d → 0 < nfree r v →
  (i < 12 ∧ j = i ∨ i = 12 ∧ j = NSLOT)%nat → slot v d j = 0 →
  ∃ b f' v', (free_bn ← on_fs bm_alloc; upd_dinode self (with_addr i free_bn);; mret free_bn) (with_file f d kb)
      = Done (b, with_file f' (with_addr i b d) kb) ∧
    file_at f' r v' h (with_addr i b d) ∧ attach r v h d j b v' (with_addr i b d) ∧
    grows r v d v' (with_addr i b d) ∧ b ≠ 0 ∧
    spare r v' (with_addr i b d) = spare r v d - (if decide (j = NSLOT) then 0 else 1).
Proof using Hs0 BlockStoreLaws0 BFL.
  intros [Hm Hdk Hmp] Hn Hij Hsl.
  destruct (bm_alloc_step _ _ _ _ Hm (dk_bitmap _ _ _ Hdk) Hn) as (b & f' & v' & R & Hm' & _ & Hal).
  assert (attach r v h d j b v' (with_addr i b d)) as At.
  { destruct Hij as [[Hi ->]|[-> ->]]; [rewrite slot_direct in Hsl by done; by eapply attach_direct|by eapply attach_top]. }
  exists b, f', v'. rewrite (bind_run _ _ _ _ _ (on_fs_file _ _ _ kb _ _ R)), (bind_run _ _ _ _ _ (upd_dinode_file _ _ _ _)).
  split; [done|]. destruct (attach_file _ _ _ _ _ _ _ _ _ Hm' At Hdk Hmp) as (Hf & Hg & Hb & Hs). by split_and!.
Qed.

(** What mapping block [k] leaves behind. *)
Record mapped (f : fsd D) (r : RawSuperBlock) (v : Z → block) (h : list Z) (d : DiskInode)
    (v' : Z → block) (d' : DiskInode) (k : nat) : Prop := {
  mb_file : file_at f r v' h d';
  mb_grows : grows r v d v' d';
  mb_slot : slot v' d' k ≠ 0;
  mb_spare : spare r v d - 1 ≤ spare r v' d';
  mb_same : slot v d k ≠ 0 → v' = v ∧ d' = d;
}.

Lemma map_direct_run f r v h d kb k : file_at f r v h d → (k < 12)%nat →
  (slot v d k = 0 → 0 < spare r v d) →
  ∃ f' v' d', map_blockno self (Z.of_nat k) (with_file f d kb) = Done (slot v' d' k, with_file f' d' kb) ∧
    mapped f' r v h d v' d' k.
Proof using Hs0 BlockStoreLaws0 BFL.
  intros Hf Hk Hsp. pose proof Hf as [Hm Hdk Hmp]. unfold map_blockno.
  rewrite (bind_run _ _ _ _ _ (get_valid_file _ _ _)), (bind_run _ _ _ _ _ (get_dinode_file _ _ _)).
  rewrite (proj2 (Z.ltb_lt _ _)) by (change NDIRECT with 12; lia). rewrite Nat2Z.id.
  rewrite (addr_lookup r v h d k Hmp) by lia. rewrite (bind_run _ _ _ (addr d k) (with_file f d kb)) by done.
  destruct (Z.eqb_spec (addr d k) 0) as [E|E].
  - assert (slot v d k = 0) as E' by by rewrite slot_direct.
    destruct (spare_free r v d (Hsp E')) as [Hn _].
    destruct (attach_run f r v h d kb k k Hf Hn) as (b & f' & v' & R & Hf' & At & Hg & Hb & Hs); [by left|done|].
    exists f', v', (with_addr k b d). rewrite (at_new _ _ _ _ _ _ _ _ At). split; [exact R|]. split; try done.
    + by rewrite (at_new _ _ _ _ _ _ _ _ At).
    + rewrite Hs. destruct (decide _); lia.
  - exists f, v, d. rewrite slot_direct by done. split; [done|]. split; try done; [apply file_grows_refl|by rewrite slot_direct|lia].
Qed.

(** The indirect block is there after its part of [map_blockno]. *)
Lemma map_top_run f r v h d kb : file_at f r v h d → (addr d 12 = 0 → 0 < nfree r v) →
  ∃ f' v' d', (if addr d 12 =? 0 then
         free_bn ← on_fs bm_alloc; upd_dinode self (with_addr (Z.to_nat NDIRECT) free_bn);; mret free_bn
       else mret (addr d 12)) (with_file f d kb) = Done (addr d' 12, with_file f' d' kb) ∧
    file_at f' r v' h d' ∧ grows r v d v' d' ∧ addr d' 12 ≠ 0 ∧ spare r v' d' = spare r v d ∧
    (addr d 12 ≠ 0 → v' = v ∧ d' = d) ∧
    (addr d 12 = 0 → ∀ k, (12 ≤ k < NSLOT)%nat → slot v' d' k = 0).
Proof using Hs0 BlockStoreLaws0 BFL.
  intros Hf Hn. destruct (Z.eqb_spec (addr d 12) 0) as [E|E].
  - destruct (attach_run f r v h d kb 12 NSLOT Hf (Hn E)) as (b & f' & v' & R & Hf' & At & Hg & Hb & Hs); [by right|done|].
    exists f', v', (with_addr 12 b d). pose proof (at_new _ _ _ _ _ _ _ _ At) as En. rewrite slot_top in En.
    rewrite En. split; [exact R|]. split_and!; try done.
    + rewrite Hs, decide_True by done. lia.
    + intros _ k Hk. rewrite (at_old _ _ _ _ _ _ _ _ At), slot_indirect, decide_True by lia || done. done.
  - exists f, v, d. split; [done|]. split_and!; try done. apply file_grows_refl.
Qed.

Lemma write_u32_block x o n : is_block x → (o + 4 ≤ 1024)%nat → is_block (write_u32 x o n).
Proof.
  intros [Hl Hb] Ho. unfold write_u32. change (Z.to_nat BSIZE) with 1024%nat in *. split.
  - rewrite length_write_at; [done|]. rewrite length_le_bytes. lia.
  - apply write_at_bytes; [done|apply le_bytes_is_byte].
Qed.

(** The entry of the indirect block, which is there. *)
Lemma map_entry_run f r v h d kb k : file_at f r v h d → (12 ≤ k < NSLOT)%nat → addr d 12 ≠ 0 →
  (slot v d k = 0 → 0 < nfree r v) →
  ∃ f' v', (
    indirect_buf ← on_fs (bread (addr d 12));
    let bn := read_u32 indirect_buf (4 * Z.to_nat (Z.of_nat k - NDIRECT)) in
    if bn =? 0 then
      free_bn ← on_fs bm_alloc;
      on_fs (bset (addr d 12) (write_u32 indirect_buf (4 * Z.to_nat (Z.of_nat k - NDIRECT)) free_bn));;
      on_fs (log_write (addr d 12));;
      mret free_bn
    else on_fs (bdrop (addr d 12));; mret bn) (with_file f d kb) = Done (slot v' d k, with_file f' d kb) ∧
    mapped f' r v h d v' d k.
Proof using Hs0 BlockStoreLaws0 BFL.
  intros [Hm Hdk Hmp] Hk Hind Hn. pose proof (disk_ok_hold _ _ _ _ NSLOT Hdk Hmp ltac:(done) Hind) as Hdk'.
  assert (addr d 12 ∉ h) as Hnh by apply (mp_slot _ _ _ _ Hmp NSLOT ltac:(done) Hind). rewrite slot_top in Hdk'.
  destruct (bread_run _ _ _ _ _ Hm Hnh) as (f1 & R1 & Hm1).
  rewrite (bind_run _ _ _ _ _ (on_fs_file _ _ _ kb _ _ R1)). cbn zeta.
  replace (Z.to_nat (Z.of_nat k - NDIRECT)) with (k - 12)%nat by (change NDIRECT with 12; lia).
  assert (read_u32 (v (addr d 12)) (4 * (k - 12)) = slot v d k) as Es by by rewrite slot_indirect, decide_False.
  rewrite Es. destruct (Z.eqb_spec (slot v d k) 0) as [E|E].
  - destruct (bm_alloc_step _ _ _ _ Hm1 (dk_bitmap _ _ _ Hdk') (Hn E)) as (b & f2 & v2 & R2 & Hm2 & _ & Hal).
    pose proof (mounted_block _ _ _ _ (addr d 12) Hm) as Hblk. unfold NSLOT in Hk.
    destruct (bset_run f2 r v2 (addr d 12 :: h) (addr d 12) (write_u32 (v (addr d 12)) (4 * (k - 12)) b) Hm2)
      as (f3 & R3 & Hm3); [by left|apply write_u32_block; [done|lia]|].
    destruct (log_write_run _ _ _ _ _ Hm3) as (f4 & R4 & Hm4).
    exists f4, (<[addr d 12 := write_u32 (v (addr d 12)) (4 * (k - 12)) b]> v2).
    pose proof (attach_entry r v v2 h _ d b Hdk Hmp Hal k Hk Hind E Hblk) as At.
    destruct (attach_file _ _ _ _ _ _ _ _ _ Hm4 At Hdk Hmp) as (Hf & Hg & Hb & Hs).
    rewrite (at_new _ _ _ _ _ _ _ _ At).
    rewrite (bind_run _ _ _ _ _ (on_fs_file _ _ _ kb _ _ R2)), (bind_run _ _ _ _ _ (on_fs_file _ _ _ kb _ _ R3)),
      (bind_run _ _ _ _ _ (on_fs_file _ _ _ kb _ _ R4)).
    split; [done|]. split; try done.
    + by rewrite (at_new _ _ _ _ _ _ _ _ At).
    + rewrite Hs. destruct (decide _); lia.
  - destruct (bdrop_run _ _ _ _ _ Hm1) as (f2 & R2 & Hm2). exists f2, v.
    rewrite (bind_run _ _ _ _ _ (on_fs_file _ _ _ kb _ _ R2)). split; [done|]. split; try done; [apply file_grows_refl|lia].
Qed.

Lemma mapped_trans f r v h d v1 d1 v2 d2 k : grows r v d v1 d1 → spare r v1 d1 = spare r v d →
  (slot v d k ≠ 0 → v1 = v ∧ d1 = d) →
  mapped f r v1 h d1 v2 d2 k → mapped f r v h d v2 d2 k.
Proof.
  intros Hg Hs Hsame [Hf Hg' Hsl Hsp Hsame']. split; try done; [by eapply file_grows_trans|lia|].
  intros Hk. destruct (Hsame Hk) as [-> ->]. by apply Hsame'.
Qed.

(** [map_blockno] returns the block of slot [k], after allocating what is
    missing of it. *)
Lemma map_blockno_run f r v h d kb k : file_at f r v h d → (k < NSLOT)%nat →
  (slot v d k = 0 → 0 < spare r v d) →
  ∃ f' v' d', map_blockno self (Z.of_nat k) (with_file f d kb) = Done (slot v' d' k, with_file f' d' kb) ∧
    mapped f' r v h d v' d' k.
Proof using Hs0 BlockStoreLaws0 BFL.
  intros Hf Hk Hsp. destruct (decide (k < 12)%nat) as [Hlt|Hge]; [by apply map_direct_run|].
  pose proof Hf as [Hm Hdk Hmp]. unfold map_blockno.
  rewrite (bind_run _ _ _ _ _ (get_valid_file _ _ _)), (bind_run _ _ _ _ _ (get_dinode_file _ _ _)).
  rewrite (proj2 (Z.ltb_ge _ _)) by (change NDIRECT with 12; lia).
  rewrite (proj2 (Z.ltb_lt _ _)) by (change (NDIRECT + NINDIRECT) with 268; unfold NSLOT in Hk; lia). cbn zeta.
  rewrite (addr_lookup r v h d 12 Hmp ltac:(done) : addrs d !! Z.to_nat NDIRECT = _).
  rewrite (bind_run _ _ _ (addr d 12) (with_file f d kb)) by done.
  assert (addr d 12 = 0 → slot v d k = 0) as H0.
  { intros E. by rewrite slot_indirect, decide_True by lia. }
  destruct (map_top_run f r v h d kb Hf) as (f1 & v1 & d1 & R1 & Hf1 & Hg & Hi1 & Hs1 & Hsame & Hempty).
  { intros E. by destruct (spare_free _ _ _ (Hsp (H0 E))). }
  rewrite (bind_run _ _ _ _ _ R1).
  destruct (map_entry_run f1 r v1 h d1 kb k Hf1 ltac:(lia) Hi1) as (f2 & v2 & R2 & Hmb).
  { intros E. destruct (decide (slot v d k = 0)) as [E'|E'].
    - specialize (Hsp E'). rewrite <- Hs1 in Hsp. by destruct (spare_free _ _ _ Hsp).
    - destruct Hsame as [-> ->]; [|done]. intros E12. auto. }
  exists f2, v2, d1. split; [exact R2|]. eapply mapped_trans; [..|exact Hmb]; [done|done|].
  intros Hn. apply Hsame. auto.
Qed.

Lemma file_blocks f r v h d : file_at f r v h d → ∀ b, is_block (v b).
Proof. intros [Hm _ _] b. by eapply mounted_block. Qed.

(** ** [iread] *)
Lemma kernel_offset p m : 0 ≤ p → 0 ≤ m → p + m < isize_max →
  Address_offset (Kernel p) m = Done (Kernel (p + m)) ∧ Address_offset (KernelMut p) m = Done (KernelMut (p + m)).
Proof.
  intros Hp Hm Hpm. unfold Address_offset. unfold isize_max in *.
  rewrite (proj2 (Z.ltb_lt _ _)) by lia. cbn [mbind outcome_bind assertO]. rewrite !add_chk_ok by lia. done.
Qed.

Lemma next_count c m : (m ≤ c)%nat → Z.of_nat c - Z.of_nat m = Z.of_nat (c - m).
Proof. lia. Qed.

Lemma iread_loop_run n f r v h d kb p k o c :
  file_at f r v h d → (c ≤ n)%nat → (o < 1024)%nat → (k * 1024 + o + c ≤ NSLOT * 1024)%nat →
  (∀ j, (j * 1024 < k * 1024 + o + c)%nat → slot v d j ≠ 0) →
  (p + c ≤ length kb)%nat → Z.of_nat (length kb) < isize_max →
  ∃ f', iread_loop n self (KernelMut (Z.of_nat p)) (Z.of_nat c) (Z.of_nat k) (Z.of_nat o)
      (Z.min (BSIZE - Z.of_nat o) (Z.of_nat c)) (with_file f d kb)
    = Done (inl tt, with_file f' d (write_at kb p (take c (drop (k * 1024 + o) (content v d))))) ∧ file_at f' r v h d.
Proof using Hs0 BlockStoreLaws0 BFL.
  revert f kb p k o c. induction n as [|n IH]; intros f kb p k o c Hf Hc Ho Hfit Hcov Hp Hkb.
  { replace c with 0%nat by lia. exists f. by rewrite take_0, write_at_nil. }
  destruct (decide (c = 0%nat)) as [->|Hc0]; [exists f; by rewrite take_0, write_at_nil|].
  cbn [iread_loop]. rewrite (proj2 (Z.ltb_lt _ _)) by lia. set (m := Nat.min (1024 - o) c).
  assert (Z.min (BSIZE - Z.of_nat o) (Z.of_nat c) = Z.of_nat m) as -> by (subst m; change BSIZE with 1024; lia).
  assert (k < NSLOT)%nat as Hk by (unfold NSLOT in *; lia).
  assert (slot v d k ≠ 0) as Hs by (apply Hcov; lia).
  destruct (map_blockno_run f r v h d kb k Hf Hk) as (f1 & v1 & d1 & R1 & Hmb); [done|].
  destruct (mb_same _ _ _ _ _ _ _ _ Hmb Hs) as [-> ->]. pose proof (mb_file _ _ _ _ _ _ _ _ Hmb) as [Hm1 Hdk1 Hmp1].
  destruct (mp_slot _ _ _ _ Hmp1 k ltac:(lia) Hs) as (_ & _ & Hnh).
  destruct (bread_run _ _ _ _ _ Hm1 Hnh) as (f2 & R2 & Hm2).
  destruct (bdrop_run _ _ _ _ _ Hm2) as (f3 & R3 & Hm3).
  rewrite (bind_run _ _ _ _ _ R1), (bind_run _ _ _ _ _ (on_fs_file _ _ _ kb _ _ R2)).
  set (C := content v d). set (q := (k * 1024 + o)%nat) in *.
  assert (length C = NSLOT * 1024)%nat as HlC by (apply length_content; by eapply file_blocks).
  assert (take m (drop o (v (slot v d k))) = take m (drop q C)) as Ew.
  { unfold C, q. rewrite <- (content_window v d k o m); [|by eapply file_blocks|done|lia]. unfold fblock. by rewrite decide_False. }
  rewrite (bind_run _ _ _ (inl tt) (with_file f2 d (write_at kb p (take m (drop q C))))).
  2: { unfold addr_copy_out. run_simpl. unfold set_kbuf. run_simpl. cbn [kbuf with_file]. rewrite !Nat2Z.id, Ew. done. }
  rewrite (bind_run _ _ _ _ _ (on_fs_file _ _ _ _ _ _ R3)).
  assert (length (take m (drop q C)) = m) as Hlm by (rewrite length_take, length_drop; lia).
  rewrite (bind_run _ _ _ (KernelMut (Z.of_nat (p + m))) (with_file f3 d (write_at kb p (take m (drop q C))))).
  2: { unfold lift. destruct (kernel_offset (Z.of_nat p) (Z.of_nat m)) as [_ ->]; [lia..|]. by rewrite Nat2Z.inj_add. }
  rewrite next_count by lia. replace (Z.of_nat k + 1) with (Z.of_nat (S k)) by lia.
  replace (Z.min BSIZE (Z.of_nat (c - m))) with (Z.min (BSIZE - Z.of_nat 0) (Z.of_nat (c - m))) by (f_equal; lia).
  change 0 with (Z.of_nat 0) at 1.
  assert (file_at f3 r v h d) as Hf3 by by split.
  assert (c - m = 0 ∨ q + m = S k * 1024)%nat as Hnext by lia.
  destruct (IH f3 (write_at kb p (take m (drop q C))) (p + m)%nat (S k) 0%nat (c - m)%nat Hf3) as (f4 & R4 & Hf4).
  all: rewrite ?length_write_at by lia; try (lia || done).
  { intros j Hj. apply Hcov. lia. }
  exists f4. split; [|done]. rewrite R4. fold C.
  replace (take c (drop q C)) with (take m (drop q C) ++ take (c - m) (drop (q + m) C)).
  2: { rewrite <- drop_drop, take_take_drop. f_equal. lia. }
  destruct Hnext as [-> | ->].
  - by rewrite !take_0, app_nil_r, write_at_nil.
  - rewrite Nat.add_0_r. rewrite <- Hlm at 2. rewrite write_at_app; [done|]. rewrite Hlm, length_take. lia.
Qed.

(** ** [try_iwrite] *)
(** The blocks that [c] bytes from offset [o] of a block touch. *)
Definition chunks (o c : nat) : Z := Z.of_nat ((o + c + 1023) / 1024).

Lemma chunks_step o c m : (o < 1024)%nat → c ≠ 0%nat → m = Nat.min (1024 - o) c →
  chunks 0 (c - m) + 1 ≤ chunks o c.
Proof.
  intros Ho Hc Hm. unfold chunks. enough ((0 + (c - m) + 1023) / 1024 + 1 ≤ (o + c + 1023) / 1024)%nat by lia.
  pose proof (Nat.div_mod_eq (0 + (c - m) + 1023) 1024). pose proof (Nat.mod_upper_bound (0 + (c - m) + 1023) 1024 ltac:(lia)).
  pose proof (Nat.div_mod_eq (o + c + 1023) 1024). pose proof (Nat.mod_upper_bound (o + c + 1023) 1024 ltac:(lia)).
  lia.
Qed.

(** The outcome of a write of [src] at block [k], offset [o]. *)
Record written (f : fsd D) (r : RawSuperBlock) (v : Z → block) (h : list Z) (d : DiskInode)
    (v' : Z → block) (d' : DiskInode) (q : nat) (src : list Z) : Prop := {
  wr_file : file_at f r v' h d';
  wr_keeps : keeps r v d v' d';
  wr_content : content v' d' = write_at (content v d) q src;
  wr_there j : src ≠ [] → (q < (j + 1) * 1024)%nat → (j * 1024 < q + length src)%nat → slot v' d' j ≠ 0;
}.

Lemma store_file_at f f' r v h d k x : file_at f r v h d → (k < NSLOT)%nat → slot v d k ≠ 0 →
  mounted f' r (<[slot v d k := x]> v) h → file_at f' r (<[slot v d k := x]> v) h d.
Proof.
  intros [_ Hdk Hmp] Hk Hn Hm. destruct (data_side _ _ _ _ _ Hmp Hk Hn) as [Hbm Hind].
  split; [done|by apply store_disk|by apply store_mapping].
Qed.

(** One turn of the loop. *)
Lemma iwrite_step f r v h d kb k o (src : list Z) :
  file_at f r v h d → (k < NSLOT)%nat → (o + length src ≤ 1024)%nat → Forall is_byte src → src ≠ [] →
  1 ≤ spare r v d →
  ∃ f' v' d' b f1 d1 f2 f3, map_blockno self (Z.of_nat k) (with_file f d kb) = Done (b, with_file f1 d1 kb) ∧
    bread b f1 = Done (v' b, f2) ∧ bset b (write_at (v' b) o src) f2 = Done (tt, f3) ∧
    log_write b f3 = Done (tt, f') ∧ d1 = d' ∧
    written f' r v h d (<[b := write_at (v' b) o src]> v') d' (k * 1024 + o) src ∧
    spare r v d - 1 ≤ spare r (<[b := write_at (v' b) o src]> v') d'.
Proof using Hs0 BlockStoreLaws0 BFL.
  intros Hf Hk Ho Hsrc Hne Hsp. destruct (map_blockno_run f r v h d kb k Hf Hk) as (f1 & v1 & d1 & R1 & Hmb); [lia|].
  destruct Hmb as [Hf1 Hg Hs1 Hsp1 _]. pose proof Hf1 as [Hm1 Hdk1 Hmp1].
  destruct (mp_slot _ _ _ _ Hmp1 k ltac:(lia) Hs1) as (_ & _ & Hnh).
  destruct (bread_run _ _ _ _ _ Hm1 Hnh) as (f2 & R2 & Hm2).
  pose proof (file_blocks _ _ _ _ _ Hf1) as Hblk. destruct (Hblk (slot v1 d1 k)) as [Hlb Hbb].
  change (Z.to_nat BSIZE) with 1024%nat in Hlb.
  destruct (bset_run f2 r v1 (slot v1 d1 k :: h) (slot v1 d1 k) (write_at (v1 (slot v1 d1 k)) o src) Hm2) as (f3 & R3 & Hm3).
  { by left. } { split; [by rewrite length_write_at by lia|by apply write_at_bytes]. }
  destruct (log_write_run _ _ _ _ _ Hm3) as (f4 & R4 & Hm4).
  exists f4, v1, d1, (slot v1 d1 k), f1, d1, f2, f3. destruct (data_side _ _ _ _ _ Hmp1 Hk Hs1) as [Hbm Hind].
  split_and!; try done.
  - split.
    + by apply (store_file_at f1).
    + eapply keeps_trans; [by destruct Hg|by eapply data_keeps].
    + rewrite (data_content r v1 h d1 k _ Hmp1 Hk Hs1 o src) by done. by rewrite (content_grows _ _ _ _ _ Hg).
    + intros j _ Hj1 Hj2. rewrite store_slot by (done || unfold NSLOT in *; lia). by replace j with k by lia.
  - rewrite store_spare by done. exact Hsp1.
Qed.

Lemma written_nil f r v h d q : file_at f r v h d → written f r v h d v d q [].
Proof. intros Hf. split; try done; [apply keeps_refl|by rewrite write_at_nil]. Qed.

Lemma written_app f f1 f2 r v h d v1 d1 v2 d2 q (a b : list Z) :
  (q + length (a ++ b) ≤ NSLOT * 1024)%nat →
  (b = [] ∨ ∃ k, q + length a = k * 1024)%nat →
  file_at f r v h d → written f1 r v h d v1 d1 q a → written f2 r v1 h d1 v2 d2 (q + length a) b →
  written f2 r v h d v2 d2 q (a ++ b).
Proof.
  rewrite length_app. intros Hq Hb Hf [Hf1 K1 C1 T1] [Hf2 K2 C2 T2].
  pose proof (length_content v d (file_blocks _ _ _ _ _ Hf)) as Hl. split.
  - done.
  - by eapply keeps_trans.
  - rewrite C2, C1. apply write_at_app. lia.
  - intros j Hne Hj1 Hj2. rewrite length_app in Hj2.
    destruct (decide (a ≠ [] ∧ (j * 1024 < q + length a)%nat)) as [[Ha Hja]|Hn].
    + assert ((j ≤ NSLOT)%nat) by (unfold NSLOT in *; lia).
      rewrite (kp_slot _ _ _ _ _ K2); auto.
    + destruct (decide (b = [])) as [->|Hbn].
      { cbn [length] in Hj2. rewrite app_nil_r in Hne. exfalso. apply Hn. split; [done|lia]. }
      apply T2; [done| |lia]. destruct Hb as [->|[k Hk]]; [done|].
      destruct (decide (a = [])) as [->|Ha]; [cbn [length]; lia|].
      assert (¬ (j * 1024 < q + length a)%nat) by tauto. lia.
Qed.

Lemma iwrite_loop_run n f r v h d kb p k o c :
  file_at f r v h d → (c ≤ n)%nat → (o < 1024)%nat → (k * 1024 + o + c ≤ NSLOT * 1024)%nat →
  (p + c ≤ length kb)%nat → Z.of_nat (length kb) < isize_max → Forall is_byte kb →
  chunks o c ≤ spare r v d →
  ∃ f' v' d', iwrite_loop n self (Kernel (Z.of_nat p)) (Z.of_nat c) (Z.of_nat k) (Z.of_nat o)
      (Z.min (BSIZE - Z.of_nat o) (Z.of_nat c)) (with_file f d kb) = Done (0, with_file f' d' kb) ∧
    written f' r v h d v' d' (k * 1024 + o) (take c (drop p kb)).
Proof using Hs0 BlockStoreLaws0 BFL.
  revert f v d p k o c. induction n as [|n IH]; intros f v d p k o c Hf Hc Ho Hfit Hp Hkb Hby Hsp.
  { replace c with 0%nat by lia. exists f, v, d. rewrite take_0. split; [done|by apply written_nil]. }
  destruct (decide (c = 0%nat)) as [->|Hc0].
  { exists f, v, d. rewrite take_0. split; [done|by apply written_nil]. }
  cbn [iwrite_loop]. rewrite (proj2 (Z.ltb_lt _ _)) by lia. set (m := Nat.min (1024 - o) c).
  assert (Z.min (BSIZE - Z.of_nat o) (Z.of_nat c) = Z.of_nat m) as -> by (subst m; change BSIZE with 1024; lia).
  assert (k < NSLOT)%nat as Hk by (unfold NSLOT in *; lia).
  pose proof (chunks_step o c m Ho Hc0 eq_refl) as Hch. assert (0 ≤ chunks 0 (c - m)) by (unfold chunks; lia).
  set (src := take m (drop p kb)). assert (length src = m) as Hlm by (unfold src; rewrite length_take, length_drop; lia).
  assert (src ≠ []) as Hne by (intros E; rewrite E in Hlm; cbn in Hlm; lia).
  destruct (iwrite_step f r v h d kb k o src Hf Hk) as (f' & v' & d' & b & f1 & d1 & f2 & f3 & R1 & R2 & R3 & R4 & -> & Hwr & Hsp');
    [lia|by apply Forall_take, Forall_drop|done|lia|].
  rewrite (bind_run _ _ _ _ _ R1), (bind_run _ _ _ _ _ (on_fs_file _ _ _ kb _ _ R2)).
  rewrite (bind_run _ _ _ (src, inl tt) (with_file f2 d' kb)).
  2: { unfold addr_copy_in. run_simpl. cbn [kbuf with_file]. by rewrite !Nat2Z.id. }
  rewrite Nat2Z.id, (bind_run _ _ _ _ _ (on_fs_file _ _ _ kb _ _ R3)), (bind_run _ _ _ _ _ (on_fs_file _ _ _ kb _ _ R4)).
  rewrite (bind_run _ _ _ (Kernel (Z.of_nat (p + m))) (with_file f' d' kb)).
  2: { unfold lift. destruct (kernel_offset (Z.of_nat p) (Z.of_nat m)) as [-> _]; [lia..|]. by rewrite Nat2Z.inj_add. }
  rewrite next_count by lia. replace (Z.of_nat k + 1) with (Z.of_nat (S k)) by lia.
  replace (Z.min BSIZE (Z.of_nat (c - m))) with (Z.min (BSIZE - Z.of_nat 0) (Z.of_nat (c - m))) by (f_equal; lia).
  change 0 with (Z.of_nat 0) at 1.
  assert (c - m = 0 ∨ k * 1024 + o + m = S k * 1024)%nat as Hnext by lia.
  destruct (IH f' (<[b := write_at (v' b) o src]> v') d' (p + m)%nat (S k) 0%nat (c - m)%nat) as (f4 & v4 & d4 & R5 & Hwr4);
    try (lia || done); [by destruct Hwr|].
  exists f4, v4, d4. split; [exact R5|].
  replace (take c (drop p kb)) with (src ++ take (c - m) (drop (p + m) kb)).
  2: { unfold src. rewrite <- drop_drop, take_take_drop. f_equal. lia. }
  eapply written_app; [| |exact Hf|exact Hwr|].
  - rewrite length_app, Hlm, length_take. lia.
  - destruct Hnext as [-> |E]; [left; by rewrite take_0|right; exists (S k); lia].
  - rewrite Hlm. destruct Hnext as [E|E].
    + rewrite E, take_0 in Hwr4 |- *. destruct Hwr4 as [Hf4 K4 C4 T4]. rewrite write_at_nil in C4.
      split; [done|done|by rewrite write_at_nil|done].
    + rewrite E. by rewrite Nat.add_0_r in Hwr4.
Qed.

(** ** [update] *)
Lemma update_run f r v h d kb : file_at f r v h d → 0 ≤ inum < ninodes r →
  ∃ f', update self (with_file f d kb) = Done (tt, with_file f' d kb) ∧
    file_at f' r (set_dinode r v inum d) h d ∧
    (∀ i, (i ≤ NSLOT)%nat → slot (set_dinode r v inum d) d i = slot v d i) ∧
    content (set_dinode r v inum d) d = content v d.
Proof using Hs0 BlockStoreLaws0 BFL.
  intros Hf Hi. pose proof Hf as [Hm Hdk Hmp]. pose proof (file_blocks _ _ _ _ _ Hf) as Hblk.
  destruct (dk_table _ _ _ Hdk inum Hi) as (Hr & Hu & Hbm).
  assert (∀ i, (i ≤ NSLOT)%nat → slot v d i ≠ 0 → inode_block r inum ≠ slot v d i) as Hne.
  { intros i Hin Hn E. destruct (mp_slot _ _ _ _ Hmp i Hin Hn) as ([_ _ Hdi] & _). by eapply Hdi. }
  assert (slot v d NSLOT ≠ 0 → inode_block r inum ≠ slot v d NSLOT) as Hind by (intros; by apply Hne).
  destruct (bread_run _ _ _ _ (inode_block r inum) Hm) as (f1 & R1 & Hm1); [by apply (io_held _ _ _ (dk_inodes _ _ _ Hdk))|].
  destruct (bset_run f1 r v _ (inode_block r inum)
    (write_dinode (v (inode_block r inum)) (locate_inode_offset inum) d) Hm1) as (f2 & R2 & Hm2);
    [by left|apply set_dinode_block; [done|apply Hmp]|].
  destruct (log_write_run _ _ _ _ _ Hm2) as (f3 & R3 & Hm3).
  exists f3. split_and!.
  - unfold update. rewrite (bind_run _ _ _ _ _ (get_valid_file _ _ _)). cbn beta iota.
    rewrite (bind_run _ _ _ _ _ (on_fs_file _ _ _ kb _ _ (locate_inode_run _ _ _ _ _ Hm (dk_inodes _ _ _ Hdk) Hi))).
    rewrite (bind_run _ _ _ _ _ (on_fs_file _ _ _ kb _ _ R1)), (bind_run _ _ _ _ _ (get_dinode_file _ _ _)).
    rewrite (bind_run _ _ _ _ _ (on_fs_file _ _ _ kb _ _ R2)). by apply on_fs_file.
  - split; [done|by apply store_disk|by apply store_mapping].
  - intros i Hi'. by apply store_slot.
  - unfold content. f_equal. apply list_fmap_ext. intros i k [-> Hk]%lookup_seq. cbn. unfold fblock, set_dinode.
    rewrite store_slot by (done || lia). destruct (decide _) as [|E]; [done|].
    rewrite fn_lookup_insert_ne; [done|]. by apply Hne; [lia|].
Qed.
End file.

(** * The operations *)
Section theorems.
Context {U : Type} `{!UserMem U}.

(** The entry [self] of the cache is the inode [inum], whose contents are on
    the disk. *)
Record file_in (s : istate D U) (self : nat) (r : RawSuperBlock) (v : Z → block) (h : list Z)
    (dev inum : Z) (d : DiskInode) : Prop := {
  fi_entry : idata s !! self = Some {| valid := Some (dev, inum); dinode := d |};
  fi_inum : 0 ≤ inum < ninodes r;
  fi_file : file_at (fsys s) r v h d;
  fi_covered : covered v d;
}.

Lemma split_offset off : 0 ≤ off →
  off / BSIZE = Z.of_nat (Z.to_nat off / 1024) ∧ off `mod` BSIZE = Z.of_nat (Z.to_nat off `mod` 1024) ∧
  Z.to_nat off = (Z.to_nat off / 1024 * 1024 + Z.to_nat off `mod` 1024)%nat ∧ (Z.to_nat off `mod` 1024 < 1024)%nat.
Proof.
  intros Ho. rewrite Nat2Z.inj_div, Nat2Z.inj_mod, Z2Nat.id by done. split_and!; try done.
  - rewrite Nat.mul_comm. apply Nat.div_mod_eq.
  - apply Nat.mod_upper_bound. lia.
Qed.

Lemma iread_run s self r v h dev inum d p off n :
  file_in s self r v h dev inum d → 0 ≤ off → 0 ≤ n → off + n ≤ size d →
  0 ≤ p → p + n ≤ Z.of_nat (length (kbuf s)) < isize_max →
  ∃ s', iread self (KernelMut p) off n s = Done (inl tt, s') ∧ file_in s' self r v h dev inum d ∧ umem s' = umem s ∧
    kbuf s' = write_at (kbuf s) (Z.to_nat p) (take (Z.to_nat n) (drop (Z.to_nat off) (content v d))).
Proof.
  intros [Hent Hin Hf [Hmax Hcov]] Ho Hn Hsz Hp Hk. set (W := with_file self s (fsys s) d (kbuf s)).
  assert (iread self (KernelMut p) off n s = iread self (KernelMut p) off n W) as ->.
  { f_equal. symmetry. by eapply with_file_same. }
  destruct (split_offset off Ho) as (Ed & Em & Eo & Hlt).
  change MAX_FILE_SIZE with 274432 in Hmax.
  destruct (iread_loop_run self s dev inum d Hent (Z.to_nat n) (fsys s) r v h d (kbuf s) (Z.to_nat p)
    (Z.to_nat off / 1024) (Z.to_nat off `mod` 1024) (Z.to_nat n)) as (f' & R & Hf'); try done; try (unfold NSLOT; lia).
  { intros j Hj. apply Hcov. change BSIZE with 1024. lia. }
  rewrite <- Eo, <- Ed, <- Em, !Z2Nat.id in R by lia.
  exists (with_file self s f' d (write_at (kbuf s) (Z.to_nat p) (take (Z.to_nat n) (drop (Z.to_nat off) (content v d))))).
  split; [|split; [|done]].
  - unfold iread, W. rewrite (bind_run _ _ _ _ _ (get_dinode_file self s dev inum d Hent _ _ _)).
    unfold checked_add. rewrite (proj2 (Z.ltb_lt _ _)) by lia. rewrite (proj2 (Z.ltb_ge _ _)) by lia.
    rewrite (bind_run _ _ _ _ _ (get_valid_file self s dev inum d Hent _ _ _)). exact R.
  - split; [|done|done|by split]. cbn [idata with_file]. by rewrite list_lookup_alter_eq, Hent.
Qed.

Lemma try_iread_run s self r v h dev inum d p off count :
  file_in s self r v h dev inum d → 0 ≤ off → 0 ≤ count → off + count < 2 ^ 32 → off ≤ size d →
  0 ≤ p → p + count ≤ Z.of_nat (length (kbuf s)) < isize_max →
  let n := Z.min count (size d - off) in
  ∃ s', try_iread self (KernelMut p) off count s = Done (inl n, s') ∧ file_in s' self r v h dev inum d ∧
    kbuf s' = write_at (kbuf s) (Z.to_nat p) (take (Z.to_nat n) (drop (Z.to_nat off) (content v d))).
Proof.
  intros Hfi Ho Hc Hov Hsz Hp Hk n.
  destruct (iread_run s self r v h dev inum d p off n) as (s' & R & Hfi' & _ & Hkb); [done|done|lia..|].
  exists s'. split; [|done]. unfold try_iread, get_dinode, get_data. run_simpl. rewrite (fi_entry _ _ _ _ _ _ _ _ Hfi).
  cbn [dinode]. rewrite (proj2 (Z.ltb_ge _ _)) by done. unfold checked_add. rewrite (proj2 (Z.ltb_lt _ _)) by done.
  assert ((if size d <? off + count then size d - off else count) = n) as ->.
  { destruct (Z.ltb_spec (size d) (off + count)); lia. }
  by rewrite R.
Qed.

Lemma with_size_file f r v h d n : file_at f r v h d → is_u32 n → file_at f r v h (with_size n d).
Proof. intros [Hm Hdk [[] Hsl Hinj]] Hn. split; [done|done|]. by split. Qed.

(** What a successful write of [src] at [off] leaves. *)
Record wrote (r : RawSuperBlock) (inum : Z) (v : Z → block) (d : DiskInode) (v' : Z → block) (d' : DiskInode)
    (off : Z) (src : list Z) : Prop := {
  wo_content : content v' d' = write_at (content v d) (Z.to_nat off) src;
  wo_meta : d' = {| itype := itype d; major := major d; minor := minor d; nlink := nlink d;
    size := Z.max (size d) (off + Z.of_nat (length src)); addrs := addrs d' |};
  wo_inode : dinode_at r v' inum = Some d';
  wo_others x : 0 ≤ x < sb_size r → used r v x = true → (∀ c, 0 ≤ c < sb_size r → x ≠ bitmap_of r c) →
    (∀ i, (i ≤ NSLOT)%nat → slot v d i ≠ 0 → slot v d i ≠ x) → x ≠ inode_block r inum → v' x = v x;
}.

(** The end of [try_iwrite]: the size and the inode on the disk. *)
Lemma iwrite_end self s r v h dev inum d f v1 d1 kb off (src : list Z) :
  file_in s self r v h dev inum d → 0 ≤ off ≤ size d → off + Z.of_nat (length src) ≤ MAX_FILE_SIZE →
  written f r v h d v1 d1 (Z.to_nat off) src →
  let n := off + Z.of_nat (length src) in
  ∃ s' v' d', ((if size d1 <? n then upd_dinode self (with_size n) else mret tt);; update self)
      (with_file self s f d1 kb) = Done (tt, s') ∧
    file_in s' self r v' h dev inum d' ∧ wrote r inum v d v' d' off src ∧ kbuf s' = kb.
Proof.
  intros [Hent Hin Hf [Hmax Hcov]] Ho Hn [Hf1 K C T] n. change MAX_FILE_SIZE with 274432 in *.
  set (d2 := if size d1 <? n then with_size n d1 else d1).
  assert (size d1 = size d) as Esz by (rewrite (kp_meta _ _ _ _ _ K); done).
  assert (size d2 = Z.max (size d) n) as Esz2.
  { unfold d2. destruct (Z.ltb_spec (size d1) n); cbn [size with_size]; lia. }
  assert (file_at f r v1 h d2) as Hf2.
  { unfold d2. destruct (size d1 <? n); [|done]. apply with_size_file; [done|]. unfold is_u32. lia. }
  assert (∀ w i, slot w d2 i = slot w d1 i) as Es by (intros w i; unfold d2; by destruct (size d1 <? n)).
  assert (∀ w, content w d2 = content w d1) as Ec by (intros w; unfold d2; by destruct (size d1 <? n)).
  destruct (update_run self s dev inum d Hent f r v1 h d2 kb Hf2 Hin) as (f' & R & Hf' & Hsl & Hc).
  exists (with_file self s f' d2 kb), (set_dinode r v1 inum d2), d2. split; [|split; [|split; [|done]]].
  - rewrite (bind_run _ _ _ tt (with_file self s f d2 kb)); [exact R|]. unfold d2. destruct (size d1 <? n); [|done].
    by rewrite upd_dinode_file.
  - split; [cbn [idata with_file]; by rewrite list_lookup_alter_eq, Hent|done|done|].
    split; rewrite Esz2; [change MAX_FILE_SIZE with 274432; lia|]. change BSIZE with 1024. intros k Hk.
    assert ((k ≤ NSLOT)%nat) as Hkn by (unfold NSLOT; lia). rewrite Hsl, Es by done.
    destruct (decide (Z.of_nat k * 1024 < size d)) as [Hlt|Hge].
    + rewrite (kp_slot _ _ _ _ _ K); auto.
    + apply T; [|lia..]. intros ->. cbn [length] in *. lia.
  - split.
    + by rewrite Hc, Ec, C.
    + fold n. rewrite <- Esz2. unfold d2. rewrite (kp_meta _ _ _ _ _ K). cbn [size].
      by destruct (size d <? n).
    + rewrite dinode_at_set, decide_True; [done..| | |lia|lia]; [by eapply file_blocks|by destruct Hf2 as [_ _ []]].
    + intros x Hx Hu Hbm Hne Hi. unfold set_dinode. rewrite fn_lookup_insert_ne by done. by apply (kp_other _ _ _ _ _ K).
Qed.

Lemma try_iwrite_run s self r v h dev inum d p off count :
  file_in s self r v h dev inum d → 0 ≤ off ≤ size d → 0 ≤ count → off + count ≤ MAX_FILE_SIZE →
  0 ≤ p → p + count ≤ Z.of_nat (length (kbuf s)) < isize_max → Forall is_byte (kbuf s) →
  chunks (Z.to_nat off `mod` 1024) (Z.to_nat count) ≤ spare r v d →
  ∃ s' v' d', try_iwrite self (Kernel p) off count s = Done (inl count, s') ∧ file_in s' self r v' h dev inum d' ∧
    wrote r inum v d v' d' off (take (Z.to_nat count) (drop (Z.to_nat p) (kbuf s))) ∧ kbuf s' = kbuf s.
Proof.
  intros Hfi Ho Hc Hmx Hp Hk Hby Hsp. pose proof Hfi as [Hent Hin Hf [Hmax Hcov]]. pose proof Hmx as Hmx'.
  change MAX_FILE_SIZE with 274432 in Hmax, Hmx'.
  set (W := with_file self s (fsys s) d (kbuf s)).
  assert (try_iwrite self (Kernel p) off count s = try_iwrite self (Kernel p) off count W) as ->.
  { f_equal. symmetry. by eapply with_file_same. }
  unfold try_iwrite, W. rewrite (bind_run _ _ _ _ _ (get_dinode_file self s dev inum d Hent _ _ _)).
  rewrite (proj2 (Z.ltb_ge _ _)) by lia. unfold checked_add. rewrite (proj2 (Z.ltb_lt _ _)) by lia.
  rewrite (proj2 (Z.ltb_ge MAX_FILE_SIZE _)) by done.
  rewrite (bind_run _ _ _ _ _ (get_valid_file self s dev inum d Hent _ _ _)). cbn zeta.
  destruct (split_offset off ltac:(lia)) as (Ed & Em & Eo & Hlt).
  set (src := take (Z.to_nat count) (drop (Z.to_nat p) (kbuf s))).
  assert (Z.of_nat (length src) = count) as Hls by (unfold src; rewrite length_take, length_drop; lia).
  destruct (iwrite_loop_run self s dev inum d Hent (Z.to_nat count) (fsys s) r v h d (kbuf s) (Z.to_nat p)
    (Z.to_nat off / 1024) (Z.to_nat off `mod` 1024) (Z.to_nat count)) as (f1 & v1 & d1 & R & Hwr); try done; try (unfold NSLOT; lia).
  rewrite <- Eo, <- Ed, <- Em, !Z2Nat.id in * by lia. rewrite (bind_run _ _ _ _ _ R). rewrite Z.sub_0_r.
  rewrite (bind_run _ _ _ _ _ (get_dinode_file self s dev inum d Hent _ _ _)).
  destruct (iwrite_end self s r v h dev inum d f1 v1 d1 (kbuf s) off src Hfi Ho) as (s' & v' & d' & R' & Hfi' & Hwo & Hkb);
    [by rewrite Hls|done|]. rewrite Hls in R'.
  exists s', v', d'. split; [|done]. mbind_inv R' as u s1 R1 R2. destruct u.
  rewrite (bind_run _ _ _ _ _ R1), (bind_run _ _ _ _ _ R2). replace (off + count - off) with count by lia. done.
Qed.

(** C37. Reading a file.  [try_iread] at an offset past the end reads nothing;
    when [offset + count] leaves 32 bits it fails; otherwise it copies the
    contents from [offset] on, cut at the size of the file, to the
    destination and returns how many bytes that was.  The file, the disk and
    the rest of the destination stay as they were. *)
Theorem try_iread_reads s self r v h dev inum d p off count :
  file_in s self r v h dev inum d → 0 ≤ off → 0 ≤ count →
  0 ≤ p → p + count ≤ Z.of_nat (length (kbuf s)) < isize_max →
  let n := Z.min count (size d - off) in
  match try_iread self (KernelMut p) off count s with
  | Done (inl k, s') => k = Z.max 0 n ∧ file_in s' self r v h dev inum d ∧
      kbuf s' = write_at (kbuf s) (Z.to_nat p) (take (Z.to_nat n) (drop (Z.to_nat off) (content v d)))
  | Done (inr _, s') => 2 ^ 32 ≤ off + count ∧ off ≤ size d ∧ s' = s
  | Panic _ => False
  end.
Proof.
  intros Hfi Ho Hc Hp Hk n. destruct (Z.lt_ge_cases (size d) off) as [Hpast|Hin].
  - assert (try_iread self (KernelMut p) off count s = Done (inl 0, s)) as ->.
    { unfold try_iread, get_dinode, get_data. run_simpl. rewrite (fi_entry _ _ _ _ _ _ _ _ Hfi). cbn [dinode].
      by rewrite (proj2 (Z.ltb_lt _ _)). }
    split; [lia|]. split; [done|]. replace (Z.to_nat n) with 0%nat by lia. by rewrite take_0, write_at_nil.
  - destruct (Z.lt_ge_cases (off + count) (2 ^ 32)) as [Hov|Hov].
    + destruct (try_iread_run s self r v h dev inum d p off count) as (s' & -> & Hfi' & Hkb); try done.
      split; [lia|done].
    + assert (try_iread self (KernelMut p) off count s = Done (inr tt, s)) as ->; [|done].
      unfold try_iread, get_dinode, get_data, checked_add. run_simpl. rewrite (fi_entry _ _ _ _ _ _ _ _ Hfi). cbn [dinode].
      rewrite (proj2 (Z.ltb_ge _ _)) by done. by rewrite (proj2 (Z.ltb_ge (off + count) _)).
Qed.

End theorems.
End alloc.

(** ** An empty file on the small file system of [Block] *)
Module SmallFile.
Definition inode : DiskInode := fresh_dinode File.
Definition state : istate plain unit := {|
  fsys := Small.fs; umem := tt; kbuf := [104; 105; 0; 0]; imeta := []; idata := [{| valid := Some (1, 1); dinode := inode |}];
  ilocked := [true]; cwd := None |}.

Lemma inode_slot i : (i ≤ NSLOT)%nat → slot Small.blocks inode i = 0.
Proof.
  intros Hi. assert (∀ j, addr inode j = 0) as Ha.
  { intros j. unfold addr, inode, fresh_dinode. cbn [addrs]. destruct (decide (j < 13)%nat).
    - by rewrite lookup_replicate_2.
    - by rewrite lookup_ge_None_2 by (rewrite length_replicate; change (Z.to_nat (NDIRECT + 1)) with 13%nat; lia). }
  destruct (slot_cases i Hi) as [Hc|[Hc| ->]]; [by rewrite slot_direct| |by rewrite slot_top].
  by rewrite slot_indirect, decide_True.
Qed.

Lemma disk : disk_ok Small.raw Small.blocks [].
Proof.
  split; [apply Small.fs_bitmap|apply Small.fs_inodes|by split|]. cbn [ninodes sb_size Small.raw]. intros j Hj.
  assert (inode_block Small.raw j = 2) as -> by (unfold inode_block; rewrite Z.div_small; [done|change IPB with 16; lia]).
  split; [lia|]. split; [done|]. intros c Hc. by rewrite Small.raw_bitmap.
Qed.

Lemma file : file_in state 0 Small.raw Small.blocks [] 1 1 inode.
Proof.
  split; [done|done| |].
  - split; [apply Small.fs_mounted|apply disk|]. split; [apply fresh_dinode_wf|..].
    + intros i Hi. by rewrite inode_slot.
    + intros i j Hi _. by rewrite inode_slot.
  - split; [done|]. cbn [size inode fresh_dinode]. change BSIZE with 1024. lia.
Qed.

Lemma room : chunks 0 2 ≤ spare Small.raw Small.blocks inode.
Proof.
  assert (nfree Small.raw Small.blocks = 8) as E.
  { unfold nfree, free_blocks. rewrite (filter_ext_in _ (λ c, 8 ≤ c)); [done|]. cbn [sb_size Small.raw].
    intros c Hc%elem_of_seqZ. rewrite Small.used_low by lia. destruct (Z.ltb_spec c 8); split; (done || lia). }
  unfold spare. rewrite E. destruct (decide _); done.
Qed.
End SmallFile.


(** Reading back, at another place of the buffer, what was written. *)
Lemma try_iread_reads_witness :
  ∃ s1 s2, try_iwrite 0 (Kernel 0) 0 2 SmallFile.state = Done (inl 2, s1) ∧
    try_iread 0 (KernelMut 2) 0 2 s1 = Done (inl 2, s2) ∧ kbuf s2 = [104; 105; 104; 105].
Proof.
  destruct (try_iwrite_run SmallFile.state 0 Small.raw Small.blocks [] 1 1 SmallFile.inode 0 0 2
    SmallFile.file ltac:(done) ltac:(done) ltac:(done) ltac:(done) ltac:(done) ltac:(by repeat constructor) SmallFile.room)
    as (s1 & v1 & d1 & R1 & Hf1 & [Hc Hme _ _] & Hk1).
  assert (size d1 = 2) as Hsz by by rewrite Hme.
  assert (2 + 2 ≤ Z.of_nat (length (kbuf s1)) < isize_max) as Hlen by (rewrite Hk1; by split).
  pose proof (try_iread_reads s1 0 Small.raw v1 [] 1 1 d1 2 0 2 Hf1 (Z.le_refl 0) ltac:(lia)
    ltac:(lia) Hlen) as Hr.
  rewrite Hsz in Hr. cbn zeta in Hr. change (Z.to_nat (Z.min 2 (2 - 0))) with 2%nat in Hr.
  destruct (try_iread 0 (KernelMut 2) 0 2 s1) as [[[k|[]] s2]|] eqn:R2; [|exfalso; lia|destruct Hr].
  destruct Hr as (-> & _ & Hk). exists s1, s2. split; [exact R1|]. split; [exact R2|].
  rewrite Hk, Hk1, Hc, (window_write_same _ 0 [104; 105]); [reflexivity|].
  rewrite length_content by apply Small.blocks_ok. cbn [length]. unfold NSLOT. lia.
Defined.
