(* ===== verification/Icache.v ===== *)
(** * The inode cache, directories and paths ([kernel/src/fs/inode.rs]:
    [Inode], [InodeCache], the directory methods of [InodeData])

    An [Inode] is a counted handle on an entry of the cache; dropping it is
    [put].  [ilock] takes the sleep lock of the entry and reads the inode from
    the disk the first time; a lock that is taken already would make this
    thread wait for itself, which is a panic of the model.  A path is the
    kernel's byte array, ended by a zero byte. *)
From S2P Require Import Prelude Consts Bytes BlockCache Addr PageTable Uvm Block Inode.

(** ** Names and paths *)
Definition name_empty : list Z := replicate MAX_DIR_SIZE 0.
Definition SLASH : Z := 47.
Definition DOT : Z := 46.

Definition at_ (path : list Z) (cur : nat) : outcome Z := unwrapO (path !! cur) "index out of bounds".

(** [while path[cur] satisfies p { cur += 1 }] *)
Fixpoint skip_while (n : nat) (p : Z → bool) (path : list Z) (cur : nat) : outcome nat :=
  c ← at_ path cur;
  if p c then
    match n with
    | O => Panic "out of fuel"
    | S n => skip_while n p path (S cur)
    end
  else mret cur.

Definition is_slash (c : Z) : bool := c =? SLASH.
Definition is_elem (c : Z) : bool := negb (c =? SLASH) && negb (c =? 0).

Definition skip_path (path : list Z) (cur : nat) (name : list Z) : outcome (nat * list Z) :=
  cur ← skip_while (length path) is_slash path cur;
  c ← at_ path cur;
  if c =? 0 then mret (0%nat, name)
  else
    let start := cur in
    cur ← skip_while (length path) is_elem path cur;
    let count := (cur - start)%nat in
    let count := if (length name <=? count)%nat then (length name - 1)%nat else count in
    let name := write_at name 0 (take count (drop start path)) in
    let name := <[count := 0]> name in
    cur ← skip_while (length path) is_slash path cur;
    mret (cur, name).

(** ** DirEntry *)
Record DirEntry := { de_inum : Z; de_name : list Z }.
Definition de_size : Z := 16.
Definition DirEntry_empty : DirEntry := {| de_inum := 0; de_name := name_empty |}.
Definition de_bytes (d : DirEntry) : list Z := le_bytes 2 (de_inum d) ++ de_name d.
Definition de_read (buf : list Z) : DirEntry :=
  {| de_inum := read_u16 buf 0; de_name := take MAX_DIR_SIZE (drop 2 buf) |}.

(** The comparison loop of [dir_lookup]: equal up to and with a zero byte. *)
Fixpoint name_match (l name : list Z) : bool :=
  match l, name with
  | a :: l, b :: name => if negb (a =? b) then false else if a =? 0 then true else name_match l name
  | _, _ => false
  end.

Section ops.
Context {D U : Type} `{!BlockStore D} `{!UserMem U} `{!BitField}.
#[local] Abbreviation IM := (M (istate D U)).

(** ** Inode and InodeCache *)
Definition upd_refs (i : nat) (r : Z) : IM unit :=
  set_meta (alter (λ m, {| im_dev := im_dev m; im_inum := im_inum m; refs := r |}) i).
Definition get_meta (i : nat) : IM InodeMeta :=
  s ← get; unwrap (imeta s !! i) "index out of bounds".

(** The search of [get]: the entry of the inode, or the first free one. *)
Fixpoint get_scan (dev inum : Z) (l : list InodeMeta) (i : nat) (empty_i : option nat) : nat + option nat :=
  match l with
  | [] => inr empty_i
  | m :: l =>
      if (im_inum m =? inum) && (0 <? refs m) && (im_dev m =? dev) then inl i
      else get_scan dev inum l (S i)
        (match empty_i with None => if refs m =? 0 then Some i else None | Some e => Some e end)
  end.

Definition iget (dev inum : Z) : IM Inode :=
  guard ← gets imeta;
  match get_scan dev inum guard 0 None with
  | inl i =>
      m ← get_meta i;
      r ← lift (add64 (refs m) 1);
      upd_refs i r;;
      mret {| in_dev := dev; in_inum := inum; in_index := i |}
  | inr None => panic "inode: not enough"
  | inr (Some empty_i) =>
      set_meta (<[empty_i := {| im_dev := dev; im_inum := inum; refs := 1 |}]>);;
      mret {| in_dev := dev; in_inum := inum; in_index := empty_i |}
  end.

Definition idup (inode : Inode) : IM Inode :=
  m ← get_meta (in_index inode);
  r ← lift (add64 (refs m) 1);
  upd_refs (in_index inode) r;;
  mret inode.

(** [SleepLock::lock] on the data of an entry, and the drop of its guard. *)
Definition data_lock (i : nat) : IM unit :=
  s ← get;
  l ← unwrap (ilocked s !! i) "index out of bounds";
  if (l : bool) then panic "waits for ever on its own sleep lock" else set_locked i true.
Definition data_unlock (i : nat) : IM unit := set_locked i false.

(** [put], which is also [drop(inode)]. *)
Definition put (inode : Inode) : IM unit :=
  let i := in_index inode in
  m ← get_meta i;
  if refs m =? 1 then
    data_lock i;;
    d ← get_data i;
    if bool_decide (valid d = None) || (0 <? nlink (dinode d)) then
      set_data (alter (λ d, {| valid := None; dinode := dinode d |}) i);;
      data_unlock i;;
      r ← lift (sub_chk (refs m) 1);
      upd_refs i r
    else
      upd_dinode i (with_itype Empty);;
      truncate i;;
      set_data (alter (λ d, {| valid := None; dinode := dinode d |}) i);;
      data_unlock i;;
      m ← get_meta i;
      r ← lift (sub_chk (refs m) 1);
      upd_refs i r;;
      assertM (r =? 0) "assertion failed: guard[i].refs == 0"
  else
    r ← lift (sub_chk (refs m) 1);
    upd_refs i r.

Definition ilock (inode : Inode) : IM unit :=
  let i := in_index inode in
  data_lock i;;
  d ← get_data i;
  match valid d with
  | Some _ => mret tt
  | None =>
      bn ← on_fs (locate_inode (in_inum inode));
      buf ← on_fs (bread bn);
      di ← unwrap (read_dinode buf (locate_inode_offset (in_inum inode))) "invalid inode type";
      on_fs (bdrop bn);;
      set_data (<[i := {| valid := Some (in_dev inode, in_inum inode); dinode := di |}]>);;
      if decide (itype di = Empty) then panic "inode: lock an empty inode" else mret tt
  end.
Definition iunlock (inode : Inode) : IM unit := data_unlock (in_index inode).

(** ** Directories *)
(** [self.iread(dir_entry_ptr, offset, de_size)] into a local entry. *)
Definition read_entry (self : nat) (offset : Z) : IM DirEntry :=
  r ← iread self (KernelMut 0) offset de_size;
  match r with
  | inr _ => panic "read dir entry"
  | inl _ => buf ← gets kbuf; mret (de_read buf)
  end.
Definition write_entry (self : nat) (offset : Z) (de : DirEntry) : IM (unit + unit) :=
  set_kbuf (de_bytes de);;
  iwrite self (Kernel 0) offset de_size.

Definition dir_lookup (self : nat) (name : list Z) (need_offset : bool) : IM (option (Inode * option Z)) :=
  '(dev, _) ← get_valid self;
  assertM (negb (dev =? 0)) "assertion failed: dev != 0";;
  d ← get_dinode self;
  if decide (itype d = Directory) then
    set_kbuf (de_bytes DirEntry_empty);;
    for_ret (step_by 0 (size d) de_size) (λ offset,
      de ← read_entry self offset;
      if de_inum de =? 0 then mret None
      else if name_match (de_name de) name then
        inode ← iget dev (de_inum de);
        mret (Some (inode, if need_offset then Some offset else None))
      else mret None)
  else panic "inode type not dir".

Definition dir_link (self : nat) (name : list Z) (inum : Z) : IM (unit + unit) :=
  if 2 ^ 16 - 1 <? inum then panic "inum too large"
  else
    o ← dir_lookup self name false;
    match o with
    | Some (inode, _) => put inode;; mret (inr tt)
    | None =>
        set_kbuf (de_bytes DirEntry_empty);;
        d ← get_dinode self;
        o ← for_ret (step_by 0 (size d) de_size) (λ off,
          de ← read_entry self off;
          if de_inum de =? 0 then mret (Some off) else mret None);
        let offset := default (size d) o in
        assertM (offset `mod` de_size =? 0) "assertion failed: offset % de_size == 0";;
        r ← write_entry self offset {| de_inum := inum; de_name := name |};
        match r with inr _ => panic "inode write error" | inl _ => mret (inl tt) end
    end.

Definition dir_is_empty (self : nat) : IM bool :=
  set_kbuf (de_bytes DirEntry_empty);;
  d ← get_dinode self;
  o ← for_ret (step_by (2 * de_size) (size d) de_size) (λ offset,
    de ← read_entry self offset;
    if negb (de_inum de =? 0) then mret (Some tt) else mret None);
  mret (match o with Some _ => false | None => true end).

Definition is_dots (name : list Z) : bool :=
  (nth 0 name 0 =? DOT) && ((nth 1 name 0 =? 0) || ((nth 1 name 0 =? DOT) && (nth 2 name 0 =? 0))).

Definition dir_unlink (self : nat) (name : list Z) : IM (unit + unit) :=
  if is_dots name then mret (inr tt)
  else
    o ← dir_lookup self name true;
    match o with
    | Some (inode, Some offset) =>
        let i := in_index inode in
        ilock inode;;
        d ← get_dinode i;
        if nlink d <? 1 then panic "entry inode's link is zero"
        else
          nonempty ← (if decide (itype d = Directory) then
                        b ← dir_is_empty i; mret (negb b) else mret false);
          if (nonempty : bool) then iunlock inode;; put inode;; mret (inr tt)
          else
            r ← write_entry self offset DirEntry_empty;
            match r with
            | inr _ => panic "cannot write entry previously read"
            | inl _ =>
                d ← get_dinode i;
                (if decide (itype d = Directory) then unlink self;; update self else mret tt);;
                unlink i;;
                update i;;
                iunlock inode;;
                put inode;;
                mret (inl tt)
            end
    | Some (inode, None) => put inode;; mret (inr tt)
    | None => mret (inr tt)
    end.

(** ** Paths *)
Fixpoint namex_loop (n : nat) (path : list Z) (is_parent : bool) (inode : Inode) (cur : nat) (name : list Z)
    : IM (option Inode * list Z) :=
  '(cur, name) ← lift (skip_path path cur name);
  if (cur =? 0)%nat then
    if is_parent then put inode;; mret (None, name) else mret (Some inode, name)
  else
    match n with
    | O => panic "out of fuel"
    | S n =>
        let i := in_index inode in
        ilock inode;;
        d ← get_dinode i;
        if negb (bool_decide (itype d = Directory)) then
          iunlock inode;; put inode;; mret (None, name)
        else
          c ← (if is_parent then lift (at_ path cur) else mret 1);
          if is_parent && (c =? 0) then iunlock inode;; mret (Some inode, name)
          else
            o ← dir_lookup i name false;
            match o with
            | None => iunlock inode;; put inode;; mret (None, name)
            | Some (last_inode, _) =>
                iunlock inode;;
                put inode;;
                namex_loop n path is_parent last_inode cur name
            end
    end.

Definition namex (path : list Z) (name : list Z) (is_parent : bool) : IM (option Inode * list Z) :=
  c ← lift (at_ path 0);
  inode ← (if c =? SLASH then iget ROOTDEV ROOTINUM
           else
             s ← get;
             w ← unwrap (cwd s) "called `Option::unwrap()` on a `None` value";
             idup w);
  namex_loop (length path) path is_parent inode 0 name.

Definition namei (path : list Z) : IM (option Inode) :=
  '(o, _) ← namex path name_empty false; mret o.
Definition namei_parent (path : list Z) (name : list Z) : IM (option Inode * list Z) :=
  namex path name true.

Definition create (path : list Z) (t : InodeType) (ma mi : Z) (reuse : bool) : IM (option Inode) :=
  '(o, name) ← namei_parent path name_empty;
  match o with
  | None => mret None
  | Some dir_inode =>
      let di := in_index dir_inode in
      ilock dir_inode;;
      o ← dir_lookup di name false;
      match o with
      | Some (inode, _) =>
          if reuse then iunlock dir_inode;; put dir_inode;; mret (Some inode)
          else put inode;; iunlock dir_inode;; put dir_inode;; mret None
      | None =>
          '(dev, _) ← get_valid di;
          inum ← on_fs (inode_alloc t);
          inode ← iget dev inum;
          let i := in_index inode in
          ilock inode;;
          upd_dinode i (with_major_minor ma mi);;
          upd_dinode i (with_nlink 1);;
          update i;;
          d ← get_dinode i;
          assertM (bool_decide (itype d = t)) "assertion failed: idata.dinode.itype == itype";;
          (if decide (t = Directory) then
             link di;;
             update di;;
             let name := <[0%nat := DOT]> name_empty in
             r ← dir_link i name inum;
             match r with inr _ => panic "dir link ." | inl _ =>
             let name := <[1%nat := DOT]> name in
             r ← dir_link i name (in_inum dir_inode);
             match r with inr _ => panic "dir link .." | inl _ => mret tt end end
           else mret tt);;
          r ← dir_link di name inum;
          match r with
          | inr _ => panic "parent dir link"
          | inl _ =>
              iunlock dir_inode;;
              put dir_inode;;
              iunlock inode;;
              mret (Some inode)
          end
      end
  end.
End ops.

(** * Paths: [skip_path] against a reference splitter *)

(** The C string in a name buffer. *)
Fixpoint cstr (l : list Z) : list Z :=
  match l with
  | [] => []
  | a :: l => if a =? 0 then [] else a :: cstr l
  end.

(** The names that calling [skip_path] until it answers 0 goes through. *)
Fixpoint path_names (n : nat) (path : list Z) (cur : nat) (name : list Z) : outcome (list (list Z)) :=
  '(cur, name) ← skip_path path cur name;
  if (cur =? 0)%nat then mret []
  else match n with
       | O => Panic "out of fuel"
       | S n => rest ← path_names n path cur name; mret (cstr name :: rest)
       end.

(** The reference: split at the slashes, and drop the empty pieces. *)
Fixpoint split_slash (acc p : list Z) : list (list Z) :=
  match p with
  | [] => [acc]
  | c :: p => if c =? SLASH then acc :: split_slash [] p else split_slash (acc ++ [c]) p
  end.
Definition nonempty (l : list Z) : Prop := l ≠ [].
Definition components (p : list Z) : list (list Z) := filter nonempty (split_slash [] p).

Lemma split_elem acc e p : Forall (λ c, is_elem c = true) e →
  split_slash acc (e ++ p) = split_slash (acc ++ e) p.
Proof.
  revert acc. induction e as [|c e IH]; intros acc He; [by rewrite app_nil_r|].
  apply Forall_cons in He as [Hc He]. cbn [app split_slash].
  unfold is_elem in Hc. destruct (c =? SLASH); [done|]. rewrite IH by done. by rewrite <- app_assoc.
Qed.

Lemma components_slash s p : Forall (λ c, is_slash c = true) s → components (s ++ p) = components p.
Proof.
  induction 1 as [|c s Hc _ IH]; [done|]. unfold is_slash in Hc. unfold components in *.
  cbn [app split_slash]. by rewrite Hc.
Qed.

Lemma components_elem e s p : Forall (λ c, is_elem c = true) e → e ≠ [] →
  Forall (λ c, is_slash c = true) s → s ++ p = [] ∨ s ≠ [] → components (e ++ s ++ p) = e :: components p.
Proof.
  intros He Hne Hs Hsp. unfold components at 1. rewrite split_elem by done. cbn [app].
  destruct s as [|c s].
  - destruct Hsp as [Hp|]; [|done]. cbn in Hp. subst p. cbn [app split_slash].
    by rewrite filter_cons_True.
  - apply Forall_cons in Hs as [Hc Hs]. unfold is_slash in Hc. cbn [app split_slash]. rewrite Hc, filter_cons_True by done.
    f_equal. by apply components_slash.
Qed.

Lemma span (f : Z → bool) l : ∃ a b, l = a ++ b ∧ Forall (λ c, f c = true) a ∧
  (∀ c b', b = c :: b' → f c = false).
Proof.
  induction l as [|c l (a & b & -> & Ha & Hb)]; [by exists [], []|].
  destruct (f c) eqn:E.
  - exists (c :: a), b. split; [done|]. split; [by constructor|done].
  - exists [], (c :: a ++ b). split; [done|]. split; [constructor|]. by intros ? ? [= <- _].
Qed.

Lemma skip_while_run f pre a c rest n :
  Forall (λ c, f c = true) a → f c = false → (length a ≤ n)%nat →
  skip_while n f (pre ++ a ++ c :: rest) (length pre) = Done (length pre + length a)%nat.
Proof.
  revert pre a. induction n as [|n IH]; intros pre a Ha Hc Hn; destruct a as [|b a]; try (cbn in Hn; lia).
  1, 2: cbn [skip_while app]; unfold at_; rewrite list_lookup_middle by done; cbn; rewrite Hc; f_equal; lia.
  apply Forall_cons in Ha as [Hb Ha]. cbn [skip_while app length] in *. unfold at_.
  rewrite list_lookup_middle by done. cbn [unwrapO mbind outcome_bind]. rewrite Hb.
  replace (pre ++ b :: a ++ c :: rest) with ((pre ++ [b]) ++ a ++ c :: rest) by (by rewrite <- app_assoc).
  replace (S (length pre)) with (length (pre ++ [b])) by (rewrite length_app; cbn; lia).
  rewrite IH by (done || lia). rewrite length_app. cbn. f_equal. lia.
Qed.

Lemma cstr_name e l : Forall (λ c, is_elem c = true) e → (length e < length l)%nat →
  cstr (<[length e := 0]> (write_at l 0 e)) = e.
Proof.
  intros He Hl. unfold write_at. rewrite take_0, app_nil_l.
  rewrite insert_app_r_alt, Nat.sub_diag by lia. cbn [Nat.add].
  destruct (drop (length e) l) as [|x l'] eqn:E.
  { apply (f_equal length) in E. rewrite length_drop in E. cbn in E. lia. }
  cbn. clear E. induction He as [|c e Hc _ IH]; [done|]. cbn [app cstr].
  unfold is_elem in Hc. destruct (c =? 0); [by rewrite andb_false_r in Hc|]. f_equal. apply IH.
  cbn in Hl. lia.
Qed.

Lemma is_elem_iff c : c ≠ 0 → is_elem c = negb (is_slash c).
Proof. intros Hc. unfold is_elem, is_slash. by rewrite (proj2 (Z.eqb_neq c 0)), andb_true_r. Qed.

(** One call, on the rest [s ++ e ++ t ++ q] of the path: slashes, a name, slashes. *)
Lemma skip_path_end pre s rest name :
  Forall (λ c, is_slash c = true) s →
  skip_path (pre ++ s ++ 0 :: rest) (length pre) name = Done (0%nat, name).
Proof.
  intros Hs. unfold skip_path. rewrite skip_while_run; [|done|done|rewrite !length_app; lia].
  cbn [mbind outcome_bind]. unfold at_. rewrite app_assoc, <- length_app.
  by rewrite list_lookup_middle.
Qed.

Lemma skip_path_next pre s e t c rest name :
  Forall (λ c, is_slash c = true) s → Forall (λ c, is_elem c = true) e → e ≠ [] →
  Forall (λ c, is_slash c = true) t → is_slash c = false → (t = [] → c = 0) → length name = MAX_DIR_SIZE →
  ∃ name', skip_path (pre ++ s ++ e ++ t ++ c :: rest) (length pre) name =
      Done ((length pre + length s + length e + length t)%nat, name') ∧
    cstr name' = take (MAX_DIR_SIZE - 1) e ∧ length name' = MAX_DIR_SIZE.
Proof.
  intros Hs He Hne Ht Hc Htc Hname. unfold skip_path. destruct e as [|e0 e]; [done|].
  pose proof He as He'. apply Forall_cons in He' as [He0 _].
  assert (is_slash e0 = false ∧ e0 ≠ 0) as [Hs0 Hz0].
  { unfold is_elem in He0. unfold is_slash. destruct (e0 =? SLASH); [done|]. destruct (Z.eqb_spec e0 0); done. }
  rewrite (skip_while_run _ pre s e0 (e ++ t ++ c :: rest)) by (rewrite ?length_app; done || lia).
  cbn [mbind outcome_bind]. unfold at_. rewrite app_assoc, <- length_app. cbn [app].
  rewrite list_lookup_middle by done. cbn [unwrapO mbind outcome_bind]. rewrite (proj2 (Z.eqb_neq e0 0)) by done.
  change (e0 :: e ++ t ++ c :: rest) with ((e0 :: e) ++ t ++ c :: rest). set (en := e0 :: e) in *. clearbody en.
  set (pr := pre ++ s) in *.
  assert (∃ b r, t ++ c :: rest = b :: r ∧ is_elem b = false) as (b & r & Eb & Hb).
  { destruct t as [|b t]; [exists c, rest; split; [done|by rewrite (Htc eq_refl)]|].
    exists b, (t ++ c :: rest). split; [done|]. apply Forall_cons in Ht as [Hb _]. unfold is_elem, is_slash in *. by rewrite Hb. }
  replace (skip_while _ is_elem _ (length pr)) with (Done (length pr + length en)%nat).
  2: { rewrite Eb. symmetry. apply skip_while_run; [done|done|rewrite !length_app; lia]. }
  cbn [mbind outcome_bind].
  set (cnt := if (length name <=? _)%nat then _ else _).
  assert (cnt = Nat.min (length en) (MAX_DIR_SIZE - 1)) as ->.
  { unfold cnt. rewrite Hname. replace (length pr + length en - length pr)%nat with (length en) by lia.
    destruct (Nat.leb_spec MAX_DIR_SIZE (length en)); lia. }
  replace (take (Nat.min (length en) (MAX_DIR_SIZE - 1)) (drop (length pr) (pr ++ en ++ t ++ c :: rest)))
    with (take (MAX_DIR_SIZE - 1) en).
  2: { rewrite drop_app_length. rewrite take_app_le by lia. by rewrite Nat.min_comm, <- take_take, firstn_all. }
  rewrite !app_assoc, <- length_app, <- app_assoc.
  rewrite skip_while_run by (rewrite ?length_app; done || lia). cbn [mbind outcome_bind].
  eexists. split; [do 2 f_equal; unfold pr; rewrite !length_app; lia|].
  replace (Nat.min (length en) (MAX_DIR_SIZE - 1)) with (length (take (MAX_DIR_SIZE - 1) en)) by (rewrite length_take; lia).
  split.
  - apply cstr_name; [by apply Forall_take|]. rewrite Hname, length_take. unfold MAX_DIR_SIZE. lia.
  - rewrite length_insert, length_write_at; [done|]. rewrite Hname, length_take. unfold MAX_DIR_SIZE. lia.
Qed.

Lemma path_names_run n pre p rest name :
  Forall (λ c, c ≠ 0) p → (length p ≤ n)%nat → length name = MAX_DIR_SIZE →
  path_names n (pre ++ p ++ 0 :: rest) (length pre) name = Done (take (MAX_DIR_SIZE - 1) <$> components p).
Proof.
  revert pre p name. induction n as [n IH] using lt_wf_ind. intros pre p name Hp Hn Hname.
  destruct (span is_slash p) as (s & p1 & -> & Hs & Hp1). rewrite components_slash by done.
  apply Forall_app in Hp as [_ Hp]. destruct (span is_elem p1) as (e & p2 & -> & He & Hp2).
  apply Forall_app in Hp as [_ Hp]. destruct (span is_slash p2) as (t & q & -> & Ht & Hq).
  apply Forall_app in Hp as [Htz Hp]. destruct (decide (e = [])) as [->|Hne].
  - assert (t ++ q = []) as Enil.
    { destruct (t ++ q) as [|c r] eqn:E; [done|exfalso]. specialize (Hp1 c r eq_refl). specialize (Hp2 c r eq_refl).
      assert (Forall (λ c, c ≠ 0) (t ++ q)) as Hz by (by apply Forall_app).
      rewrite E in Hz. apply Forall_cons in Hz as [Hc _].
      rewrite is_elem_iff, Hp1 in Hp2 by done. done. }
    rewrite Enil, !app_nil_r. destruct n; cbn [path_names]; rewrite skip_path_end by done; done.
  - assert (t ++ q = [] ∨ t ≠ []) as Htq.
    { destruct t as [|c t]; [|by right]. left. destruct q as [|c q]; [done|exfalso].
      specialize (Hp2 c q eq_refl). specialize (Hq c q eq_refl). apply Forall_cons in Hp as [Hc _].
      rewrite is_elem_iff, Hq in Hp2 by done. done. }
    assert (∃ c r, q ++ 0 :: rest = c :: r ∧ is_slash c = false ∧ (t = [] → c = 0)) as (c & r & Eq & Hc & Htc).
    { destruct q as [|c q]; [by exists 0, rest|]. exists c, (q ++ 0 :: rest). split; [done|].
      split; [by eapply Hq|]. intros ->. by destruct Htq. }
    destruct (skip_path_next pre s e t c r name) as (name' & E & Hcs & Hname'); [done..|].
    rewrite <- !app_assoc, Eq. rewrite components_elem by done. rewrite !length_app in Hn.
    assert (0 < length e)%nat by (destruct e; [done|cbn; lia]).
    destruct n as [|n]; [lia|]. cbn [path_names]. rewrite E. cbn [mbind outcome_bind].
    rewrite (proj2 (Nat.eqb_neq _ 0)) by lia.
    replace (path_names n _ _ name') with (Done (take (MAX_DIR_SIZE - 1) <$> components q)).
    { cbn [mbind outcome_bind]. by rewrite Hcs. }
    symmetry. replace (pre ++ s ++ e ++ t ++ c :: r) with ((pre ++ s ++ e ++ t) ++ q ++ 0 :: rest) by (by rewrite Eq, <- !app_assoc).
    replace (length pre + length s + length e + length t)%nat with (length (pre ++ s ++ e ++ t)) by (rewrite !length_app; lia).
    apply IH; [lia|done|lia|done].
Qed.

(** Walking a path with [skip_path], as [namex] does, visits exactly the
    components a reference splitter finds: the non-empty pieces between
    slashes, each cut to the [MAX_DIR_SIZE - 1] bytes a directory entry holds.
    The walk ends for every zero-terminated path. *)
Theorem skip_path_components p rest :
  Forall (λ c, c ≠ 0) p →
  path_names (length (p ++ 0 :: rest)) (p ++ 0 :: rest) 0 name_empty =
    Done (take (MAX_DIR_SIZE - 1) <$> components p).
Proof.
  intros Hp. apply (path_names_run _ [] p rest name_empty Hp); [rewrite length_app; lia|done].
Qed.

Lemma skip_path_components_witness :
  let p := [SLASH; SLASH; 97; 98; SLASH; 99; SLASH] in
  path_names 9 (p ++ [0; 7]) 0 name_empty = Done [[97; 98]; [99]].
Proof. intros p. apply (skip_path_components p [7]). by repeat constructor. Defined.

(** * The inode cache counts its handles *)
Definition holders (i : nat) (H : list Inode) : list Inode := filter (λ h, in_index h = i) H.

(** The handles in existence are [H]. *)
Record tracked (ms : list InodeMeta) (H : list Inode) : Prop := {
  tk_len : length ms = NINODE;
  tk_refs i m : ms !! i = Some m → refs m = Z.of_nat (length (holders i H));
  tk_key h : h ∈ H → ∃ m, ms !! in_index h = Some m ∧ im_dev m = in_dev h ∧ im_inum m = in_inum h;
  tk_uniq i j mi mj : ms !! i = Some mi → ms !! j = Some mj → 0 < refs mi → 0 < refs mj →
    im_dev mi = im_dev mj → im_inum mi = im_inum mj → i = j;
}.

Lemma holders_cons h H i :
  Z.of_nat (length (holders i (h :: H))) =
    Z.of_nat (length (holders i H)) + (if decide (in_index h = i) then 1 else 0).
Proof. unfold holders. rewrite filter_cons. destruct (decide _); cbn [length]; lia. Qed.

Lemma holders_pos h H : h ∈ H → (0 < length (holders (in_index h) H))%nat.
Proof.
  intros Hh. destruct (holders (in_index h) H) eqn:E; [|cbn; lia].
  assert (h ∈ holders (in_index h) H) as Hin by (by apply list_elem_of_filter). rewrite E in Hin.
  by apply elem_of_nil in Hin.
Qed.

Lemma holders_le i H : (length (holders i H) ≤ length H)%nat.
Proof. apply length_filter. Qed.

Lemma tracked_perm ms H H' : H ≡ₚ H' → tracked ms H → tracked ms H'.
Proof.
  intros Hp [Hl Hr Hk Hu]. split; [done| |intros h Hh; apply Hk; by rewrite Hp|done].
  intros i m Hm. rewrite (Hr i m Hm). unfold holders. by rewrite Hp.
Qed.

Lemma tracked_boot : tracked (replicate NINODE InodeMeta_new) [].
Proof.
  split; [done| |by intros h ?%elem_of_nil|].
  - intros i m [-> _]%lookup_replicate. done.
  - intros i j mi mj [-> _]%lookup_replicate _ H0. done.
Qed.

Definition set_refs (r : Z) (m : InodeMeta) : InodeMeta :=
  {| im_dev := im_dev m; im_inum := im_inum m; refs := r |}.

(** One entry and the handles on it are replaced. *)
Lemma tracked_insert ms H H' i0 m' :
  tracked ms H → (i0 < NINODE)%nat → refs m' = Z.of_nat (length (holders i0 H')) →
  (∀ i, i ≠ i0 → length (holders i H') = length (holders i H)) →
  (∀ h, h ∈ H' → (in_index h = i0 ∧ im_dev m' = in_dev h ∧ im_inum m' = in_inum h) ∨ (in_index h ≠ i0 ∧ h ∈ H)) →
  (0 < refs m' → ∀ j mj, ms !! j = Some mj → 0 < refs mj → im_dev mj = im_dev m' → im_inum mj = im_inum m' → j = i0) →
  tracked (<[i0 := m']> ms) H'.
Proof.
  intros [Hl Hr Hk Hu] Hi0 Hm' Hoth Hkey Hun. split.
  - by rewrite length_insert.
  - intros i m. destruct (decide (i0 = i)) as [<-|Hne].
    + rewrite list_lookup_insert_eq by lia. by intros [= <-].
    + rewrite list_lookup_insert_ne by done. intros E. rewrite Hoth by done. by apply Hr.
  - intros h Hh. destruct (Hkey h Hh) as [(-> & ? & ?)|(Hne & Hin)].
    + rewrite list_lookup_insert_eq by lia. by exists m'.
    + rewrite list_lookup_insert_ne by done. by apply Hk.
  - intros i j mi mj. destruct (decide (i0 = i)) as [<-|Hni], (decide (i0 = j)) as [<-|Hnj]; [done|..].
    + rewrite list_lookup_insert_eq, list_lookup_insert_ne by (done || lia). intros [= <-] Ej H1 H2 Ed Ei.
      symmetry. by eapply Hun.
    + rewrite list_lookup_insert_ne, list_lookup_insert_eq by (done || lia). intros Ej [= <-] H1 H2 Ed Ei.
      by eapply Hun.
    + rewrite !list_lookup_insert_ne by done. apply Hu.
Qed.

Lemma holders_other h H i : in_index h ≠ i → length (holders i (h :: H)) = length (holders i H).
Proof. intros Hne. pose proof (holders_cons h H i) as E. rewrite decide_False in E by done. lia. Qed.

(** One more handle on an entry, one handle less. *)
Lemma tracked_add ms H h m :
  tracked ms H → ms !! in_index h = Some m → im_dev m = in_dev h → im_inum m = in_inum h → 0 < refs m →
  tracked (alter (set_refs (refs m + 1)) (in_index h) ms) (h :: H).
Proof.
  intros Ht Hm Hd Hi Hpos. rewrite (alter_as_insert _ _ _ _ Hm). pose proof (lookup_lt_Some _ _ _ Hm) as Hlt.
  rewrite (tk_len _ _ Ht) in Hlt. apply (tracked_insert _ H); try done.
  - rewrite holders_cons, decide_True by done. cbn. by rewrite (tk_refs _ _ Ht _ _ Hm).
  - intros i Hne. by apply holders_other.
  - intros h' [->|Hh']%elem_of_cons; [by left|]. destruct (tk_key _ _ Ht _ Hh') as (m' & Hm' & ? & ?).
    destruct (decide (in_index h' = in_index h)) as [E|]; [left|by right].
    rewrite E, Hm in Hm'. by injection Hm' as <-.
  - intros _ j mj Hj Hpj Ed Ei. by apply (tk_uniq _ _ Ht _ _ _ _ Hj Hm).
Qed.

Lemma tracked_remove ms H h m :
  tracked ms (h :: H) → ms !! in_index h = Some m →
  tracked (alter (set_refs (refs m - 1)) (in_index h) ms) H.
Proof.
  intros Ht Hm. rewrite (alter_as_insert _ _ _ _ Hm). pose proof (lookup_lt_Some _ _ _ Hm) as Hlt.
  rewrite (tk_len _ _ Ht) in Hlt. apply (tracked_insert _ (h :: H)); try done.
  - cbn. rewrite (tk_refs _ _ Ht _ _ Hm), holders_cons, decide_True by done. lia.
  - intros i Hne. by rewrite holders_other.
  - intros h' Hh'. assert (h' ∈ h :: H) as Hin by (by right). destruct (tk_key _ _ Ht _ Hin) as (m' & Hm' & ? & ?).
    destruct (decide (in_index h' = in_index h)) as [E|]; [left|by right].
    rewrite E, Hm in Hm'. by injection Hm' as <-.
  - intros Hp j mj Hj Hpj Ed Ei. cbn in Hp. eapply (tk_uniq _ _ Ht); [exact Hj|exact Hm|done|lia|done|done].
Qed.

(** A free entry taken for an inode that has none. *)
Lemma tracked_recycle ms H dev inum i m :
  tracked ms H → ms !! i = Some m → refs m = 0 →
  (∀ j mj, ms !! j = Some mj → 0 < refs mj → ¬ (im_dev mj = dev ∧ im_inum mj = inum)) →
  tracked (<[i := {| im_dev := dev; im_inum := inum; refs := 1 |}]> ms)
    ({| in_dev := dev; in_inum := inum; in_index := i |} :: H).
Proof.
  intros Ht Hm Hr Hno. pose proof (lookup_lt_Some _ _ _ Hm) as Hlt.
  rewrite (tk_len _ _ Ht) in Hlt. pose proof (tk_refs _ _ Ht _ _ Hm) as Hr0.
  apply (tracked_insert _ H); try done.
  - rewrite holders_cons, decide_True by done. cbn. lia.
  - intros j Hne. by apply holders_other.
  - intros h' [->|Hh']%elem_of_cons; [by left|]. right. split; [|done]. intros E.
    pose proof (holders_pos _ _ Hh') as Hp. rewrite E in Hp. lia.
  - intros _ j mj Hj Hpj Ed Ei. by destruct (Hno _ _ Hj Hpj).
Qed.

Lemma get_scan_run dev inum l i e :
  match get_scan dev inum l i e with
  | inl j => ∃ k m, j = (i + k)%nat ∧ l !! k = Some m ∧ im_dev m = dev ∧ im_inum m = inum ∧ 0 < refs m
  | inr o => (∀ k m, l !! k = Some m → 0 < refs m → ¬ (im_dev m = dev ∧ im_inum m = inum)) ∧
      match o with
      | Some j => e = Some j ∨ (e = None ∧ ∃ k m, j = (i + k)%nat ∧ l !! k = Some m ∧ refs m = 0)
      | None => e = None ∧ ∀ k m, l !! k = Some m → refs m ≠ 0
      end
  end.
Proof.
  revert i e. induction l as [|m l IH]; intros i e; cbn [get_scan].
  { split; [done|]. destruct e; [by left|done]. }
  destruct ((im_inum m =? inum) && (0 <? refs m) && (im_dev m =? dev)) eqn:Em.
  { apply andb_prop in Em as [[Ei%Z.eqb_eq Er%Z.ltb_lt]%andb_prop Ed%Z.eqb_eq].
    exists 0%nat, m. split_and!; done || lia. }
  specialize (IH (S i) (match e with None => if refs m =? 0 then Some i else None | Some x => Some x end)).
  destruct (get_scan dev inum l (S i) _) as [j|o].
  { destruct IH as (k & m' & -> & ?). exists (S k), m'. split; [lia|done]. }
  destruct IH as [Hno Ho]. split.
  { intros [|k] m'; [|apply Hno]. intros [= <-] Hp [Hd Hi].
    rewrite (proj2 (Z.eqb_eq _ _) Hd), (proj2 (Z.eqb_eq _ _) Hi), (proj2 (Z.ltb_lt _ _) Hp) in Em. done. }
  destruct o as [j|].
  - destruct e as [x|]; [destruct Ho as [Ho|[Ho _]]; [by left|done]|]. right. split; [done|].
    destruct (Z.eqb_spec (refs m) 0) as [E0|E0].
    + destruct Ho as [[= <-]|[Ho _]]; [|done]. exists 0%nat, m. split; [lia|done].
    + destruct Ho as [?|(_ & k & m' & -> & ?)]; [done|]. exists (S k), m'. split; [lia|done].
  - destruct e as [x|]; [by destruct Ho|]. split; [done|]. destruct (Z.eqb_spec (refs m) 0); [by destruct Ho|].
    intros [|k] m'; [by intros [= <-]|]. apply Ho.
Qed.

Section handles.
Context {D U : Type} `{!BlockStore D} `{!UserMem U} `{!BitField}.

(** What leaves the counts of the cache alone. *)
Lemma keeps_fs {A} (m : M (fsd D) A) : untouched imeta (on_fs m : M (istate D U) A).
Proof. intros s x s'. unfold on_fs. destruct (m (fsys s)) as [[y f]|]; [|done]. by intros [= _ <-]. Qed.
Lemma keeps_data f : untouched imeta (set_data (D := D) (U := U) f).
Proof. by intros s x s' [= _ <-]. Qed.
Lemma keeps_locked i b : untouched imeta (set_locked (D := D) (U := U) i b).
Proof. by intros s x s' [= _ <-]. Qed.
End handles.
#[export] Hint Resolve keeps_fs keeps_data keeps_locked : untouched.

Section counted.
Context {D U : Type} `{!BlockStore D} `{!UserMem U} `{BF : BitField}.

Lemma keeps_truncate i : untouched imeta (truncate (D := D) (U := U) i).
Proof. unfold truncate, update, get_valid, get_dinode, get_data, upd_dinode. untouched. Qed.

Lemma iget_run dev inum (s : istate D U) H :
  tracked (imeta s) H → Z.of_nat (length H) < 2 ^ 63 →
  match iget dev inum s with
  | Done (h, s') => in_dev h = dev ∧ in_inum h = inum ∧ tracked (imeta s') (h :: H) ∧
      s' = {| fsys := fsys s; umem := umem s; kbuf := kbuf s; imeta := imeta s'; idata := idata s;
              ilocked := ilocked s; cwd := cwd s |}
  | Panic _ => ∀ i m, imeta s !! i = Some m → refs m ≠ 0 ∧ ¬ (im_dev m = dev ∧ im_inum m = inum)
  end.
Proof.
  intros Ht Hlen. unfold iget. rewrite (bind_run _ _ _ (imeta s) s) by done.
  pose proof (get_scan_run dev inum (imeta s) 0 None) as Hscan.
  destruct (get_scan dev inum (imeta s) 0 None) as [i|[i|]].
  - destruct Hscan as (k & m & -> & Hm & Hd & Hi & Hp). cbn [Nat.add].
    rewrite (bind_run _ _ _ m s) by (unfold get_meta; rewrite (bind_run _ _ _ s s) by done; by rewrite Hm).
    rewrite (bind_run _ _ _ (refs m + 1) s).
    2: { unfold lift. rewrite add_chk_ok; [done|]. rewrite (tk_refs _ _ Ht _ _ Hm).
         pose proof (holders_le k H). lia. }
    cbn. split; [done|]. split; [done|]. split; [|done].
    by apply (tracked_add _ _ {| in_dev := dev; in_inum := inum; in_index := k |} m).
  - destruct Hscan as [Hno [?|(_ & k & m & -> & Hm & Hr)]]; [done|]. cbn.
    split; [done|]. split; [done|]. split; [|done]. by eapply tracked_recycle.
  - destruct Hscan as [Hno [_ Hfull]]. cbn. intros i m Hm.
    assert (refs m ≠ 0) as Hr by (by eapply Hfull). split; [done|]. eapply Hno; [done|].
    pose proof (tk_refs _ _ Ht _ _ Hm). lia.
Qed.

Lemma get_meta_run i (s : istate D U) m : imeta s !! i = Some m → get_meta i s = Done (m, s).
Proof. intros Hm. unfold get_meta. rewrite (bind_run _ _ _ s s) by done. by rewrite Hm. Qed.

Lemma idup_run h (s : istate D U) H :
  tracked (imeta s) H → h ∈ H → Z.of_nat (length H) < 2 ^ 63 →
  ∃ s', idup h s = Done (h, s') ∧ tracked (imeta s') (h :: H).
Proof.
  intros Ht Hh Hlen. destruct (tk_key _ _ Ht _ Hh) as (m & Hm & Hd & Hi). unfold idup.
  pose proof (tk_refs _ _ Ht _ _ Hm) as Hr. pose proof (holders_pos _ _ Hh). pose proof (holders_le (in_index h) H).
  rewrite (bind_run _ _ _ _ _ (get_meta_run _ _ _ Hm)).
  rewrite (bind_run _ _ _ (refs m + 1) s) by (unfold lift; rewrite add_chk_ok; [done|lia]).
  eexists. split; [done|]. cbn. apply tracked_add; done || lia.
Qed.

(** Dropping the last step of every branch of [put]. *)
Lemma upd_refs_tracked h (s s1 : istate D U) m H :
  tracked (imeta s) (h :: H) → imeta s !! in_index h = Some m → imeta s1 = imeta s →
  ∃ s', (r ← lift (sub_chk (refs m) 1); upd_refs (in_index h) r) s1 = Done (tt, s') ∧ tracked (imeta s') H.
Proof.
  intros Ht Hm Hs. pose proof (tk_refs _ _ Ht _ _ Hm) as Hr. rewrite holders_cons, decide_True in Hr by done.
  rewrite (bind_run _ _ _ (refs m - 1) s1) by (unfold lift; rewrite sub_chk_ok; [done|lia]).
  eexists. split; [done|]. cbn. rewrite Hs. by apply tracked_remove.
Qed.

Lemma put_tracked h (s s' : istate D U) H :
  tracked (imeta s) (h :: H) → put h s = Done (tt, s') → tracked (imeta s') H.
Proof.
  intros Ht Hput. destruct (tk_key _ _ Ht h) as (m & Hm & _ & _); [by left|].
  unfold put in Hput. rewrite (bind_run _ _ _ _ _ (get_meta_run _ _ _ Hm)) in Hput.
  destruct (refs m =? 1).
  2: { destruct (upd_refs_tracked h s s m H Ht Hm eq_refl) as (s2 & E & H2). rewrite E in Hput. by injection Hput as <-. }
  mbind_inv Hput as u s1 E1 Hput. mbind_inv Hput as d s2 E2 Hput.
  assert (imeta s2 = imeta s) as Hs2.
  { transitivity (imeta s1).
    - assert (untouched imeta (get_data (D := D) (U := U) (in_index h))) as Hk by (unfold get_data; untouched). by eapply Hk.
    - assert (untouched imeta (data_lock (D := D) (U := U) (in_index h))) as Hk by (unfold data_lock; untouched). by eapply Hk. }
  destruct (bool_decide (valid d = None) || (0 <? nlink (dinode d))).
  - mbind_inv Hput as u1 s3 E3 Hput. mbind_inv Hput as u2 s4 E4 Hput.
    assert (imeta s4 = imeta s) as Hs4.
    { rewrite <- Hs2, <- (keeps_data _ _ _ _ E3). by apply (keeps_locked _ _ _ _ _ E4). }
    destruct (upd_refs_tracked h s s4 m H Ht Hm Hs4) as (s5 & E & H5). rewrite E in Hput. by injection Hput as <-.
  - mbind_inv Hput as u1 s3 E3 Hput. mbind_inv Hput as u2 s4 E4 Hput.
    mbind_inv Hput as u3 s5 E5 Hput. mbind_inv Hput as u4 s6 E6 Hput.
    assert (imeta s6 = imeta s) as Hs6.
    { rewrite <- Hs2, <- (keeps_data _ _ _ _ E3), <- (keeps_truncate _ _ _ _ E4), <- (keeps_data _ _ _ _ E5).
      by apply (keeps_locked _ _ _ _ _ E6). }
    rewrite (bind_run _ _ _ m s6) in Hput by (apply get_meta_run; by rewrite Hs6).
    destruct (upd_refs_tracked h s s6 m H Ht Hm Hs6) as (s7 & E & H7).
    mbind_inv Hput as r s8 E8 Hput. rewrite (bind_run _ _ _ _ _ E8) in E.
    rewrite (bind_run _ _ _ _ _ E) in Hput. unfold assertM in Hput. destruct (r =? 0); [|done].
    by injection Hput as <-.
Qed.

(** [put] returns at once unless the handle is the last one of a loaded inode
    without links. *)
Lemma put_returns h (s : istate D U) H :
  tracked (imeta s) (h :: H) →
  (∃ h', h' ∈ H ∧ in_index h' = in_index h) ∨
  (ilocked s !! in_index h = Some false ∧
   ∃ d, idata s !! in_index h = Some d ∧ (valid d = None ∨ 0 < nlink (dinode d))) →
  ∃ s', put h s = Done (tt, s').
Proof.
  intros Ht Hcase. destruct (tk_key _ _ Ht h) as (m & Hm & _ & _); [by left|].
  pose proof (tk_refs _ _ Ht _ _ Hm) as Hr. rewrite holders_cons, decide_True in Hr by done.
  unfold put. rewrite (bind_run _ _ _ _ _ (get_meta_run _ _ _ Hm)).
  destruct Hcase as [(h' & Hh' & Eh)|(Hl & d & Hd & Hv)].
  - pose proof (holders_pos _ _ Hh') as Hp. rewrite Eh in Hp. rewrite (proj2 (Z.eqb_neq _ _)) by lia.
    destruct (upd_refs_tracked h s s m H Ht Hm eq_refl) as (s2 & E & _). by exists s2.
  - destruct (refs m =? 1).
    2: { destruct (upd_refs_tracked h s s m H Ht Hm eq_refl) as (s2 & E & _). by exists s2. }
    set (s1 := {| fsys := fsys s; umem := umem s; kbuf := kbuf s; imeta := imeta s; idata := idata s;
                  ilocked := <[in_index h := true]> (ilocked s); cwd := cwd s |}).
    rewrite (bind_run _ _ _ tt s1).
    2: { unfold data_lock. rewrite (bind_run _ _ _ s s) by done. by rewrite Hl. }
    rewrite (bind_run _ _ _ d s1).
    2: { unfold get_data. rewrite (bind_run _ _ _ s1 s1) by done. cbn. by rewrite Hd. }
    assert (bool_decide (valid d = None) || (0 <? nlink (dinode d)) = true) as ->.
    { destruct Hv as [Hv|Hv]; [by rewrite bool_decide_true|]. rewrite (proj2 (Z.ltb_lt _ _) Hv). by destruct (bool_decide _). }
    rewrite (bind_run _ _ _ tt _) by reflexivity. rewrite (bind_run _ _ _ tt _) by reflexivity.
    match goal with |- ∃ s', _ ?s2 = _ => destruct (upd_refs_tracked h s s2 m H Ht Hm eq_refl) as (s3 & E & _) end.
    by exists s3.
Qed.
(** C26. The inode cache counts its handles.  With the handles [H] in existence,
    every entry's count is the number of handles on it, a handle's entry holds
    its inode, and no two live entries hold the same inode, so all handles of
    an inode share one sleep lock.  [get], [dup] and [put] keep this: [get]
    fails only when every entry is in use by another inode, and an entry is
    recycled only when no handle is left; [put] returns at once unless it drops
    the last handle of a loaded inode without links, which it first truncates. *)
Theorem icache_counts (s : istate D U) H :
  tracked (imeta s) H → Z.of_nat (length H) < 2 ^ 63 →
  (∀ h h', h ∈ H → h' ∈ H → in_dev h = in_dev h' → in_inum h = in_inum h' → in_index h = in_index h') ∧
  (∀ dev inum,
     match iget dev inum s with
     | Done (h, s') => in_dev h = dev ∧ in_inum h = inum ∧ tracked (imeta s') (h :: H)
     | Panic _ => ∀ i m, imeta s !! i = Some m → refs m ≠ 0 ∧ ¬ (im_dev m = dev ∧ im_inum m = inum)
     end) ∧
  (∀ h, h ∈ H → ∃ s', idup h s = Done (h, s') ∧ tracked (imeta s') (h :: H)) ∧
  (∀ h H', H ≡ₚ h :: H' →
     (∀ s', put h s = Done (tt, s') → tracked (imeta s') H') ∧
     ((∃ h', h' ∈ H' ∧ in_index h' = in_index h) ∨
      (ilocked s !! in_index h = Some false ∧
       ∃ d, idata s !! in_index h = Some d ∧ (valid d = None ∨ 0 < nlink (dinode d))) →
      ∃ s', put h s = Done (tt, s'))).
Proof.
  intros Ht Hlen. split; [|split; [|split]].
  - intros h h' Hh Hh' Ed Ei. destruct (tk_key _ _ Ht _ Hh) as (m & Hm & Hd & Hi).
    destruct (tk_key _ _ Ht _ Hh') as (m' & Hm' & Hd' & Hi').
    pose proof (tk_refs _ _ Ht _ _ Hm). pose proof (tk_refs _ _ Ht _ _ Hm').
    pose proof (holders_pos _ _ Hh). pose proof (holders_pos _ _ Hh').
    eapply (tk_uniq _ _ Ht); [done|done|lia|lia|congruence|congruence].
  - intros dev inum. pose proof (iget_run dev inum s H Ht Hlen) as Hg.
    destruct (iget dev inum s) as [[h s']|]; [|done]. tauto.
  - intros h Hh. by apply idup_run.
  - intros h H' Hp. apply (tracked_perm _ _ _ Hp) in Ht. split; [intros s'; by apply put_tracked|by apply put_returns].
Qed.
End counted.

(** ** Walking a path takes one handle and gives back the others *)
Section walk.
Context {D U : Type} `{!BlockStore D} `{!UserMem U} `{BF : !BitField}.
Definition handles_locks (s : istate D U) : list InodeMeta * list bool := (imeta s, ilocked s).
#[local] Abbreviation K m := (untouched handles_locks m).

Lemma hl_fs {A} (m : M (fsd D) A) : K (on_fs m).
Proof. intros s x s'. unfold on_fs. destruct (m (fsys s)) as [[y f]|]; [|done]. by intros [= _ <-]. Qed.
Lemma hl_user {A} (m : M U A) : K (on_user m).
Proof. intros s x s'. unfold on_user. destruct (m (umem s)) as [[y f]|]; [|done]. by intros [= _ <-]. Qed.
Lemma hl_kbuf l : K (set_kbuf l).
Proof. by intros s x s' [= _ <-]. Qed.
Lemma hl_data f : K (set_data f).
Proof. by intros s x s' [= _ <-]. Qed.
#[local] Hint Resolve hl_fs hl_user hl_kbuf hl_data : untouched.
Lemma hl_get_data i : K (get_data i).
Proof. unfold get_data. untouched. Qed.
#[local] Hint Resolve hl_get_data : untouched.
Lemma hl_get_dinode i : K (get_dinode i).
Proof. unfold get_dinode. untouched. Qed.
Lemma hl_get_valid i : K (get_valid i).
Proof. unfold get_valid. untouched. Qed.
Lemma hl_upd_dinode i f : K (upd_dinode i f).
Proof. apply hl_data. Qed.
#[local] Hint Resolve hl_get_dinode hl_get_valid hl_upd_dinode : untouched.
Lemma hl_map_blockno i b : K (map_blockno i b).
Proof. unfold map_blockno. untouched. Qed.
Lemma hl_copy_out a x n : K (addr_copy_out a x n).
Proof. unfold addr_copy_out. untouched. Qed.
Lemma hl_truncate i : K (truncate i).
Proof. unfold truncate, update. untouched. Qed.
#[local] Hint Resolve hl_map_blockno hl_copy_out : untouched.
Lemma hl_iread_loop n i a c b o r : K (iread_loop n i a c b o r).
Proof. revert a c b o r. induction n as [|n IH]; intros; cbn [iread_loop]; untouched; apply IH. Qed.
#[local] Hint Resolve hl_iread_loop : untouched.
Lemma hl_iread i a o c : K (iread i a o c).
Proof. unfold iread. untouched. Qed.
#[local] Hint Resolve hl_iread : untouched.
Lemma hl_read_entry i o : K (read_entry i o).
Proof. unfold read_entry. untouched. Qed.

Lemma data_lock_inv i (s s' : istate D U) u : data_lock i s = Done (u, s') →
  ilocked s !! i = Some false ∧ imeta s' = imeta s ∧ ilocked s' = <[i := true]> (ilocked s).
Proof.
  unfold data_lock. run_simpl. destruct (ilocked s !! i) as [[]|]; [done| |done]. by intros [= _ <-].
Qed.
Lemma unlock_locked i (l : list bool) : l !! i = Some false → <[i := false]> (<[i := true]> l) = l.
Proof. intros Hl. by rewrite list_insert_insert_eq, list_insert_id. Qed.
(** What is done under the lock of an entry, when it leaves locks alone. *)
Lemma ilock_inv h (s s' : istate D U) u : ilock h s = Done (u, s') →
  ilocked s !! in_index h = Some false ∧ imeta s' = imeta s ∧ ilocked s' = <[in_index h := true]> (ilocked s).
Proof.
  unfold ilock. intros E. mbind_inv E as v s1 E1 E. apply data_lock_inv in E1 as (Hl & Hm & Hk).
  split; [done|]. rewrite <- Hm, <- Hk.
  match type of E with ?m s1 = _ => assert (K m) as Hf by untouched end. specialize (Hf _ _ _ E). by injection Hf.
Qed.
Lemma iunlock_inv h (s s' : istate D U) u : iunlock h s = Done (u, s') →
  imeta s' = imeta s ∧ ilocked s' = <[in_index h := false]> (ilocked s).
Proof. by intros [= _ <-]. Qed.

Lemma lift_inv {S A} (o : outcome A) (s s' : S) a : lift o s = Done (a, s') → o = Done a ∧ s' = s.
Proof. unfold lift. destruct o; [|done]. by intros [= -> ->]. Qed.
Lemma get_meta_inv i (s s' : istate D U) m : get_meta i s = Done (m, s') → imeta s !! i = Some m ∧ s' = s.
Proof.
  unfold get_meta. intros E. mbind_inv E as x s1 E1 E. injection E1 as <- <-. destruct (imeta s !! i) as [y|]; [|done].
  by injection E as -> ->.
Qed.
Lemma upd_refs_locks i n (s s' : istate D U) u :
  (r ← lift (sub_chk n 1); upd_refs i r) s = Done (u, s') → ilocked s' = ilocked s.
Proof. intros E. mbind_inv E as r s1 E1 E. apply lift_inv in E1 as [_ ->]. by injection E as _ <-. Qed.

Lemma put_locks h (s s' : istate D U) u : put h s = Done (u, s') → ilocked s' = ilocked s.
Proof.
  assert (∀ sa sb : istate D U, handles_locks sb = handles_locks sa → ilocked sb = ilocked sa) as Hsnd
    by (intros ?? Hs; by injection Hs).
  unfold put. intros E. mbind_inv E as m s0 E0 E. apply get_meta_inv in E0 as [_ ->].
  destruct (refs m =? 1); [|by eapply upd_refs_locks].
  mbind_inv E as v s1 E1 E. apply data_lock_inv in E1 as (Hl & _ & Hk).
  mbind_inv E as d s2 E2 E. apply hl_get_data, Hsnd in E2.
  destruct (bool_decide _ || _).
  - mbind_inv E as v1 s3 E3 E. apply hl_data, Hsnd in E3. mbind_inv E as v2 s4 E4 E. injection E4 as _ <-.
    rewrite (upd_refs_locks _ _ _ _ _ E). cbn. rewrite E3, E2, Hk. by apply unlock_locked.
  - mbind_inv E as v1 s3 E3 E. apply hl_upd_dinode, Hsnd in E3. mbind_inv E as v2 s4 E4 E. apply hl_truncate, Hsnd in E4.
    mbind_inv E as v3 s5 E5 E. apply hl_data, Hsnd in E5. mbind_inv E as v4 s6 E6 E. injection E6 as _ <-.
    mbind_inv E as m' s7 E7 E. apply get_meta_inv in E7 as [_ ->]. mbind_inv E as r s8 E8 E. mbind_inv E as v5 s9 E9 E.
    assert (s' = s9) as -> by (revert E; unfold assertM; destruct (r =? 0); [by intros [= _ <-]|done]).
    rewrite (upd_refs_locks (in_index h) (refs m') _ s9 v5) by (by rewrite (bind_run _ _ _ _ _ E8)).
    cbn. rewrite E5, E4, E3, E2, Hk. by apply unlock_locked.
Qed.

Lemma iget_inv dev inum (s s' : istate D U) h H : tracked (imeta s) H → Z.of_nat (length H) < 2 ^ 63 →
  iget dev inum s = Done (h, s') → tracked (imeta s') (h :: H) ∧ ilocked s' = ilocked s.
Proof.
  intros Ht Hlen E. pose proof (iget_run dev inum s H Ht Hlen) as Hg. rewrite E in Hg. destruct Hg as (_ & _ & Ht' & Es).
  split; [done|]. by rewrite Es.
Qed.

(** What a step that may take one handle leaves. *)
Definition took (H : list Inode) (locks : list bool) (o : option Inode) (s : istate D U) : Prop :=
  tracked (imeta s) (match o with Some h => h :: H | None => H end) ∧ ilocked s = locks.
Lemma took_untouched H l o (s s' : istate D U) : handles_locks s' = handles_locks s → took H l o s → took H l o s'.
Proof. intros Hs [Ht Hl]. injection Hs as Em Ek. split; congruence. Qed.

Lemma dir_lookup_took i name b H l (s s' : istate D U) o : took H l None s → Z.of_nat (length H) < 2 ^ 63 →
  dir_lookup i name b s = Done (o, s') → took H l (fst <$> o) s'.
Proof.
  intros Hs Hlen. unfold dir_lookup. intros E. mbind_inv E as d s1 E1 E.
  apply (took_untouched _ _ _ _ _ (hl_get_valid _ _ _ _ E1)) in Hs. destruct d as [dev x].
  mbind_inv E as u s2 E2 E. apply (took_untouched _ _ _ _ _ (untouched_assert _ _ _ _ _ _ E2)) in Hs.
  mbind_inv E as d s3 E3 E. apply (took_untouched _ _ _ _ _ (hl_get_dinode _ _ _ _ E3)) in Hs.
  destruct (decide _); [|done]. mbind_inv E as v s4 E4 E. apply (took_untouched _ _ _ _ _ (hl_kbuf _ _ _ _ E4)) in Hs.
  clear E1 E2 E3 E4. revert s4 Hs E. induction (step_by 0 (size d) de_size) as [|off offs IH]; intros s4 Hs E; cbn [for_ret] in E.
  { by injection E as <- <-. }
  mbind_inv E as r s5 E5 E. mbind_inv E5 as de s6 E6 E5. apply (took_untouched _ _ _ _ _ (hl_read_entry _ _ _ _ _ E6)) in Hs.
  destruct (de_inum de =? 0); [injection E5 as <- <-; by apply (IH s6)|].
  destruct (name_match _ _); [|injection E5 as <- <-; by apply (IH s6)].
  mbind_inv E5 as h s7 E7 E5. injection E5 as <- <-. injection E as <- <-.
  destruct Hs as [Ht Hl]. destruct (iget_inv _ _ _ _ _ _ Ht Hlen E7) as [Ht' Hl']. split; [done|congruence].
Qed.

(** The part of a step of the walk under the lock of its inode. *)
Lemma unlock_put_took h H l (s s1 s' : istate D U) u v (o : option Inode) : took (h :: H) (<[in_index h := true]> l) o s →
  l !! in_index h = Some false → iunlock h s = Done (v, s1) → put h s1 = Done (u, s') → took H l o s'.
Proof.
  intros [Ht Hl] Hf E1 E. apply iunlock_inv in E1 as [Em Ek].
  split; [|rewrite (put_locks _ _ _ _ E), Ek, Hl; by apply unlock_locked].
  destruct u. destruct o as [h'|]; (eapply put_tracked; [|exact E]); rewrite Em; [|done].
  by eapply tracked_perm; [apply Permutation_swap|].
Qed.

Lemma namex_loop_took n path b h c name H l (s s' : istate D U) o name' :
  took H l (Some h) s → Z.of_nat (S (length H)) < 2 ^ 63 →
  namex_loop n path b h c name s = Done ((o, name'), s') → took H l o s'.
Proof.
  revert h c name s. induction n as [|n IH]; intros h c name s Hs Hlen E; cbn [namex_loop] in E.
  all: mbind_inv E as q s0 E0 E; apply lift_inv in E0 as [_ ->]; destruct q as [cur nm].
  all: destruct (cur =? 0)%nat.
  1,3: destruct b; [mbind_inv E as u s1 E1 E; injection E as <- _ <-|by injection E as <- _ <-];
    destruct Hs as [Ht Hl]; destruct u; split; [by eapply put_tracked|by rewrite (put_locks _ _ _ _ E1)].
  { done. }
  mbind_inv E as u s1 E1 E. destruct (ilock_inv _ _ _ _ E1) as (Hf & Em & Ek). destruct Hs as [Ht Hl].
  assert (took (h :: H) (<[in_index h := true]> l) None s1) as Hs by (split; congruence). rewrite Hl in Hf.
  mbind_inv E as d s2 E2 E. apply (took_untouched _ _ _ _ _ (hl_get_dinode _ _ _ _ E2)) in Hs.
  destruct (negb _).
  { mbind_inv E as u3 s3 E3 E. mbind_inv E as u4 s4 E4 E. injection E as <- _ <-. by eapply unlock_put_took. }
  mbind_inv E as z s3 E3 E. apply (took_untouched _ _ _ s2 s3) in Hs.
  2: { destruct b; [by apply lift_inv in E3 as [_ ->]|by injection E3 as _ <-]. }
  destruct (b && _).
  { mbind_inv E as u4 s4 E4 E. injection E as <- _ <-. apply iunlock_inv in E4 as [Em4 Ek4]. destruct Hs as [Ht4 Hl4].
    split; [by rewrite Em4|]. rewrite Ek4, Hl4. by apply unlock_locked. }
  mbind_inv E as r s4 E4 E. apply (dir_lookup_took _ _ _ _ _ _ _ _ Hs) in E4; [|cbn; lia].
  destruct r as [[last x]|]; cbn [fmap option_fmap option_map fst] in E4; mbind_inv E as u5 s5 E5 E; mbind_inv E as u6 s6 E6 E.
  - apply IH in E; [done| |done]. exact (unlock_put_took _ _ _ _ _ _ _ _ _ E4 Hf E5 E6).
  - injection E as <- _ <-. exact (unlock_put_took _ _ _ _ _ _ _ _ _ E4 Hf E5 E6).
Qed.

Lemma namei_took path H (s s' : istate D U) o :
  tracked (imeta s) H → (∀ w, cwd s = Some w → w ∈ H) → Z.of_nat (S (length H)) < 2 ^ 63 →
  namei path s = Done (o, s') → took H (ilocked s) o s'.
Proof.
  intros Ht Hw Hlen E. unfold namei, namex in E. mbind_inv E as [o1 nm] s1 E1 E. injection E as <- <-.
  mbind_inv E1 as c s2 E2 E1. apply lift_inv in E2 as [_ ->]. mbind_inv E1 as h s2 E2 E1.
  eapply namex_loop_took; [|exact Hlen|exact E1]. cbn in Hlen. destruct (c =? SLASH).
  - destruct (iget_inv _ _ _ _ _ _ Ht ltac:(lia) E2). by split.
  - mbind_inv E2 as x s3 E3 E2. injection E3 as <- <-. mbind_inv E2 as w s3 E3 E2.
    destruct (cwd s) as [w'|] eqn:Ew; [|done]. injection E3 as -> <-.
    destruct (idup_run w s H Ht (Hw _ eq_refl) ltac:(lia)) as (s4 & E4 & Ht4). rewrite E4 in E2. injection E2 as <- <-.
    split; [done|]. revert E4. unfold idup. intros E4. mbind_inv E4 as m s5 E5 E4. apply get_meta_inv in E5 as [_ ->].
    mbind_inv E4 as r s6 E6 E4. apply lift_inv in E6 as [_ ->]. by injection E4 as <-.
Qed.
End walk.
#[export] Hint Resolve hl_fs hl_user hl_kbuf hl_data hl_iread : untouched.

(** ** The cache at boot, on the small file system of [Block] *)
Definition iboot (f : fsd plain) : istate plain unit := {|
  fsys := f; umem := tt; kbuf := []; imeta := replicate NINODE InodeMeta_new;
  idata := replicate NINODE InodeData_new; ilocked := replicate NINODE false; cwd := None |}.

Lemma icache_counts_witness :
  match iget ROOTDEV ROOTINUM (iboot Small.fs) with
  | Done (h, s') => in_inum h = ROOTINUM ∧ tracked (imeta s') [h]
  | Panic _ => False
  end.
Proof.
  destruct (icache_counts (iboot Small.fs) [] tracked_boot eq_refl) as (_ & Hg & _).
  specialize (Hg ROOTDEV ROOTINUM). destruct (iget ROOTDEV ROOTINUM (iboot Small.fs)) as [[h s']|] eqn:E.
  - destruct Hg as (_ & Hi & Ht). by split.
  - destruct (Hg 0%nat InodeMeta_new eq_refl) as [Hne _]. by apply Hne.
Defined.
