(* ===== verification/Locks.v ===== *)
(** * Harts and spin locks ([kernel/src/process/cpu.rs]: [Cpu], [push_off],
    [pop_off], [sched]; [process/context.rs]; [spinlock.rs])

    A hart has its [Cpu] record, its interrupt enable bit [sstatus.SIE] and its
    number [tp].  The steps of [acquire] and [release] that other harts can see
    are transitions of their own; memory is sequentially consistent, which is
    what the orderings and fences of the code are there for. *)
From S2P Require Import Prelude Consts.

(** ** Context *)
Record Context := { ra : Z; sp : Z; saved : list Z (* s0 .. s11 *) }.
Definition Context_new : Context := {| ra := 0; sp := 0; saved := replicate 12 0 |}.
Definition Context_clear (c : Context) : Context := {| ra := 0; sp := 0; saved := replicate 12 0 |}.
Definition set_ra (x : Z) (c : Context) : Context := {| ra := x; sp := sp c; saved := saved c |}.
Definition set_sp (x : Z) (c : Context) : Context := {| ra := ra c; sp := x; saved := saved c |}.

(** ** Cpu *)
Record Cpu := {
  process : option nat;    (* the running process, by its index *)
  task : option Z;         (* the running task, by its tid *)
  scheduler_ctx : Context;
  noff : Z;                (* u8 *)
  intena : bool;
}.
Definition Cpu_new : Cpu :=
  {| process := None; task := None; scheduler_ctx := Context_new; noff := 0; intena := false |}.

Record hart := { cpu : Cpu; sie : bool; tp : Z }.
Definition hart_new (id : Z) : hart := {| cpu := Cpu_new; sie := false; tp := id |}.

Definition intr_get : M hart bool := gets sie.
Definition intr_set (b : bool) : M hart unit := modify (λ h, {| cpu := cpu h; sie := b; tp := tp h |}).
Definition upd_cpu (f : Cpu → Cpu) : M hart unit := modify (λ h, {| cpu := f (cpu h); sie := sie h; tp := tp h |}).
Definition set_noff (n : Z) (c : Cpu) : Cpu :=
  {| process := process c; task := task c; scheduler_ctx := scheduler_ctx c; noff := n; intena := intena c |}.
Definition set_intena (b : bool) (c : Cpu) : Cpu :=
  {| process := process c; task := task c; scheduler_ctx := scheduler_ctx c; noff := noff c; intena := b |}.
Definition set_process (p : option nat) (c : Cpu) : Cpu :=
  {| process := p; task := task c; scheduler_ctx := scheduler_ctx c; noff := noff c; intena := intena c |}.

Definition push_off : M hart unit :=
  old ← intr_get;
  intr_set false;;
  c ← gets cpu;
  (if noff c =? 0 then upd_cpu (set_intena old) else mret tt);;
  n ← lift (add_chk 8 (noff c) 1);
  upd_cpu (set_noff n).

Definition pop_off : M hart unit :=
  on ← intr_get;
  if (on : bool) then panic "pop_off(): interruptable"
  else
    c ← gets cpu;
    if noff c <? 1 then panic "pop_off(): count not match"
    else
      upd_cpu (set_noff (noff c - 1));;
      if (noff c - 1 =? 0) && intena c then intr_set true else mret tt.

Definition my_proc : M hart nat :=
  push_off;;
  c ← gets cpu;
  p ← unwrap (process c) "my_proc(): no process running";
  pop_off;;
  mret p.
Definition current_task : M hart Z :=
  push_off;;
  c ← gets cpu;
  t ← unwrap (task c) "no task running";
  pop_off;;
  mret t.

(** ** SpinLock *)
Record SpinLock := { lock : bool; cpuid : Z }.
Definition SpinLock_new : SpinLock := {| lock := false; cpuid := -1 |}.
Definition holding (l : SpinLock) (h : hart) : bool := lock l && (cpuid l =? tp h).

(** [acquire] up to its first compare-and-exchange; one turn of the spin; the
    end of [acquire]. *)
Definition acquire_start (l : SpinLock) : M hart unit :=
  push_off;;
  h ← get;
  if holding l h then panic "spinlock acquire" else mret tt.
Definition compare_exchange (l : SpinLock) : SpinLock * bool :=
  if lock l then (l, false) else ({| lock := true; cpuid := cpuid l |}, true).
Definition acquire_end (h : hart) (l : SpinLock) : SpinLock := {| lock := lock l; cpuid := tp h |}.

(** [release] up to the store to [lock]; that store; [pop_off]. *)
Definition release_start (l : SpinLock) (h : hart) : outcome SpinLock :=
  if negb (holding l h) then Panic "spinlock release" else Done {| lock := lock l; cpuid := -1 |}.
Definition release_store (l : SpinLock) : SpinLock := {| lock := false; cpuid := cpuid l |}.

(** [Cpu::sched]: [switch] is the assembly routine, which comes back when the
    process is scheduled again. *)
Definition sched (guard : SpinLock) (running : bool) (switch : M hart unit) : M hart unit :=
  h ← get;
  if negb (holding guard h) then panic "sched(): not holding proc's lock"
  else if negb (noff (cpu h) =? 1) then panic "sched(): cpu hold multi locks"
  else if running then panic "sched(): proc is running"
  else if sie h then panic "sched(): interruptible"
  else
    let intena := intena (cpu h) in
    switch;;
    upd_cpu (set_intena intena).

(** ** The machine: harts that take and release locks *)
Inductive phase :=
| Outside
| Spinning (l : nat)      (* before a successful compare-and-exchange *)
| Claiming (l : nat)      (* the lock is taken, [cpuid] not yet set *)
| Clearing (l : nat)      (* [cpuid] is reset, the lock not yet free *)
| Restoring.              (* before [pop_off] *)
Record thread := { th : hart; ph : phase; held : list nat }.
Record machine := { threads : list thread; locks : list SpinLock }.

Inductive mstep : machine → machine → Prop :=
| step_start ts ls i t l k h' :
    ts !! i = Some t → ph t = Outside → ls !! l = Some k → acquire_start k (th t) = Done (tt, h') →
    mstep {| threads := ts; locks := ls |}
          {| threads := <[i := {| th := h'; ph := Spinning l; held := held t |}]> ts; locks := ls |}
| step_spin ts ls i t l k k' (ok : bool) :
    ts !! i = Some t → ph t = Spinning l → ls !! l = Some k → compare_exchange k = (k', ok) →
    mstep {| threads := ts; locks := ls |}
          {| threads := <[i := {| th := th t; ph := if ok then Claiming l else Spinning l; held := held t |}]> ts;
             locks := <[l := k']> ls |}
| step_claim ts ls i t l k :
    ts !! i = Some t → ph t = Claiming l → ls !! l = Some k →
    mstep {| threads := ts; locks := ls |}
          {| threads := <[i := {| th := th t; ph := Outside; held := l :: held t |}]> ts;
             locks := <[l := acquire_end (th t) k]> ls |}
| step_release ts ls i t l k k' held' :
    ts !! i = Some t → ph t = Outside → held t ≡ₚ l :: held' → ls !! l = Some k →
    release_start k (th t) = Done k' →
    mstep {| threads := ts; locks := ls |}
          {| threads := <[i := {| th := th t; ph := Clearing l; held := held' |}]> ts; locks := <[l := k']> ls |}
| step_store ts ls i t l k :
    ts !! i = Some t → ph t = Clearing l → ls !! l = Some k →
    mstep {| threads := ts; locks := ls |}
          {| threads := <[i := {| th := th t; ph := Restoring; held := held t |}]> ts;
             locks := <[l := release_store k]> ls |}
| step_restore ts ls i t h' :
    ts !! i = Some t → ph t = Restoring → pop_off (th t) = Done (tt, h') →
    mstep {| threads := ts; locks := ls |}
          {| threads := <[i := {| th := h'; ph := Outside; held := held t |}]> ts; locks := ls |}
| step_intr ts ls i t (b : bool) :
    (* [intr_on], [intr_off] by code that holds no lock *)
    ts !! i = Some t → ph t = Outside → held t = [] →
    mstep {| threads := ts; locks := ls |}
          {| threads := <[i := {| th := {| cpu := cpu (th t); sie := b; tp := tp (th t) |}; ph := Outside; held := [] |}]> ts;
             locks := ls |}.

Definition machine_boot (nharts nlocks : nat) : machine := {|
  threads := (λ i, {| th := hart_new (Z.of_nat i); ph := Outside; held := [] |}) <$> seq 0 nharts;
  locks := replicate nlocks SpinLock_new |}.

(** * Spin locks exclude, and interrupts stay off while one is held *)
Inductive reachable (nharts nlocks : nat) : machine → Prop :=
| reach_boot : reachable nharts nlocks (machine_boot nharts nlocks)
| reach_step m m' : reachable nharts nlocks m → mstep m m' → reachable nharts nlocks m'.

(** The lock a thread has taken, or is about to give back, in this phase. *)
Definition in_phase (p : phase) (l : nat) : Prop := p = Claiming l ∨ p = Clearing l.
Definition owns (t : thread) (l : nat) : Prop := l ∈ held t ∨ in_phase (ph t) l.
Definition depth (t : thread) : Z :=
  Z.of_nat (length (held t)) + match ph t with Outside => 0 | _ => 1 end.

(** Hart [i], when [own] says who owns each lock. *)
Record thread_ok (own : nat → option nat) (i : nat) (t : thread) : Prop := {
  to_tp : tp (th t) = Z.of_nat i;
  to_nodup : NoDup (held t);
  to_owns l : owns t l ↔ own l = Some i;
  to_phase l : in_phase (ph t) l → (l ∉ held t);
  to_noff : noff (cpu (th t)) = depth t;
  to_sie : 0 < depth t → sie (th t) = false;
}.
Record machine_ok (own : nat → option nat) (m : machine) : Prop := {
  mo_lock l k : locks m !! l = Some k → lock k = bool_decide (is_Some (own l));
  mo_cpuid l k i : locks m !! l = Some k →
    cpuid k = Z.of_nat i ↔ ∃ t, threads m !! i = Some t ∧ l ∈ held t;
  mo_thread i t : threads m !! i = Some t → thread_ok own i t;
}.

Lemma machine_boot_ok nharts nlocks : machine_ok (λ _, None) (machine_boot nharts nlocks).
Proof.
  assert (∀ i t, threads (machine_boot nharts nlocks) !! i = Some t →
    t = {| th := hart_new (Z.of_nat i); ph := Outside; held := [] |}) as Hboot.
  { intros i t. cbn. rewrite list_lookup_fmap. intros (j & Ej & ->)%fmap_Some.
    apply lookup_seq in Ej as [-> _]. done. }
  split.
  - intros l k [-> _]%lookup_replicate. done.
  - intros l k i [-> _]%lookup_replicate. cbn [cpuid SpinLock_new]. split; [lia|].
    intros (t & Et & Hl). rewrite (Hboot _ _ Et) in Hl. by apply elem_of_nil in Hl.
  - intros i t Et. rewrite (Hboot _ _ Et). split; try done; [apply NoDup_nil_2| |by intros l [?|?]].
    intros l. split; [|done]. by intros [?%elem_of_nil|[?|?]].
Qed.

(** Hart [i] does something that concerns only itself and a lock [l], whose
    owner may change from or to hart [i]. *)
Lemma machine_ok_update own own' ts ls i t t' l k k' :
  machine_ok own {| threads := ts; locks := ls |} → ts !! i = Some t → ls !! l = Some k →
  (∀ l', l' ≠ l → own' l' = own l') → (own' l = own l ∨ own l ∈ [None; Some i] ∧ own' l ∈ [None; Some i]) →
  thread_ok own' i t' → (∀ l', l' ≠ l → l' ∈ held t' ↔ l' ∈ held t) →
  lock k' = bool_decide (is_Some (own' l)) →
  ((l ∈ held t' ∧ cpuid k' = Z.of_nat i) ∨
   ((l ∉ held t') ∧ ((cpuid k' = cpuid k ∧ (l ∉ held t)) ∨ (cpuid k' = -1 ∧ own l = Some i)))) →
  (own l = Some i ∨ (l ∉ held t')) →
  machine_ok own' {| threads := <[i := t']> ts; locks := <[l := k']> ls |}.
Proof.
  intros [Hlk Hcp Hth] Ht Hk Hoth Hown Ht' Hheld Hk' Hcpu Hnew. cbn [threads locks] in *.
  pose proof (lookup_lt_Some _ _ _ Ht) as Hi. pose proof (lookup_lt_Some _ _ _ Hk) as Hl.
  split; cbn [threads locks].
  - intros l' k0. destruct (decide (l = l')) as [<-|Hne].
    + rewrite list_lookup_insert_eq by done. by intros [= <-].
    + rewrite list_lookup_insert_ne by done. rewrite Hoth by done. apply Hlk.
  - intros l' k0 j. destruct (decide (l = l')) as [<-|Hne].
    + rewrite list_lookup_insert_eq by done. intros [= <-]. destruct (decide (i = j)) as [<-|Hij].
      * rewrite list_lookup_insert_eq by done. destruct Hcpu as [[Hin ->]|[Hnin Hc]]; [naive_solver|].
        split; [|intros (t0 & [= <-] & ?); done]. intros Hcj. exfalso. destruct Hc as [[Hc Hnt]|[Hc _]]; [|lia].
        rewrite Hc in Hcj. apply (Hcp _ _ _ Hk) in Hcj as (t0 & Et0 & Hin). rewrite Ht in Et0. by injection Et0 as <-.
      * rewrite list_lookup_insert_ne by done. destruct Hcpu as [[Hin ->]|[Hnin [[-> Hnt]|[-> Hio]]]].
        -- split; [lia|]. intros (t0 & Et0 & Hin0). exfalso.
           pose proof (proj1 (to_owns _ _ _ (Hth _ _ Et0) l) (or_introl Hin0)) as Ho.
           destruct Hnew as [Hn|Hn]; [|done]. congruence.
        -- by apply Hcp.
        -- split; [lia|]. intros (t0 & Et0 & Hin0). exfalso.
           pose proof (proj1 (to_owns _ _ _ (Hth _ _ Et0) l) (or_introl Hin0)) as Ho. congruence.
    + rewrite list_lookup_insert_ne by done. intros Hk0. rewrite (Hcp _ _ _ Hk0).
      destruct (decide (i = j)) as [<-|Hij].
      * rewrite list_lookup_insert_eq by done. split; intros (t0 & Et0 & Hin0).
        -- exists t'. split; [done|]. apply Hheld; [done|]. rewrite Ht in Et0. by injection Et0 as <-.
        -- exists t. split; [done|]. injection Et0 as <-. by apply Hheld.
      * by rewrite list_lookup_insert_ne by done.
  - intros j t0. destruct (decide (i = j)) as [<-|Hij].
    + rewrite list_lookup_insert_eq by done. by intros [= <-].
    + rewrite list_lookup_insert_ne by done. intros Et0. destruct (Hth _ _ Et0) as [H1 H2 H3 H4 H5 H6].
      split; try done. intros l'. rewrite H3. destruct (decide (l' = l)) as [->|Hne]; [|by rewrite Hoth].
      destruct Hown as [->|[Ho Ho']]; [done|]. split; intros E.
      * rewrite E in Ho. exfalso. set_solver.
      * rewrite E in Ho'. exfalso. set_solver.
Qed.

(** Hart [i] does something that concerns only itself. *)
Lemma machine_ok_thread own ts ls i t t' :
  machine_ok own {| threads := ts; locks := ls |} → ts !! i = Some t →
  held t' = held t → thread_ok own i t' →
  machine_ok own {| threads := <[i := t']> ts; locks := ls |}.
Proof.
  intros [Hlk Hcp Hth] Ht Hh Ht'. cbn [threads locks] in *. pose proof (lookup_lt_Some _ _ _ Ht) as Hi.
  split; cbn [threads locks]; [done| |].
  - intros l k j Hk. rewrite (Hcp _ _ _ Hk). destruct (decide (i = j)) as [<-|Hij]; [|by rewrite list_lookup_insert_ne].
    rewrite list_lookup_insert_eq by done. split; intros (t0 & Et0 & Hin).
    + exists t'. split; [done|]. rewrite Hh. rewrite Ht in Et0. by injection Et0 as <-.
    + exists t. split; [done|]. rewrite <- Hh. by injection Et0 as <-.
  - intros j t0. destruct (decide (i = j)) as [<-|Hij].
    + rewrite list_lookup_insert_eq by done. by intros [= <-].
    + rewrite list_lookup_insert_ne by done. apply Hth.
Qed.

(** ** [push_off] and [pop_off] *)
Lemma push_off_run h : noff (cpu h) + 1 < 2 ^ 8 →
  push_off h = Done (tt, {| cpu := set_noff (noff (cpu h) + 1)
      (if noff (cpu h) =? 0 then set_intena (sie h) (cpu h) else cpu h); sie := false; tp := tp h |}).
Proof.
  intros Hn. unfold push_off. unfold intr_get, intr_set, upd_cpu. run_simpl. cbn.
  destruct (noff (cpu h) =? 0); run_simpl; by rewrite add_chk_ok by done.
Qed.
Lemma push_off_done h h' : push_off h = Done (tt, h') →
  noff (cpu h') = noff (cpu h) + 1 ∧ sie h' = false ∧ tp h' = tp h ∧
  intena (cpu h') = if noff (cpu h) =? 0 then sie h else intena (cpu h).
Proof.
  intros E. destruct (Z.ltb_spec (noff (cpu h) + 1) (2 ^ 8)) as [Hlt|Hge].
  - rewrite push_off_run in E by done. injection E as <-. cbn. by destruct (noff (cpu h) =? 0).
  - unfold push_off, intr_get, intr_set, upd_cpu in E. revert E. run_simpl. cbn. unfold add_chk.
    rewrite (proj2 (Z.ltb_ge _ _)) by done. by destruct (noff (cpu h) =? 0); run_simpl.
Qed.
Lemma pop_off_run h : sie h = false → 0 < noff (cpu h) →
  pop_off h = Done (tt, {| cpu := set_noff (noff (cpu h) - 1) (cpu h);
      sie := (noff (cpu h) =? 1) && intena (cpu h); tp := tp h |}).
Proof.
  intros Hs Hn. unfold pop_off, intr_get, intr_set, upd_cpu. run_simpl. cbn. rewrite Hs.
  rewrite (proj2 (Z.ltb_ge _ _)) by lia.
  replace (noff (cpu h) - 1 =? 0) with (noff (cpu h) =? 1) by lia.
  rewrite Hs. by destruct ((noff (cpu h) =? 1) && intena (cpu h)).
Qed.

Lemma acquire_start_done k h h' : acquire_start k h = Done (tt, h') →
  push_off h = Done (tt, h') ∧ holding k h' = false.
Proof.
  unfold acquire_start. intros E. mbind_inv E as u h1 E1 E. destruct u. mbind_inv E as h2 h3 E2 E.
  injection E2 as <- <-. destruct (holding k h1) eqn:Eh; [done|]. by injection E as <-.
Qed.

(** The fields of [thread_ok] but the ownership of locks. *)
Ltac thread_ok_solve Hsie :=
  split; cbn; unfold depth; cbn; try done; try lia; try (by intros ? [?|?]);
  try (by intros ? [[= <-]|[= <-]]); try (intros; apply Hsie; lia).

Lemma mstep_ok own m m' : machine_ok own m → mstep m m' → ∃ own', machine_ok own' m'.
Proof.
  intros Hm Hs. destruct Hs as [ts ls i t l k h' Ht Hp Hk Ha|ts ls i t l k k' ok Ht Hp Hk Hc|
      ts ls i t l k Ht Hp Hk|ts ls i t l k k' held' Ht Hp Hh Hk Hr|ts ls i t l k Ht Hp Hk|
      ts ls i t h' Ht Hp Hr|ts ls i t b Ht Hp Hh];
    pose proof (mo_thread _ _ Hm _ _ Ht) as Hto; pose proof Hto as [Htp Hnd Hown Hph Hn Hsie].
  - exists own. apply (machine_ok_thread _ _ _ _ t); try done.
    apply acquire_start_done in Ha as [Ha _]. apply push_off_done in Ha as (Hn' & Hs' & Htp' & _).
    unfold depth in *. rewrite Hp in Hn. thread_ok_solve Hsie.
    + intros l'. rewrite <- Hown. unfold owns. cbn. rewrite Hp. unfold in_phase. naive_solver.
  - unfold compare_exchange in Hc. destruct (lock k) eqn:El; injection Hc as <- <-.
    + exists own. rewrite (list_insert_id ls l k) by done. apply (machine_ok_thread _ _ _ _ t); try done.
      unfold depth in *. rewrite Hp in *. thread_ok_solve Hsie.
      * intros l'. rewrite <- Hown. unfold owns. cbn. by rewrite Hp.
    + pose proof (mo_lock _ _ Hm _ _ Hk) as Hf. rewrite El in Hf. symmetry in Hf. apply bool_decide_eq_false in Hf.
      assert (own l = None) as Hol by (destruct (own l); [by destruct Hf|done]).
      assert (l ∉ held t) as Hnin. { intros Hin. assert (owns t l) as Ho by (by left). apply Hown in Ho. congruence. }
      exists (λ l', if decide (l' = l) then Some i else own l').
      apply (machine_ok_update own _ _ _ _ t _ l k); try done; cbn.
      * intros l' Hne. by rewrite decide_False.
      * right. rewrite Hol, decide_True by done. set_solver.
      * unfold depth in *. rewrite Hp in *. thread_ok_solve Hsie.
        -- intros l'. destruct (decide (l' = l)) as [->|Hne]; [split; [done|]; by right; left|].
           rewrite <- Hown. unfold owns, in_phase. cbn. rewrite Hp. naive_solver.
      * by rewrite decide_True.
      * right. split; [done|]. by left.
      * by right.
  - exists own. assert (own l = Some i) as Hol by (apply Hown; by right; left).
    assert (l ∉ held t) as Hnin by (apply Hph; by left).
    apply (machine_ok_update own _ _ _ _ t _ l k); try done; cbn.
    + by left.
    + unfold depth in *. rewrite Hp in *. thread_ok_solve Hsie.
      * by constructor.
      * intros l'. rewrite <- Hown. unfold owns, in_phase. cbn. rewrite Hp, elem_of_cons. naive_solver.
    + intros l' Hne. rewrite elem_of_cons. naive_solver.
    + by rewrite (mo_lock _ _ Hm _ _ Hk).
    + left. split; [by left|done].
    + by left.
  - exists own. assert (l ∈ held t) as Hin by (rewrite Hh; by left).
    assert (own l = Some i) as Hol by (apply Hown; by left).
    assert (NoDup (l :: held')) as Hnd' by (by rewrite <- Hh). apply NoDup_cons in Hnd' as [Hnin Hnd'].
    unfold release_start in Hr. destruct (negb (holding k (th t))); [done|]. injection Hr as <-.
    apply (machine_ok_update own _ _ _ _ t _ l k); try done; cbn.
    + by left.
    + unfold depth in *. rewrite Hp in *. apply Permutation_length in Hh as Hlen. cbn in Hlen.
      thread_ok_solve Hsie.
      * intros l'. rewrite <- Hown. unfold owns, in_phase. cbn. rewrite Hp, Hh, elem_of_cons. naive_solver.
    + intros l' Hne. rewrite Hh, elem_of_cons. naive_solver.
    + by rewrite (mo_lock _ _ Hm _ _ Hk).
    + right. split; [done|]. by right.
    + by left.
  - assert (own l = Some i) as Hol by (apply Hown; by right; right).
    assert (l ∉ held t) as Hnin by (apply Hph; by right).
    exists (λ l', if decide (l' = l) then None else own l').
    apply (machine_ok_update own _ _ _ _ t _ l k); try done; cbn.
    + intros l' Hne. by rewrite decide_False.
    + right. rewrite Hol, decide_True by done. set_solver.
    + unfold depth in *. rewrite Hp in *. thread_ok_solve Hsie.
      * intros l'. destruct (decide (l' = l)) as [->|Hne].
        -- split; [|done]. intros [?|[?|?]]; done.
        -- rewrite <- Hown. unfold owns, in_phase. cbn. rewrite Hp. naive_solver.
    + by rewrite decide_True.
    + right. split; [done|]. by left.
    + by left.
  - exists own. apply (machine_ok_thread _ _ _ _ t); try done.
    unfold depth in *. rewrite Hp in *. rewrite pop_off_run in Hr by (apply Hsie || lia; lia). injection Hr as <-.
    thread_ok_solve Hsie.
    intros l'. rewrite <- Hown. unfold owns, in_phase. cbn. rewrite Hp. naive_solver.
  - exists own. apply (machine_ok_thread _ _ _ _ t); try done.
    unfold depth in *. rewrite Hp, Hh in *. thread_ok_solve Hsie.
    intros l'. rewrite <- Hown. unfold owns, in_phase. cbn. by rewrite Hp, Hh.
Qed.

Lemma reachable_ok nharts nlocks m : reachable nharts nlocks m → ∃ own, machine_ok own m.
Proof.
  induction 1 as [|m m' _ [own Hm] Hs]; [eexists; apply machine_boot_ok|by eapply mstep_ok].
Qed.

Lemma holding_held own m i t l k :
  machine_ok own m → threads m !! i = Some t → locks m !! l = Some k →
  ∀ h, tp h = tp (th t) → holding k h = bool_decide (l ∈ held t).
Proof.
  intros Hm Ht Hk h Htp. pose proof (mo_thread _ _ Hm _ _ Ht) as Hto. unfold holding.
  rewrite Htp, (to_tp _ _ _ Hto), (mo_lock _ _ Hm _ _ Hk).
  pose proof (mo_cpuid _ _ Hm _ _ i Hk) as Hc. destruct (decide (l ∈ held t)) as [Hin|Hin].
  - rewrite (bool_decide_true (l ∈ held t)) by done. rewrite bool_decide_true.
    + apply andb_true_iff. split; [done|]. apply Z.eqb_eq, Hc. by exists t.
    + exists i. apply (to_owns _ _ _ Hto). by left.
  - rewrite (bool_decide_false (l ∈ held t)) by done. apply andb_false_iff. right. apply Z.eqb_neq.
    intros E. apply Hc in E as (t0 & Et0 & Hin0). rewrite Ht in Et0. by injection Et0 as <-.
Qed.

(** C12. Spin locks.  However the harts interleave, at most one of them owns a
    lock; a hart that holds one has interrupts off and counts its locks in
    [noff]; giving back a lock it holds never panics, nor does the [pop_off]
    that follows; and taking a lock panics exactly when the hart holds it
    already, as long as it nests fewer than 255 of them. *)
Theorem spinlock_exclusion nharts nlocks m :
  reachable nharts nlocks m →
  (∀ i j ti tj l, threads m !! i = Some ti → threads m !! j = Some tj → owns ti l → owns tj l → i = j) ∧
  ∀ i t, threads m !! i = Some t →
    noff (cpu (th t)) = depth t ∧ (held t ≠ [] → sie (th t) = false) ∧
    (ph t = Restoring → ¬ panics (pop_off (th t))) ∧
    ∀ l k, locks m !! l = Some k →
      (l ∈ held t → ¬ panics (release_start k (th t))) ∧
      (ph t = Outside → noff (cpu (th t)) < 255 → panics (acquire_start k (th t)) ↔ l ∈ held t).
Proof.
  intros Hr. destruct (reachable_ok _ _ _ Hr) as [own Hm]. split.
  - intros i j ti tj l Hi Hj Oi Oj. apply (to_owns _ _ _ (mo_thread _ _ Hm _ _ Hi)) in Oi.
    apply (to_owns _ _ _ (mo_thread _ _ Hm _ _ Hj)) in Oj. congruence.
  - intros i t Ht. pose proof (mo_thread _ _ Hm _ _ Ht) as [Htp Hnd Hown Hph Hn Hsie].
    split; [done|]. split; [|split].
    + intros Hne. apply Hsie. unfold depth. destruct (held t); [done|]. cbn. destruct (ph t); lia.
    + intros Hp [why E]. unfold depth in *. rewrite Hp in *. rewrite pop_off_run in E by (apply Hsie || lia; lia). done.
    + intros l k Hk. split.
      * intros Hin [why E]. unfold release_start in E.
        rewrite (holding_held _ _ _ _ _ _ Hm Ht Hk) in E by done. by rewrite bool_decide_true in E.
      * intros Hp Hlt. unfold acquire_start. pose proof (push_off_run (th t)) as E. specialize (E ltac:(lia)).
        rewrite (bind_run _ _ _ _ _ E). rewrite (bind_run _ _ _ _ _ (eq_refl : get _ = Done (_, _))).
        rewrite (holding_held _ _ _ _ _ _ Hm Ht Hk) by done. destruct (decide (l ∈ held t)).
        -- rewrite bool_decide_true by done. split; [done|]. intros _. by eexists.
        -- rewrite bool_decide_false by done. split; [by intros [? ?]|done].
Qed.

(** Two harts; the first holds lock 0. *)
Lemma spinlock_exclusion_witness :
  ∃ m t k, reachable 2 1 m ∧ threads m !! 0%nat = Some t ∧ locks m !! 0%nat = Some k ∧ 0%nat ∈ held t ∧
    sie (th t) = false ∧ panics (acquire_start k (th t)).
Proof.
  set (h1 := {| cpu := set_noff 1 Cpu_new; sie := false; tp := 0 |}).
  set (m := {| threads := [{| th := h1; ph := Outside; held := [0%nat] |};
                           {| th := hart_new 1; ph := Outside; held := [] |}];
               locks := [{| lock := true; cpuid := 0 |}] |}).
  set (t0 := {| th := hart_new 0; ph := Outside; held := [] |}).
  set (t1 := {| th := hart_new 1; ph := Outside; held := [] |}).
  set (ts := {| th := h1; ph := Spinning 0; held := [] |}).
  set (tc := {| th := h1; ph := Claiming 0; held := [] |}).
  set (k1 := {| lock := true; cpuid := -1 |}).
  assert (reachable 2 1 {| threads := [ts; t1]; locks := [SpinLock_new] |}) as R1.
  { eapply reach_step; [apply reach_boot|].
    exact (step_start [t0; t1] [SpinLock_new] 0 t0 0 SpinLock_new h1 eq_refl eq_refl eq_refl eq_refl). }
  assert (reachable 2 1 {| threads := [tc; t1]; locks := [k1] |}) as R2.
  { eapply reach_step; [exact R1|].
    exact (step_spin [ts; t1] [SpinLock_new] 0 ts 0 SpinLock_new k1 true eq_refl eq_refl eq_refl eq_refl). }
  assert (reachable 2 1 m) as Hr.
  { eapply reach_step; [exact R2|]. exact (step_claim [tc; t1] [k1] 0 tc 0 k1 eq_refl eq_refl eq_refl). }
  destruct (spinlock_exclusion 2 1 m Hr) as [_ Hx].
  destruct (Hx 0%nat _ eq_refl) as (_ & Hs & _ & Hl). destruct (Hl 0%nat _ eq_refl) as [_ Ha].
  eexists m, _, _. split; [exact Hr|]. split; [reflexivity|]. split; [reflexivity|].
  split; [by left|]. split; [by apply Hs|]. apply Ha; [reflexivity|reflexivity|by left].
Defined.
