(* ===== verification/Sched.v ===== *)
(** * Process states, the ready queue and sleep locks
    ([kernel/src/process/proc/mod.rs]: [ProcState], [ProcExcl], [yielding],
    [sleep]; [process/mod.rs]: [wakeup], [kill], [set_parent],
    [alloc_runnable]; [process/cpu.rs]: [scheduler]; [proc/manager.rs];
    [sleeplock.rs])

    A process is its index in the table.  Its [ProcExcl] is behind its own spin
    lock and the ready queue behind another; a *turn* is what one hart does
    between two points where it holds neither, so any interleaving of the harts
    is a sequence of turns.  A turn that gives up the hart ends in [sched]. *)
From S2P Require Import Prelude Consts.

Inductive ProcState := UNUSED | SLEEPING | RUNNABLE | RUNNING | ALLOCATED | ZOMBIE.
#[export] Instance ProcState_eq_dec : EqDecision ProcState.
Proof. solve_decision. Defined.

Record ProcExcl := { state : ProcState; exit_status : Z; channel : Z; pid : Z; priority : Z }.
Definition ProcExcl_new : ProcExcl :=
  {| state := UNUSED; exit_status := 0; channel := 0; pid := 0; priority := 0 |}.
Definition excl_cleanup (e : ProcExcl) : ProcExcl :=
  {| state := UNUSED; exit_status := 0; channel := 0; pid := 0; priority := 0 |}.
Definition set_state (st : ProcState) (e : ProcExcl) : ProcExcl :=
  {| state := st; exit_status := exit_status e; channel := channel e; pid := pid e; priority := priority e |}.
Definition set_channel (c : Z) (e : ProcExcl) : ProcExcl :=
  {| state := state e; exit_status := exit_status e; channel := c; pid := pid e; priority := priority e |}.
Definition set_exit (st : Z) (e : ProcExcl) : ProcExcl :=
  {| state := ZOMBIE; exit_status := st; channel := channel e; pid := pid e; priority := priority e |}.
Definition set_alloc (p : Z) (e : ProcExcl) : ProcExcl :=
  {| state := ALLOCATED; exit_status := exit_status e; channel := channel e; pid := p; priority := 255 |}.

(** ** ProcessFIFO and TaskManager: [VecDeque]s *)
Record Fifo (A : Type) := { current : option A; ready_queue : list A }.
Arguments current {A} f.
Arguments ready_queue {A} f.
Arguments Build_Fifo {A} current ready_queue.
Definition fifo_new {A} : Fifo A := {| current := None; ready_queue := [] |}.
Definition fifo_add {A} (x : A) (q : Fifo A) : Fifo A :=
  {| current := current q; ready_queue := ready_queue q ++ [x] |}.
Definition fifo_fetch {A} (q : Fifo A) : option A * Fifo A :=
  match ready_queue q with
  | [] => (None, q)
  | x :: l => (Some x, {| current := current q; ready_queue := l |})
  end.
(** [TaskManager] has the same queue, of tasks, and no [current]. *)
Definition task_manager_new {A} : list A := [].
Definition task_add {A} (t : A) (q : list A) : list A := q ++ [t].
Definition task_fetch {A} (q : list A) : option A * list A :=
  match q with [] => (None, q) | t :: q => (Some t, q) end.

(** ** The process table *)
Record sched := {
  excl : list ProcExcl;
  killed : list bool;
  parents : list (option nat);
  fifo : Fifo nat;
}.
Definition sched_boot : sched :=
  {| excl := replicate NPROC ProcExcl_new; killed := replicate NPROC false;
     parents := replicate NPROC None; fifo := fifo_new |}.

Definition set_excl (f : list ProcExcl → list ProcExcl) : M sched unit := modify (λ s,
  {| excl := f (excl s); killed := killed s; parents := parents s; fifo := fifo s |}).
Definition set_killed (i : nat) (b : bool) : M sched unit := modify (λ s,
  {| excl := excl s; killed := <[i := b]> (killed s); parents := parents s; fifo := fifo s |}).
Definition set_parents (f : list (option nat) → list (option nat)) : M sched unit := modify (λ s,
  {| excl := excl s; killed := killed s; parents := f (parents s); fifo := fifo s |}).
Definition set_fifo (q : Fifo nat) : M sched unit := modify (λ s,
  {| excl := excl s; killed := killed s; parents := parents s; fifo := q |}).

Definition get_excl (i : nat) : M sched ProcExcl := s ← get; unwrap (excl s !! i) "index out of bounds".
Definition upd_excl (i : nat) (f : ProcExcl → ProcExcl) : M sched unit := set_excl (alter f i).
Definition fifo_push (i : nat) : M sched unit := s ← get; set_fifo (fifo_add i (fifo s)).

Definition wakeup (channel' : Z) : M sched unit :=
  for_range NPROC 0 (λ i,
    guard ← get_excl (Z.to_nat i);
    if bool_decide (state guard = SLEEPING) && (channel guard =? channel') then
      upd_excl (Z.to_nat i) (set_state RUNNABLE);;
      fifo_push (Z.to_nat i)
    else mret tt).

Definition kill (p : Z) : M sched (unit + unit) :=
  o ← for_ret (seq 0 NPROC) (λ i,
    guard ← get_excl i;
    if pid guard =? p then
      set_killed i true;;
      (if decide (state guard = SLEEPING) then upd_excl i (set_state RUNNABLE) else mret tt);;
      mret (Some tt)
    else mret None);
  mret (match o with Some _ => inl tt | None => inr tt end).

Definition set_parent (child_i parent_i : nat) : M sched unit :=
  s ← get;
  ret ← unwrap (parents s !! child_i) "index out of bounds";
  set_parents (<[child_i := Some parent_i]>);;
  assertM (bool_decide (ret = None)) "assertion failed: ret.is_none()".

(** The runnable process of the highest priority, the first of them in the table. *)
Fixpoint best_runnable (l : list ProcExcl) (i : nat) (best : option (nat * Z)) : option (nat * Z) :=
  match l with
  | [] => best
  | e :: l =>
      best_runnable l (S i)
        (if bool_decide (state e = RUNNABLE) then
           match best with
           | None => Some (i, priority e)
           | Some (j, best_prio) =>
               if (best_prio <? priority e) || ((priority e =? best_prio) && (i <? j)%nat)
               then Some (i, priority e) else best
           end
         else best)
  end.
Definition alloc_runnable : M sched (option nat) :=
  s ← get;
  match best_runnable (excl s) 0 None with
  | None => mret None
  | Some (idx, _) =>
      guard ← get_excl idx;
      if bool_decide (state guard = RUNNABLE) then
        upd_excl idx (set_state ALLOCATED);; mret (Some idx)
      else mret None
  end.

(** ** Turns *)
(** One round of the loop of [scheduler], up to the [switch] into the process. *)
Definition schedule : M sched (option nat) :=
  s ← get;
  let '(o, q) := fifo_fetch (fifo s) in
  set_fifo q;;
  match o with
  | Some p => upd_excl p (set_state RUNNING);; mret (Some p)
  | None => mret None
  end.

Definition yielding (self : nat) : M sched unit :=
  guard ← get_excl self;
  assertM (bool_decide (state guard = RUNNING)) "assertion failed: guard.state == RUNNING";;
  upd_excl self (set_state RUNNABLE);;
  fifo_push self.

(** [sleep] up to [sched], and from there on. *)
Definition sleep (self : nat) (chan : Z) : M sched unit :=
  upd_excl self (set_channel chan);;
  upd_excl self (set_state SLEEPING).
Definition sleep_resume (self : nat) : M sched unit := upd_excl self (set_channel 0).

(** [try_yield_proc], with the process of the hart. *)
Definition try_yield_proc (process : option nat) : M sched unit :=
  match process with
  | None => mret tt
  | Some p =>
      guard ← get_excl p;
      if bool_decide (state guard = RUNNING) then yielding p else mret tt
  end.

(** ** SleepLock *)
Record sleeping := { sch : sched; locked : bool }.
Definition on_sch {A} (m : M sched A) : M sleeping A := λ s,
  match m (sch s) with
  | Done (a, x) => Done (a, {| sch := x; locked := locked s |})
  | Panic why => Panic why
  end.
Definition set_locked (b : bool) : M sleeping unit := modify (λ s, {| sch := sch s; locked := b |}).
(** One turn of [SleepLock::lock] by process [self]: it either takes the lock
    or goes to sleep on it, to try again when it runs next. *)
Definition sl_lock (self : nat) (chan : Z) : M sleeping bool :=
  s ← get;
  if locked s then on_sch (sleep self chan);; mret false
  else set_locked true;; mret true.
Definition sl_unlock (chan : Z) : M sleeping unit :=
  set_locked false;;
  on_sch (wakeup chan).

(** * The ready queue holds exactly the runnable processes *)
Definition st (s : sched) (i : nat) : option ProcState := state <$> excl s !! i.
Definition queue (s : sched) : list nat := ready_queue (fifo s).

(** Process [i] sleeps on [c]. *)
Definition asleep_on (c : Z) (e : ProcExcl) : bool := bool_decide (state e = SLEEPING) && (channel e =? c).
Definition woken (c : Z) (e : ProcExcl) : ProcExcl := if asleep_on c e then set_state RUNNABLE e else e.
Definition sleepers (c : Z) (l : list ProcExcl) (from : nat) : list nat :=
  (imap (λ k e, (from + k, e)%nat) l) ≫= λ '(k, e), if asleep_on c e then [k] else [].

Lemma sleepers_cons c e l i :
  sleepers c (e :: l) i = (if asleep_on c e then [i] else []) ++ sleepers c l (S i).
Proof.
  unfold sleepers. cbn [imap]. rewrite bind_cons. rewrite Nat.add_0_r. f_equal. f_equal.
  apply imap_ext. intros k x _. cbn. f_equal. lia.
Qed.

Lemma sleepers_spec c l from i :
  i ∈ sleepers c l from ↔ ∃ k e, i = (from + k)%nat ∧ l !! k = Some e ∧ asleep_on c e = true.
Proof.
  revert from. induction l as [|e l IH]; intros from.
  { cbn. split; [by intros ?%elem_of_nil|by intros (k & ? & _ & ? & _)]. }
  rewrite sleepers_cons, elem_of_app, IH. split.
  - intros [Hi|(k & x & -> & ? & ?)].
    + destruct (asleep_on c e) eqn:E; [|by apply elem_of_nil in Hi]. apply list_elem_of_singleton in Hi as ->.
      exists 0%nat, e. split; [lia|done].
    + exists (S k), x. split; [lia|done].
  - intros ([|k] & x & -> & Hk & Hx).
    + injection Hk as ->. left. rewrite Hx. apply list_elem_of_singleton. lia.
    + right. exists k, x. split; [lia|done].
Qed.

Lemma sleepers_nodup c l from : NoDup (sleepers c l from).
Proof.
  revert from. induction l as [|e l IH]; intros from; [apply NoDup_nil_2|]. rewrite sleepers_cons.
  apply NoDup_app. split_and!; [destruct (asleep_on c e); [apply NoDup_singleton|apply NoDup_nil_2]| |apply IH].
  intros x Hx (k & y & -> & _)%sleepers_spec. destruct (asleep_on c e); [|by apply elem_of_nil in Hx].
  apply list_elem_of_singleton in Hx. lia.
Qed.

(** What [wakeup] does, in one go. *)
Lemma wakeup_from c n s pre l :
  excl s = pre ++ l → length l = n →
  for_range n (Z.of_nat (length pre)) (λ i,
    guard ← get_excl (Z.to_nat i);
    if bool_decide (state guard = SLEEPING) && (channel guard =? c) then
      upd_excl (Z.to_nat i) (set_state RUNNABLE);;
      fifo_push (Z.to_nat i)
    else mret tt) s =
  Done (tt, {| excl := pre ++ (woken c <$> l); killed := killed s; parents := parents s;
               fifo := {| current := current (fifo s);
                          ready_queue := queue s ++ sleepers c l (length pre) |} |}).
Proof.
  revert s pre l. induction n as [|n IH]; intros s pre l He Hl.
  { destruct l; [|done]. cbn. unfold sleepers. cbn. rewrite app_nil_r in *. rewrite <- He, app_nil_r.
    by destruct s as [? ? ? []]. }
  destruct l as [|e l]; [done|]. cbn [for_range]. rewrite Nat2Z.id.
  set (s1 := {| excl := (pre ++ [woken c e]) ++ l; killed := killed s; parents := parents s;
                fifo := {| current := current (fifo s);
                           ready_queue := queue s ++ (if asleep_on c e then [length pre] else []) |} |}).
  rewrite (bind_run _ _ _ tt s1).
  - replace (Z.of_nat (length pre) + 1) with (Z.of_nat (length (pre ++ [woken c e]))) by (rewrite length_app; cbn; lia).
    rewrite (IH s1 (pre ++ [woken c e]) l); [|done|by injection Hl]. unfold s1, queue. cbn [fifo ready_queue current killed parents excl].
    rewrite <- !app_assoc, sleepers_cons, length_app. cbn [length app fmap list_fmap].
    by replace (length pre + 1)%nat with (S (length pre)) by lia.
  - rewrite (bind_run _ _ _ e s).
    2: { unfold get_excl. rewrite (bind_run _ _ _ s s) by done. rewrite He. by rewrite list_lookup_middle. }
    fold (asleep_on c e). unfold s1, woken, queue. destruct (asleep_on c e).
    + unfold upd_excl, set_excl, fifo_push, set_fifo, fifo_add. run_simpl.
      cbn [excl killed parents fifo current ready_queue]. rewrite He.
      replace (length pre) with (length pre + 0)%nat at 1 by lia. rewrite alter_app_r, <- app_assoc. done.
    + unfold mret, M_ret. rewrite <- app_assoc, app_nil_r. cbn [app]. rewrite <- He. by destruct s as [? ? ? []].
Qed.

Lemma wakeup_run c s : length (excl s) = NPROC →
  wakeup c s = Done (tt, {| excl := woken c <$> excl s; killed := killed s; parents := parents s;
    fifo := {| current := current (fifo s); ready_queue := queue s ++ sleepers c (excl s) 0 |} |}).
Proof. intros Hl. by apply (wakeup_from c NPROC s [] (excl s)). Qed.

Record queue_ok (s : sched) : Prop := {
  qk_len : length (excl s) = NPROC;
  qk_nodup : NoDup (queue s);
  qk_runnable i : i ∈ queue s ↔ st s i = Some RUNNABLE;
}.

Lemma sched_boot_ok : queue_ok sched_boot.
Proof.
  split; [done|apply NoDup_nil_2|]. intros i. split; [by intros ?%elem_of_nil|].
  unfold st, sched_boot. cbn [excl]. intros (e & Ee & Er)%fmap_Some. apply lookup_replicate in Ee as [-> _]. done.
Qed.

(** The turns of the processes and of the schedulers.  The label is the
    process that a [schedule] picks. *)
Inductive sstep : option nat → sched → sched → Prop :=
| ss_wakeup c s s' : wakeup c s = Done (tt, s') → sstep None s s'
| ss_yield i s s' : yielding i s = Done (tt, s') → sstep None s s'
| ss_sleep i c s s' : st s i = Some RUNNING → sleep i c s = Done (tt, s') → sstep None s s'
| ss_resume i s s' : st s i = Some RUNNING → sleep_resume i s = Done (tt, s') → sstep None s s'
| ss_schedule p s s' : schedule s = Done (p, s') → sstep p s s'
| ss_exit i x s s' : st s i = Some RUNNING → upd_excl i (set_exit x) s = Done (tt, s') → sstep None s s'
| ss_reap i s s' : st s i = Some ZOMBIE → upd_excl i excl_cleanup s = Done (tt, s') → sstep None s s'
| ss_alloc i p s s' : st s i = Some UNUSED → upd_excl i (set_alloc p) s = Done (tt, s') → sstep None s s'
| ss_start i s s' :                    (* the end of [fork] and of [user_init] *)
    st s i = Some ALLOCATED →
    (upd_excl i (set_state RUNNABLE);; fifo_push i) s = Done (tt, s') → sstep None s s'.

(** What a turn may do to a process and to the queue. *)
Lemma st_alter s s' i f : excl s' = alter f i (excl s) →
  ∀ j, st s' j = if decide (j = i) then state <$> (f <$> excl s !! i) else st s j.
Proof.
  intros E j. unfold st. rewrite E. destruct (decide (j = i)) as [->|].
  - by rewrite list_lookup_alter_eq.
  - by rewrite list_lookup_alter_ne.
Qed.

(** The state of [i] becomes [x], and the queue stays. *)
Lemma set_keeps s s' i f x :
  queue_ok s → excl s' = alter f i (excl s) → (∀ e, state (f e) = x) → queue s' = queue s →
  st s i ≠ Some RUNNABLE → x ≠ RUNNABLE → queue_ok s'.
Proof.
  intros [Hl Hn Hr] He Hf Hq Hi Hx. split; [by rewrite He, length_alter|by rewrite Hq|].
  intros j. rewrite Hq, Hr, (st_alter _ _ _ _ He). destruct (decide (j = i)) as [->|]; [|done].
  unfold st in *. destruct (excl s !! i) as [e|]; cbn in *; [rewrite Hf; naive_solver|naive_solver].
Qed.

(** [i] becomes runnable and joins the queue. *)
Lemma push_keeps s s' i :
  queue_ok s → excl s' = alter (set_state RUNNABLE) i (excl s) → queue s' = queue s ++ [i] →
  is_Some (st s i) → st s i ≠ Some RUNNABLE → queue_ok s'.
Proof.
  intros [Hl Hn Hr] He Hq [x Hx] Hi. split; [by rewrite He, length_alter| |].
  - rewrite Hq. apply NoDup_app. split_and!; [done| |apply NoDup_singleton].
    intros j Hj ->%list_elem_of_singleton. by apply Hr in Hj.
  - intros j. rewrite Hq, elem_of_app, list_elem_of_singleton, Hr, (st_alter _ _ _ _ He).
    destruct (decide (j = i)) as [->|]; [|naive_solver].
    unfold st in *. destruct (excl s !! i) as [e|]; cbn in *; [naive_solver|done].
Qed.

Lemma get_excl_done i s e s' : get_excl i s = Done (e, s') → excl s !! i = Some e ∧ s' = s.
Proof.
  unfold get_excl. rewrite (bind_run _ _ _ s s) by done. destruct (excl s !! i); [|done]. by intros [= -> ->].
Qed.

Lemma yielding_done i s s' : yielding i s = Done (tt, s') →
  st s i = Some RUNNING ∧ excl s' = alter (set_state RUNNABLE) i (excl s) ∧ queue s' = queue s ++ [i].
Proof.
  unfold yielding. intros E. mbind_inv E as e s1 E1 E. apply get_excl_done in E1 as [He ->].
  destruct (decide (state e = RUNNING)) as [Hr|Hr]; [rewrite bool_decide_true in E by done|by rewrite bool_decide_false in E].
  injection E as <-. unfold st, queue. cbn. rewrite He. cbn. by rewrite Hr.
Qed.

Lemma schedule_run s :
  match queue s with
  | [] => schedule s = Done (None, s)
  | p :: q => ∃ s', schedule s = Done (Some p, s') ∧ excl s' = alter (set_state RUNNING) p (excl s) ∧ queue s' = q
  end.
Proof.
  unfold schedule, fifo_fetch, queue. rewrite (bind_run _ _ _ s s) by done.
  destruct (ready_queue (fifo s)) eqn:E; [by destruct s|]. eexists. split; [reflexivity|done].
Qed.

Lemma wakeup_st c s s' : length (excl s) = NPROC → wakeup c s = Done (tt, s') →
  queue s' = queue s ++ sleepers c (excl s) 0 ∧ excl s' = woken c <$> excl s.
Proof. intros Hl. rewrite wakeup_run by done. intros [= <-]. done. Qed.

Lemma woken_runnable c e : state (woken c e) = RUNNABLE ↔ state e = RUNNABLE ∨ asleep_on c e = true.
Proof.
  unfold woken, asleep_on. destruct (decide (state e = SLEEPING)) as [E|E].
  - rewrite bool_decide_true by done. cbn. destruct (channel e =? c); [naive_solver|]. split; [by left|]. by intros [?|?].
  - rewrite bool_decide_false by done. cbn. naive_solver.
Qed.

Lemma sstep_ok l s s' : queue_ok s → sstep l s s' → queue_ok s'.
Proof.
  intros Hq Hs. destruct Hs as [c s s' E|i s s' E|i c s s' Hi E|i s s' Hi E|p s s' E|i x s s' Hi E|i s s' Hi E|
    i p s s' Hi E|i s s' Hi E].
  - pose proof Hq as [Hl Hn Hr]. destruct (wakeup_st _ _ _ Hl E) as [Eq Ee]. split.
    + by rewrite Ee, length_fmap.
    + rewrite Eq. apply NoDup_app. split_and!; [done| |apply sleepers_nodup].
      intros i Hi (k & e & -> & Hk & Ha)%sleepers_spec. cbn in Hi. apply Hr in Hi. unfold st in Hi. rewrite Hk in Hi.
      cbn in Hi. injection Hi as Hi. unfold asleep_on in Ha. rewrite Hi in Ha. done.
    + intros i. rewrite Eq, elem_of_app, Hr, sleepers_spec. unfold st. rewrite Ee, list_lookup_fmap.
      destruct (excl s !! i) as [e|] eqn:Ei; cbn.
      * rewrite (inj_iff Some), (inj_iff Some), woken_runnable. split; [intros [?|(k & x & -> & Hk & Ha)]; [by left|]|].
        -- cbn in Ei. rewrite Ei in Hk. injection Hk as ->. by right.
        -- intros [?|?]; [by left|right]. by exists i, e.
      * split; [intros [?|(k & x & -> & Hk & Ha)]; [done|]|done]. cbn in Ei. by rewrite Ei in Hk.
  - apply yielding_done in E as (Hi & Ee & Eq). apply (push_keeps s s' i); try done; rewrite Hi; done.
  - injection E as <-. apply (set_keeps s _ i (set_state SLEEPING ∘ set_channel c) SLEEPING); try done; cbn.
    + by rewrite <- list_alter_twice.
    + by rewrite Hi.
  - assert (excl s' = alter (set_channel 0) i (excl s) ∧ queue s' = queue s) as [Ee Eq] by (by injection E as <-).
    pose proof Hq as [Hl Hn Hr]. split; [by rewrite Ee, length_alter|by rewrite Eq|].
    intros j. rewrite Eq, Hr, (st_alter _ _ _ _ Ee). destruct (decide (j = i)) as [->|]; [|done].
    unfold st. by destruct (excl s !! i).
  - pose proof (schedule_run s) as Hsch. destruct (queue s) as [|q l] eqn:Eq.
    + rewrite Hsch in E. injection E as _ <-. done.
    + destruct Hsch as (s1 & E1 & Ee & Eq1). rewrite E1 in E. injection E as _ <-. pose proof Hq as [Hl Hn Hr].
      rewrite Eq in *. apply NoDup_cons in Hn as [Hnin Hn]. split; [by rewrite Ee, length_alter|by rewrite Eq1|].
      intros j. rewrite Eq1, (st_alter _ _ _ _ Ee). destruct (decide (j = q)) as [->|Hne].
      * split; [done|]. unfold st in *. destruct (excl s !! q); by intros [=].
      * rewrite <- Hr, elem_of_cons. naive_solver.
  - injection E as <-. apply (set_keeps s _ i (set_exit x) ZOMBIE); try done; by rewrite Hi.
  - injection E as <-. apply (set_keeps s _ i excl_cleanup UNUSED); try done; by rewrite Hi.
  - injection E as <-. apply (set_keeps s _ i (set_alloc p) ALLOCATED); try done; by rewrite Hi.
  - injection E as <-. apply (push_keeps s _ i); try done; by rewrite Hi.
Qed.

Inductive reach : sched → Prop :=
| reach_boot : reach sched_boot
| reach_step l s s' : reach s → sstep l s s' → reach s'.


(** The first process: slot 0, made and started. *)
Definition started : sched :=
  match (upd_excl 0 (set_alloc 0);; upd_excl 0 (set_state RUNNABLE);; fifo_push 0) sched_boot with
  | Done (_, s) => s | Panic _ => sched_boot end.
Lemma started_reach : reach started.
Proof.
  set (s1 := match upd_excl 0 (set_alloc 0) sched_boot with Done (_, s) => s | Panic _ => sched_boot end).
  eapply (reach_step None s1); [eapply (reach_step None sched_boot); [apply reach_boot|]|].
  - by apply (ss_alloc 0 0).
  - by apply (ss_start 0).
Qed.
Lemma started_queue : queue started = [0%nat].
Proof. vm_compute. reflexivity. Qed.


(** * Bounded waiting *)
Inductive run (step : option nat → sched → sched → Prop) : list (option nat) → sched → sched → Prop :=
| run_nil s : run step [] s s
| run_cons l ls s s1 s' : step l s s1 → run step ls s1 s' → run step (l :: ls) s s'.

Lemma alter_queue f i s s' : upd_excl i f s = Done (tt, s') → queue s' = queue s ∧ excl s' = alter f i (excl s).
Proof. by intros [= <-]. Qed.

(** A turn takes its label from the front of the queue, and adds at its end. *)
Lemma sstep_queue l s s' : length (excl s) = NPROC → sstep l s s' →
  length (excl s') = NPROC ∧
  ∃ added, queue s ++ added = match l with Some p => [p] | None => [] end ++ queue s'.
Proof.
  intros Hl Hs. destruct Hs as [c s s' E|i s s' E|i c s s' Hi E|i s s' Hi E|p s s' E|i x s s' Hi E|i s s' Hi E|
    i p s s' Hi E|i s s' Hi E].
  - destruct (wakeup_st _ _ _ Hl E) as [Eq Ee]. rewrite Ee, length_fmap, Eq. split; [done|by eexists].
  - apply yielding_done in E as (_ & Ee & Eq). rewrite Ee, length_alter, Eq. split; [done|by eexists].
  - injection E as <-. cbn. rewrite !length_alter. split; [done|]. exists []. by rewrite app_nil_r.
  - apply alter_queue in E as [Eq Ee]. rewrite Ee, length_alter, Eq. split; [done|]. exists []. by rewrite app_nil_r.
  - pose proof (schedule_run s) as Hsch. destruct (queue s) as [|q l] eqn:Eq.
    + rewrite Hsch in E. injection E as <- <-. split; [done|]. exists []. by rewrite Eq.
    + destruct Hsch as (s1 & E1 & Ee & Eq1). rewrite E1 in E. injection E as <- <-.
      rewrite Ee, length_alter, Eq1. split; [done|]. exists []. by rewrite app_nil_r.
  - apply alter_queue in E as [Eq Ee]. rewrite Ee, length_alter, Eq. split; [done|]. exists []. by rewrite app_nil_r.
  - apply alter_queue in E as [Eq Ee]. rewrite Ee, length_alter, Eq. split; [done|]. exists []. by rewrite app_nil_r.
  - apply alter_queue in E as [Eq Ee]. rewrite Ee, length_alter, Eq. split; [done|]. exists []. by rewrite app_nil_r.
  - injection E as <-. cbn. rewrite length_alter. split; [done|by eexists].
Qed.

Lemma run_queue ls s s' : length (excl s) = NPROC → run sstep ls s s' →
  length (excl s') = NPROC ∧ ∃ added, queue s ++ added = omap id ls ++ queue s'.
Proof.
  intros Hl Hr. induction Hr as [s|l ls s s1 s' Hs _ IH].
  { split; [done|]. exists []. by rewrite app_nil_r. }
  destruct (sstep_queue _ _ _ Hl Hs) as [Hl1 [a1 E1]]. destruct (IH Hl1) as [Hl' [a2 E2]]. split; [done|].
  exists (a1 ++ a2). rewrite app_assoc, E1. destruct l as [p|]; cbn; [by rewrite E2|done].
Qed.

(** C15. Bounded waiting.  In any run of turns, the process at position [k] of
    the ready queue is the [k]-th (from 0) that the schedulers pick; until then
    it only moves forward in the queue, and the queue is not empty, so that the
    next [schedule] of any hart picks a process. *)
Theorem bounded_waiting ls s s' k p :
  length (excl s) = NPROC → run sstep ls s s' → queue s !! k = Some p →
  if decide (k < length (omap id ls))%nat then omap id ls !! k = Some p
  else queue s' !! (k - length (omap id ls))%nat = Some p ∧
    ∃ q s'', schedule s' = Done (Some q, s'').
Proof.
  intros Hl Hr Hk. destruct (run_queue _ _ _ Hl Hr) as [_ [added E]].
  assert ((omap id ls ++ queue s') !! k = Some p) as Hk' by (rewrite <- E; by apply lookup_app_l_Some).
  destruct (decide _) as [Hlt|Hge].
  - by rewrite lookup_app_l in Hk'.
  - rewrite lookup_app_r in Hk' by lia. split; [done|].
    pose proof (schedule_run s') as Hsch. destruct (queue s') as [|q l]; [done|].
    destruct Hsch as (s'' & E1 & _). by exists q, s''.
Qed.

(** * [kill] loses the process it wakes *)
Inductive kstep : option nat → sched → sched → Prop :=
| ks_turn l s s' : sstep l s s' → kstep l s s'
| ks_kill p r s s' : kill p s = Done (r, s') → kstep None s s'.

(** The search of [kill]. *)
Lemma kill_from p s n from :
  (from + n)%nat = NPROC → length (excl s) = NPROC →
  ∃ o s', for_ret (seq from n) (λ i,
    guard ← get_excl i;
    if pid guard =? p then
      set_killed i true;;
      (if decide (state guard = SLEEPING) then upd_excl i (set_state RUNNABLE) else mret tt);;
      mret (Some tt)
    else mret None) s = Done (o, s') ∧ queue s' = queue s ∧
    ((∃ i e, (from ≤ i)%nat ∧ excl s !! i = Some e ∧ pid e = p ∧
        (∀ j x, (from ≤ j < i)%nat → excl s !! j = Some x → pid x ≠ p) ∧ o = Some tt ∧
        excl s' = if decide (state e = SLEEPING) then alter (set_state RUNNABLE) i (excl s) else excl s) ∨
     ((∀ j x, (from ≤ j)%nat → excl s !! j = Some x → pid x ≠ p) ∧ o = None ∧ s' = s)).
Proof.
  revert from. induction n as [|n IH]; intros from Hn Hl.
  { exists None, s. split; [done|]. split; [done|]. right. split; [|done].
    intros j x Hj Hx. apply lookup_lt_Some in Hx. lia. }
  destruct (lookup_lt_is_Some_2 (excl s) from) as [e He]; [lia|].
  assert (get_excl from s = Done (e, s)) as Eg.
  { unfold get_excl. rewrite (bind_run _ _ _ s s) by done. by rewrite He. }
  cbn [seq for_ret]. destruct (Z.eqb_spec (pid e) p) as [Hp|Hp].
  - set (s' := {| excl := if decide (state e = SLEEPING) then alter (set_state RUNNABLE) from (excl s) else excl s;
                  killed := <[from := true]> (killed s); parents := parents s; fifo := fifo s |}).
    exists (Some tt), s'. split; [|split; [done|]].
    + rewrite (bind_run _ _ _ (Some tt) s'); [done|]. rewrite (bind_run _ _ _ _ _ Eg).
      rewrite (proj2 (Z.eqb_eq _ _)) by done. unfold s'. by destruct (decide (state e = SLEEPING)).
    + left. exists from, e. split_and!; try done. intros j x Hj. lia.
  - destruct (IH (S from)) as (o & s' & E & Hq & Hcase); [lia|done|]. exists o, s'. split; [|split; [done|]].
    + rewrite (bind_run _ _ _ None s); [exact E|]. rewrite (bind_run _ _ _ _ _ Eg).
      by rewrite (proj2 (Z.eqb_neq _ _)) by done.
    + assert (∀ j x, (from ≤ j)%nat → excl s !! j = Some x → (S from ≤ j → pid x ≠ p)%nat → pid x ≠ p) as Hstep.
      { intros j x Hj Hx Hn'. destruct (decide (j = from)) as [->|]; [congruence|]. apply Hn'. lia. }
      destruct Hcase as [(i & e' & Hi & He' & Hp' & Hb & Ho & Hs')|(Hb & Ho & Hs')]; [left|right].
      * exists i, e'. split_and!; try done; [lia|]. intros j x Hj Hx. apply (Hstep j x); [lia|done|].
        intros ?. apply (Hb j); [lia|done].
      * split_and!; try done. intros j x Hj Hx. apply (Hstep j x); [lia|done|]. intros ?. by apply (Hb j).
Qed.

Definition stranded (i : nat) (s : sched) : Prop :=
  length (excl s) = NPROC ∧ st s i = Some RUNNABLE ∧ (i ∉ queue s).

Lemma stranded_alter s s' i j f x :
  stranded i s → st s j = Some x → x ≠ RUNNABLE → excl s' = alter f j (excl s) →
  (queue s' = queue s ∨ queue s' = queue s ++ [j]) → stranded i s'.
Proof.
  intros (Hl & Hi & Hnin) Hj Hx Ee Hq. assert (i ≠ j) as Hne by congruence. split; [by rewrite Ee, length_alter|].
  rewrite (st_alter _ _ _ _ Ee), decide_False by done. split; [done|].
  destruct Hq as [->| ->]; [done|]. rewrite not_elem_of_app, list_elem_of_singleton. done.
Qed.

Lemma stranded_step i l s s' : stranded i s → kstep l s s' → stranded i s' ∧ l ≠ Some i.
Proof.
  intros Hst Hk. pose proof Hst as (Hl & Hi & Hnin). destruct Hk as [l s s' Hs|p r s s' E].
  - destruct Hs as [c s s' E|j s s' E|j c s s' Hj E|j s s' Hj E|p s s' E|j x s s' Hj E|j s s' Hj E|
      j p s s' Hj E|j s s' Hj E].
    + split; [|done]. destruct (wakeup_st _ _ _ Hl E) as [Eq Ee]. split; [by rewrite Ee, length_fmap|].
      unfold st in *. rewrite Ee, list_lookup_fmap. destruct (excl s !! i) as [e|] eqn:Ei; [|done].
      cbn in *. injection Hi as Hi. assert (asleep_on c e = false) as Ha by (unfold asleep_on; by rewrite Hi).
      split; [unfold woken; rewrite Ha; cbn; by rewrite Hi|]. rewrite Eq, not_elem_of_app. split; [done|].
      intros (k & x & -> & Hk & Hx)%sleepers_spec. cbn in Ei. rewrite Ei in Hk. injection Hk as <-. by rewrite Ha in Hx.
    + apply yielding_done in E as (Hj & Ee & Eq). split; [|done]. eapply (stranded_alter s s' i j); [done|exact Hj|done|exact Ee|tauto].
    + split; [|done]. injection E as <-.
      eapply (stranded_alter s _ i j (set_state SLEEPING ∘ set_channel c)); [done|exact Hj|done| |by left].
      cbn. by rewrite <- list_alter_twice.
    + split; [|done]. apply alter_queue in E as [Eq Ee]. eapply (stranded_alter s s' i j); [done|exact Hj|done|exact Ee|tauto].
    + pose proof (schedule_run s) as Hsch. destruct (queue s) as [|q l] eqn:Eq.
      * rewrite Hsch in E. injection E as <- <-. split; [|done]. by rewrite <- Eq in Hnin.
      * destruct Hsch as (s1 & E1 & Ee & Eq1). rewrite E1 in E. injection E as <- <-.
        apply not_elem_of_cons in Hnin as [Hne Hnin]. split; [|by intros [= ->]].
        split; [by rewrite Ee, length_alter|]. rewrite (st_alter _ _ _ _ Ee), decide_False, Eq1 by done. done.
    + split; [|done]. apply alter_queue in E as [Eq Ee]. eapply (stranded_alter s s' i j); [done|exact Hj|done|exact Ee|tauto].
    + split; [|done]. apply alter_queue in E as [Eq Ee]. eapply (stranded_alter s s' i j); [done|exact Hj|done|exact Ee|tauto].
    + split; [|done]. apply alter_queue in E as [Eq Ee]. eapply (stranded_alter s s' i j); [done|exact Hj|done|exact Ee|tauto].
    + split; [|done]. injection E as <-. eapply (stranded_alter s _ i j); [done|exact Hj|done|done|by right].
  - split; [|done]. destruct (kill_from p s NPROC 0 eq_refl Hl) as (o & s1 & E1 & Hq & Hcase).
    unfold kill in E. rewrite (bind_run _ _ _ _ _ E1) in E. injection E as _ <-.
    destruct Hcase as [(j & e & _ & He & _ & _ & _ & Ee)|(_ & _ & ->)]; [|done].
    destruct (decide (state e = SLEEPING)) as [Hsl|].
    + eapply (stranded_alter s _ i j); [done|unfold st; by rewrite He|by rewrite Hsl|exact Ee|by left].
    + unfold stranded, st. by rewrite Ee, Hq.
Qed.

(** A process killed in its sleep never runs again.  [kill] makes it
    runnable but, unlike [wakeup], does not put it into the ready queue; from
    then on no turn of any process, no further [kill] and no wake-up of its
    channel does, so no scheduler ever picks it and it never exits. *)
Theorem kill_strands s i e :
  queue_ok s → excl s !! i = Some e → state e = SLEEPING →
  (∀ j x, (j < i)%nat → excl s !! j = Some x → pid x ≠ pid e) →
  ∃ s', kill (pid e) s = Done (inl tt, s') ∧ st s' i = Some RUNNABLE ∧ (i ∉ queue s') ∧
    ∀ ls s'', run kstep ls s' s'' → st s'' i = Some RUNNABLE ∧ (Some i ∉ ls).
Proof.
  intros [Hl Hn Hr] He Hsl Hfirst.
  destruct (kill_from (pid e) s NPROC 0 eq_refl Hl) as (o & s' & E & Hq & Hcase).
  destruct Hcase as [(j & e' & _ & He' & Hp & Hb & -> & Ee)|(Hb & _)].
  2: { by destruct (Hb i e ltac:(lia) He). }
  assert (j = i) as ->.
  { destruct (Nat.lt_trichotomy j i) as [Hlt|[Heq|Hlt]]; [|done|].
    - by destruct (Hfirst j e' Hlt He').
    - by destruct (Hb i e ltac:(lia) He). }
  rewrite He in He'. injection He' as <-. rewrite decide_True in Ee by done.
  assert (stranded i s') as Hst.
  { split; [by rewrite Ee, length_alter|]. rewrite (st_alter _ _ _ _ Ee), decide_True, He, Hq by done. split; [done|].
    rewrite Hr. unfold st. rewrite He. cbn. by rewrite Hsl. }
  exists s'. unfold kill. rewrite (bind_run _ _ _ _ _ E). pose proof Hst as (_ & H1 & H2).
  do 3 (split; [done|]). intros ls s'' Hrun. clear -Hst Hrun.
  induction Hrun as [s|l ls s s1 s'' Hs _ IH].
  - destruct Hst as (_ & ? & _). split; [done|apply not_elem_of_nil].
  - destruct (stranded_step _ _ _ _ Hst Hs) as [Hst1 Hl]. destruct (IH Hst1) as [? ?].
    split; [done|]. apply not_elem_of_cons. split; [congruence|done].
Qed.

(** Slot 0 asleep, then killed. *)
Definition dozing : sched :=
  match (schedule;; sleep 0 77) started with Done (_, s) => s | Panic _ => started end.
Lemma dozing_ok : queue_ok dozing.
Proof.
  set (s1 := match schedule started with Done (_, s) => s | Panic _ => started end).
  assert (queue_ok started) as H0.
  { pose proof started_reach as Hr. induction Hr; [apply sched_boot_ok|by eapply sstep_ok]. }
  assert (queue_ok s1) as H1 by (eapply (sstep_ok (Some 0%nat) started); [done|by apply ss_schedule]).
  eapply (sstep_ok None s1); [done|]. by apply (ss_sleep 0 77).
Qed.
Definition dozer : ProcExcl := {| state := SLEEPING; exit_status := 0; channel := 77; pid := 0; priority := 255 |}.
Lemma dozing_slot : excl dozing !! 0%nat = Some dozer.
Proof. vm_compute. reflexivity. Qed.

Lemma kill_strands_witness :
  ∃ s', kill 0 dozing = Done (inl tt, s') ∧ st s' 0 = Some RUNNABLE ∧ (0%nat ∉ queue s').
Proof.
  destruct (kill_strands dozing 0 dozer dozing_ok dozing_slot eq_refl) as (s' & E & Hs & Hq & _); [lia|].
  exists s'. split; [exact E|]. by split.
Defined.

Lemma started_len : length (excl started) = NPROC.
Proof. vm_compute. reflexivity. Qed.
Lemma bounded_waiting_witness :
  ∃ s', run sstep [Some 0%nat] started s' ∧ omap id [Some 0%nat] !! 0%nat = Some 0%nat.
Proof.
  set (s1 := match schedule started with Done (_, s) => s | Panic _ => started end).
  assert (run sstep [Some 0%nat] started s1) as Hr.
  { eapply run_cons; [by apply ss_schedule|apply run_nil]. }
  exists s1. split; [exact Hr|].
  exact (bounded_waiting [Some 0%nat] started s1 0 0 started_len Hr (f_equal (.!! 0%nat) started_queue)).
Defined.

(** * Sleep locks *)
Section sleeplock.
Context (chan : Z).

Definition sleeps_on_lock (s : sched) (i : nat) : Prop := ∃ e, excl s !! i = Some e ∧ asleep_on chan e = true.

(** The turns of a system with the lock; the second component is the process
    whose guard exists.  Other code does not sleep on the lock's channel, the
    address of its [locked] flag. *)
Inductive slstep : sleeping * option nat → sleeping * option nat → Prop :=
| sl_try i b s s' h :
    st (sch s) i = Some RUNNING → sl_lock i chan s = Done (b, s') →
    slstep (s, h) (s', if (b : bool) then Some i else h)
| sl_release i s s' :
    st (sch s) i = Some RUNNING → sl_unlock chan s = Done (tt, s') → slstep (s, Some i) (s', None)
| sl_turn l s x h :
    kstep l (sch s) x → (∀ i, sleeps_on_lock x i → sleeps_on_lock (sch s) i) →
    slstep (s, h) ({| sch := x; locked := locked s |}, h).
Inductive sl_reach : sleeping * option nat → Prop :=
| slr_boot : sl_reach ({| sch := sched_boot; locked := false |}, None)
| slr_step c c' : sl_reach c → slstep c c' → sl_reach c'.

Record sl_ok (c : sleeping * option nat) : Prop := {
  so_len : length (excl (sch c.1)) = NPROC;
  so_holder : locked c.1 = bool_decide (is_Some c.2);
  so_free : locked c.1 = false → ∀ i, ¬ sleeps_on_lock (sch c.1) i;
}.

Lemma kstep_len l s s' : length (excl s) = NPROC → kstep l s s' → length (excl s') = NPROC.
Proof.
  intros Hl Hk. destruct Hk as [l s s' Hs|p r s s' E]; [by apply (sstep_queue l s s')|].
  destruct (kill_from p s NPROC 0 eq_refl Hl) as (o & s1 & E1 & _ & Hcase).
  unfold kill in E. rewrite (bind_run _ _ _ _ _ E1) in E. injection E as _ <-.
  destruct Hcase as [(j & e & _ & _ & _ & _ & _ & Ee)|(_ & _ & ->)]; [|done].
  rewrite Ee. destruct (decide _); [by rewrite length_alter|done].
Qed.

Lemma slstep_ok c c' : sl_ok c → slstep c c' → sl_ok c'.
Proof.
  intros [Hl Hh Hf] Hs. destruct Hs as [i b s s' h Hi E|i s s' Hi E|l s x h Hk Hx]; cbn [fst snd] in *.
  - unfold sl_lock in E. rewrite (bind_run _ _ _ s s) in E by done. destruct (locked s) eqn:El.
    + injection E as <- <-. split; cbn; [by rewrite !length_alter|by rewrite El|by rewrite El].
    + injection E as <- <-. split; cbn; done.
  - unfold sl_unlock in E. rewrite (bind_run _ _ _ tt {| sch := sch s; locked := false |}) in E by done.
    unfold on_sch in E. cbn [sch] in E. rewrite wakeup_run in E by done. injection E as <-.
    split; cbn [fst snd sch locked excl]; [by rewrite length_fmap|done|].
    intros _ j (e & Ee & Ha). cbn [fst sch excl] in Ee. rewrite list_lookup_fmap in Ee. apply fmap_Some in Ee as (e0 & _ & ->).
    unfold woken in Ha. destruct (asleep_on chan e0) eqn:E0; [done|]. by rewrite E0 in Ha.
  - split; cbn; [by eapply kstep_len|done|]. intros El j Hj. by eapply Hf, Hx.
Qed.

(** C16. Sleep locks lose no wake-up.  Whatever the turns, the [locked] flag is
    set exactly while some process has the guard, so at most one has it; and
    whenever the lock is free, no process sleeps on it: a process that found it
    taken is made runnable by the [unlock] that frees it. *)
Theorem sleeplock_no_lost_wakeup s h :
  sl_reach (s, h) →
  (locked s = true ↔ is_Some h) ∧ (locked s = false → ∀ i, ¬ sleeps_on_lock (sch s) i) ∧
  (∀ i, locked s = true → ∃ s', sl_lock i chan s = Done (false, s')) ∧
  (∀ i, locked s = false → ∃ s', sl_lock i chan s = Done (true, s')).
Proof.
  intros Hr. assert (sl_ok (s, h)) as [Hl Hh Hf].
  { remember (s, h) as c eqn:Ec. clear Ec. induction Hr as [|c c' _ IH Hs]; [|by eapply slstep_ok].
    split; [done|done|]. intros _ i (e & Ee & Ha). unfold sched_boot in Ee. cbn [sch excl fst] in Ee.
    apply lookup_replicate in Ee as [-> _]. done. }
  cbn in *. split; [|split; [done|split]].
  - rewrite Hh. by rewrite bool_decide_eq_true.
  - intros i El. unfold sl_lock. rewrite (bind_run _ _ _ s s) by done. rewrite El. by eexists.
  - intros i El. unfold sl_lock. rewrite (bind_run _ _ _ s s) by done. rewrite El. by eexists.
Qed.
End sleeplock.

(** The first process takes the lock. *)
Lemma sleeplock_no_lost_wakeup_witness :
  ∃ s, sl_reach 5 (s, Some 0%nat) ∧ locked s = true.
Proof.
  set (s1 := match upd_excl 0 (set_alloc 0) sched_boot with Done (_, s) => s | Panic _ => sched_boot end).
  set (s3 := match schedule started with Done (_, s) => s | Panic _ => sched_boot end).
  assert (∀ x y : sched, excl y = alter (set_alloc 0) 0%nat (excl x) ∨ excl y = alter (set_state RUNNABLE) 0%nat (excl x) ∨
    excl y = alter (set_state RUNNING) 0%nat (excl x) → ∀ i, sleeps_on_lock 5 y i → sleeps_on_lock 5 x i) as Hno.
  { intros x y Hxy i (e & Ee & Ha). exists e. split; [|done]. destruct Hxy as [E|[E|E]]; rewrite E in Ee;
      (destruct (decide (0%nat = i)) as [<-|]; [|by rewrite list_lookup_alter_ne in Ee]);
      rewrite list_lookup_alter_eq in Ee; by apply fmap_Some in Ee as (e0 & _ & ->). }
  assert (sl_reach 5 ({| sch := s3; locked := false |}, None)) as Hr.
  { eapply slr_step; [eapply slr_step; [eapply slr_step; [apply slr_boot|]|]|].
    - apply (sl_turn 5 None {| sch := sched_boot; locked := false |} s1 None).
      + apply ks_turn. by apply (ss_alloc 0 0).
      + apply Hno. by left.
    - apply (sl_turn 5 None {| sch := s1; locked := false |} started None).
      + apply ks_turn. by apply (ss_start 0).
      + apply Hno. right. by left.
    - apply (sl_turn 5 (Some 0%nat) {| sch := started; locked := false |} s3 None).
      + apply ks_turn. by apply ss_schedule.
      + apply Hno. right. by right. }
  exists {| sch := s3; locked := true |}.
  assert (sl_reach 5 ({| sch := s3; locked := true |}, Some 0%nat)) as Hr'.
  { eapply slr_step; [exact Hr|]. by apply (sl_try 5 0 true {| sch := s3; locked := false |} {| sch := s3; locked := true |} None). }
  split; [exact Hr'|]. destruct (sleeplock_no_lost_wakeup 5 _ _ Hr') as [Hiff _]. apply Hiff. by eexists.
Defined.
