(* ===== verification/Proc.v ===== *)
(** * Processes and tasks ([kernel/src/process/mod.rs], [proc/mod.rs],
    [task/task.rs], [trapframe.rs])

    The state of the process layer: the kernel address space with the heap
    pages behind it ([Kvm.kvm]), the table of [Sched], the [ProcData] and
    [ProcAlarm] of every slot, and the two id allocators.  A pointer to a page
    is its address, 0 the null pointer; a trap frame is read and written in the
    bytes of its page.

    Open files and the current directory are counted handles ([R]); taking and
    dropping one is an entry of [events], which the file layer replays.  Code
    that waits is cut into turns, as in [Sched].

    [alloc_proc] and [user_init] name a process's data [pd], [p] and [tf] in
    places where only [pdata] and [process] are declared; they are read as
    those. *)
From S2P Require Import Prelude Consts Addr Alloc Bytes PageTable Uvm Kvm Locks Sched.

(** ** TrapFrame: 36 registers of 8 bytes *)
Inductive tf_reg :=
| kernel_satp | kernel_sp | kernel_trap | epc | kernel_hartid
| tf_ra | tf_sp | tf_gp | tf_tp | tf_t0 | tf_t1 | tf_t2 | tf_s0 | tf_s1
| tf_a0 | tf_a1 | tf_a2 | tf_a3 | tf_a4 | tf_a5 | tf_a6 | tf_a7
| tf_s2 | tf_s3 | tf_s4 | tf_s5 | tf_s6 | tf_s7 | tf_s8 | tf_s9 | tf_s10 | tf_s11
| tf_t3 | tf_t4 | tf_t5 | tf_t6.
Definition tf_index (r : tf_reg) : nat :=
  match r with
  | kernel_satp => 0 | kernel_sp => 1 | kernel_trap => 2 | epc => 3 | kernel_hartid => 4
  | tf_ra => 5 | tf_sp => 6 | tf_gp => 7 | tf_tp => 8 | tf_t0 => 9 | tf_t1 => 10 | tf_t2 => 11 | tf_s0 => 12 | tf_s1 => 13
  | tf_a0 => 14 | tf_a1 => 15 | tf_a2 => 16 | tf_a3 => 17 | tf_a4 => 18 | tf_a5 => 19 | tf_a6 => 20 | tf_a7 => 21
  | tf_s2 => 22 | tf_s3 => 23 | tf_s4 => 24 | tf_s5 => 25 | tf_s6 => 26 | tf_s7 => 27 | tf_s8 => 28 | tf_s9 => 29
  | tf_s10 => 30 | tf_s11 => 31 | tf_t3 => 32 | tf_t4 => 33 | tf_t5 => 34 | tf_t6 => 35
  end%nat.
Definition TF_SIZE : nat := 288.

(** ** Where the stacks and trap frames of tasks lie *)
Definition kernel_stack_position_by_tid (tid : Z) : outcome (Z * Z) :=
  t ← add64 tid (4 + Z.of_nat NPROC);
  t ← mul64 t (KERNEL_STACK_SIZE + PAGE_SIZE);
  kstack_bottom ← sub_chk TRAMPOLINE t;
  kstack_top ← add64 kstack_bottom KERNEL_STACK_SIZE;
  mret (kstack_bottom, kstack_top).
Definition ustack_bottom_from_tid (ustack_base pos : Z) : outcome Z :=
  t ← mul64 pos (PAGE_SIZE + USER_STACK_SIZE); add64 ustack_base t.
Definition trapframe_from_tid (tid : Z) : outcome Z :=
  t ← mul64 tid (PAGE_SIZE + PAGE_SIZE);
  t ← add64 ((Z.of_nat NPROC + 1) * (PAGE_SIZE + PAGE_SIZE)) t;
  sub_chk TRAPFRAME t.
Definition kstack_by_pos (pos : Z) : outcome Z :=
  t ← mul64 (pos + 1) (KERNEL_STACK_SIZE + PAGE_SIZE); sub_chk TRAMPOLINE t.

(** ** Task *)
Inductive TaskStatus := Ready | Running | Blocked | TaskZombie.
Record TaskControlInner := {
  t_trapframe : Z; task_context : Context; task_status : TaskStatus; exit_code : option Z;
}.
Record Task := {
  t_process : nat; kstack_base : Z; t_ustack_base : Z; tid : Z; t_pos : Z; inner : TaskControlInner;
}.
Definition set_status (st : TaskStatus) (t : Task) : Task :=
  {| t_process := t_process t; kstack_base := kstack_base t; t_ustack_base := t_ustack_base t; tid := tid t;
     t_pos := t_pos t;
     inner := {| t_trapframe := t_trapframe (inner t); task_context := task_context (inner t);
                 task_status := st; exit_code := exit_code (inner t) |} |}.
Definition get_kstack_bottom (t : Task) : Z := kstack_base t.
Definition get_trap_frame (t : Task) : Z := t_trapframe (inner t).
Record TaskUserRes := { ur_tid : Z; ur_ustack_base : Z; ur_process : option nat }.
Definition TaskUserRes_new (process : option nat) (tid ustack_base : Z) : TaskUserRes :=
  {| ur_tid := tid; ur_ustack_base := ustack_base; ur_process := process |}.
Definition ustack_top (u : TaskUserRes) : outcome Z :=
  b ← ustack_bottom_from_tid (ur_ustack_base u) (ur_tid u); add64 b USER_STACK_SIZE.

(** ** ProcAlarm and ProcData *)
Record ProcAlarm := {
  interval : Z; past_tick : Z; handler_addr : Z; alarm_frame : Z; handler_called : bool;
}.
Definition ProcAlarm_new : ProcAlarm :=
  {| interval := 0; past_tick := 0; handler_addr := -1; alarm_frame := 0; handler_called := false |}.
Definition set_alarm_frame (x : Z) (a : ProcAlarm) : ProcAlarm :=
  {| interval := interval a; past_tick := past_tick a; handler_addr := handler_addr a; alarm_frame := x;
     handler_called := handler_called a |}.

Section data.
Context {R : Type}.
Record ProcData := {
  kstack : Z; ustack_base : Z; psize : Z; context : Context; pname : list Z;
  open_files : list (option R); trapframe : Z; up : Z; pagetable : option Z; pcwd : option R;
  tracemask : Z; tasks : list (option Task);
}.
Definition ProcData_new : ProcData := {|
  kstack := 0; ustack_base := 0; psize := 0; context := Context_new; pname := replicate 16 0;
  open_files := replicate NFILE None; trapframe := 0; up := 0; pagetable := None; pcwd := None;
  tracemask := 0; tasks := [] |}.
Definition set_kstack (x : Z) (d : ProcData) : ProcData :=
  {| kstack := x; ustack_base := ustack_base d; psize := psize d; context := context d;
     pname := pname d; open_files := open_files d; trapframe := trapframe d; up := up d;
     pagetable := pagetable d; pcwd := pcwd d; tracemask := tracemask d; tasks := tasks d |}.
Definition set_ustack_base (x : Z) (d : ProcData) : ProcData :=
  {| kstack := kstack d; ustack_base := x; psize := psize d; context := context d;
     pname := pname d; open_files := open_files d; trapframe := trapframe d; up := up d;
     pagetable := pagetable d; pcwd := pcwd d; tracemask := tracemask d; tasks := tasks d |}.
Definition set_psize (x : Z) (d : ProcData) : ProcData :=
  {| kstack := kstack d; ustack_base := ustack_base d; psize := x; context := context d;
     pname := pname d; open_files := open_files d; trapframe := trapframe d; up := up d;
     pagetable := pagetable d; pcwd := pcwd d; tracemask := tracemask d; tasks := tasks d |}.
Definition set_context (x : Context) (d : ProcData) : ProcData :=
  {| kstack := kstack d; ustack_base := ustack_base d; psize := psize d; context := x;
     pname := pname d; open_files := open_files d; trapframe := trapframe d; up := up d;
     pagetable := pagetable d; pcwd := pcwd d; tracemask := tracemask d; tasks := tasks d |}.
Definition set_pname (x : list Z) (d : ProcData) : ProcData :=
  {| kstack := kstack d; ustack_base := ustack_base d; psize := psize d; context := context d;
     pname := x; open_files := open_files d; trapframe := trapframe d; up := up d;
     pagetable := pagetable d; pcwd := pcwd d; tracemask := tracemask d; tasks := tasks d |}.
Definition set_open_files (x : list (option R)) (d : ProcData) : ProcData :=
  {| kstack := kstack d; ustack_base := ustack_base d; psize := psize d; context := context d;
     pname := pname d; open_files := x; trapframe := trapframe d; up := up d;
     pagetable := pagetable d; pcwd := pcwd d; tracemask := tracemask d; tasks := tasks d |}.
Definition set_trapframe (x : Z) (d : ProcData) : ProcData :=
  {| kstack := kstack d; ustack_base := ustack_base d; psize := psize d; context := context d;
     pname := pname d; open_files := open_files d; trapframe := x; up := up d;
     pagetable := pagetable d; pcwd := pcwd d; tracemask := tracemask d; tasks := tasks d |}.
Definition set_up (x : Z) (d : ProcData) : ProcData :=
  {| kstack := kstack d; ustack_base := ustack_base d; psize := psize d; context := context d;
     pname := pname d; open_files := open_files d; trapframe := trapframe d; up := x;
     pagetable := pagetable d; pcwd := pcwd d; tracemask := tracemask d; tasks := tasks d |}.
Definition set_pagetable (x : option Z) (d : ProcData) : ProcData :=
  {| kstack := kstack d; ustack_base := ustack_base d; psize := psize d; context := context d;
     pname := pname d; open_files := open_files d; trapframe := trapframe d; up := up d;
     pagetable := x; pcwd := pcwd d; tracemask := tracemask d; tasks := tasks d |}.
Definition set_pcwd (x : option R) (d : ProcData) : ProcData :=
  {| kstack := kstack d; ustack_base := ustack_base d; psize := psize d; context := context d;
     pname := pname d; open_files := open_files d; trapframe := trapframe d; up := up d;
     pagetable := pagetable d; pcwd := x; tracemask := tracemask d; tasks := tasks d |}.
Definition set_tracemask (x : Z) (d : ProcData) : ProcData :=
  {| kstack := kstack d; ustack_base := ustack_base d; psize := psize d; context := context d;
     pname := pname d; open_files := open_files d; trapframe := trapframe d; up := up d;
     pagetable := pagetable d; pcwd := pcwd d; tracemask := x; tasks := tasks d |}.
Definition set_tasks (x : list (option Task)) (d : ProcData) : ProcData :=
  {| kstack := kstack d; ustack_base := ustack_base d; psize := psize d; context := context d;
     pname := pname d; open_files := open_files d; trapframe := trapframe d; up := up d;
     pagetable := pagetable d; pcwd := pcwd d; tracemask := tracemask d; tasks := x |}.
Definition thread_count (d : ProcData) : nat := length (tasks d).

(** Finding free descriptors. *)
Fixpoint free_fds (l : list (option R)) (i : nat) : list nat :=
  match l with
  | [] => []
  | Some _ :: l => free_fds l (S i)
  | None :: l => i :: free_fds l (S i)
  end.
Definition alloc_fd (d : ProcData) : option nat := head (free_fds (open_files d) 0).
Definition alloc_fd2 (d : ProcData) : option (nat * nat) :=
  match take 2 (free_fds (open_files d) 0) with
  | [fd1; fd2] => Some (fd1, fd2)
  | _ => None
  end.
Definition check_user_addr (d : ProcData) (user_addr : Z) : unit + unit :=
  if psize d <? user_addr then inr tt else inl tt.
End data.
Arguments ProcData R : clear implicits.

(** What a process does to the file layer. *)
Inductive event (R : Type) := Cloned (r : R) | Released (r : R) | BeginOp | EndOp.
Arguments Cloned {R} r.
Arguments Released {R} r.
Arguments BeginOp {R}.
Arguments EndOp {R}.

(** [RawQuadPage::try_new_zeroed]: four pages in a row. *)
Class QuadHeap (H : Type) := { quad_alloc : M (pmem H) (option Z) }.

Definition INITCODE : list Z := [
  0x17; 0x05; 0x00; 0x00; 0x13; 0x05; 0x05; 0x02; 0x97; 0x05; 0x00; 0x00; 0x93; 0x85; 0x05; 0x02;
  0x9d; 0x48; 0x73; 0x00; 0x00; 0x00; 0x89; 0x48; 0x73; 0x00; 0x00; 0x00; 0xef; 0xf0; 0xbf; 0xff;
  0x2f; 0x69; 0x6e; 0x69; 0x74; 0x00; 0x00; 0x01; 0x20; 0x00; 0x00; 0x00; 0x00; 0x00; 0x00; 0x00;
  0x00; 0x00; 0x00].
(** [b"initcode\0"] *)
Definition init_name : list Z := [105; 110; 105; 116; 99; 111; 100; 101; 0].

Section proc.
Context {H R : Type} `{!PageHeap H} `{!QuadHeap H}.
(** The kernel's root table; the linker's trampoline; the addresses of
    [fork_ret] and [user_trap]; the [satp] register and the hart id; the address
    of each slot of the table, used as a channel. *)
Context (kroot trampoline fork_ret user_trap satp hartid : Z) (chan : nat → Z).

Record kstate := {
  kv : kvm H;
  sch : sched;
  pids : RecycleAllocator;
  tids : RecycleAllocator;
  procs : list (ProcData R);
  alarms : list ProcAlarm;
  events : list (event R);
}.

Definition on_kv {A} (m : M (kvm H) A) : M kstate A := λ s,
  match m (kv s) with
  | Done (a, x) => Done (a, {| kv := x; sch := sch s; pids := pids s; tids := tids s; procs := procs s;
      alarms := alarms s; events := events s |})
  | Panic why => Panic why
  end.
Definition on_mem {A} (m : M (pmem H) A) : M kstate A := on_kv (Kvm.on_mem m).
Definition on_sch {A} (m : M sched A) : M kstate A := λ s,
  match m (sch s) with
  | Done (a, x) => Done (a, {| kv := kv s; sch := x; pids := pids s; tids := tids s; procs := procs s;
      alarms := alarms s; events := events s |})
  | Panic why => Panic why
  end.
Definition on_pids {A} (m : M RecycleAllocator A) : M kstate A := λ s,
  match m (pids s) with
  | Done (a, x) => Done (a, {| kv := kv s; sch := sch s; pids := x; tids := tids s; procs := procs s;
      alarms := alarms s; events := events s |})
  | Panic why => Panic why
  end.
Definition on_tids {A} (m : M RecycleAllocator A) : M kstate A := λ s,
  match m (tids s) with
  | Done (a, x) => Done (a, {| kv := kv s; sch := sch s; pids := pids s; tids := x; procs := procs s;
      alarms := alarms s; events := events s |})
  | Panic why => Panic why
  end.
Definition upd_proc (i : nat) (f : ProcData R → ProcData R) : M kstate unit := modify (λ s,
  {| kv := kv s; sch := sch s; pids := pids s; tids := tids s; procs := alter f i (procs s);
     alarms := alarms s; events := events s |}).
Definition upd_alarm (i : nat) (f : ProcAlarm → ProcAlarm) : M kstate unit := modify (λ s,
  {| kv := kv s; sch := sch s; pids := pids s; tids := tids s; procs := procs s;
     alarms := alter f i (alarms s); events := events s |}).
Definition emit (l : list (event R)) : M kstate unit := modify (λ s,
  {| kv := kv s; sch := sch s; pids := pids s; tids := tids s; procs := procs s;
     alarms := alarms s; events := events s ++ l |}).
Definition get_proc (i : nat) : M kstate (ProcData R) := s ← get; unwrap (procs s !! i) "index out of bounds".
Definition get_alarm (i : nat) : M kstate ProcAlarm := s ← get; unwrap (alarms s !! i) "index out of bounds".
Definition get_pgt (i : nat) : M kstate Z :=
  d ← get_proc i; unwrap (pagetable d) "called `Option::unwrap()` on a `None` value".

(** ** Trap frames *)
Definition tf_get (tf : Z) (r : tf_reg) : M kstate Z :=
  page ← on_mem (read_frame tf); mret (read_le 8 page (8 * tf_index r)).
Definition tf_set (tf : Z) (r : tf_reg) (x : Z) : M kstate unit :=
  page ← on_mem (read_frame tf);
  on_mem (write_frame tf (write_at page (8 * tf_index r) (le_bytes 8 x))).
(** [ptr::copy_nonoverlapping] of one [TrapFrame]. *)
Definition tf_copy (src dst : Z) : M kstate unit :=
  a ← on_mem (read_frame src);
  b ← on_mem (read_frame dst);
  on_mem (write_frame dst (write_at b 0 (take TF_SIZE a))).
Definition admit_ecall (tf : Z) : M kstate unit :=
  e ← tf_get tf epc; e ← lift (add64 e 4); tf_set tf epc e.

(** ** Cleaning up *)
Definition free_if (p : Z) : M kstate unit :=
  if p =? 0 then mret tt else on_mem (from_raw_and_drop p).

Definition alarm_cleanup (i : nat) : M kstate unit :=
  a ← get_alarm i;
  upd_alarm i (λ _, ProcAlarm_new);;
  free_if (alarm_frame a).

Definition data_cleanup (i : nat) (pid : Z) : M kstate unit :=
  upd_proc i (λ d, set_pname (<[0%nat := 0]> (pname d)) d);;
  d ← get_proc i;
  upd_proc i (set_trapframe 0);;
  free_if (trapframe d);;
  upd_proc i (set_up 0);;
  free_if (up d);;
  upd_proc i (set_pagetable None);;
  match pagetable d with
  | Some pgt =>
      on_mem (dealloc_proc_pagetable pgt (psize d) pid);;
      on_mem (drop_pagetable pgt)
  | None => mret tt
  end;;
  upd_proc i (set_psize 0).

Definition close_files (i : nat) : M kstate unit :=
  d ← get_proc i;
  upd_proc i (set_open_files (replicate (length (open_files d)) None));;
  emit (Released <$> omap id (open_files d));;
  emit [BeginOp];;
  match pcwd d with
  | None => panic "assertion failed: self.cwd.is_some()"
  | Some c => upd_proc i (set_pcwd None);; emit [Released c; EndOp]
  end.

(** ** Tasks *)
Definition new_quad_zeroed : M kstate Z :=
  o ← on_mem quad_alloc; unwrap o "memory allocation failed".
Definition new_page_zeroed : M kstate Z :=
  o ← on_mem try_new_zeroed; unwrap o "called `Result::unwrap()` on an `Err` value".

Definition kstack_alloc (tid : Z) : M kstate Z :=
  '(kstack_bottom, _) ← lift (kernel_stack_position_by_tid tid);
  pa ← new_quad_zeroed;
  match VirtAddr_try_from kstack_bottom, PhysAddr_try_from pa with
  | inl va, inl pa =>
      on_kv (kvm_task_kstack_map kroot va pa tid KERNEL_STACK_SIZE (Z.lor PTE_R PTE_W));;
      mret kstack_bottom
  | _, _ => panic "called `Result::unwrap()` on an `Err` value"
  end.

Definition task_context_of (kstack : Z) : outcome Context :=
  top ← add64 kstack KERNEL_STACK_SIZE;
  mret (Locks.set_sp top (Locks.set_ra fork_ret Context_new)).

(** The part [Task::new] and [Task::from] share: the id, the kernel stack and
    the trap frame page, mapped in the process. *)
Definition task_alloc (process : nat) : M kstate (Z * Z * Z) :=
  tid ← on_tids tid_alloc;
  ks ← kstack_alloc tid;
  tf ← new_page_zeroed;
  pgt ← get_pgt process;
  va ← lift (trapframe_from_tid tid);
  match PhysAddr_try_from tf with
  | inr _ => panic "called `Result::unwrap()` on an `Err` value"
  | inl pa =>
      r ← on_mem (map_pages pgt va PAGE_SIZE pa (Z.lor PTE_R PTE_W));
      match r with inr _ => panic "task trapframe error" | inl _ => mret (tid, ks, tf) end
  end.

Definition Task_new (process : nat) (pos ustack_base entry : Z) : M kstate Task :=
  '(tid, ks, tf) ← task_alloc process;
  ustack_bottom ← lift (ustack_bottom_from_tid ustack_base pos);
  usp ← lift (add64 ustack_bottom USER_STACK_SIZE);
  ksp ← lift (add64 ks KERNEL_STACK_SIZE);
  tf_set tf epc entry;;
  tf_set tf tf_sp usp;;
  tf_set tf kernel_satp satp;;
  tf_set tf kernel_sp ksp;;
  tf_set tf kernel_trap user_trap;;
  tf_set tf kernel_hartid hartid;;
  c ← lift (task_context_of ks);
  mret {| t_process := process; kstack_base := ks; t_ustack_base := ustack_base; tid := tid; t_pos := pos;
          inner := {| t_trapframe := tf; task_context := c; task_status := Ready; exit_code := None |} |}.

Definition Task_from (process : nat) (pos ustack_base ptrapframe : Z) : M kstate Task :=
  '(tid, ks, tf) ← task_alloc process;
  tf_copy ptrapframe tf;;
  ksp ← lift (add64 ks KERNEL_STACK_SIZE);
  tf_set tf tf_a0 0;;
  tf_set tf kernel_sp ksp;;
  c ← lift (task_context_of ks);
  mret {| t_process := process; kstack_base := ks; t_ustack_base := ustack_base; tid := tid; t_pos := pos;
          inner := {| t_trapframe := tf; task_context := c; task_status := Ready; exit_code := None |} |}.

(** [Drop for Task] *)
Definition task_drop (t : Task) : M kstate unit :=
  pgt ← get_pgt (t_process t);
  va ← lift (trapframe_from_tid (tid t));
  on_mem (uvm_unmap pgt va 1 false);;
  on_tids (tid_dealloc (tid t)).
Definition drop_opt_task (o : option Task) : M kstate unit :=
  match o with Some t => task_drop t | None => mret tt end.

(** ** Making processes *)
Definition proc_init_one (pos : Z) : M kstate unit :=
  pa ← new_quad_zeroed;
  va ← lift (kstack_by_pos pos);
  match VirtAddr_try_from va, PhysAddr_try_from pa with
  | inl v, inl p =>
      on_kv (kvm_map kroot v p KERNEL_STACK_SIZE (Z.lor PTE_R PTE_W));;
      upd_proc (Z.to_nat pos) (set_kstack va)
  | _, _ => panic "called `Result::unwrap()` on an `Err` value"
  end.
Definition proc_init : M kstate unit := for_range NPROC 0 proc_init_one.

Definition init_context (i : nat) : M kstate unit :=
  d ← get_proc i;
  top ← lift (add64 (kstack d) (PAGE_SIZE * 4));
  upd_proc i (set_context (Locks.set_sp top (Locks.set_ra fork_ret (Context_clear (context d))))).

(** The body of [alloc_proc] for a slot that is [UNUSED]; the early returns
    leave the pointers that were set. *)
Definition alloc_slot (i : nat) : M kstate (option nat) :=
  o1 ← on_mem try_new_zeroed;
  match o1 with
  | None => mret None
  | Some tf =>
      upd_proc i (set_trapframe tf);;
      o2 ← on_mem try_new_zeroed;
      match o2 with
      | None => mret None
      | Some u =>
          upd_proc i (set_up u);;
          o3 ← on_mem try_new_zeroed;
          match o3 with
          | None => mret None
          | Some af =>
              upd_alarm i (set_alarm_frame af);;
              new_pid ← on_pids pid_alloc;
              page ← on_mem (read_frame u);
              on_mem (write_frame u (write_u32 page 0 (wrap 32 new_pid)));;
              d ← get_proc i;
              assertM (bool_decide (pagetable d = None)) "assertion failed: pdata.pagetable.is_none()";;
              r ← on_mem (alloc_proc_pagetable trampoline tf u new_pid);
              match r with
              | None => on_mem (from_raw_and_drop tf);; mret None
              | Some pgt =>
                  upd_proc i (set_pagetable (Some pgt));;
                  init_context i;;
                  on_sch (upd_excl i (set_alloc new_pid));;
                  mret (Some i)
              end
          end
      end
  end.
Definition alloc_proc : M kstate (option nat) :=
  o ← for_ret (seq 0 NPROC) (λ i,
    guard ← on_sch (get_excl i);
    if bool_decide (state guard = UNUSED) then r ← alloc_slot i; mret (Some r) else mret None);
  mret (default None o).

(** [Process::user_init] and [ProcManager::user_init]; [root] is the inode of
    ["/"] that [namei] finds. *)
Definition process_user_init (i : nat) (root : option R) : M kstate unit :=
  pgt ← get_pgt i;
  on_mem (uvm_init pgt INITCODE);;
  upd_proc i (set_ustack_base PAGE_SIZE);;
  upd_proc i (set_psize PAGE_SIZE);;
  d ← get_proc i;
  assertM (negb (trapframe d =? 0)) "called `Option::unwrap()` on a `None` value";;
  tf_set (trapframe d) epc 0;;
  tf_set (trapframe d) tf_sp (PAGE_SIZE * 10);;
  upd_proc i (λ d, set_pname (write_at (pname d) 0 init_name) d);;
  assertM (match pcwd d with None => true | Some _ => false end) "assertion failed: pd.cwd.is_none()";;
  c ← unwrap root "cannot find root inode by b'/'";
  upd_proc i (set_pcwd (Some c)).

Definition user_init (root : option R) : M kstate unit :=
  o ← alloc_proc;
  i ← unwrap o "all process should be unused";
  process_user_init i root;;
  on_sch (upd_excl i (set_state RUNNABLE));;
  on_sch (fifo_push i).

(** ** fork, sbrk *)
Definition fork (self : nat) : M kstate (Z + unit) :=
  o ← alloc_proc;
  match o with
  | None => mret (inr tt)
  | Some child =>
      cexcl ← on_sch (get_excl child);
      let cpid := pid cexcl in
      pd ← get_proc self;
      upd_proc child (set_ustack_base (ustack_base pd));;
      cpgt ← get_pgt child;
      pgt ← get_pgt self;
      r ← on_mem (uvm_copy pgt cpgt (psize pd));
      match r with
      | inr _ =>
          s ← get;
          assertM (bool_decide (killed (sch s) !! child = Some false)) "assertion failed: !child.killed";;
          on_sch (set_killed child false);;
          data_cleanup child cpid;;
          alarm_cleanup child;;
          on_sch (upd_excl child excl_cleanup);;
          mret (inr tt)
      | inl _ =>
          upd_proc child (set_psize (psize pd));;
          cd ← get_proc child;
          pa ← get_alarm self;
          ca ← get_alarm child;
          tf_copy (trapframe pd) (trapframe cd);;
          tf_copy (alarm_frame pa) (alarm_frame ca);;
          tf_set (trapframe cd) tf_a0 0;;
          upd_proc child (set_open_files (open_files pd));;
          emit (Cloned <$> omap id (open_files pd));;
          upd_proc child (set_pcwd (pcwd pd));;
          emit (Cloned <$> omap id [pcwd pd]);;
          upd_proc child (set_tracemask (tracemask pd));;
          upd_proc child (set_pname (pname pd));;
          on_sch (set_parent child self);;
          on_sch (upd_excl child (set_state RUNNABLE));;
          t0 ← unwrap (tasks pd !! 0%nat) "index out of bounds";
          t0 ← unwrap t0 "called `Option::unwrap()` on a `None` value";
          task ← Task_from child 1 (ustack_base pd) (get_trap_frame t0);
          upd_proc child (λ d, set_tasks (tasks d ++ [Some task]) d);;
          on_sch (fifo_push child);;
          mret (inl cpid)
      end
  end.

Definition sbrk (self : nat) (increment : Z) : M kstate (Z + unit) :=
  d ← get_proc self;
  let old_size := psize d in
  if 0 <? increment then
    new_size ← lift (add64 old_size increment);
    upd_proc self (set_psize new_size);; mret (inl old_size)
  else if increment <? 0 then
    neg ← lift (assertO (negb (increment =? - 2 ^ 31)) "attempt to negate with overflow";; mret (- increment));
    new_size ← lift (sub_chk old_size neg);
    pgt ← get_pgt self;
    _ ← on_mem (uvm_dealloc pgt old_size new_size);
    upd_proc self (set_psize new_size);; mret (inl old_size)
  else mret (inl old_size).

(** ** exit and wait *)
Definition init_proc : nat := 0.

(** The children of the exiting process go to [init_proc]. *)
Definition reparent (exit_index : nat) (l : list (option nat)) : list (option nat) :=
  (λ c, if decide (c = Some exit_index) then Some init_proc else c) <$> l.

(** Up to the [sched] that does not come back. *)
Definition exiting (exit_index : nat) (status : Z) : M kstate unit :=
  if (exit_index =? init_proc)%nat then panic "init process exiting"
  else
    close_files exit_index;;
    e ← on_sch (get_excl exit_index);
    s ← get;
    let have_child := existsb (λ c, bool_decide (c = Some exit_index)) (parents (sch s)) in
    on_sch (set_parents (reparent exit_index));;
    (if have_child then on_sch (wakeup (chan init_proc)) else mret tt);;
    s ← get;
    po ← unwrap (parents (sch s) !! exit_index) "index out of bounds";
    exit_parenti ← unwrap po "called `Option::unwrap()` on a `None` value";
    on_sch (wakeup (chan exit_parenti));;
    on_sch (upd_excl exit_index (set_exit status));;
    d ← get_proc exit_index;
    upd_proc exit_index (set_tasks []);;
    for_range (length (tasks d)) 0 (λ k,
      drop_opt_task (default None (reverse (tasks d) !! Z.to_nat k)));;
    on_pids (pid_dealloc (pid e)).

(** The result of a turn of a waiting call. *)
Inductive wturn := WAsleep | WDone (r : Z + unit).

(** [exit_status] copied out to [addr]; an error when that fails. *)
Definition copy_status (self : nat) (addr status : Z) : M kstate bool :=
  if addr =? 0 then mret true
  else
    pgt ← get_pgt self;
    r ← on_mem (copy_out pgt (le_bytes 4 status) addr 4);
    mret (match r with inl _ => true | inr _ => false end).

Definition waiting (self pi : nat) (addr : Z) : M kstate wturn :=
  o ← for_ret (seq 0 NPROC) (λ i,
    s ← get;
    par ← unwrap (parents (sch s) !! i) "index out of bounds";
    if negb (bool_decide (par = Some pi)) then mret None
    else
      child_excl ← on_sch (get_excl i);
      if negb (bool_decide (state child_excl = ZOMBIE)) then mret None
      else
        ok ← copy_status self addr (exit_status child_excl);
        if negb ok then mret (Some (inr tt))
        else
          on_sch (set_parents (<[i := None]>));;
          on_sch (set_killed i false);;
          data_cleanup i (pid child_excl);;
          on_sch (upd_excl i excl_cleanup);;
          alarm_cleanup i;;
          mret (Some (inl (pid child_excl))));
  match o with
  | Some r => mret (WDone r)
  | None =>
      s ← get;
      let have_child := existsb (λ c, bool_decide (c = Some pi)) (parents (sch s)) in
      k ← unwrap (killed (sch s) !! self) "index out of bounds";
      if negb have_child || k then mret (WDone (inr tt))
      else on_sch (Sched.sleep self (chan self));; mret WAsleep
  end.

(** [waiting_pid]: the search for the slot, which happens once, and a turn of
    its loop. *)
Fixpoint pid_slot (child_pid : Z) (l : list ProcExcl) (i : nat) : nat :=
  match l with
  | [] => 0
  | e :: l => if pid e =? child_pid then i else pid_slot child_pid l (S i)
  end.
Definition waiting_pid_find (current : nat) (child_pid : Z) : M kstate (nat + unit) :=
  s ← get;
  let child_index := pid_slot child_pid (excl (sch s)) 0 in
  if (NPROC - 1 <=? child_index)%nat then mret (inr tt)
  else
    par ← unwrap (parents (sch s) !! child_index) "index out of bounds";
    if bool_decide (par = Some current) then mret (inl child_index) else mret (inr tt).
Definition waiting_pid_turn (self child_index : nat) (child_pid addr : Z) : M kstate wturn :=
  child_excl ← on_sch (get_excl child_index);
  if negb (bool_decide (state child_excl = ZOMBIE)) then
    on_sch (Sched.sleep self (chan self));; mret WAsleep
  else
    ok ← copy_status self addr (exit_status child_excl);
    if negb ok then mret (WDone (inr tt))
    else
      s ← get;
      k ← unwrap (killed (sch s) !! self) "index out of bounds";
      if (k : bool) then mret (WDone (inr tt))
      else
        on_sch (set_parents (<[child_index := None]>));;
        on_sch (set_killed child_index false);;
        data_cleanup child_index child_pid;;
        on_sch (upd_excl child_index excl_cleanup);;
        mret (WDone (inl child_pid)).

(** ** Traps and system calls *)
Definition check_abondon (i : nat) (status : Z) : M kstate unit :=
  s ← get;
  k ← unwrap (killed (sch s) !! i) "index out of bounds";
  if (k : bool) then exiting i status else mret tt.
Definition abondon (i : nat) (status : Z) : M kstate unit :=
  on_sch (set_killed i true);; exiting i status.

Definition task0 (i : nat) : M kstate Task :=
  d ← get_proc i;
  t ← unwrap (tasks d !! 0%nat) "index out of bounds";
  unwrap t "called `Option::unwrap()` on a `None` value".

(** [user_ret_prepare] and [user_ret_prepare_task]; they return what is written
    to [sepc] first. *)
Definition user_ret_prepare (i : nat) : M kstate (Z * Z) :=
  d ← get_proc i;
  assertM (negb (trapframe d =? 0)) "called `Option::unwrap()` on a `None` value";;
  let tf := trapframe d in
  tf_set tf kernel_satp satp;;
  assertM (length (tasks d) =? 1)%nat "assertion failed: self.tasks.len() == 1";;
  t ← task0 i;
  ksp ← lift (add64 (get_kstack_bottom t) KERNEL_STACK_SIZE);
  tf_set tf kernel_sp ksp;;
  tf_set tf kernel_trap user_trap;;
  tf_set tf kernel_hartid hartid;;
  e ← tf_get tf epc;
  pgt ← get_pgt i;
  mret (e, as_satp pgt).
Definition user_ret_prepare_task (i : nat) : M kstate (Z * Z * Z) :=
  d ← get_proc i;
  assertM (length (tasks d) =? 1)%nat "assertion failed: self.tasks.len() == 1";;
  t ← task0 i;
  let tf := get_trap_frame t in
  tf_set tf kernel_satp satp;;
  ksp ← lift (add64 (get_kstack_bottom t) KERNEL_STACK_SIZE);
  tf_set tf kernel_sp ksp;;
  tf_set tf kernel_trap user_trap;;
  tf_set tf kernel_hartid hartid;;
  e ← tf_get tf epc;
  pgt ← get_pgt i;
  mret (e, as_satp pgt, tid t).

Definition arg_reg (n : nat) : option tf_reg :=
  match n with
  | 0 => Some tf_a0 | 1 => Some tf_a1 | 2 => Some tf_a2 | 3 => Some tf_a3 | 4 => Some tf_a4 | 5 => Some tf_a5
  | _ => None
  end%nat.
Definition arg_raw (i n : nat) : M kstate Z :=
  t ← task0 i;
  r ← unwrap (arg_reg n) "n is larger than 5";
  tf_get (get_trap_frame t) r.
(** [as i32] *)
Definition as_i32 (x : Z) : Z := let y := wrap 32 x in if y <? 2 ^ 31 then y else y - 2 ^ 32.
Definition arg_i32 (i n : nat) : M kstate Z := x ← arg_raw i n; mret (as_i32 x).
Definition arg_addr (i n : nat) : M kstate Z := arg_raw i n.
Definition arg_fd (i n : nat) : M kstate (nat + unit) :=
  fd ← arg_raw i n;
  if Z.of_nat NFILE <=? fd then mret (inr tt)
  else
    d ← get_proc i;
    f ← unwrap (open_files d !! Z.to_nat fd) "index out of bounds";
    mret (match f with Some _ => inl (Z.to_nat fd) | None => inr tt end).
Definition fetch_str (i : nat) (addr : Z) (dst : list Z) : M kstate (list Z * (unit + string)) :=
  pgt ← get_pgt i; on_mem (copy_in_str pgt addr dst).
Definition arg_str (i n : nat) (buf : list Z) : M kstate (list Z * (unit + string)) :=
  addr ← arg_raw i n; fetch_str i addr buf.
Definition fetch_addr (i : nat) (addr : Z) : M kstate (Z + string) :=
  d ← get_proc i;
  e ← lift (add64 addr 8);
  if psize d <? e then mret (inr "input addr > proc's mem size"%string)
  else
    pgt ← get_pgt i;
    '(bytes, r) ← on_mem (copy_in pgt addr 8);
    mret (match r with inl _ => inl (le_val bytes) | inr _ => inr "pagetable copy_in eror"%string end).

(** [Process::syscall]: the number in [a7] is matched against the arms in
    order, so the arms of a number that is used twice are dead. *)
Inductive sysno :=
| Sys_fork | Sys_exit | Sys_wait | Sys_pipe | Sys_read | Sys_kill | Sys_exec | Sys_fstat | Sys_chdir | Sys_dup
| Sys_getpid | Sys_sbrk | Sys_sleep | Sys_uptime | Sys_open | Sys_write | Sys_mknod | Sys_unlink | Sys_link
| Sys_mkdir | Sys_close | Sys_setpri | Sys_getpri | Sys_trace | Sys_pgaccess | Sys_sigalarm | Sys_sigreturn
| Sys_getmtime | Sys_waitpid | Sys_test.
Definition syscall_arms : list (Z * sysno) := [
  (1, Sys_fork); (2, Sys_exit); (3, Sys_wait); (4, Sys_pipe); (5, Sys_read); (6, Sys_kill); (7, Sys_exec);
  (8, Sys_fstat); (9, Sys_chdir); (10, Sys_dup); (11, Sys_getpid); (12, Sys_sbrk); (13, Sys_sleep);
  (14, Sys_uptime); (15, Sys_open); (16, Sys_write); (17, Sys_mknod); (18, Sys_unlink); (19, Sys_link);
  (20, Sys_mkdir); (21, Sys_close); (22, Sys_setpri); (23, Sys_getpri); (22, Sys_trace); (22, Sys_pgaccess);
  (22, Sys_sigalarm); (23, Sys_sigreturn); (22, Sys_getmtime); (23, Sys_waitpid); (99, Sys_test)].
Definition syscall_of (a7 : Z) : option sysno :=
  (λ p, p.2.2) <$> list_find (λ p, p.1 = a7) syscall_arms.

(** The length of [SYSCALL_NAME]. *)
Definition SYSCALL_NAMES : Z := 24.

Definition syscall (sys : sysno → M kstate (Z + unit)) (self : nat) : M kstate unit :=
  t ← task0 self;
  let tf := get_trap_frame t in
  a7 ← tf_get tf tf_a7;
  admit_ecall tf;;
  n ← unwrap (syscall_of a7) "unknown syscall num";
  r ← sys n;
  tf_set tf tf_a0 (match r with inl ret => ret | inr _ => 2 ^ 64 - 1 end);;
  d ← get_proc self;
  if 64 <=? a7 then panic "attempt to shift left with overflow"
  else if Z.testbit (tracemask d) a7 then
    assertM (a7 <? SYSCALL_NAMES) "index out of bounds"      (* SYSCALL_NAME[a7] is printed *)
  else mret tt.
End proc.

(** * The first process cannot be made *)
Section first.
Context {H : Type} `{!PageHeap H, !PageHeapLaws H}.

(** The page of the trap frame of process 0 is the page of [USYSCALL]. *)
Lemma trapframe_from_pid_0 : trapframe_from_pid 0 = Done USYSCALL.
Proof. reflexivity. Qed.

Lemma PhysAddr_try_from_inl a p : PhysAddr_try_from a = inl p →
  p = a ∧ a `mod` PAGE_SIZE = 0 ∧ a + PAGE_SIZE ≤ 2 ^ 56.
Proof.
  unfold PhysAddr_try_from. destruct (Z.eqb_spec (a `mod` PAGE_SIZE) 0); [|done]. cbn [negb].
  destruct (Z.ltb_spec PHYSTOP a); [done|]. intros [= <-]. split; [done|]. split; [done|].
  change PHYSTOP with 0x8c000000 in *. unfold PAGE_SIZE. lia.
Qed.

(** One [map] of [alloc_proc_pagetable]. *)
Lemma map_step (s : pmem H) live own root n va pa perm s' :
  pinv s live own → is_root own root → perm_ok perm → vpn n → n * PAGE_SIZE < MAXVA → va = n * PAGE_SIZE →
  0 ≤ pa → pa `mod` PAGE_SIZE = 0 → pa + PAGE_SIZE ≤ 2 ^ 56 →
  map_pages root va PAGE_SIZE pa perm s = Done (inl tt, s') →
  tr s root n = None ∧ tr s' root n = Some (write_perm pa perm) ∧
  ∃ live' own', pinv s' live' own' ∧ is_root own' root.
Proof.
  intros Hs Hr Hp Hn Hb -> H0 Hm Hl E.
  destruct (map_one s live own root n pa perm Hs Hr Hp Hn Hb H0 Hm Hl) as (r & s1 & l' & o' & E1 & Hs1 & Hg & _ & Hres).
  rewrite E in E1. injection E1 as <- <-. destruct Hres as [Hnone Htr]. split; [done|]. split.
  - rewrite (Htr root n Hr Hn). by rewrite decide_True.
  - exists l', o'. split; [done|]. eapply lookup_weaken; [exact Hr|]. by destruct Hg.
Qed.

Lemma pagetable_pid_0 (s : pmem H) live own trampoline tf u q s' :
  pinv s live own → 0 ≤ trampoline → 0 ≤ tf → 0 ≤ u →
  alloc_proc_pagetable trampoline tf u 0 s ≠ Done (Some q, s').
Proof.
  intros Hs Ht0 Htf0 Hu0 E. unfold alloc_proc_pagetable in E. mbind_inv E as o s1 E1 E.
  destruct (new_root_run s live own Hs) as [(p & s1' & E1' & _ & _ & _ & Hs1 & _)|(s1' & E1' & _)];
    rewrite E1 in E1'; injection E1' as -> ->; [|done]. clear E1.
  assert (is_root (<[p := (p, [])]> own) p) as Hr1 by apply lookup_insert_eq.
  destruct (PhysAddr_try_from trampoline) as [pa|] eqn:Ep; [|done]. apply PhysAddr_try_from_inl in Ep as (-> & Hm1 & Hl1).
  mbind_inv E as r s2 E2 E. destruct r as [[]|]; [|by mbind_inv E as x y Ex Ey].
  destruct (map_step s1' _ _ p (2 ^ 26 - 1) TRAMPOLINE trampoline (Z.lor PTE_R PTE_X) s2 Hs1 Hr1) as (_ & _ & l2 & o2 & Hs2 & Hr2); [..|exact E2|].
  { by vm_compute. } { by vm_compute. } { by vm_compute. } { by vm_compute. } { done. } { done. } { done. }
  mbind_inv E as v s2' Ev E. unfold lift in Ev. rewrite trapframe_from_pid_0 in Ev. injection Ev as <- <-.
  destruct (PhysAddr_try_from tf) as [pa|] eqn:Ep; [|done]. apply PhysAddr_try_from_inl in Ep as (-> & Hm2 & Hl2).
  mbind_inv E as r s3 E3 E. destruct r as [[]|]; [|by mbind_inv E as x y Ex Ey].
  destruct (map_step s2 _ _ p (2 ^ 26 - 3) USYSCALL tf (Z.lor PTE_R PTE_W) s3 Hs2 Hr2) as (_ & Hmap & l3 & o3 & Hs3 & Hr3); [..|exact E3|].
  { by vm_compute. } { by vm_compute. } { by vm_compute. } { by vm_compute. } { done. } { done. } { done. }
  destruct (PhysAddr_try_from u) as [pa|] eqn:Ep; [|done]. apply PhysAddr_try_from_inl in Ep as (-> & Hm3 & Hl3).
  mbind_inv E as r s4 E4 E. destruct r as [[]|]; [|by mbind_inv E as x y Ex Ey].
  destruct (map_step s3 _ _ p (2 ^ 26 - 3) USYSCALL u (Z.lor PTE_R PTE_U) s4 Hs3 Hr3) as (Hnone & _); [..|exact E4|].
  { by vm_compute. } { by vm_compute. } { by vm_compute. } { by vm_compute. } { done. } { done. } { done. }
  congruence.
Qed.

Context {R : Type} `{!QuadHeap H}.
Context (kroot trampoline fork_ret user_trap satp hartid : Z) (chan : nat → Z).
#[local] Abbreviation KS := (kstate (H := H) (R := R)).

Definition mem_of (s : KS) : pmem H := km (kv s).

Lemma on_mem_done {A} (m : M (pmem H) A) (s s' : KS) a :
  on_mem m s = Done (a, s') → m (mem_of s) = Done (a, mem_of s') ∧ pids s' = pids s.
Proof.
  unfold on_mem, on_kv, Kvm.on_mem, mem_of. destruct (m (km (kv s))) as [[x p]|]; [|done]. by intros [= -> <-].
Qed.

Lemma frame_nonneg p : ph_addr p → 0 ≤ p.
Proof. intros Hp. pose proof (ph_addr_ok p Hp). unfold KERNBASE in *. lia. Qed.

(** A page for the new process. *)
Lemma new_frame_step (s s' : KS) live own p :
  pinv (mem_of s) live own → on_mem try_new_zeroed s = Done (Some p, s') →
  0 ≤ p ∧ pids s' = pids s ∧ ∃ live', pinv (mem_of s') live' own.
Proof.
  intros Hs E. apply on_mem_done in E as [E Hp].
  destruct (new_frame_run _ _ _ Hs) as [(q & s1 & E1 & Hq & _ & Hs1 & _)|(s1 & E1 & _)]; rewrite E in E1; [|done].
  injection E1 as <- ->. split; [by apply frame_nonneg|]. split; [done|by eexists].
Qed.

Lemma write_frame_step (s s' : KS) live own p l :
  pinv (mem_of s) live own → is_Some (frs (mem_of s) !! p) → on_mem (write_frame p l) s = Done (tt, s') →
  pids s' = pids s ∧ pinv (mem_of s') live own.
Proof.
  intros [H1 H2 H3 H4] Hp E. apply on_mem_done in E as [E Hpids]. split; [done|].
  unfold write_frame in E. mbind_inv E as s0 s1 E0 E. injection E0 as <- <-. injection E as Es.
  rewrite <- Es. split; cbn [hp tabs frs]; try done.
  - intros a Ha. apply H3. destruct Ha as [?|Ha]; [by left|]. right. destruct (decide (a = p)) as [->|]; [done|].
    by rewrite lookup_insert_ne in Ha.
  - intros a Ha. destruct (decide (a = p)) as [->|]; [|by rewrite lookup_insert_ne by done; apply H4].
    rewrite (H4 p Ha) in Hp. by destruct Hp.
Qed.

Lemma alloc_slot_first (s s' : KS) live own i x :
  pinv (mem_of s) live own → 0 ≤ trampoline → pids s = ra_new →
  alloc_slot trampoline fork_ret i s ≠ Done (Some x, s').
Proof.
  intros Hs Ht Hp E. unfold alloc_slot in E.
  mbind_inv E as o1 s1 E1 E. destruct o1 as [tf|]; [|done].
  destruct (new_frame_step _ _ _ _ _ Hs E1) as (Htf & Hp1 & l1 & Hs1).
  mbind_inv E as v1 s2 E2 E. injection E2 as _ <-.
  mbind_inv E as o2 s3 E3 E. destruct o2 as [u|]; [|done].
  apply (new_frame_step _ _ l1 own u) in E3 as (Hu & Hp3 & l3 & Hs3); [|exact Hs1].
  mbind_inv E as v2 s4 E4 E. injection E4 as _ <-.
  mbind_inv E as o3 s5 E5 E. destruct o3 as [af|]; [|done].
  apply (new_frame_step _ _ l3 own af) in E5 as (_ & Hp5 & l5 & Hs5); [|exact Hs3].
  mbind_inv E as v3 s6 E6 E. injection E6 as _ <-.
  mbind_inv E as new_pid s7 E7 E. unfold on_pids in E7. cbn [pids] in E7, Hp3, Hp5.
  rewrite Hp5, Hp3, Hp1, Hp in E7. cbn in E7. injection E7 as <- <-.
  mbind_inv E as page s8 E8 E. apply on_mem_done in E8 as [E8 _]. unfold read_frame in E8.
  mbind_inv E8 as y y' Ey E8. injection Ey as <- <-. destruct (frs _ !! u) as [pg|] eqn:Ef; [|done].
  injection E8 as _ Emem.
  mbind_inv E as v4 s9 E9 E. destruct v4.
  apply (write_frame_step s8 s9 l5 own u) in E9 as [_ Hs9]; [|rewrite <- Emem; exact Hs5|rewrite <- Emem, Ef; by eexists].
  mbind_inv E as d s10 E10 E. unfold get_proc in E10. mbind_inv E10 as z z' Ez E10. injection Ez as <- <-.
  destruct (procs s9 !! i); [|done]. injection E10 as _ <-.
  mbind_inv E as v5 s11 E11 E. unfold assertM in E11. destruct (bool_decide _); [|done]. injection E11 as _ <-.
  mbind_inv E as r s12 E12 E. destruct r as [pgt|]; [|by mbind_inv E as a b Ea Eb].
  apply on_mem_done in E12 as [E12 _]. by apply (pagetable_pid_0 _ _ _ _ _ _ _ _ Hs9 Ht Htf Hu) in E12.
Qed.

Lemma alloc_proc_first (s s' : KS) live own x :
  pinv (mem_of s) live own → 0 ≤ trampoline → pids s = ra_new →
  alloc_proc trampoline fork_ret s ≠ Done (Some x, s').
Proof.
  intros Hs Ht Hp E. unfold alloc_proc in E. mbind_inv E as o s1 E1 E. injection E as Eo <-.
  destruct o as [[y|]|]; [|done|done]. cbn in Eo. injection Eo as ->.
  revert E1. generalize (seq 0 NPROC). intros l. induction l as [|i l IH]; intros E1; [done|].
  cbn [for_ret] in E1. mbind_inv E1 as r s2 E2 E1. mbind_inv E2 as g s3 E3 E2.
  assert (s3 = s) as ->.
  { unfold on_sch, get_excl in E3. run_simpl in E3. destruct (excl (sch s) !! i); [|done]. injection E3 as _ <-. by destruct s. }
  destruct (bool_decide (state g = UNUSED)).
  - mbind_inv E2 as r' s4 E4 E2. injection E2 as <- <-. injection E1 as -> ->.
    by apply (alloc_slot_first _ _ _ _ _ _ Hs Ht Hp) in E4.
  - injection E2 as <- <-. by apply IH.
Qed.

(** The first process cannot be made.  The trap frame of process id 0 is
    placed on the page of [USYSCALL], so the page table of a process with that
    id is never completed; the id allocator hands out 0 first, hence
    [alloc_proc] fails at boot for every state of memory, and [user_init]
    panics. *)
Theorem user_init_panics root (s : KS) live own :
  pinv (mem_of s) live own → 0 ≤ trampoline → pids s = ra_new →
  panics (user_init trampoline fork_ret root s).
Proof.
  intros Hs Ht Hp. destruct (user_init trampoline fork_ret root s) as [[u s']|why] eqn:E; [exfalso|by eexists].
  unfold user_init in E. mbind_inv E as o s1 E1 E. mbind_inv E as i s2 E2 E.
  destruct o as [x|]; [|done]. by apply (alloc_proc_first _ _ _ _ _ Hs Ht Hp) in E1.
Qed.
End first.

(** ** The process layer at boot, over consecutive pages *)
#[export] Instance bump_quad : QuadHeap Z := {
  quad_alloc := λ s, Done (Some (hp s), {| hp := hp s + 4 * PAGE_SIZE; tabs := tabs s; frs := frs s |});
}.
Definition kboot : kstate (H := Z) (R := unit) := {|
  kv := {| km := Bump.boot; kstacks := 0 |}; sch := sched_boot; pids := ra_new; tids := ra_new;
  procs := replicate NPROC ProcData_new; alarms := replicate NPROC ProcAlarm_new; events := [] |}.

Import Bump.
Lemma user_init_panics_witness : panics (user_init 0x80007000 0x80001234 (Some tt) kboot).
Proof.
  apply (user_init_panics 0x80007000 0x80001234 (Some tt) kboot ∅ {[Bump.root0 := (Bump.root0, [])]});
    [exact Bump.bump_ok|lia|reflexivity].
Defined.
