(* ===== verification/Files.v ===== *)
(** * Open files and the system calls on them ([kernel/src/fs/file/mod.rs],
    [Pipe::create], the file calls of [process/proc/syscall.rs])

    An [Arc<File>] is an index into [ftab] with its count; the entry is gone
    when the last handle is.  The process's descriptors, its size and its
    current directory are in the state.  Reading and writing a pipe or a device
    are tail calls of the code, and results of the model ([Call*]); what
    happens to pipes otherwise is recorded in [pcalls].

    [LOG.begin_op] and [LOG.end_op] come with the store ([Journal]).
    The system calls take their arguments decoded ([Proc.arg_raw] and its
    relatives): one that does not decode returns before it does anything. *)
From S2P Require Import Proc Prelude Consts Bytes BlockCache Addr PageTable Uvm Block Inode Icache.

(** ** The store with its log *)
Inductive jev := JBegin | JEnd | JWrite (b : Z).
Class Journal (D : Type) := {
  st_begin : M D unit;               (* LOG.begin_op, once the log has room *)
  st_end : M D unit;                 (* LOG.end_op *)
  (** What the log has been asked, in order. *)
  st_trace : D → list jev;
}.
Class JournalLaws (D : Type) `{!BlockStore D, !Journal D} := {
  jl_begin d a d' : st_begin d = Done (a, d') → st_trace d' = st_trace d ++ [JBegin];
  jl_end d a d' : st_end d = Done (a, d') → st_trace d' = st_trace d ++ [JEnd];
  jl_log b d a d' : st_log b d = Done (a, d') → st_trace d' = st_trace d ++ [JWrite b];
  jl_bread b d a d' : st_bread b d = Done (a, d') → st_trace d' = st_trace d;
  jl_set b x d a d' : st_set b x d = Done (a, d') → st_trace d' = st_trace d;
  jl_drop b d a d' : st_drop b d = Done (a, d') → st_trace d' = st_trace d;
}.

(** ** Data *)
Inductive FileInner :=
| FPipe (pipe : nat)
| Regular (offset : Z) (inode : option Inode)
| FDevice (major : Z) (inode : option Inode).
Record File := { inner : FileInner; readable : bool; writable : bool }.

Inductive Device := Console.
Definition DEVICES : list (option Device) :=
  [None; Some Console; None; None; None; None; None; None; None; None].

Inductive pcall := PCreate (p : nat) | PClose (p : nat) (is_write : bool).

Inductive fres :=
| FRet (r : Z + unit)
| CallPipeRead (p : nat) (addr count : Z)
| CallPipeWrite (p : nat) (addr count : Z)
| CallDevRead (d : Device) (addr count : Z)
| CallDevWrite (d : Device) (addr count : Z).

Section ops.
Context {D U : Type} `{!BlockStore D} `{!Journal D} `{!UserMem U} `{!BitField}.

Record fstate := {
  ist : istate D U;
  ftab : list (option (File * Z));     (* the files, with the count of their handles *)
  fds : list (option nat);             (* [open_files] of the process *)
  fsize : Z;                           (* its size *)
  npipes : nat;
  pcalls : list pcall;
}.
#[local] Abbreviation FM := (M fstate).

Definition on_i {A} (m : M (istate D U) A) : FM A := λ s,
  match m (ist s) with
  | Done (a, i) => Done (a, {| ist := i; ftab := ftab s; fds := fds s; fsize := fsize s; npipes := npipes s;
      pcalls := pcalls s |})
  | Panic why => Panic why
  end.
Definition set_ftab (f : list (option (File * Z)) → list (option (File * Z))) : FM unit := modify (λ s,
  {| ist := ist s; ftab := f (ftab s); fds := fds s; fsize := fsize s; npipes := npipes s; pcalls := pcalls s |}).
Definition set_fd (fd : nat) (h : option nat) : FM unit := modify (λ s,
  {| ist := ist s; ftab := ftab s; fds := <[fd := h]> (fds s); fsize := fsize s; npipes := npipes s;
     pcalls := pcalls s |}).
Definition pipe_call (c : pcall) : FM unit := modify (λ s,
  {| ist := ist s; ftab := ftab s; fds := fds s; fsize := fsize s; npipes := npipes s; pcalls := pcalls s ++ [c] |}).

Definition begin_op : FM unit := on_i (on_fs (on_store st_begin)).
Definition end_op : FM unit := on_i (on_fs (on_store st_end)).

(** [Arc::new], [Arc::clone] *)
Definition arc_new (f : File) : FM nat :=
  s ← get; set_ftab (λ l, l ++ [Some (f, 1)]);; mret (length (ftab s)).
Definition get_file (h : nat) : FM (File * Z) :=
  s ← get; unwrap (mjoin (ftab s !! h)) "a dangling handle".
Definition arc_clone (h : nat) : FM nat :=
  '(f, n) ← get_file h; set_ftab (<[h := Some (f, n + 1)]>);; mret h.

Definition inode_of (o : option Inode) : FM Inode :=
  unwrap o "called `Option::unwrap()` on a `None` value".

(** ** File *)
Definition open (path : list Z) (flags : Z) : FM (option nat) :=
  begin_op;;
  o ← (if 0 <? Z.land flags O_CREATE then on_i (create path Block.File 0 0 true) else on_i (namei path));
  match o with
  | None => end_op;; mret None
  | Some inode =>
      let i := in_index inode in
      on_i (ilock inode);;
      let readable := Z.land flags O_WRONLY =? 0 in
      let writable := 0 <? Z.lor (Z.land flags O_WRONLY) (Z.land flags O_RDWR) in
      t ← on_i (get_itype i);
      inner ←
        match t with
        | Empty => panic "empty inode"
        | Directory =>
            if negb (flags =? O_RDONLY) then on_i (iunlock inode);; on_i (put inode);; mret None
            else on_i (iunlock inode);; mret (Some (Regular 0 (Some inode)))
        | Block.File =>
            (if 0 <? Z.land flags O_TRUNC then on_i (truncate i) else mret tt);;
            on_i (iunlock inode);;
            mret (Some (Regular 0 (Some inode)))
        | Block.Device =>
            '(major, _) ← on_i (get_devnum i);
            if NDEV <=? major then on_i (iunlock inode);; on_i (put inode);; mret None
            else on_i (iunlock inode);; mret (Some (FDevice major (Some inode)))
        end;
      end_op;;
      match inner with
      | None => mret None
      | Some inner =>
          h ← arc_new {| inner := inner; readable := readable; writable := writable |};
          mret (Some h)
      end
  end.

Definition set_offset (h : nat) (offset : Z) : FM unit :=
  set_ftab (alter (fmap (λ '(f, n),
    ({| inner := match inner f with Regular _ i => Regular offset i | x => x end;
        readable := readable f; writable := writable f |}, n))) h).
(** The offset is shared by all the handles, so it is read anew. *)
Definition get_offset (h : nat) : FM Z :=
  '(f, _) ← get_file h;
  match inner f with Regular o _ => mret o | _ => panic "not a regular file" end.

Definition device (major : Z) : FM (option Device) :=
  unwrap (DEVICES !! Z.to_nat major) "index out of bounds".

Definition fread (h : nat) (addr count : Z) : FM fres :=
  '(f, _) ← get_file h;
  if negb (readable f) then mret (FRet (inr tt))
  else
    match inner f with
    | FPipe pipe => mret (CallPipeRead pipe addr count)
    | Regular _ o =>
        inode ← inode_of o;
        on_i (ilock inode);;
        offset ← get_offset h;
        r ← on_i (try_iread (in_index inode) (Virtual addr) offset count);
        match r with
        | inl read_count =>
            e ← lift (add32 offset read_count);
            set_offset h e;;
            on_i (iunlock inode);;
            mret (FRet (inl read_count))
        | inr _ => on_i (iunlock inode);; mret (FRet (inr tt))
        end
    | FDevice major _ =>
        d ← device major;
        match d with
        | None => mret (FRet (inr tt))
        | Some d => mret (CallDevRead d addr count)
        end
    end.

Definition batch : Z := (MAXOPBLOCKS - 4) / 2 * BSIZE.

(** The batches of [fwrite]: [l] holds the starts still to do. *)
Fixpoint fwrite_loop (l : list Z) (h : nat) (o : option Inode) (addr : Address) (count : Z) : FM (Z + unit) :=
  match l with
  | [] => mret (inl count)
  | i :: l =>
      let write_count := Z.min batch (count - i) in
      begin_op;;
      inode ← inode_of o;
      on_i (ilock inode);;
      offset ← get_offset h;
      ret ← on_i (try_iwrite (in_index inode) addr offset write_count);
      match ret with
      | inl actual_count => e ← lift (add32 offset actual_count); set_offset h e
      | inr _ => mret tt
      end;;
      on_i (iunlock inode);;
      end_op;;
      match ret with
      | inl actual_count =>
          if negb (actual_count =? write_count) then mret (inl (i + actual_count))
          else
            addr ← lift (Address_offset addr write_count);
            fwrite_loop l h o addr count
      | inr _ => mret (inr tt)
      end
  end.

Definition fwrite (h : nat) (addr count : Z) : FM fres :=
  '(f, _) ← get_file h;
  if negb (writable f) then mret (FRet (inr tt))
  else
    match inner f with
    | FPipe pipe => mret (CallPipeWrite pipe addr count)
    | Regular _ o =>
        r ← fwrite_loop (step_by 0 count batch) h o (Virtual addr) count;
        mret (FRet r)
    | FDevice major _ =>
        d ← device major;
        match d with
        | None => mret (FRet (inr tt))
        | Some d => mret (CallDevWrite d addr count)
        end
    end.

Definition fstat (h : nat) : FM (FileStat + unit) :=
  '(f, _) ← get_file h;
  match inner f with
  | FPipe _ => mret (inr tt)
  | Regular _ o | FDevice _ o =>
      inode ← inode_of o;
      on_i (ilock inode);;
      st ← on_i (istat (in_index inode));
      on_i (iunlock inode);;
      mret (inl st)
  end.

(** [Drop for File]; [drop(inode.take())] of a [None] does nothing. *)
Definition file_drop (f : File) : FM unit :=
  match inner f with
  | FPipe pipe => pipe_call (PClose pipe (writable f))
  | Regular _ o | FDevice _ o =>
      begin_op;;
      match o with Some inode => on_i (put inode) | None => mret tt end;;
      end_op
  end.
(** The drop of an [Arc<File>]. *)
Definition arc_drop (h : nat) : FM unit :=
  '(f, n) ← get_file h;
  if n =? 1 then set_ftab (<[h := None]>);; file_drop f
  else set_ftab (<[h := Some (f, n - 1)]>).

(** ** [Pipe::create]; [fails] is the allocation that fails, if one does.  The
    files made before it are dropped, then the pipe with its [debug_assert]. *)
Definition pipe_create (fails : option nat) : FM (option (nat * nat)) :=
  match fails with
  | Some O => mret None
  | _ =>
      s ← get;
      let p := npipes s in
      modify (λ s, {| ist := ist s; ftab := ftab s; fds := fds s; fsize := fsize s; npipes := S (npipes s);
        pcalls := pcalls s |});;
      pipe_call (PCreate p);;
      match fails with
      | Some 1%nat => mret None
      | Some _ =>
          file_drop {| inner := FPipe p; readable := true; writable := false |};;
          panic "assertion failed: guard.read_open == guard.write_open"
      | None =>
          read_file ← arc_new {| inner := FPipe p; readable := true; writable := false |};
          write_file ← arc_new {| inner := FPipe p; readable := false; writable := true |};
          mret (Some (read_file, write_file))
      end
  end.

(** ** System calls *)
Definition sysres : Type := Z + unit.
Definition arg_fd (fd : Z) : FM (nat * nat + unit) :=
  if Z.of_nat NFILE <=? fd then mret (inr tt)
  else
    s ← get;
    o ← unwrap (fds s !! Z.to_nat fd) "index out of bounds";
    mret (match o with Some h => inl (Z.to_nat fd, h) | None => inr tt end).
Definition alloc_fd : FM (option nat) := s ← get; mret (head (free_fds (fds s) 0)).
Definition user_addr_ok (addr : Z) : FM bool := s ← get; mret (negb (fsize s <? addr)).
Definition copy_to_user (bytes : list Z) (addr : Z) : FM (unit + unit) :=
  on_i (on_user (um_copy_out bytes addr (Z.of_nat (length bytes)))).

Definition sys_read (fd addr count : Z) : FM fres :=
  a ← arg_fd fd;
  match a with
  | inr _ => mret (FRet (inr tt))
  | inl (_, h) =>
      ok ← user_addr_ok addr;
      if (count <=? 0) || negb ok then mret (FRet (inr tt)) else fread h addr count
  end.
Definition sys_write (fd addr count : Z) : FM fres :=
  a ← arg_fd fd;
  match a with
  | inr _ => mret (FRet (inr tt))
  | inl (_, h) =>
      ok ← user_addr_ok addr;
      if (count <=? 0) || negb ok then mret (FRet (inr tt)) else fwrite h addr count
  end.

(** The bytes of a [FileStat] ([repr(C)]); [pad] is what lies between its
    fields. *)
Definition stat_bytes (pad : list Z) (st : FileStat) : list Z :=
  le_bytes 4 (st_dev st) ++ le_bytes 4 (st_inum st) ++ le_bytes 2 (itype_code (st_itype st)) ++
  le_bytes 2 (st_nlink st) ++ pad ++ le_bytes 8 (st_size st).
Definition sys_fstat (pad : list Z) (fd addr : Z) : FM sysres :=
  a ← arg_fd fd;
  match a with
  | inr _ => mret (inr tt)
  | inl (_, h) =>
      st ← fstat h;
      match st with
      | inr _ => mret (inr tt)
      | inl st =>
          r ← copy_to_user (stat_bytes pad st) addr;
          mret (match r with inl _ => inl 0 | inr _ => inr tt end)
      end
  end.

Definition sys_open (path : list Z) (flags : Z) : FM sysres :=
  if flags <? 0 then mret (inr tt)
  else
    o ← alloc_fd;
    match o with
    | None => mret (inr tt)
    | Some fd =>
        o ← open path flags;
        match o with
        | None => mret (inr tt)
        | Some h => set_fd fd (Some h);; mret (inl (Z.of_nat fd))
        end
    end.

Definition sys_close (fd : Z) : FM sysres :=
  a ← arg_fd fd;
  match a with
  | inr _ => mret (inr tt)
  | inl (fd, h) => set_fd fd None;; arc_drop h;; mret (inl 0)
  end.

Definition sys_dup (old_fd : Z) : FM sysres :=
  a ← arg_fd old_fd;
  match a with
  | inr _ => mret (inr tt)
  | inl (_, h) =>
      o ← alloc_fd;
      match o with
      | None => mret (inr tt)
      | Some new_fd => h ← arc_clone h; set_fd new_fd (Some h);; mret (inl (Z.of_nat new_fd))
      end
  end.

(** The two files are dropped, the writing end first, when the descriptors
    cannot be copied out. *)
Definition sys_pipe (fails : option nat) (addr : Z) : FM sysres :=
  addr_fdwrite ← lift (add64 addr 4);
  s ← get;
  match take 2 (free_fds (fds s) 0) with
  | [fd_read; fd_write] =>
      o ← pipe_create fails;
      match o with
      | None => mret (inr tt)
      | Some (file_read, file_write) =>
          r ← copy_to_user (le_bytes 4 (Z.of_nat fd_read)) addr;
          r ← match r with
              | inr e => mret (inr e)
              | inl _ => copy_to_user (le_bytes 4 (Z.of_nat fd_write)) addr_fdwrite
              end;
          match r with
          | inr _ => arc_drop file_write;; arc_drop file_read;; mret (inr tt)
          | inl _ =>
              set_fd fd_read (Some file_read);;
              set_fd fd_write (Some file_write);;
              mret (inl 0)
          end
      end
  | _ => mret (inr tt)
  end.

Definition set_cwd (o : option Inode) : FM unit := modify (λ s,
  let i := ist s in
  {| ist := {| fsys := fsys i; umem := umem i; kbuf := kbuf i; imeta := imeta i; idata := idata i;
               ilocked := ilocked i; cwd := o |};
     ftab := ftab s; fds := fds s; fsize := fsize s; npipes := npipes s; pcalls := pcalls s |}).
Definition sys_chdir (path : list Z) : FM sysres :=
  begin_op;;
  o ← on_i (namei path);
  match o with
  | None => end_op;; mret (inr tt)
  | Some inode =>
      on_i (ilock inode);;
      t ← on_i (get_itype (in_index inode));
      on_i (iunlock inode);;
      if decide (t = Directory) then
        s ← get;
        set_cwd (Some inode);;
        match cwd (ist s) with
        | None => panic "assertion failed: old_cwd.is_some()"
        | Some old_cwd => on_i (put old_cwd);; end_op;; mret (inl 0)
        end
      else on_i (put inode);; end_op;; mret (inr tt)
  end.

Definition sys_mknod (path : list Z) (major minor : Z) : FM sysres :=
  if (major <? 0) || (minor <? 0) then mret (inr tt)
  else if (2 ^ 16 <=? major) || (2 ^ 16 <=? minor) then mret (inr tt)
  else
    begin_op;;
    o ← on_i (create path Block.Device major minor true);
    match o with
    | Some inode => on_i (put inode);; end_op;; mret (inl 0)
    | None => end_op;; mret (inr tt)
    end.

Definition sys_mkdir (path : list Z) : FM sysres :=
  begin_op;;
  o ← on_i (create path Directory 0 0 false);
  match o with
  | Some inode => on_i (put inode);; end_op;; mret (inl 0)
  | None => end_op;; mret (inr tt)
  end.

Definition sys_unlink (path : list Z) : FM sysres :=
  begin_op;;
  '(o, name) ← on_i (namei_parent path name_empty);
  match o with
  | None => end_op;; mret (inr tt)
  | Some dir_inode =>
      on_i (ilock dir_inode);;
      ret ← on_i (dir_unlink (in_index dir_inode) name);
      on_i (iunlock dir_inode);;
      on_i (put dir_inode);;
      end_op;;
      mret (match ret with inl _ => inl 0 | inr _ => inr tt end)
  end.

Definition revert_link (inode : Inode) : FM unit :=
  on_i (ilock inode);;
  on_i (unlink (in_index inode));;
  on_i (update (in_index inode));;
  on_i (iunlock inode);;
  on_i (put inode);;
  end_op.
(** What goes out of scope at an early [return] is dropped there, after the
    [LOG.end_op] before it. *)
Definition sys_link (old_path new_path : list Z) : FM sysres :=
  begin_op;;
  o ← on_i (namei old_path);
  match o with
  | None => end_op;; mret (inr tt)
  | Some old_inode =>
      let i := in_index old_inode in
      on_i (ilock old_inode);;
      '(old_dev, old_inum) ← on_i (get_dev_inum i);
      t ← on_i (get_itype i);
      if decide (t = Directory) then
        end_op;;
        on_i (iunlock old_inode);;
        on_i (put old_inode);;
        mret (inr tt)
      else
        on_i (link i);;
        on_i (update i);;
        on_i (iunlock old_inode);;
        '(o, name) ← on_i (namei_parent new_path name_empty);
        match o with
        | None => revert_link old_inode;; mret (inr tt)
        | Some new_inode =>
            on_i (ilock new_inode);;
            '(dev, _) ← on_i (get_dev_inum (in_index new_inode));
            r ← (if negb (dev =? old_dev) then mret (inr tt)
                 else on_i (dir_link (in_index new_inode) name old_inum));
            match r with
            | inr _ =>
                revert_link old_inode;;
                on_i (iunlock new_inode);;
                on_i (put new_inode);;
                mret (inr tt)
            | inl _ =>
                on_i (iunlock new_inode);;
                on_i (put new_inode);;
                on_i (put old_inode);;
                end_op;;
                mret (inl 0)
            end
        end
  end.
End ops.
Arguments fstate D U : clear implicits.

(** * What the file calls ask of the log *)

Definition writes (t : list jev) : Prop := ∃ ws, t = JWrite <$> ws.
(** One transaction, and a sequence of them. *)
Definition tx (ws : list Z) : list jev := JBegin :: (JWrite <$> ws) ++ [JEnd].
Definition txs (t : list jev) : Prop := ∃ l, t = concat (tx <$> l).
(** What is left of an open transaction, and what [P] says after it. *)
Definition closing (P : list jev → Prop) (t : list jev) : Prop := ∃ ws u, t = (JWrite <$> ws) ++ JEnd :: u ∧ P u.

(** [traced tr P m]: every run of [m] adds a trace in [P]. *)
Definition traced {S A} (tr : S → list jev) (P : list jev → Prop) (m : M S A) : Prop :=
  ∀ s a s', m s = Done (a, s') → ∃ t, tr s' = tr s ++ t ∧ P t.

(** What one call of [begin_op], of [end_op], and code that asks nothing add. *)
Definition opens (t : list jev) : Prop := t = [JBegin].
Definition closes (t : list jev) : Prop := t = [JEnd].
Definition silent (t : list jev) : Prop := t = [].

Lemma silent_nil : silent [].
Proof. done. Qed.
Lemma silent_app t u : silent t → silent u → silent (t ++ u).
Proof. by intros -> ->. Qed.
Lemma writes_nil : writes [].
Proof. by exists []. Qed.
Lemma writes_app t u : writes t → writes u → writes (t ++ u).
Proof. intros [a ->] [b ->]. exists (a ++ b). by rewrite fmap_app. Qed.
Lemma txs_nil : txs [].
Proof. by exists []. Qed.
Lemma txs_app t u : txs t → txs u → txs (t ++ u).
Proof. intros [a ->] [b ->]. exists (a ++ b). by rewrite fmap_app, concat_app. Qed.
Lemma closing_app P t u : writes t → closing P u → closing P (t ++ u).
Proof. intros [a ->] (b & x & -> & Hx). exists (a ++ b), x. by rewrite fmap_app, <- app_assoc. Qed.
Lemma txs_begin u : closing txs u → txs (JBegin :: u).
Proof.
  intros (ws & x & -> & l & ->). exists (ws :: l). cbn [fmap list_fmap concat]. unfold tx at 2. rewrite <- app_comm_cons, <- app_assoc. done.
Qed.
Lemma closing_end (P : list jev → Prop) u : P u → closing P (JEnd :: u).
Proof. intros Hu. by exists [], u. Qed.

Section traces.
Context {S : Type} (tr : S → list jev).

Lemma traced_bind {A B} (P Q R : list jev → Prop) (m : M S A) (f : A → M S B) :
  (∀ t u, P t → Q u → R (t ++ u)) → traced tr P m → (∀ a, traced tr Q (f a)) → traced tr R (m ≫= f).
Proof.
  intros HR Hm Hf s b s' E. mbind_inv E as a s1 E1 E2. destruct (Hm _ _ _ E1) as (t & Et & Ht).
  destruct (Hf _ _ _ _ E2) as (u & Eu & Hu). exists (t ++ u). rewrite Eu, Et, app_assoc. auto.
Qed.
Lemma traced_silent {A} P (m : M S A) : P [] → (∀ s a s', m s = Done (a, s') → tr s' = tr s) → traced tr P m.
Proof. intros HP Hm s a s' E. exists []. rewrite app_nil_r. by apply Hm in E. Qed.
Lemma traced_ret {A} P (a : A) : P [] → traced tr P (mret a : M S A).
Proof. intros HP. apply traced_silent; [done|]. by intros s x s' [= <- <-]. Qed.
Lemma traced_get P : P [] → traced tr P (get : M S S).
Proof. intros HP. apply traced_silent; [done|]. by intros s x s' [= <- <-]. Qed.
Lemma traced_gets {A} P (f : S → A) : P [] → traced tr P (gets f : M S A).
Proof. intros HP. apply traced_silent; [done|]. by intros s x s' [= <- <-]. Qed.
Lemma traced_panic {A} P why : traced tr P (panic why : M S A).
Proof. by intros s x s'. Qed.
Lemma traced_unwrap {A} P (o : option A) why : P [] → traced tr P (unwrap o why : M S A).
Proof. destruct o; [apply traced_ret|intros; apply traced_panic]. Qed.
Lemma traced_lift {A} P (o : outcome A) : P [] → traced tr P (lift o : M S A).
Proof. intros HP. apply traced_silent; [done|]. intros s x s'. unfold lift. destruct o; [by intros [= _ <-]|done]. Qed.
Lemma traced_assert P b why : P [] → traced tr P (assertM b why : M S unit).
Proof. destruct b; [apply traced_ret|intros; apply traced_panic]. Qed.
Lemma traced_for_range n i (f : Z → M S unit) : (∀ j, traced tr writes (f j)) → traced tr writes (for_range n i f).
Proof.
  intros Hf. revert i. induction n as [|n IH]; intros i; cbn [for_range]; [apply traced_ret, writes_nil|].
  apply (traced_bind writes writes); [apply writes_app|apply Hf|]. intros _. apply IH.
Qed.
Lemma traced_for_ret {A R} (l : list A) (f : A → M S (option R)) :
  (∀ x, traced tr writes (f x)) → traced tr writes (for_ret l f).
Proof.
  intros Hf. induction l as [|x l IH]; cbn [for_ret]; [apply traced_ret, writes_nil|].
  apply (traced_bind writes writes); [apply writes_app|apply Hf|]. intros [r|]; [apply traced_ret, writes_nil|apply IH].
Qed.
(** Transactions: [opens] and [closes] are what [begin_op] and [end_op] add. *)
Lemma begin_then {A} (m : M S unit) (f : unit → M S A) :
  traced tr opens m → (∀ u, traced tr (closing txs) (f u)) → traced tr txs (m ≫= f).
Proof. apply traced_bind. intros t u ->. apply txs_begin. Qed.
Lemma end_then {A} P (m : M S unit) (f : unit → M S A) :
  traced tr closes m → (∀ u, traced tr P (f u)) → traced tr (closing P) (m ≫= f).
Proof. apply traced_bind. intros t u ->. apply closing_end. Qed.
Lemma end_last (P : list jev → Prop) (m : M S unit) : traced tr closes m → P [] → traced tr (closing P) m.
Proof. intros Hm HP s a s' E. destruct (Hm _ _ _ E) as (t & Et & ->). exists [JEnd]. split; [done|]. by apply closing_end. Qed.
Lemma writes_then {A B} P (m : M S A) (f : A → M S B) :
  traced tr writes m → (∀ a, traced tr (closing P) (f a)) → traced tr (closing P) (m ≫= f).
Proof. apply traced_bind, closing_app. Qed.
Lemma closing_then {A B} (m : M S A) (f : A → M S B) :
  traced tr (closing writes) m → (∀ a, traced tr writes (f a)) → traced tr (closing writes) (m ≫= f).
Proof.
  apply traced_bind. intros t u (ws & x & -> & Hx) Hu. exists ws, (x ++ u). rewrite <- app_assoc. split; [done|].
  by apply writes_app.
Qed.
Lemma silent_then {A B} P (m : M S A) (f : A → M S B) :
  traced tr silent m → (∀ a, traced tr P (f a)) → traced tr P (m ≫= f).
Proof. apply traced_bind. by intros t u ->. Qed.
Lemma silent_last {A} P (m : M S A) : P [] → traced tr silent m → traced tr P m.
Proof. intros HP Hm s a s' E. destruct (Hm _ _ _ E) as (t & Et & ->). by exists []. Qed.
Lemma txs_then {A B} (m : M S A) (f : A → M S B) :
  traced tr txs m → (∀ a, traced tr txs (f a)) → traced tr txs (m ≫= f).
Proof. apply traced_bind, txs_app. Qed.
End traces.

Create HintDb traces.
#[export] Hint Resolve silent_nil writes_nil txs_nil traced_ret traced_get traced_gets traced_panic traced_unwrap traced_lift
  traced_assert : traces.
(** Sequences of writes: one step of the code at a time. *)
Ltac writes_step :=
  first [ progress intros
        | solve [auto 3 with traces]
        | apply (traced_bind _ writes writes); [exact writes_app| |]
        | apply traced_for_range | apply traced_for_ret | case_match ].
Ltac writes := repeat writes_step.

Section istate_traces.
Context {D U : Type} `{!BlockStore D, !Journal D, !JournalLaws D, !UserMem U, !BitField}.
Definition ftr (s : fsd D) : list jev := st_trace (store s).
Definition itr (s : istate D U) : list jev := ftr (fsys s).

Lemma traced_on_store {A} P (m : M D A) : traced st_trace P m → traced ftr P (on_store m).
Proof.
  intros Hm s a s'. unfold on_store. destruct (m (store s)) as [[x d]|] eqn:E; [|done]. intros [= -> <-]. by apply Hm in E.
Qed.
Lemma traced_on_fs {A} P (m : M (fsd D) A) : traced ftr P m → traced itr P (on_fs m).
Proof.
  intros Hm s a s'. unfold on_fs. destruct (m (fsys s)) as [[x d]|] eqn:E; [|done]. intros [= -> <-]. by apply Hm in E.
Qed.
Lemma traced_on_user {A} P (m : M U A) : P [] → traced itr P (on_user m : M (istate D U) A).
Proof.
  intros HP. apply traced_silent; [done|]. intros s a s'. unfold on_user. destruct (m (umem s)) as [[x d]|]; [|done].
  by intros [= _ <-].
Qed.
Lemma traced_set_kbuf P l : P [] → traced itr P (set_kbuf (D := D) (U := U) l).
Proof. intros HP. apply traced_silent; [done|]. by intros s a s' [= _ <-]. Qed.
Lemma traced_set_meta P l : P [] → traced itr P (set_meta (D := D) (U := U) l).
Proof. intros HP. apply traced_silent; [done|]. by intros s a s' [= _ <-]. Qed.
Lemma traced_set_data P l : P [] → traced itr P (set_data (D := D) (U := U) l).
Proof. intros HP. apply traced_silent; [done|]. by intros s a s' [= _ <-]. Qed.
Lemma traced_set_locked P i b : P [] → traced itr P (set_locked (D := D) (U := U) i b).
Proof. intros HP. apply traced_silent; [done|]. by intros s a s' [= _ <-]. Qed.

Lemma traced_bread P b : P [] → traced ftr P (bread b).
Proof. intros HP. apply traced_on_store, traced_silent; [done|]. intros d a d'. apply jl_bread. Qed.
Lemma traced_bset P b x : P [] → traced ftr P (bset b x).
Proof. intros HP. apply traced_on_store, traced_silent; [done|]. intros d a d'. apply jl_set. Qed.
Lemma traced_bdrop P b : P [] → traced ftr P (bdrop b).
Proof. intros HP. apply traced_on_store, traced_silent; [done|]. intros d a d'. apply jl_drop. Qed.
Lemma traced_log_write b : traced ftr writes (log_write b).
Proof. apply traced_on_store. intros d a d' E. exists [JWrite b]. split; [by eapply jl_log|by exists [b]]. Qed.
Lemma traced_st_begin : traced itr opens (on_fs (on_store st_begin)).
Proof. apply traced_on_fs, traced_on_store. intros d a d' E. exists [JBegin]. split; [by eapply jl_begin|done]. Qed.
Lemma traced_st_end : traced itr closes (on_fs (on_store st_end)).
Proof. apply traced_on_fs, traced_on_store. intros d a d' E. exists [JEnd]. split; [by eapply jl_end|done]. Qed.
End istate_traces.
#[export] Hint Resolve traced_on_fs traced_on_user traced_set_kbuf traced_set_meta traced_set_data traced_set_locked
  traced_bread traced_bset traced_bdrop traced_log_write : traces.
#[export] Hint Extern 1 (traced itr opens _) => apply traced_st_begin : traces.
#[export] Hint Extern 1 (traced itr closes _) => apply traced_st_end : traces.

Section fs_traces.
Context {D U : Type} `{!BlockStore D, !Journal D, !JournalLaws D, !UserMem U, !BitField}.
#[local] Abbreviation W m := (traced (itr (D := D) (U := U)) writes m).

Lemma w_sb_read : traced (ftr (D := D)) writes sb_read.
Proof. unfold sb_read. writes. Qed.
#[local] Hint Resolve w_sb_read : traces.
Lemma w_locate_inode i : traced (ftr (D := D)) writes (locate_inode i).
Proof. unfold locate_inode. writes. Qed.
Lemma w_bitmap_blockno b : traced (ftr (D := D)) writes (bitmap_blockno b).
Proof. unfold bitmap_blockno. writes. Qed.
#[local] Hint Resolve w_locate_inode w_bitmap_blockno : traces.
Lemma w_bm_alloc : traced (ftr (D := D)) writes bm_alloc.
Proof. unfold bm_alloc, get_size. writes. Qed.
Lemma w_bm_free b : traced (ftr (D := D)) writes (bm_free b).
Proof. unfold bm_free. writes. Qed.
Lemma w_inode_alloc t : traced (ftr (D := D)) writes (inode_alloc t).
Proof. unfold inode_alloc, inode_size. writes. Qed.
#[local] Hint Resolve w_bm_alloc w_bm_free w_inode_alloc : traces.

Lemma w_get_data i : W (get_data i).
Proof. unfold get_data. writes. Qed.
#[local] Hint Resolve w_get_data : traces.
Lemma w_get_dinode i : W (get_dinode i).
Proof. unfold get_dinode. writes. Qed.
Lemma w_upd_dinode i f : W (upd_dinode i f).
Proof. unfold upd_dinode. writes. Qed.
Lemma w_get_valid i : W (get_valid i).
Proof. unfold get_valid. writes. Qed.
#[local] Hint Resolve w_get_dinode w_upd_dinode w_get_valid : traces.
Lemma w_update i : W (update i).
Proof. unfold update. writes. Qed.
#[local] Hint Resolve w_update : traces.
Lemma w_truncate i : W (truncate i).
Proof. unfold truncate. writes. Qed.
Lemma w_map_blockno i b : W (map_blockno i b).
Proof. unfold map_blockno. writes. Qed.
Lemma w_addr_copy_out a x n : W (addr_copy_out a x n).
Proof. unfold addr_copy_out. writes. Qed.
Lemma w_addr_copy_in a n : W (addr_copy_in a n).
Proof. unfold addr_copy_in. writes. Qed.
#[local] Hint Resolve w_truncate w_map_blockno w_addr_copy_out w_addr_copy_in : traces.
Lemma w_iread_loop n i dst c b o r : W (iread_loop n i dst c b o r).
Proof.
  revert dst c b o r. induction n as [|n IH]; intros dst c b o r; cbn [iread_loop]; [writes|].
  case_match; [|writes]. writes; apply IH.
Qed.
Lemma w_iwrite_loop n i src c b o r : W (iwrite_loop n i src c b o r).
Proof.
  revert src c b o r. induction n as [|n IH]; intros src c b o r; cbn [iwrite_loop]; [writes|].
  case_match; [|writes]. writes; apply IH.
Qed.
#[local] Hint Resolve w_iread_loop w_iwrite_loop : traces.
Lemma w_iread i a o c : W (iread i a o c).
Proof. unfold iread. writes. Qed.
#[local] Hint Resolve w_iread : traces.
Lemma w_try_iread i a o c : W (try_iread i a o c).
Proof. unfold try_iread. writes. Qed.
Lemma w_try_iwrite i a o c : W (try_iwrite i a o c).
Proof. unfold try_iwrite. writes. Qed.
#[local] Hint Resolve w_try_iwrite : traces.
Lemma w_iwrite i a o c : W (iwrite i a o c).
Proof. unfold iwrite. writes. Qed.
#[local] Hint Resolve w_iwrite : traces.
Lemma w_istat i : W (istat i).
Proof. unfold istat. writes. Qed.
Lemma w_get_itype i : W (get_itype i).
Proof. unfold get_itype. writes. Qed.
Lemma w_get_devnum i : W (get_devnum i).
Proof. unfold get_devnum. writes. Qed.
Lemma w_link i : W (link i).
Proof. unfold link. writes. Qed.
Lemma w_unlink i : W (unlink i).
Proof. unfold unlink. writes. Qed.
#[local] Hint Resolve w_link w_unlink : traces.

Lemma w_get_meta i : W (get_meta i).
Proof. unfold get_meta. writes. Qed.
Lemma w_upd_refs i r : W (upd_refs i r).
Proof. unfold upd_refs. writes. Qed.
#[local] Hint Resolve w_get_meta w_upd_refs : traces.
Lemma w_iget d i : W (iget d i).
Proof. unfold iget. writes. Qed.
Lemma w_idup i : W (idup i).
Proof. unfold idup. writes. Qed.
Lemma w_data_lock i : W (data_lock i).
Proof. unfold data_lock. writes. Qed.
Lemma w_data_unlock i : W (data_unlock i).
Proof. unfold data_unlock. writes. Qed.
#[local] Hint Resolve w_iget w_idup w_data_lock w_data_unlock : traces.
Lemma w_put i : W (put i).
Proof. unfold put. writes. Qed.
Lemma w_ilock i : W (ilock i).
Proof. unfold ilock. writes. Qed.
Lemma w_iunlock i : W (iunlock i).
Proof. unfold iunlock. writes. Qed.
#[local] Hint Resolve w_put w_ilock w_iunlock : traces.
Lemma w_read_entry i o : W (read_entry i o).
Proof. unfold read_entry. writes. Qed.
Lemma w_write_entry i o d : W (write_entry i o d).
Proof. unfold write_entry. writes. Qed.
#[local] Hint Resolve w_read_entry w_write_entry : traces.
Lemma w_dir_lookup i n b : W (dir_lookup i n b).
Proof. unfold dir_lookup. writes. Qed.
#[local] Hint Resolve w_dir_lookup : traces.
Lemma w_dir_link i n b : W (dir_link i n b).
Proof. unfold dir_link. writes. Qed.
Lemma w_dir_is_empty i : W (dir_is_empty i).
Proof. unfold dir_is_empty. writes. Qed.
#[local] Hint Resolve w_dir_link w_dir_is_empty : traces.
Lemma w_dir_unlink i n : W (dir_unlink i n).
Proof. unfold dir_unlink. writes. Qed.
Lemma w_namex_loop n p b i c nm : W (namex_loop n p b i c nm).
Proof.
  revert i c nm. induction n as [|n IH]; intros i c nm; cbn [namex_loop]; writes; apply IH.
Qed.
#[local] Hint Resolve w_namex_loop : traces.
Lemma w_namex p nm b : W (namex p nm b).
Proof. unfold namex. writes. Qed.
#[local] Hint Resolve w_namex : traces.
Lemma w_namei p : W (namei p).
Proof. unfold namei. writes. Qed.
Lemma w_namei_parent p nm : W (namei_parent p nm).
Proof. apply w_namex. Qed.
#[local] Hint Resolve w_namei w_namei_parent : traces.
Lemma w_create p t ma mi b : W (create p t ma mi b).
Proof. unfold create. writes. Qed.
End fs_traces.
#[export] Hint Resolve w_get_dinode w_update w_truncate w_try_iread w_try_iwrite w_istat w_get_itype w_get_devnum
  w_link w_unlink w_get_valid w_put w_ilock w_iunlock w_dir_link w_dir_unlink w_namei w_namei_parent w_create : traces.

Ltac silent_step :=
  first [ progress intros
        | solve [auto 4 with traces]
        | apply (traced_bind _ silent silent); [exact silent_app| |]
        | case_match ].
Ltac silent := repeat silent_step.

Section file_traces.
Context {D U : Type} `{!BlockStore D, !Journal D, !JournalLaws D, !UserMem U, !BitField}.
Definition trace (s : fstate D U) : list jev := itr (ist s).

Lemma traced_on_i {A} P (m : M (istate D U) A) : traced itr P m → traced trace P (on_i m).
Proof.
  intros Hm s a s'. unfold on_i. destruct (m (ist s)) as [[x d]|] eqn:E; [|done]. intros [= -> <-]. by apply Hm in E.
Qed.
Lemma traced_begin : traced trace opens begin_op.
Proof. apply traced_on_i, traced_st_begin. Qed.
Lemma traced_end : traced trace closes end_op.
Proof. apply traced_on_i, traced_st_end. Qed.
Lemma traced_modify P (f : fstate D U → fstate D U) : P [] → (∀ s, trace (f s) = trace s) → traced trace P (modify f).
Proof. intros HP Hf. apply traced_silent; [done|]. intros s a s' [= _ <-]. apply Hf. Qed.
End file_traces.
#[export] Hint Resolve traced_on_i : traces.
#[export] Hint Extern 1 (traced trace opens _) => apply traced_begin : traces.
#[export] Hint Extern 1 (traced trace closes _) => apply traced_end : traces.
#[export] Hint Extern 2 (traced trace _ (modify _)) => (apply traced_modify; [|done]) : traces.

(** Transactions: [begin_op] opens one, [end_op] closes it. *)
Ltac txs_step :=
  first [ progress intros
        | apply begin_then; [solve [auto with traces]|] | apply end_then; [solve [auto with traces]|]
        | apply end_last; [solve [auto with traces]|solve [auto with traces]]
        | solve [auto 4 with traces]
        | apply silent_then; [solve [silent]|]
        | apply txs_then; [solve [auto 4 with traces]|]
        | apply writes_then; [solve [writes]|]
        | apply silent_last; [exact txs_nil|solve [silent]]
        | case_match ].
Ltac transactions := repeat txs_step.

Section call_traces.
Context {D U : Type} `{!BlockStore D, !Journal D, !JournalLaws D, !UserMem U, !BitField}.
#[local] Abbreviation S m := (traced (trace (D := D) (U := U)) silent m).
#[local] Abbreviation T m := (traced (trace (D := D) (U := U)) txs m).

Lemma s_set_ftab P f : P [] → traced (trace (D := D) (U := U)) P (set_ftab f).
Proof. intros. by apply traced_modify. Qed.
Lemma s_get_file P h : P [] → traced (trace (D := D) (U := U)) P (get_file h).
Proof.
  intros HP. apply traced_silent; [done|]. intros s a s'. unfold get_file. run_simpl. case_match; [|done]. by intros [= _ <-].
Qed.
#[local] Hint Resolve s_set_ftab s_get_file : traces.
Lemma s_arc_new f : S (arc_new f).
Proof. unfold arc_new. silent. Qed.
Lemma s_arc_clone h : S (arc_clone h).
Proof. unfold arc_clone. silent. Qed.
Lemma s_set_fd fd h : S (set_fd fd h).
Proof. unfold set_fd. silent. Qed.
Lemma s_pipe_call c : S (pipe_call c).
Proof. unfold pipe_call. silent. Qed.
Lemma s_arg_fd fd : S (arg_fd fd).
Proof. unfold arg_fd. silent. Qed.
Lemma s_alloc_fd : S alloc_fd.
Proof. unfold alloc_fd. silent. Qed.
Lemma s_user_addr_ok a : S (user_addr_ok a).
Proof. unfold user_addr_ok. silent. Qed.
Lemma s_copy_to_user x a : S (copy_to_user x a).
Proof. unfold copy_to_user. silent. Qed.
#[local] Hint Resolve s_arc_new s_arc_clone s_set_fd s_pipe_call s_arg_fd s_alloc_fd s_user_addr_ok s_copy_to_user : traces.
Lemma w_inode_of o : traced (trace (D := D) (U := U)) writes (inode_of o).
Proof. unfold inode_of. writes. Qed.
Lemma w_get_offset h : traced (trace (D := D) (U := U)) writes (get_offset h).
Proof. unfold get_offset. writes. Qed.
Lemma w_set_offset h o : traced (trace (D := D) (U := U)) writes (set_offset h o).
Proof. unfold set_offset. writes. Qed.
#[local] Hint Resolve w_inode_of w_get_offset w_set_offset : traces.

Lemma t_open path flags : T (open path flags).
Proof. unfold open. transactions. Qed.
Lemma t_fwrite_loop l h o addr count : T (fwrite_loop l h o addr count).
Proof.
  revert addr. induction l as [|i l IH]; intros addr; cbn [fwrite_loop]; [transactions|].
  transactions; apply IH.
Qed.
#[local] Hint Resolve t_open t_fwrite_loop : traces.
Lemma t_fwrite h addr count : T (fwrite h addr count).
Proof. unfold fwrite, device. transactions. Qed.
Lemma t_file_drop f : T (file_drop f).
Proof. unfold file_drop. transactions. Qed.
#[local] Hint Resolve t_fwrite t_file_drop : traces.
Lemma t_arc_drop h : T (arc_drop h).
Proof. unfold arc_drop. transactions. Qed.
#[local] Hint Resolve t_arc_drop : traces.

Lemma t_sys_write fd addr count : T (sys_write fd addr count).
Proof. unfold sys_write. transactions. Qed.
Lemma t_sys_open path flags : T (sys_open path flags).
Proof. unfold sys_open. transactions. Qed.
Lemma t_sys_close fd : T (sys_close fd).
Proof. unfold sys_close. transactions. Qed.
Lemma t_sys_dup fd : T (sys_dup fd).
Proof. unfold sys_dup. transactions. Qed.
Lemma t_pipe_create fails : T (pipe_create fails).
Proof. unfold pipe_create. transactions. Qed.
#[local] Hint Resolve t_pipe_create : traces.
Lemma t_sys_pipe fails addr : T (sys_pipe fails addr).
Proof. unfold sys_pipe. transactions. Qed.
Lemma w_set_cwd o : traced (trace (D := D) (U := U)) writes (set_cwd o).
Proof. unfold set_cwd. apply traced_modify; [apply writes_nil|done]. Qed.
#[local] Hint Resolve w_set_cwd : traces.
Lemma t_sys_chdir path : T (sys_chdir path).
Proof. unfold sys_chdir. transactions. Qed.
Lemma t_sys_mknod path ma mi : T (sys_mknod path ma mi).
Proof. unfold sys_mknod. transactions. Qed.
Lemma t_sys_mkdir path : T (sys_mkdir path).
Proof. unfold sys_mkdir. transactions. Qed.
Lemma t_sys_unlink path : T (sys_unlink path).
Proof. unfold sys_unlink. transactions. Qed.

(** [sys_link] drops inodes after its transaction on two of its error paths. *)
Lemma revert_link_closing i : traced (trace (D := D) (U := U)) (closing writes) (revert_link i).
Proof. unfold revert_link. repeat (apply writes_then; [solve [writes]|intros]). apply end_last; [apply traced_end|apply writes_nil]. Qed.
Lemma sys_link_closing old new s r s' : sys_link (D := D) (U := U) old new s = Done (r, s') →
  ∃ ws u, trace s' = trace s ++ tx ws ++ (JWrite <$> u).
Proof.
  unfold sys_link. intros E. mbind_inv E as u s1 E1 E. destruct (traced_begin _ _ _ E1) as (t & Et & ->).
  revert E. match goal with |- ?m s1 = _ → _ => assert (traced (trace (D := D) (U := U)) (closing writes) m) as Hc end.
  { repeat first [ progress intros | apply end_then; [apply traced_end|]; intros; solve [writes]
      | apply closing_then; [apply revert_link_closing|intros; solve [writes]]
      | apply writes_then; [solve [writes]|] | case_match ]. }
  intros E. destruct (Hc _ _ _ E) as (t & Et' & ws & x & -> & u' & ->). exists ws, u'.
  rewrite Et', Et. unfold tx. cbn. by rewrite <- !app_assoc.
Qed.
End call_traces.

(** * Calls *)
Inductive call :=
| COpen (path : list Z) (flags : Z) | CRead (fd addr count : Z) | CWrite (fd addr count : Z) | CClose (fd : Z)
| CDup (fd : Z) | CPipe (fails : option nat) (addr : Z) | CFstat (pad : list Z) (fd addr : Z)
| CChdir (path : list Z) | CMknod (path : list Z) (major minor : Z) | CMkdir (path : list Z)
| CUnlink (path : list Z) | CLink (old new : list Z).

Section calls.
Context {D U : Type} `{!BlockStore D, !Journal D, !UserMem U, !BitField}.

Definition run_call (c : call) : M (fstate D U) unit :=
  match c with
  | COpen path flags => sys_open path flags;; mret tt
  | CRead fd addr count => sys_read fd addr count;; mret tt
  | CWrite fd addr count => sys_write fd addr count;; mret tt
  | CClose fd => sys_close fd;; mret tt
  | CDup fd => sys_dup fd;; mret tt
  | CPipe fails addr => sys_pipe fails addr;; mret tt
  | CFstat pad fd addr => sys_fstat pad fd addr;; mret tt
  | CChdir path => sys_chdir path;; mret tt
  | CMknod path major minor => sys_mknod path major minor;; mret tt
  | CMkdir path => sys_mkdir path;; mret tt
  | CUnlink path => sys_unlink path;; mret tt
  | CLink old new => sys_link old new;; mret tt
  end.
Fixpoint run_calls (cs : list call) : M (fstate D U) unit :=
  match cs with [] => mret tt | c :: cs => run_call c;; run_calls cs end.
End calls.

Section call_theorems.
Context {D U : Type} `{!BlockStore D, !Journal D, !JournalLaws D, !UserMem U, !BitField}.

Lemma s_sys_fstat pad fd addr : traced (trace (D := D) (U := U)) silent (sys_fstat pad fd addr).
Proof.
  assert (∀ i, traced (itr (D := D) (U := U)) silent (ilock i)) as Hl.
  { intros i. unfold ilock, data_lock, get_data, locate_inode, sb_read.
    repeat first [silent_step | apply traced_on_fs; silent]. }
  assert (∀ i, traced (itr (D := D) (U := U)) silent (iunlock i)) as Hu.
  { intros i. unfold iunlock, data_unlock. silent. }
  assert (∀ i, traced (itr (D := D) (U := U)) silent (istat i)) as Hs.
  { intros i. unfold istat, get_valid, get_dinode, get_data. silent. }
  pose proof (s_arg_fd (D := D) (U := U)). pose proof (s_copy_to_user (D := D) (U := U)). pose proof (λ h, s_get_file (D := D) (U := U) silent h silent_nil).
  unfold sys_fstat, fstat, inode_of. silent.
Qed.

Definition reads_or_links (c : call) : bool :=
  match c with CRead _ _ _ | CLink _ _ => true | _ => false end.

End call_theorems.

(** * Descriptors and files *)

(** [counted t H]: [H] are the handles there are, a list with repetitions; the
    table has every file of [H], with as many handles as it counts, and no
    other. *)
Definition handles_of (h : nat) (H : list nat) : list nat := filter (λ x, x = h) H.
Definition counted (t : list (option (File * Z))) (H : list nat) : Prop :=
  ∀ h, match mjoin (t !! h) with
       | Some (_, n) => n = Z.of_nat (length (handles_of h H)) ∧ h ∈ H
       | None => h ∉ H
       end.

Lemma handles_cons h x H :
  length (handles_of h (x :: H)) = ((if decide (x = h) then 1 else 0) + length (handles_of h H))%nat.
Proof. unfold handles_of. rewrite filter_cons. by destruct (decide _). Qed.

Lemma handles_none h H : h ∉ H → length (handles_of h H) = 0%nat.
Proof.
  intros Hn. unfold handles_of. destruct (filter _ _) as [|y l] eqn:E; [done|].
  assert (y ∈ y :: l) as Hy by (by left). rewrite <- E in Hy. apply list_elem_of_filter in Hy as [-> ?]. done.
Qed.

Lemma counted_perm t H H' : H ≡ₚ H' → counted t H → counted t H'.
Proof.
  intros Hp Hc h. specialize (Hc h). destruct (mjoin (t !! h)) as [[f n]|].
  - destruct Hc as [-> Hin]. split; [unfold handles_of; by rewrite Hp|by rewrite <- Hp].
  - by rewrite <- Hp.
Qed.

Lemma counted_new t H f : counted t H → counted (t ++ [Some (f, 1)]) (length t :: H).
Proof.
  intros Hc h. destruct (decide (h = length t)) as [->|Hne].
  - rewrite lookup_app_r, Nat.sub_diag by done. cbn [lookup list_lookup mjoin option_join].
    assert (length t ∉ H) as Hn by (specialize (Hc (length t)); by rewrite lookup_ge_None_2 in Hc).
    rewrite handles_cons, decide_True, handles_none by done. split; [done|by left].
  - specialize (Hc h). assert ((t ++ [Some (f, 1)]) !! h = t !! h ∨ t !! h = None ∧ (t ++ [Some (f, 1)]) !! h = None) as Hl.
    { destruct (decide (h < length t)%nat); [left; by apply lookup_app_l|]. right.
      split; apply lookup_ge_None_2; rewrite ?length_app; cbn [length]; lia. }
    destruct Hl as [-> | [E ->]].
    + destruct (mjoin (t !! h)) as [[g n]|]; [|by rewrite not_elem_of_cons].
      rewrite handles_cons, decide_False by done. destruct Hc. split; [done|by right].
    + rewrite E in Hc. cbn in Hc |- *. by rewrite not_elem_of_cons.
Qed.

Lemma mjoin_lookup {A} (t : list (option A)) h x : mjoin (t !! h) = Some x → t !! h = Some (Some x).
Proof. destruct (t !! h) as [[y|]|]; [by intros [= ->]|done|done]. Qed.

Lemma counted_set t H H' h f n :
  counted t H → is_Some (mjoin (t !! h)) → n = Z.of_nat (length (handles_of h H')) → h ∈ H' →
  (∀ x, x ≠ h → length (handles_of x H') = length (handles_of x H) ∧ (x ∈ H' ↔ x ∈ H)) →
  counted (<[h := Some (f, n)]> t) H'.
Proof.
  intros Hc [x Hx] Hn Hin Hoth y. apply mjoin_lookup in Hx. destruct (decide (y = h)) as [->|Hne].
  - rewrite list_lookup_insert_eq by (by eapply lookup_lt_Some). cbn. done.
  - rewrite list_lookup_insert_ne by done. specialize (Hc y). destruct (Hoth y Hne) as [Hl Hm].
    destruct (mjoin (t !! y)) as [[g k]|]; [rewrite Hl; tauto|tauto].
Qed.

Lemma counted_clone t H h f n : counted t H → mjoin (t !! h) = Some (f, n) →
  counted (<[h := Some (f, n + 1)]> t) (h :: H).
Proof.
  intros Hc Hh. pose proof (Hc h) as Hch. rewrite Hh in Hch. destruct Hch as [-> Hin].
  eapply counted_set; [done|by eexists| |by left|].
  - rewrite handles_cons, decide_True by done. lia.
  - intros x Hx. rewrite handles_cons, decide_False by done. split; [done|]. rewrite elem_of_cons. naive_solver.
Qed.

Lemma handles_in h H : h ∈ H → length (handles_of h H) ≠ 0%nat.
Proof.
  intros Hin E. apply length_zero_iff_nil in E. assert (h ∈ handles_of h H) as Hh by (by apply list_elem_of_filter).
  rewrite E in Hh. by apply elem_of_nil in Hh.
Qed.

Lemma counted_drop t H h f n : counted t (h :: H) → mjoin (t !! h) = Some (f, n) →
  counted (if n =? 1 then <[h := None]> t else <[h := Some (f, n - 1)]> t) H.
Proof.
  intros Hc Hh. pose proof (Hc h) as Hch. rewrite Hh in Hch. destruct Hch as [En _].
  rewrite handles_cons, decide_True in En by done.
  assert (∀ x, x ≠ h → length (handles_of x H) = length (handles_of x (h :: H)) ∧ (x ∈ H ↔ x ∈ h :: H)) as Hoth.
  { intros x Hx. rewrite handles_cons, decide_False by done. split; [done|]. rewrite elem_of_cons. naive_solver. }
  destruct (Z.eqb_spec n 1) as [E1|E1].
  - assert (h ∉ H) as Hn by (intros Hin; apply handles_in in Hin; lia).
    intros y. apply mjoin_lookup in Hh. destruct (decide (y = h)) as [->|Hne].
    + by rewrite list_lookup_insert_eq by (by eapply lookup_lt_Some).
    + rewrite list_lookup_insert_ne by done. specialize (Hc y). destruct (Hoth y Hne) as [Hl Hm].
      destruct (mjoin (t !! y)) as [[g k]|]; [rewrite Hl|]; tauto.
  - eapply counted_set; [done|by eexists|lia| |done].
    destruct (decide (h ∈ H)) as [|Hn]; [done|]. apply handles_none in Hn. lia.
Qed.

Definition counts (t : list (option (File * Z))) : list (option Z) := (λ o, option_map snd o) <$> t.
Lemma counted_ext t t' H : counts t' = counts t → counted t H → counted t' H.
Proof.
  intros E Hc h. specialize (Hc h). apply (f_equal (.!! h)) in E. unfold counts in E. rewrite !list_lookup_fmap in E.
  destruct (t !! h) as [[[f n]|]|], (t' !! h) as [[[g k]|]|]; cbn in *; congruence.
Qed.

Section handles.
Context {D U : Type} `{!BlockStore D, !Journal D, !UserMem U} `{BF : BitField}.
#[local] Abbreviation FM := (M (fstate D U)).

(** What leaves the descriptors and the counts alone. *)
Definition same_handles (s s' : fstate D U) : Prop := counts (ftab s') = counts (ftab s) ∧ fds s' = fds s.
Definition keeps_handles {A} (m : FM A) : Prop := ∀ s a s', m s = Done (a, s') → same_handles s s'.

Lemma kh_bind {A B} (m : FM A) (f : A → FM B) :
  keeps_handles m → (∀ a, keeps_handles (f a)) → keeps_handles (m ≫= f).
Proof.
  intros Hm Hf s b s' E. mbind_inv E as a s1 E1 E2. destruct (Hm _ _ _ E1) as [H1 H2]. destruct (Hf _ _ _ _ E2) as [H3 H4].
  split; congruence.
Qed.
Lemma kh_ret {A} (a : A) : keeps_handles (mret a).
Proof. by intros s x s' [= _ <-]. Qed.
Lemma kh_get : keeps_handles get.
Proof. by intros s x s' [= _ <-]. Qed.
Lemma kh_panic {A} why : keeps_handles (panic why : FM A).
Proof. by intros s x s'. Qed.
Lemma kh_unwrap {A} (o : option A) why : keeps_handles (unwrap o why).
Proof. destruct o; [apply kh_ret|apply kh_panic]. Qed.
Lemma kh_lift {A} (o : outcome A) : keeps_handles (lift o).
Proof. intros s a s'. unfold lift. destruct o; [by intros [= _ <-]|done]. Qed.
Lemma kh_on_i {A} (m : M (istate D U) A) : keeps_handles (on_i m).
Proof. intros s a s'. unfold on_i. destruct (m (ist s)) as [[x i]|]; [|done]. by intros [= _ <-]. Qed.
Lemma kh_pipe_call c : keeps_handles (pipe_call c).
Proof. by intros s a s' [= _ <-]. Qed.
Lemma kh_set_cwd o : keeps_handles (set_cwd o).
Proof. by intros s a s' [= _ <-]. Qed.
Lemma kh_set_offset h o : keeps_handles (set_offset h o).
Proof.
  intros s a s' [= _ <-]. split; [|done]. cbn [ftab]. unfold counts. apply list_eq. intros i.
  rewrite !list_lookup_fmap. destruct (decide (h = i)) as [<-|].
  - rewrite list_lookup_alter_eq. by destruct (ftab s !! h) as [[[f n]|]|].
  - by rewrite list_lookup_alter_ne.
Qed.
End handles.

Create HintDb handles.
#[export] Hint Resolve kh_ret kh_get kh_panic kh_unwrap kh_lift kh_on_i kh_pipe_call kh_set_cwd kh_set_offset : handles.
Ltac keeps_handles :=
  repeat first [ progress intros | solve [auto with handles] | apply kh_bind | case_match ].

Section counting.
Context {D U : Type} `{!BlockStore D, !Journal D, !UserMem U} `{BF : BitField}.
#[local] Abbreviation FM := (M (fstate D U)).
#[local] Abbreviation K m := (keeps_handles (D := D) (U := U) m).

Lemma kh_begin : K begin_op.
Proof. apply kh_on_i. Qed.
Lemma kh_end : K end_op.
Proof. apply kh_on_i. Qed.
#[local] Hint Resolve kh_begin kh_end : handles.
Lemma kh_get_file h : K (get_file h).
Proof. unfold get_file. keeps_handles. Qed.
#[local] Hint Resolve kh_get_file : handles.
Lemma kh_inode_of o : K (inode_of o).
Proof. unfold inode_of. keeps_handles. Qed.
Lemma kh_get_offset h : K (get_offset h).
Proof. unfold get_offset. keeps_handles. Qed.
Lemma kh_device m : K (device m).
Proof. unfold device. keeps_handles. Qed.
#[local] Hint Resolve kh_inode_of kh_get_offset kh_device : handles.
Lemma kh_fread h a c : K (fread h a c).
Proof. unfold fread. keeps_handles. Qed.
Lemma kh_fwrite_loop l h o a c : K (fwrite_loop l h o a c).
Proof. revert a. induction l as [|i l IH]; intros a; cbn [fwrite_loop]; keeps_handles; apply IH. Qed.
#[local] Hint Resolve kh_fwrite_loop : handles.
Lemma kh_fwrite h a c : K (fwrite h a c).
Proof. unfold fwrite. keeps_handles. Qed.
Lemma kh_fstat h : K (fstat h).
Proof. unfold fstat. keeps_handles. Qed.
Lemma kh_file_drop f : K (file_drop f).
Proof. unfold file_drop. keeps_handles. Qed.
Lemma kh_arg_fd fd : K (arg_fd fd).
Proof. unfold arg_fd. keeps_handles. Qed.
Lemma kh_alloc_fd : K alloc_fd.
Proof. unfold alloc_fd. keeps_handles. Qed.
Lemma kh_user_addr_ok a : K (user_addr_ok a).
Proof. unfold user_addr_ok. keeps_handles. Qed.
Lemma kh_copy_to_user x a : K (copy_to_user x a).
Proof. unfold copy_to_user. keeps_handles. Qed.
Lemma kh_revert_link i : K (revert_link i).
Proof. unfold revert_link. keeps_handles. Qed.
#[local] Hint Resolve kh_fread kh_fwrite kh_fstat kh_file_drop kh_arg_fd kh_alloc_fd kh_user_addr_ok kh_copy_to_user
  kh_revert_link : handles.

(** The calls that only use files. *)
Lemma kh_calls c : match c with COpen _ _ | CClose _ | CDup _ | CPipe _ _ => True | _ => K (run_call c) end.
Proof.
  destruct c; cbn [run_call]; try done; apply kh_bind; try (intros; apply kh_ret);
    unfold sys_read, sys_write, sys_fstat, sys_chdir, sys_mknod, sys_mkdir, sys_unlink, sys_link; keeps_handles.
Qed.

(** The handles of a process with descriptors [l], and of everybody else. *)
Definition live (l : list (option nat)) (others : list nat) : list nat := omap id l ++ others.

Lemma omap_set (l : list (option nat)) fd h : l !! fd = Some None → omap id (<[fd := Some h]> l) ≡ₚ h :: omap id l.
Proof.
  intros E. rewrite <- (take_drop_middle l fd None E) at 2. rewrite insert_take_drop by (by eapply lookup_lt_Some).
  rewrite !omap_app. cbn. by rewrite Permutation_middle.
Qed.
Lemma omap_clear (l : list (option nat)) fd h : l !! fd = Some (Some h) → omap id l ≡ₚ h :: omap id (<[fd := None]> l).
Proof.
  intros E. rewrite <- (take_drop_middle l fd (Some h) E) at 1. rewrite insert_take_drop by (by eapply lookup_lt_Some).
  rewrite !omap_app. cbn. by rewrite Permutation_middle.
Qed.
Lemma free_fds_free (l : list (option nat)) i fd : fd ∈ free_fds l i → (i ≤ fd)%nat ∧ l !! (fd - i)%nat = Some None.
Proof.
  revert i. induction l as [|[h|] l IH]; intros i; cbn [free_fds].
  - by intros ?%elem_of_nil.
  - intros Hin. destruct (IH _ Hin) as [Hle Hl]. split; [lia|]. by replace (fd - i)%nat with (S (fd - S i)) by lia.
  - intros [->|Hin]%elem_of_cons; [by rewrite Nat.sub_diag|]. destruct (IH _ Hin) as [Hle Hl].
    split; [lia|]. by replace (fd - i)%nat with (S (fd - S i)) by lia.
Qed.
Lemma alloc_fd_free (s s' : fstate D U) fd : alloc_fd s = Done (Some fd, s') → s' = s ∧ fds s !! fd = Some None.
Proof.
  unfold alloc_fd. run_simpl. intros [= E <-]. split; [done|].
  destruct (free_fds (fds s) 0) as [|x l] eqn:Ef; [done|]. injection E as ->.
  assert (fd ∈ free_fds (fds s) 0) as Hin by (rewrite Ef; by left). apply free_fds_free in Hin as [_ Hl].
  by rewrite Nat.sub_0_r in Hl.
Qed.

(** Computations that make new handles. *)
Definition yields {A} (hs : A → list nat) (m : FM A) : Prop := ∀ s a s', m s = Done (a, s') →
  fds s' = fds s ∧ ∀ H, counted (ftab s) H → counted (ftab s') (hs a ++ H).
Lemma yields_bind {A B} (hs : B → list nat) (m : FM A) (f : A → FM B) :
  keeps_handles m → (∀ a, yields hs (f a)) → yields hs (m ≫= f).
Proof.
  intros Hm Hf s b s' E. mbind_inv E as a s1 E1 E2. destruct (Hm _ _ _ E1) as [H1 H2].
  destruct (Hf _ _ _ _ E2) as [H3 H4]. split; [congruence|]. intros H Hc. apply H4. by eapply counted_ext.
Qed.
Lemma yields_ret {A} (hs : A → list nat) a : hs a = [] → yields hs (mret a).
Proof. intros E s x s' [= <- <-]. split; [done|]. intros H. by rewrite E. Qed.
Lemma yields_panic {A} (hs : A → list nat) why : yields hs (panic why).
Proof. by intros s x s'. Qed.
Lemma yields_new f s h s' : arc_new (D := D) (U := U) f s = Done (h, s') →
  fds s' = fds s ∧ ∀ H, counted (ftab s) H → counted (ftab s') (h :: H).
Proof.
  intros E. mbind_inv E as s0 s1 E1 E2. injection E1 as <- <-. mbind_inv E2 as u s2 E3 E4. injection E3 as <- <-.
  injection E4 as <- <-. split; [done|]. intros H. apply counted_new.
Qed.

Definition handle_of (o : option nat) : list nat := match o with Some h => [h] | None => [] end.
Definition handles_of2 (o : option (nat * nat)) : list nat := match o with Some (a, b) => [b; a] | None => [] end.

Lemma yields_open path flags : yields handle_of (open path flags).
Proof.
  unfold open. repeat first [ progress intros | apply yields_panic | apply yields_ret; done
    | apply yields_bind; [solve [keeps_handles]|] | case_match ].
  intros s1 o s2 E. mbind_inv E as h s3 E1 E2. injection E2 as <- <-. by apply yields_new in E1.
Qed.

Lemma yields_pipe fails : yields handles_of2 (pipe_create fails).
Proof.
  assert (∀ f : fstate D U → fstate D U, (∀ s, same_handles s (f s)) → K (modify f)) as Hmod.
  { intros f Hf s a s' [= _ <-]. apply Hf. }
  unfold pipe_create. repeat first [ progress intros | apply yields_panic | apply yields_ret; done
    | apply yields_bind; [first [by apply Hmod|solve [keeps_handles]]|] | case_match ].
  intros s x s' E. mbind_inv E as h1 s1 E1 E. mbind_inv E as h2 s2 E2 E. injection E as <- <-.
  apply yields_new in E1 as [F1 C1]. apply yields_new in E2 as [F2 C2]. split; [congruence|]. intros HH Hc. cbn. auto.
Qed.

Lemma arc_clone_run h s h' s' : arc_clone (D := D) (U := U) h s = Done (h', s') →
  h' = h ∧ fds s' = fds s ∧ ∀ H, counted (ftab s) H → counted (ftab s') (h :: H).
Proof.
  unfold arc_clone, get_file. intros E. mbind_inv E as [f n] s1 E1 E2. mbind_inv E1 as s0 s2 E0 E1. injection E0 as <- <-.
  destruct (mjoin (ftab s !! h)) as [[f' n']|] eqn:Ef; [|done]. injection E1 as <- <- <-. mbind_inv E2 as u s3 E3 E4.
  injection E3 as <- <-. injection E4 as <- <-. split; [done|]. split; [done|]. intros H Hc. by apply counted_clone.
Qed.

Lemma arc_drop_run h s u s' : arc_drop (D := D) (U := U) h s = Done (u, s') →
  fds s' = fds s ∧ ∀ H, counted (ftab s) (h :: H) → counted (ftab s') H.
Proof.
  unfold arc_drop, get_file. intros E. mbind_inv E as [f n] s1 E1 E2. mbind_inv E1 as s0 s2 E0 E1. injection E0 as <- <-.
  destruct (mjoin (ftab s !! h)) as [[f' n']|] eqn:Ef; [|done]. injection E1 as <- <- <-.
  pose proof (λ H Hc, counted_drop (ftab s) H h f' n' Hc Ef) as Hd. destruct (n' =? 1).
  - mbind_inv E2 as u1 s3 E3 E4. injection E3 as <- <-. apply kh_file_drop in E4 as [Hk Hf]. split; [done|].
    intros H Hc. eapply counted_ext; [exact Hk|]. by apply Hd.
  - injection E2 as _ <-. split; [done|]. intros H. apply Hd.
Qed.

Lemma set_fd_run fd h s u s' : set_fd (D := D) (U := U) fd h s = Done (u, s') →
  ftab s' = ftab s ∧ fds s' = <[fd := h]> (fds s).
Proof. by intros [= _ <-]. Qed.

Lemma arg_fd_run fd s a s' : arg_fd (D := D) (U := U) fd s = Done (a, s') →
  s' = s ∧ match a with inl (i, h) => fds s !! i = Some (Some h) | inr _ => True end.
Proof.
  unfold arg_fd. destruct (_ <=? fd); [by intros [= <- <-]|]. intros E. mbind_inv E as s0 s1 E0 E. injection E0 as <- <-.
  mbind_inv E as o s1 E1 E2. destruct (fds s !! Z.to_nat fd) as [o'|] eqn:Ef; [|done]. injection E1 as <- <-.
  injection E2 as <- <-. split; [done|]. by destruct o'.
Qed.

Lemma free_fds_nodup (l : list (option nat)) i : NoDup (free_fds l i).
Proof.
  revert i. induction l as [|[h|] l IH]; intros i; cbn [free_fds]; [constructor|done|].
  constructor; [|done]. intros Hin. apply free_fds_free in Hin as [? _]. lia.
Qed.

Lemma copy_to_user_same x a s r s' : copy_to_user x a s = Done (r, s') → same_handles (D := D) (U := U) s s'.
Proof. intros E. by apply kh_copy_to_user in E. Qed.

(** [counted] for a process with its descriptors. *)
Definition fd_counted (others : list nat) (s : fstate D U) : Prop := counted (ftab s) (live (fds s) others).
Definition keeps_counted {A} (m : FM A) : Prop :=
  ∀ others s a s', fd_counted others s → m s = Done (a, s') → fd_counted others s'.

Lemma same_counted others s s' : same_handles s s' → fd_counted others s → fd_counted others s'.
Proof. intros [H1 H2] Hc. unfold fd_counted. rewrite H2. by eapply counted_ext. Qed.
Lemma kc_keeps {A} (m : FM A) : keeps_handles m → keeps_counted m.
Proof. intros Hm others s a s' Hc E. by eapply same_counted; [eapply Hm|]. Qed.
Lemma kc_bind {A B} (m : FM A) (f : A → FM B) : keeps_counted m → (∀ a, keeps_counted (f a)) → keeps_counted (m ≫= f).
Proof. intros Hm Hf others s b s' Hc E. mbind_inv E as a s1 E1 E2. eapply Hf; [|done]. by eapply Hm. Qed.

(** A new handle goes into a free descriptor. *)
Lemma fill_counted others (s1 s2 : fstate D U) fd h u :
  counted (ftab s1) (h :: live (fds s1) others) → fds s1 !! fd = Some None →
  set_fd fd (Some h) s1 = Done (u, s2) → fd_counted others s2.
Proof.
  intros Hc Hfd [Ht Hf]%set_fd_run. unfold fd_counted. rewrite Ht, Hf. eapply counted_perm; [|done].
  unfold live. by rewrite (omap_set _ _ _ Hfd).
Qed.

Lemma kc_open path flags : keeps_counted (sys_open path flags).
Proof.
  intros others s a s' Hc. unfold sys_open. destruct (flags <? 0); [by intros [= _ <-]|]. intros E.
  mbind_inv E as o s1 E1 E. destruct o as [fd|].
  2: { injection E as _ <-. eapply same_counted; [by eapply kh_alloc_fd|done]. }
  apply alloc_fd_free in E1 as [-> Hfd]. mbind_inv E as o s2 E2 E. apply yields_open in E2 as [Hf Hy].
  specialize (Hy _ Hc). rewrite <- Hf in Hfd. destruct o as [h|].
  - mbind_inv E as u s3 E3 E4. injection E4 as _ <-. eapply fill_counted; [|done|done]. by rewrite Hf.
  - injection E as _ <-. unfold fd_counted. by rewrite Hf.
Qed.

Lemma kc_close fd : keeps_counted (sys_close fd).
Proof.
  intros others s a s' Hc. unfold sys_close. intros E. mbind_inv E as r s1 E1 E. apply arg_fd_run in E1 as [-> Hr].
  destruct r as [[i h]|]; [|by injection E as _ <-]. mbind_inv E as u s2 E2 E. mbind_inv E as u' s3 E3 E4.
  injection E4 as _ <-. apply set_fd_run in E2 as [Ht Hf]. apply arc_drop_run in E3 as [Hf' Hd]. unfold fd_counted.
  apply Hd. rewrite Hf', Hf, Ht. eapply counted_perm; [|exact Hc]. unfold live. by rewrite (omap_clear _ _ _ Hr).
Qed.

Lemma kc_dup fd : keeps_counted (sys_dup fd).
Proof.
  intros others s a s' Hc. unfold sys_dup. intros E. mbind_inv E as r s1 E1 E. apply arg_fd_run in E1 as [-> Hr].
  destruct r as [[i h]|]; [|by injection E as _ <-]. mbind_inv E as o s1 E1 E. destruct o as [fd'|].
  2: { injection E as _ <-. eapply same_counted; [by eapply kh_alloc_fd|done]. }
  apply alloc_fd_free in E1 as [-> Hfd]. mbind_inv E as h' s2 E2 E. mbind_inv E as u s3 E3 E4. injection E4 as _ <-.
  apply arc_clone_run in E2 as (-> & Hf & Hcl). eapply fill_counted; [|by rewrite Hf|done]. rewrite Hf. by apply Hcl.
Qed.

Lemma kc_pipe fails addr : keeps_counted (sys_pipe fails addr).
Proof.
  intros others s a s' Hc. unfold sys_pipe. intros E. mbind_inv E as w s1 E1 E. apply kh_lift in E1 as Hs1.
  pose proof (same_counted _ _ _ Hs1 Hc) as Hc1. clear E1 Hs1 Hc. mbind_inv E as s0 s2 E2 E. injection E2 as <- <-.
  pose proof (free_fds_nodup (fds s1) 0) as Hnd. pose proof (free_fds_free (fds s1) 0) as Hfree.
  destruct (free_fds (fds s1) 0) as [|r [|w' l]]; [by injection E as _ <-..|]. cbn [take] in E.
  destruct (Hfree r ltac:(by left)) as [_ Hr]. destruct (Hfree w' ltac:(by right; left)) as [_ Hw].
  rewrite Nat.sub_0_r in Hr, Hw. assert (r ≠ w') as Hne by (intros ->; apply NoDup_cons in Hnd as [Hn _]; apply Hn; by left).
  mbind_inv E as o s2 E2 E. apply yields_pipe in E2 as [Hf Hy]. specialize (Hy _ Hc1). rewrite <- Hf in Hr, Hw, Hy.
  destruct o as [[fr fw]|]; [|by injection E as _ <-]. cbn in Hy.
  mbind_inv E as x s3 E3 E. apply copy_to_user_same in E3 as [Ht3 Hf3].
  mbind_inv E as y s4 E4 E. assert (same_handles s3 s4) as [Ht4 Hf4].
  { destruct x; [by apply copy_to_user_same in E4|by injection E4 as _ <-]. }
  apply (counted_ext _ (ftab s4)) in Hy; [|congruence]. rewrite <- Hf3, <- Hf4 in Hr, Hw, Hy. destruct y.
  - mbind_inv E as u5 s5 E5 E. mbind_inv E as u6 s6 E6 E. injection E as _ <-. apply set_fd_run in E5 as [Ht5 Hf5].
    eapply fill_counted; [| |exact E6].
    + rewrite Ht5, Hf5. eapply counted_perm; [|exact Hy]. unfold live. by rewrite (omap_set _ _ _ Hr).
    + by rewrite Hf5, list_lookup_insert_ne.
  - mbind_inv E as u5 s5 E5 E. mbind_inv E as u6 s6 E6 E. injection E as _ <-.
    apply arc_drop_run in E5 as [Hf5 Hd5]. apply arc_drop_run in E6 as [Hf6 Hd6]. unfold fd_counted.
    rewrite Hf6, Hf5. by apply Hd6, Hd5.
Qed.

Lemma kc_calls cs : keeps_counted (run_calls cs).
Proof.
  induction cs as [|c cs IH]; cbn [run_calls]; [apply kc_keeps, kh_ret|]. apply kc_bind; [|done].
  pose proof (kh_calls c) as Hk. destruct c; try by apply kc_keeps.
  all: cbn [run_call]; apply kc_bind; [|intros; apply kc_keeps, kh_ret].
  - apply kc_open.
  - apply kc_close.
  - apply kc_dup.
  - apply kc_pipe.
Qed.
End counting.

(** C3. Files live as long as their descriptors.  The kernel counts the
    handles of each open file; however the calls of a process open, duplicate
    and close descriptors, make pipes, or fail on the way, the count stays the
    number of descriptors and other handles that refer to the file.  So a file
    is closed exactly when its last handle goes, and a descriptor never refers
    to a closed file. *)
Theorem open_files_counted {D U : Type} `{!BlockStore D, !Journal D, !UserMem U} `{BF : BitField}
    cs others (s s' : fstate D U) :
  counted (ftab s) (live (fds s) others) → run_calls cs s = Done (tt, s') →
  counted (ftab s') (live (fds s') others) ∧
  ∀ fd h, fds s' !! fd = Some (Some h) → ∃ f n, get_file h s' = Done ((f, n), s').
Proof.
  intros Hc E. pose proof (kc_calls _ _ _ _ _ Hc E) as Hc'. split; [exact Hc'|]. intros fd h Hfd.
  specialize (Hc' h). unfold get_file. run_simpl. destruct (mjoin (ftab s' !! h)) as [[f n]|]; [by exists f, n|].
  exfalso. apply Hc'. unfold live. apply elem_of_app. left. apply list_elem_of_omap. exists (Some h).
  split; [by eapply list_elem_of_lookup_2|done].
Qed.

(** ** A store that remembers what the log is asked *)
Record jstore := { jd : plain; jt : list jev }.
Definition on_plain {A} (e : list jev) (m : M plain A) : M jstore A := λ d,
  match m (jd d) with Done (a, p) => Done (a, {| jd := p; jt := jt d ++ e |}) | Panic why => Panic why end.
#[export] Instance jstore_store : BlockStore jstore := {
  st_bread b := on_plain [] (st_bread b);
  st_set b x := on_plain [] (st_set b x);
  st_log b := on_plain [JWrite b] (st_log b);
  st_drop b := on_plain [] (st_drop b);
  st_inv d v h := st_inv (jd d) v h;
}.
#[export] Instance jstore_journal : Journal jstore := {
  st_begin d := Done (tt, {| jd := jd d; jt := jt d ++ [JBegin] |});
  st_end d := Done (tt, {| jd := jd d; jt := jt d ++ [JEnd] |});
  st_trace := jt;
}.
#[export] Instance jstore_laws : JournalLaws jstore.
Proof.
  split; unfold st_bread, st_set, st_log, st_drop, jstore_store, on_plain; cbn [st_trace st_begin st_end jstore_journal].
  all: intros; repeat case_match; simplify_eq; cbn [jt]; by rewrite ?app_nil_r.
Qed.

(** A disk with an empty root directory, and a process on it. *)
Module Root.
Definition dir : DiskInode :=
  {| itype := Directory; major := 0; minor := 0; nlink := 1; size := 0; addrs := replicate 13 0 |}.
Definition state : fstate jstore unit := {|
  ist := {| fsys := {| store := {| jd := {| pv := set_dinode Small.raw Small.blocks 1 dir; ph := [] |}; jt := [] |};
                       sb := {| sb_data := Some Small.raw; initialized := true |} |};
            umem := tt; kbuf := []; imeta := replicate NINODE InodeMeta_new; idata := replicate NINODE InodeData_new;
            ilocked := replicate NINODE false; cwd := None |};
  ftab := []; fds := replicate NFILE None; fsize := 4096; npipes := 0; pcalls := [] |}.
(** mkdir("/a"), open("/b", O_CREATE | O_RDWR), dup(0), close(0) *)
Definition calls : list call :=
  [CMkdir [47; 97; 0]; COpen [47; 98; 0] (Z.lor O_CREATE O_RDWR); CDup 0; CClose 0].
Definition traced : option (list jev) :=
  match run_calls calls state with Done (_, s) => Some (trace s) | Panic _ => None end.
End Root.


Lemma open_files_counted_witness :
  ∃ s', run_calls Root.calls Root.state = Done (tt, s') ∧ counted (ftab s') (live (fds s') []).
Proof.
  assert (is_panic (run_calls Root.calls Root.state) = false) as Hp by (vm_compute; reflexivity).
  apply not_panic_done in Hp as ([] & s' & E).
  assert (counted (ftab Root.state) (live (fds Root.state) [])) as Hc by (intros h; by apply not_elem_of_nil).
  exists s'. split; [exact E|]. exact (proj1 (open_files_counted Root.calls [] Root.state s' Hc E)).
Defined.
