(* ===== verification/Virtio.v ===== *)
(** * The disk driver ([kernel/src/driver/virtio_disk.rs])

    The state is the driver's [Disk] structure, the registers it has written
    (oldest first) and the channels it has woken.  The device is hardware: what
    a register reads as is a parameter, and it puts its answers into the [used]
    ring itself.  [rw] holds the lock of the disk except while it sleeps, so a
    call is a [rw_start] turn, repeated until there are descriptors, and
    [rw_finish] turns, repeated until the request is done. *)
From S2P Require Import Prelude Consts.

Definition VIRTIO_MMIO_MAGIC_VALUE : Z := 0x000.
Definition VIRTIO_MMIO_VERSION : Z := 0x004.
Definition VIRTIO_MMIO_DEVICE_ID : Z := 0x008.
Definition VIRTIO_MMIO_VENDOR_ID : Z := 0x00c.
Definition VIRTIO_MMIO_DEVICE_FEATURES : Z := 0x010.
Definition VIRTIO_MMIO_DRIVER_FEATURES : Z := 0x020.
Definition VIRTIO_MMIO_GUEST_PAGE_SIZE : Z := 0x028.
Definition VIRTIO_MMIO_QUEUE_SEL : Z := 0x030.
Definition VIRTIO_MMIO_QUEUE_NUM_MAX : Z := 0x034.
Definition VIRTIO_MMIO_QUEUE_NUM : Z := 0x038.
Definition VIRTIO_MMIO_QUEUE_PFN : Z := 0x040.
Definition VIRTIO_MMIO_QUEUE_NOTIFY : Z := 0x050.
Definition VIRTIO_MMIO_INTERRUPT_STATUS : Z := 0x060.
Definition VIRTIO_MMIO_INTERRUPT_ACK : Z := 0x064.
Definition VIRTIO_MMIO_STATUS : Z := 0x070.
Definition VIRTIO_CONFIG_S_ACKNOWLEDGE : Z := 1.
Definition VIRTIO_CONFIG_S_DRIVER : Z := 2.
Definition VIRTIO_CONFIG_S_DRIVER_OK : Z := 4.
Definition VIRTIO_CONFIG_S_FEATURES_OK : Z := 8.
Definition VIRTIO_BLK_F_RO : Z := 5.
Definition VIRTIO_BLK_F_SCSI : Z := 7.
Definition VIRTIO_BLK_F_CONFIG_WCE : Z := 11.
Definition VIRTIO_BLK_F_MQ : Z := 12.
Definition VIRTIO_F_ANY_LAYOUT : Z := 27.
Definition VIRTIO_RING_F_INDIRECT_DESC : Z := 28.
Definition VIRTIO_RING_F_EVENT_IDX : Z := 29.
Definition VRING_DESC_F_NEXT : Z := 1.
Definition VRING_DESC_F_WRITE : Z := 2.
Definition VIRTIO_BLK_T_IN : Z := 0.
Definition VIRTIO_BLK_T_OUT : Z := 1.
Definition NUM : nat := 8.

(** ** Data *)
Record VQDesc := { d_addr : Z; d_len : Z; d_flags : Z; d_next : Z }.
Definition VQDesc_new : VQDesc := {| d_addr := 0; d_len := 0; d_flags := 0; d_next := 0 |}.
Record VQAvail := { a_flags : Z; a_idx : Z; a_ring : list Z; a_unused : Z }.
Definition VQAvail_new : VQAvail := {| a_flags := 0; a_idx := 0; a_ring := replicate NUM 0; a_unused := 0 |}.
Record VQUsedElem := { ue_id : Z; ue_len : Z }.
Definition VQUsedElem_new : VQUsedElem := {| ue_id := 0; ue_len := 0 |}.
Record VQUsed := { u_flags : Z; u_idx : Z; u_ring : list VQUsedElem }.
Definition VQUsed_new : VQUsed := {| u_flags := 0; u_idx := 0; u_ring := replicate NUM VQUsedElem_new |}.
Record Info := { buf_channel : option Z; status : Z; disk : bool }.
Definition Info_new : Info := {| buf_channel := None; status := 0; disk := false |}.
Record VirtIOBlkReq := { type_ : Z; reserved : Z; sector : Z }.
Definition VirtIOBlkReq_new : VirtIOBlkReq := {| type_ := 0; reserved := 0; sector := 0 |}.

Record Disk := {
  desc : list VQDesc; avail : VQAvail; used : VQUsed; free : list bool; used_idx : Z;
  info : list Info; ops : list VirtIOBlkReq;
}.
Definition Disk_new : Disk := {|
  desc := replicate NUM VQDesc_new; avail := VQAvail_new; used := VQUsed_new; free := replicate NUM false;
  used_idx := 0; info := replicate NUM Info_new; ops := replicate NUM VirtIOBlkReq_new |}.

Record vstate := { dk : Disk; writes : list (Z * Z); woken : list Z }.

Section driver.
(** What a register reads as; the address of the [Disk] structure and of the
    parts of it that the device is told about; the channel for free
    descriptors. *)
Context (read : Z → Z) (self_addr : Z) (op_addr status_addr : nat → Z) (free_chan : Z).

Definition write (offset data : Z) : M vstate unit := modify (λ s,
  {| dk := dk s; writes := writes s ++ [(offset, data)]; woken := woken s |}).
Definition wakeup (chan : Z) : M vstate unit := modify (λ s,
  {| dk := dk s; writes := writes s; woken := woken s ++ [chan] |}).
Definition upd (f : Disk → Disk) : M vstate unit := modify (λ s,
  {| dk := f (dk s); writes := writes s; woken := woken s |}).
Definition set_desc (f : list VQDesc → list VQDesc) : M vstate unit := upd (λ d,
  {| desc := f (desc d); avail := avail d; used := used d; free := free d; used_idx := used_idx d;
     info := info d; ops := ops d |}).
Definition set_free (f : list bool → list bool) : M vstate unit := upd (λ d,
  {| desc := desc d; avail := avail d; used := used d; free := f (free d); used_idx := used_idx d;
     info := info d; ops := ops d |}).
Definition set_info (f : list Info → list Info) : M vstate unit := upd (λ d,
  {| desc := desc d; avail := avail d; used := used d; free := free d; used_idx := used_idx d;
     info := f (info d); ops := ops d |}).
Definition set_avail (a : VQAvail) : M vstate unit := upd (λ d,
  {| desc := desc d; avail := a; used := used d; free := free d; used_idx := used_idx d;
     info := info d; ops := ops d |}).
Definition set_op (i : nat) (r : VirtIOBlkReq) : M vstate unit := upd (λ d,
  {| desc := desc d; avail := avail d; used := used d; free := free d; used_idx := used_idx d;
     info := info d; ops := <[i := r]> (ops d) |}).
Definition set_used_idx (n : Z) : M vstate unit := upd (λ d,
  {| desc := desc d; avail := avail d; used := used d; free := free d; used_idx := n;
     info := info d; ops := ops d |}).

Definition clear_bit (features k : Z) : Z := Z.land features (not_w 32 (Z.shiftl 1 k)).

Definition init : M vstate unit :=
  assertM (self_addr `mod` PAGE_SIZE =? 0) "assertion failed: desc not page aligned";;
  if negb ((read VIRTIO_MMIO_MAGIC_VALUE =? 0x74726976) && (read VIRTIO_MMIO_VERSION =? 1) &&
           (read VIRTIO_MMIO_DEVICE_ID =? 2) && (read VIRTIO_MMIO_VENDOR_ID =? 0x554d4551))
  then panic "could not find virtio disk"
  else
    let st := VIRTIO_CONFIG_S_ACKNOWLEDGE in
    write VIRTIO_MMIO_STATUS st;;
    let st := Z.lor st VIRTIO_CONFIG_S_DRIVER in
    write VIRTIO_MMIO_STATUS st;;
    let features := fold_left clear_bit
      [VIRTIO_BLK_F_RO; VIRTIO_BLK_F_SCSI; VIRTIO_BLK_F_CONFIG_WCE; VIRTIO_BLK_F_MQ; VIRTIO_F_ANY_LAYOUT;
       VIRTIO_RING_F_EVENT_IDX; VIRTIO_RING_F_INDIRECT_DESC] (read VIRTIO_MMIO_DEVICE_FEATURES) in
    write VIRTIO_MMIO_DRIVER_FEATURES features;;
    let st := Z.lor st VIRTIO_CONFIG_S_FEATURES_OK in
    write VIRTIO_MMIO_STATUS st;;
    let st := Z.lor st VIRTIO_CONFIG_S_DRIVER_OK in
    write VIRTIO_MMIO_STATUS st;;
    write VIRTIO_MMIO_GUEST_PAGE_SIZE PAGE_SIZE;;
    write VIRTIO_MMIO_QUEUE_SEL 0;;
    let max := read VIRTIO_MMIO_QUEUE_NUM_MAX in
    if max =? 0 then panic "virtio disk has no queue 0"
    else if max <? Z.of_nat NUM then panic "virtio disk max queue short than NUM"
    else
      write VIRTIO_MMIO_QUEUE_NUM (Z.of_nat NUM);;
      let pfn := Z.shiftr self_addr PGSHIFT in
      assertM (pfn <? 2 ^ 32) "called `Result::unwrap()` on an `Err` value";;
      write VIRTIO_MMIO_QUEUE_PFN pfn;;
      set_free (λ l, replicate (length l) true).

(** ** Descriptors *)
Fixpoint first_free (l : list bool) (i : nat) : option nat :=
  match l with
  | [] => None
  | true :: _ => Some i
  | false :: l => first_free l (S i)
  end.
Definition alloc_desc : M vstate (option nat) :=
  s ← get;
  match first_free (free (dk s)) 0 with
  | Some i => set_free (<[i := false]>);; mret (Some i)
  | None => mret None
  end.

Definition free_desc (i : nat) : M vstate unit :=
  s ← get;
  if (NUM <=? i)%nat || default false (free (dk s) !! i) then panic "desc index not correct"
  else
    set_desc (<[i := VQDesc_new]>);;
    set_free (<[i := true]>);;
    wakeup free_chan.

(** The roll-back frees the numbers [0 .. i], not the descriptors [idx[0 .. i]]. *)
Fixpoint alloc3_loop (n i : nat) (idx : list nat) : M vstate (option (list nat)) :=
  match n with
  | O => mret (Some idx)
  | S n =>
      o ← alloc_desc;
      match o with
      | Some ix => alloc3_loop n (S i) (idx ++ [ix])
      | None => for_range i 0 (λ j, free_desc (Z.to_nat j));; mret None
      end
  end.
Definition alloc3_desc : M vstate (option (list nat)) := alloc3_loop 3 0 [].

Fixpoint free_chain (fuel : nat) (i : nat) : M vstate unit :=
  match fuel with
  | O => panic "the chain does not end"
  | S fuel =>
      s ← get;
      d ← unwrap (desc (dk s) !! i) "index out of bounds";
      free_desc i;;
      if negb (Z.land (d_flags d) VRING_DESC_F_NEXT =? 0) then free_chain fuel (Z.to_nat (d_next d))
      else mret tt
  end.

(** ** Requests *)
(** Up to the notification of the device; [None] when there are no free
    descriptors, and the caller sleeps on their channel. *)
Definition rw_start (blockno buf_raw_data : Z) (writing : bool) : M vstate (option nat) :=
  o ← alloc3_desc;
  match o with
  | Some [i0; i1; i2] =>
      sec ← lift (mul64 blockno (BSIZE / 512));
      set_op i0 {| type_ := if writing then VIRTIO_BLK_T_OUT else VIRTIO_BLK_T_IN; reserved := 0; sector := sec |};;
      set_desc (<[i0 := {| d_addr := op_addr i0; d_len := 16; d_flags := VRING_DESC_F_NEXT; d_next := Z.of_nat i1 |}]>);;
      set_desc (<[i1 := {| d_addr := buf_raw_data; d_len := BSIZE;
        d_flags := Z.lor (if writing then 0 else VRING_DESC_F_WRITE) VRING_DESC_F_NEXT; d_next := Z.of_nat i2 |}]>);;
      set_info (alter (λ x, {| buf_channel := buf_channel x; status := 0xff; disk := disk x |}) i0);;
      set_desc (<[i2 := {| d_addr := status_addr i0; d_len := 1; d_flags := VRING_DESC_F_WRITE; d_next := 0 |}]>);;
      set_info (alter (λ x, {| buf_channel := Some buf_raw_data; status := status x; disk := true |}) i0);;
      s ← get;
      let a := avail (dk s) in
      set_avail {| a_flags := a_flags a; a_idx := a_idx a;
                   a_ring := <[Z.to_nat (a_idx a `mod` Z.of_nat NUM) := Z.of_nat i0]> (a_ring a); a_unused := a_unused a |};;
      s ← get;
      let a := avail (dk s) in
      idx' ← lift (add_chk 16 (a_idx a) 1);
      set_avail {| a_flags := a_flags a; a_idx := idx'; a_ring := a_ring a; a_unused := a_unused a |};;
      write VIRTIO_MMIO_QUEUE_NOTIFY 0;;
      mret (Some i0)
  | _ => mret None
  end.

(** From a wake-up on; [false] when the device is not done yet. *)
Definition rw_finish (i0 : nat) (buf_raw_data : Z) : M vstate bool :=
  s ← get;
  x ← unwrap (info (dk s) !! i0) "index out of bounds";
  if disk x then mret false
  else
    set_info (alter (λ x, {| buf_channel := None; status := status x; disk := disk x |}) i0);;
    c ← unwrap (buf_channel x) "called `Option::unwrap()` on a `None` value";
    assertM (c =? buf_raw_data) "assertion `left == right` failed";;
    free_chain (S NUM) i0;;
    mret true.

(** [intr]; each turn of the loop takes one answer of the device, and there are
    at most [2 ^ 16] between [used_idx] and the device's index. *)
Fixpoint intr_loop (n : nat) : M vstate unit :=
  s ← get;
  let d := dk s in
  if used_idx d =? u_idx (used d) then mret tt
  else
    match n with
    | O => panic "out of fuel"
    | S n =>
        e ← unwrap (u_ring (used d) !! Z.to_nat (used_idx d `mod` Z.of_nat NUM)) "index out of bounds";
        let id := Z.to_nat (ue_id e) in
        x ← unwrap (info d !! id) "index out of bounds";
        if negb (status x =? 0) then panic "interrupt status"
        else
          buf_raw_data ← unwrap (buf_channel x)
            "virtio disk intr handler not found pre-stored buf channel to wakeup";
          set_info (alter (λ x, {| buf_channel := buf_channel x; status := status x; disk := false |}) id);;
          wakeup buf_raw_data;;
          u ← lift (add_chk 16 (used_idx d) 1);
          set_used_idx u;;
          intr_loop n
    end.
Definition intr : M vstate unit :=
  write VIRTIO_MMIO_INTERRUPT_ACK (Z.land (read VIRTIO_MMIO_INTERRUPT_STATUS) 3);;
  intr_loop (Z.to_nat (2 ^ 16)).

(** The device answers the request whose chain starts at [i0]: it writes the
    status byte and the next entry of the [used] ring. *)
Definition device_done (i0 : nat) : M vstate unit :=
  set_info (alter (λ x, {| buf_channel := buf_channel x; status := 0; disk := disk x |}) i0);;
  upd (λ d, let u := used d in
    {| desc := desc d; avail := avail d;
       used := {| u_flags := u_flags u; u_idx := wrap 16 (u_idx u + 1);
                  u_ring := <[Z.to_nat (u_idx u `mod` Z.of_nat NUM) := {| ue_id := Z.of_nat i0; ue_len := 0 |}]> (u_ring u) |};
       free := free d; used_idx := used_idx d; info := info d; ops := ops d |}).
End driver.

(** * The roll-back of [alloc3_desc] frees descriptors of other requests *)
Definition free_count (l : list bool) : nat := length (filter (λ b, b = true) l).

Section rollback.
Context (free_chan : Z).

(** What the roll-back leaves, for [k] descriptors that were free. *)
Definition rolled_back (k : nat) (l : list bool) : list bool := replicate k true ++ drop k (replicate (length l) false).

Lemma vstate_eta s :
  {| dk := {| desc := desc (dk s); avail := avail (dk s); used := used (dk s); free := free (dk s);
              used_idx := used_idx (dk s); info := info (dk s); ops := ops (dk s) |};
     writes := writes s; woken := woken s |} = s.
Proof. by destruct s as [[] ? ?]. Qed.

Lemma alloc3_rollback_run s :
  length (desc (dk s)) = NUM → length (free (dk s)) = NUM →
  free (dk s) !! 0%nat = Some false → free (dk s) !! 1%nat = Some false →
  (0 < free_count (free (dk s)) < 3)%nat →
  ∃ s', alloc3_desc free_chan s = Done (None, s') ∧
    desc (dk s') !! 0%nat = Some VQDesc_new ∧ free (dk s') = rolled_back (free_count (free (dk s))) (free (dk s)) ∧
    info (dk s') = info (dk s).
Proof.
  intros Hd Hf H0 H1 Hc. rewrite <- (vstate_eta s). generalize (writes s), (woken s). intros ws wk.
  generalize (avail (dk s)), (used (dk s)), (used_idx (dk s)), (info (dk s)), (ops (dk s)). intros av us ui inf op.
  revert Hd Hf H0 H1 Hc. generalize (desc (dk s)), (free (dk s)). clear s. intros ds fs Hd Hf H0 H1 Hc.
  do 8 (destruct ds as [|? ds]; [done|]). destruct ds; [|done].
  do 8 (destruct fs as [|? fs]; [done|]). destruct fs; [|done].
  injection H0 as ->. injection H1 as ->. cbn [dk free desc] in *.
  repeat match goal with b : bool |- _ => destruct b end;
    try (exfalso; vm_compute in Hc; lia); eexists; (split; [vm_compute; reflexivity|]); done.
Qed.

Lemma free_chain_panics n i d s :
  desc (dk s) !! i = Some d → free (dk s) !! i = Some true → panics (free_chain free_chan (S n) i s).
Proof.
  intros Hd Hf. cbn [free_chain]. apply bind_panic. right. exists s, s. split; [done|]. rewrite Hd.
  apply bind_panic. right. exists d, s. split; [done|]. apply bind_panic. left.
  unfold free_desc. apply bind_panic. right. exists s, s. split; [done|].
  rewrite Hf. cbn [default]. rewrite orb_true_r. by eexists.
Qed.

(** The roll-back of a failed allocation is wrong.  When one or two
    descriptors are free, and the first two belong to other requests,
    [alloc3_desc] clears descriptor 0 under the device's eyes and marks it
    free, while the descriptors it took itself stay taken for ever.  When the
    request whose chain starts at descriptor 0 is done, freeing its chain
    panics the kernel. *)
Theorem alloc3_rollback_frees_live s :
  length (desc (dk s)) = NUM → length (free (dk s)) = NUM →
  free (dk s) !! 0%nat = Some false → free (dk s) !! 1%nat = Some false →
  (0 < free_count (free (dk s)) < 3)%nat →
  ∃ s', alloc3_desc free_chan s = Done (None, s') ∧
    desc (dk s') !! 0%nat = Some VQDesc_new ∧ free (dk s') !! 0%nat = Some true ∧
    (∀ i, (2 ≤ i)%nat → free (dk s) !! i = Some true → free (dk s') !! i = Some false) ∧
    ∀ x b, info (dk s) !! 0%nat = Some x → disk x = false → panics (rw_finish free_chan 0 b s').
Proof.
  intros Hd Hf H0 H1 Hc. destruct (alloc3_rollback_run s Hd Hf H0 H1 Hc) as (s' & E & Hds & Hfs & Hi).
  assert (free (dk s') !! 0%nat = Some true) as Hf0.
  { rewrite Hfs. unfold rolled_back. rewrite lookup_app_l by (rewrite length_replicate; lia).
    apply lookup_replicate. lia. }
  exists s'. split; [done|]. split; [done|]. split; [done|]. split.
  - intros i Hi2 Hi'. rewrite Hfs. unfold rolled_back.
    pose proof (lookup_lt_Some _ _ _ Hi') as Hlt. rewrite Hf in Hlt |- *.
    rewrite lookup_app_r by (rewrite length_replicate; lia). rewrite length_replicate, lookup_drop.
    apply lookup_replicate. unfold NUM in *. lia.
  - intros x b Hx Hdisk. unfold rw_finish. rewrite (bind_run _ _ _ s' s') by done. rewrite Hi, Hx.
    rewrite (bind_run _ _ _ x s') by done. rewrite Hdisk.
    destruct (buf_channel x) as [c|] eqn:Ec; [|by eexists].
    rewrite (bind_run _ _ _ tt _) by reflexivity. rewrite (bind_run _ _ _ c _) by reflexivity.
    destruct (c =? b); [|by eexists]. rewrite (bind_run _ _ _ tt _) by reflexivity.
    apply bind_panic. left. by apply (free_chain_panics NUM 0 VQDesc_new).
Qed.
End rollback.

(** The device answers to the driver's questions, and three requests. *)
Module Three.
Definition rd (o : Z) : Z :=
  if o =? 0 then 0x74726976 else if o =? 4 then 1 else if o =? 8 then 2 else if o =? 12 then 0x554d4551
  else if o =? 0x34 then 1024 else 0.
Definition opa (i : nat) : Z := 0x80020000 + 16 * Z.of_nat i.
Definition sta (i : nat) : Z := 0x80030000 + Z.of_nat i.
Definition boot : vstate := {| dk := Disk_new; writes := []; woken := [] |}.
(** Two requests on their way. *)
Definition two : vstate :=
  match (init rd 0x80010000;; rw_start opa sta 7 10 0x9000 false;; rw_start opa sta 7 11 0xa000 true) boot with
  | Done (_, s) => s | Panic _ => boot end.
Lemma two_free : free (dk two) = [false; false; false; false; false; false; true; true].
Proof. vm_compute. reflexivity. Qed.
Lemma two_desc : length (desc (dk two)) = NUM.
Proof. vm_compute. reflexivity. Qed.
End Three.

Lemma alloc3_rollback_frees_live_witness :
  ∃ s', alloc3_desc 7 Three.two = Done (None, s') ∧ desc (dk s') !! 0%nat = Some VQDesc_new ∧
    free (dk s') !! 6%nat = Some false ∧
    panics ((rw_start Three.opa Three.sta 7 12 0xb000 false;; device_done 0;; intr Three.rd;; rw_finish 7 0 0x9000) Three.two).
Proof.
  destruct (alloc3_rollback_frees_live 7 Three.two) as (s' & E & Hd & _ & Hleak & _).
  - exact Three.two_desc.
  - rewrite Three.two_free. reflexivity.
  - rewrite Three.two_free. reflexivity.
  - rewrite Three.two_free. reflexivity.
  - rewrite Three.two_free. vm_compute. lia.
  - exists s'. split; [exact E|]. split; [exact Hd|]. split; [apply Hleak; [lia|rewrite Three.two_free; reflexivity]|].
    eexists. vm_compute. reflexivity.
Defined.
