(* ===== verification/DiskQueue.v ===== *)
(** * The request queue of the disk driver ([kernel/src/driver/virtio_disk.rs])

    Processes, the device and the interrupt handler interleave; each holds the
    lock of the disk for one turn of [Virtio].  With at most two requests in
    flight -- six of the eight descriptors; a third request fails and rolls back
    wrongly ([Virtio.alloc3_rollback_frees_live]) -- no turn panics, the
    descriptors are accounted for exactly, and each request is answered once. *)
From S2P Require Import Prelude Consts Virtio.

(** A request between [rw_start] and [rw_finish]: its descriptors, its buffer,
    and how far it is: with the device, answered in the [used] ring, or seen by
    the interrupt handler. *)
Inductive phase := Pending | Answered | Handled.
#[export] Instance phase_eq_dec : EqDecision phase.
Proof. solve_decision. Defined.
Record request := { q0 : nat; q1 : nat; q2 : nat; q_buf : Z; q_writing : bool; q_phase : phase }.
Definition set_phase (p : phase) (q : request) : request :=
  {| q0 := q0 q; q1 := q1 q; q2 := q2 q; q_buf := q_buf q; q_writing := q_writing q; q_phase := p |}.
Definition handle (q : request) : request := if decide (q_phase q = Answered) then set_phase Handled q else q.
Definition ixs (l : list request) : list nat := l ≫= λ q, [q0 q; q1 q; q2 q].

(** The free list when the descriptors [L] are taken. *)
Definition free_of (L : list nat) : list bool := (λ i, bool_decide (i ∉ L)) <$> seq 0 NUM.

Lemma free_of_perm L L' : L ≡ₚ L' → free_of L = free_of L'.
Proof. intros HL. apply list_fmap_ext. intros _ i _. apply bool_decide_ext. by rewrite HL. Qed.
Lemma free_of_lookup L i : (i < NUM)%nat → free_of L !! i = Some (bool_decide (i ∉ L)).
Proof. intros Hi. unfold free_of. by rewrite list_lookup_fmap, lookup_seq_lt by done. Qed.
Lemma length_free_of L : length (free_of L) = NUM.
Proof. unfold free_of. by rewrite length_fmap, length_seq. Qed.
Lemma free_of_insert L i (b : bool) L' : (i < NUM)%nat → (b = bool_decide (i ∉ L')) → (∀ j, j ≠ i → j ∈ L ↔ j ∈ L') →
  <[i := b]> (free_of L) = free_of L'.
Proof.
  intros Hi Hb HL. apply list_eq. intros j. destruct (decide (j < NUM)%nat) as [Hj|Hj].
  - destruct (decide (j = i)) as [->|Hne].
    + rewrite list_lookup_insert_eq by (by rewrite length_free_of). by rewrite free_of_lookup, Hb.
    + rewrite list_lookup_insert_ne, !free_of_lookup by done. f_equal. apply bool_decide_ext. by rewrite (HL j Hne).
  - rewrite !lookup_ge_None_2; [done|rewrite length_free_of; lia|rewrite length_insert, length_free_of; lia].
Qed.
Lemma free_of_take L i : (i < NUM)%nat → <[i := false]> (free_of L) = free_of (i :: L).
Proof. intros Hi. apply free_of_insert; [done| |set_solver]. symmetry. apply bool_decide_eq_false. set_solver. Qed.
Lemma free_of_give L i : (i < NUM)%nat → (i ∉ L) → <[i := true]> (free_of (i :: L)) = free_of L.
Proof. intros Hi HL. apply free_of_insert; [done| |set_solver]. symmetry. by apply bool_decide_eq_true. Qed.

Lemma count_true (P : nat → bool) (l : list nat) : free_count (P <$> l) = length (filter (λ i, P i = true) l).
Proof.
  unfold free_count. induction l as [|i l IH]; [done|]. rewrite fmap_cons, !filter_cons. destruct (decide (P i = true)); cbn; by rewrite ?IH.
Qed.
Lemma free_of_count L : NoDup L → Forall (λ i, (i < NUM)%nat) L → free_count (free_of L) = (NUM - length L)%nat.
Proof.
  intros Hn Hr. unfold free_of. rewrite count_true.
  assert (length (filter (λ i, i ∈ L) (seq 0 NUM)) = length L) as Hin.
  { apply Permutation_length, NoDup_Permutation; [apply NoDup_filter, NoDup_seq|done|]. intros i. rewrite list_elem_of_filter, elem_of_seq.
    rewrite Forall_forall in Hr. split; [tauto|]. intros Hi. split; [done|]. specialize (Hr i Hi). lia. }
  assert (∀ l, length (filter (λ i, bool_decide (i ∉ L) = true) l) + length (filter (λ i, i ∈ L) l) = length l)%nat as Hsum.
  { induction l as [|i l IH]; [done|]. destruct (decide (i ∈ L)) as [Hi|Hi].
    - rewrite filter_cons_False, filter_cons_True by (rewrite ?bool_decide_eq_true; tauto). cbn. lia.
    - rewrite filter_cons_True, filter_cons_False by (rewrite ?bool_decide_eq_true; tauto). cbn. lia. }
  specialize (Hsum (seq 0 NUM)). rewrite length_seq in Hsum. lia.
Qed.

Lemma ixs_app l1 l2 : ixs (l1 ++ l2) = ixs l1 ++ ixs l2.
Proof. apply bind_app. Qed.
Lemma ixs_elem q l : q ∈ l → q0 q ∈ ixs l ∧ q1 q ∈ ixs l ∧ q2 q ∈ ixs l.
Proof. intros Hq. unfold ixs. rewrite !list_elem_of_bind. repeat split; exists q; (split; [set_solver|done]). Qed.
Lemma ixs_fmap f l : (∀ q, q0 (f q) = q0 q ∧ q1 (f q) = q1 q ∧ q2 (f q) = q2 q) → ixs (f <$> l) = ixs l.
Proof. intros Hf. induction l as [|q l IH]; [done|]. destruct (Hf q) as (E0 & E1 & E2).
  change (q0 (f q) :: q1 (f q) :: q2 (f q) :: ixs (f <$> l) = q0 q :: q1 q :: q2 q :: ixs l). by rewrite E0, E1, E2, IH.
Qed.
Lemma ixs_in l i : i ∈ ixs l → ∃ q, q ∈ l ∧ (i = q0 q ∨ i = q1 q ∨ i = q2 q).
Proof. intros (q & Hi & Hq)%list_elem_of_bind. exists q. split; [done|]. set_solver. Qed.

Section queue.
Context (read : Z → Z) (op_addr status_addr : nat → Z) (free_chan : Z).
#[local] Abbreviation start := (rw_start op_addr status_addr free_chan).
#[local] Abbreviation finish := (rw_finish free_chan).

(** What the device finds when it follows the chain of a request. *)
Record chained (d : Disk) (q : request) : Prop := {
  ch_op : ∃ r, ops d !! q0 q = Some r ∧ type_ r = (if q_writing q then VIRTIO_BLK_T_OUT else VIRTIO_BLK_T_IN);
  ch_0 : desc d !! q0 q = Some {| d_addr := op_addr (q0 q); d_len := 16; d_flags := VRING_DESC_F_NEXT; d_next := Z.of_nat (q1 q) |};
  ch_1 : desc d !! q1 q = Some {| d_addr := q_buf q; d_len := BSIZE;
    d_flags := Z.lor (if q_writing q then 0 else VRING_DESC_F_WRITE) VRING_DESC_F_NEXT; d_next := Z.of_nat (q2 q) |};
  ch_2 : desc d !! q2 q = Some {| d_addr := status_addr (q0 q); d_len := 1; d_flags := VRING_DESC_F_WRITE; d_next := 0 |};
}.
Definition info_of (q : request) : Info := {|
  buf_channel := Some (q_buf q); status := if decide (q_phase q = Pending) then 0xff else 0;
  disk := bool_decide (q_phase q ≠ Handled) |}.

Inductive qstep : vstate * list request → vstate * list request → Prop :=
| qs_start blockno buf w i0 i1 i2 s s' l : (length l < 2)%nat → 0 ≤ blockno < 2 ^ 32 →
    start blockno buf w s = Done (Some i0, s') →
    d_next <$> desc (dk s') !! i0 = Some (Z.of_nat i1) → d_next <$> desc (dk s') !! i1 = Some (Z.of_nat i2) →
    qstep (s, l) (s', l ++ [{| q0 := i0; q1 := i1; q2 := i2; q_buf := buf; q_writing := w; q_phase := Pending |}])
| qs_device q s s' l1 l2 : q_phase q = Pending → device_done (q0 q) s = Done (tt, s') →
    qstep (s, l1 ++ q :: l2) (s', l1 ++ set_phase Answered q :: l2)
| qs_intr s s' l : intr read s = Done (tt, s') → qstep (s, l) (s', handle <$> l)
| qs_finish q s s' l1 l2 : finish (q0 q) (q_buf q) s = Done (true, s') → qstep (s, l1 ++ q :: l2) (s', l1 ++ l2)
| qs_again q s s' l1 l2 : finish (q0 q) (q_buf q) s = Done (false, s') → qstep (s, l1 ++ q :: l2) (s', l1 ++ q :: l2).
(** [n] requests since the boot. *)
Inductive qreach : Z → vstate * list request → Prop :=
| qr_boot s self_addr : init read self_addr {| dk := Disk_new; writes := []; woken := [] |} = Done (tt, s) → qreach 0 (s, [])
| qr_step n c c' : qreach n c → qstep c c' → qreach (n + Z.of_nat (length c'.2 - length c.2)) c'.

(** The descriptors and the notes of the driver are those of the requests. *)
Record held (d : Disk) (l : list request) : Prop := {
  h_lens : length (desc d) = NUM ∧ length (info d) = NUM ∧ length (ops d) = NUM ∧ (length l ≤ 2)%nat;
  h_nodup : NoDup (ixs l);
  h_range : Forall (λ i, (i < NUM)%nat) (ixs l);
  h_free : free d = free_of (ixs l);
  h_chain q : q ∈ l → chained d q;
  h_info q : q ∈ l → info d !! q0 q = Some (info_of q);
}.
(** With the answers [ans] that the interrupt handler has not seen. *)
Record queue_ok (n : Z) (d : Disk) (l : list request) (ans : list nat) : Prop := {
  qo_held : held d l;
  qo_ans : ans ≡ₚ q0 <$> filter (λ q, q_phase q = Answered) l;
  qo_len : length (u_ring (used d)) = NUM;
  qo_ring k i : ans !! k = Some i →
    u_ring (used d) !! Z.to_nat ((used_idx d + Z.of_nat k) `mod` Z.of_nat NUM) = Some {| ue_id := Z.of_nat i; ue_len := 0 |};
  qo_idx : 0 ≤ used_idx d ∧ u_idx (used d) = used_idx d + Z.of_nat (length ans);
  qo_count : u_idx (used d) + Z.of_nat (length (filter (λ q, q_phase q = Pending) l)) = n ∧ a_idx (avail d) = n;
}.

Lemma alloc3_run s : length (free (dk s)) = NUM → (3 ≤ free_count (free (dk s)))%nat →
  ∃ i0 i1 i2, alloc3_desc free_chan s = Done (Some [i0; i1; i2], {|
      dk := {| desc := desc (dk s); avail := avail (dk s); used := used (dk s);
        free := <[i2 := false]> (<[i1 := false]> (<[i0 := false]> (free (dk s)))); used_idx := used_idx (dk s);
        info := info (dk s); ops := ops (dk s) |}; writes := writes s; woken := woken s |}) ∧
    (i0 < i1 < i2)%nat ∧ free (dk s) !! i0 = Some true ∧ free (dk s) !! i1 = Some true ∧ free (dk s) !! i2 = Some true.
Proof.
  intros Hf Hc. rewrite <- (vstate_eta s). generalize (writes s), (woken s). intros ws wk. cbn [dk desc avail used free used_idx info ops writes woken].
  generalize (desc (dk s)), (avail (dk s)), (used (dk s)), (used_idx (dk s)), (info (dk s)), (ops (dk s)). intros ds av us ui inf op.
  revert Hf Hc. generalize (free (dk s)). clear s. intros fs Hf Hc.
  set (i0 := default 0%nat (first_free fs 0)). set (i1 := default 0%nat (first_free (<[i0 := false]> fs) 0)).
  set (i2 := default 0%nat (first_free (<[i1 := false]> (<[i0 := false]> fs)) 0)). exists i0, i1, i2. subst i0 i1 i2.
  do 8 (destruct fs as [|? fs]; [done|]). destruct fs; [|done].
  repeat match goal with b : bool |- _ => destruct b end; try (exfalso; vm_compute in Hc; lia);
    (split; [vm_compute; reflexivity|]; split; [vm_compute; lia|]; vm_compute; done).
Qed.

(** What a chain is about does not depend on other descriptors. *)
Lemma chained_ext d d' q : ops d' !! q0 q = ops d !! q0 q → desc d' !! q0 q = desc d !! q0 q → desc d' !! q1 q = desc d !! q1 q →
  desc d' !! q2 q = desc d !! q2 q → chained d q → chained d' q.
Proof. intros E1 E2 E3 E4 [H0 H1 H2 H3]. split; [by rewrite E1|by rewrite E2|by rewrite E3|by rewrite E4]. Qed.

Lemma bind_upd {A} f (k : unit → M vstate A) s : (upd f ≫= k) s = k tt {| dk := f (dk s); writes := writes s; woken := woken s |}.
Proof. reflexivity. Qed.
Lemma bind_get {A} (k : vstate → M vstate A) s : (get ≫= k) s = k s s.
Proof. reflexivity. Qed.
Lemma bind_lift {A B} (x : A) (k : A → M vstate B) s : (lift (Done x) ≫= k) s = k x s.
Proof. reflexivity. Qed.
Lemma bind_wakeup {A} c (k : unit → M vstate A) s : (wakeup c ≫= k) s = k tt {| dk := dk s; writes := writes s; woken := woken s ++ [c] |}.
Proof. reflexivity. Qed.
Ltac queue_simpl :=
  unfold set_op, set_desc, set_info, set_avail, set_free, set_used_idx;
  repeat (first [rewrite bind_upd | rewrite bind_get | rewrite bind_lift | rewrite bind_wakeup]; cbv beta;
    cbn [dk desc avail used free used_idx info ops a_flags a_idx a_ring a_unused]).
Lemma start_run n s l ans blockno buf w : queue_ok n (dk s) l ans → (length l < 2)%nat → 0 ≤ blockno < 2 ^ 32 → n + 1 < 2 ^ 16 →
  ∃ i0 i1 i2 s', start blockno buf w s = Done (Some i0, s') ∧
    queue_ok (n + 1) (dk s') (l ++ [{| q0 := i0; q1 := i1; q2 := i2; q_buf := buf; q_writing := w; q_phase := Pending |}]) ans ∧
    sector <$> ops (dk s') !! i0 = Some (2 * blockno) ∧ a_ring (avail (dk s')) = <[Z.to_nat (n `mod` 8) := Z.of_nat i0]> (a_ring (avail (dk s))).
Proof.
  intros [[Hlens Hnd Hrg Hfree Hch Hinf] Hans Lu Hring Hidx [Hcnt Havail]] Hl Hb Hn. destruct Hlens as (Ld & Li & Lo & _).
  assert (length (ixs l) = 3 * length l)%nat as Lix by (clear; induction l as [|q l IH]; cbn; [done|]; unfold ixs in IH; lia).
  destruct (alloc3_run s) as (i0 & i1 & i2 & E & Hlt & F0 & F1 & F2).
  { by rewrite Hfree, length_free_of. } { rewrite Hfree, free_of_count by done. unfold NUM. lia. }
  rewrite Hfree in F0, F1, F2.
  assert (∀ i, free_of (ixs l) !! i = Some true → (i < NUM)%nat ∧ (i ∉ ixs l)) as Hfr.
  { intros i Hi. pose proof (lookup_lt_Some _ _ _ Hi) as Hlti. rewrite length_free_of in Hlti. split; [done|].
    rewrite free_of_lookup in Hi by done. injection Hi as Hi. by apply bool_decide_eq_true in Hi. }
  destruct (Hfr _ F0) as [R0 N0], (Hfr _ F1) as [R1 N1], (Hfr _ F2) as [R2 N2]. clear F0 F1 F2 Hfr.
  destruct (lookup_lt_is_Some_2 (info (dk s)) i0) as [x Hx]; [lia|].
  assert (blockno * (BSIZE / 512) = 2 * blockno) as Esec by (change (BSIZE / 512) with 2; lia).
  exists i0, i1, i2. unfold rw_start. rewrite (bind_run _ _ _ _ _ E). cbv beta iota.
  rewrite mul_chk_ok, Esec by lia. queue_simpl. rewrite Havail, add_chk_ok by lia. queue_simpl.
  eexists. split; [reflexivity|]. cbn [dk desc avail used free used_idx info ops a_idx a_ring].
  rewrite list_alter_twice, (alter_as_insert _ _ _ _ Hx). unfold compose. cbn [buf_channel status disk].
  split; [|split; [by rewrite list_lookup_insert_eq by lia|done]].
  set (q := {| q0 := i0; q1 := i1; q2 := i2; q_buf := buf; q_writing := w; q_phase := Pending |}).
  assert (ixs (l ++ [q]) ≡ₚ i2 :: i1 :: i0 :: ixs l) as Hp.
  { rewrite ixs_app. cbn. rewrite (Permutation_app_comm (ixs l)). cbn.
    etransitivity; [apply perm_swap|]. etransitivity; [apply perm_skip, perm_swap|]. apply perm_swap. }
  assert (∀ q', q' ∈ l → q0 q' ≠ i0 ∧ q0 q' ≠ i1 ∧ q0 q' ≠ i2 ∧ q1 q' ≠ i0 ∧ q1 q' ≠ i1 ∧ q1 q' ≠ i2 ∧ q2 q' ≠ i0 ∧ q2 q' ≠ i1 ∧ q2 q' ≠ i2) as Hne.
  { intros q' (A & B & C)%ixs_elem. repeat split; intros E'; rewrite E' in *; tauto. }
  split; [split| | | | |]; cbn [desc avail used free used_idx info ops a_idx a_ring].
  - rewrite !length_insert, length_app. cbn. repeat split; try done; lia.
  - rewrite Hp. repeat (apply NoDup_cons; split; [rewrite ?not_elem_of_cons; repeat split; (lia || done)|]). done.
  - rewrite Hp. by repeat (apply Forall_cons; split; [done|]).
  - rewrite Hfree, !free_of_take by done. by apply free_of_perm.
  - intros q' [Hq'| ->%list_elem_of_singleton]%elem_of_app.
    + destruct (Hne q' Hq') as (? & ? & ? & ? & ? & ? & ? & ? & ?). eapply (chained_ext (dk s)); [..|by apply Hch];
        cbn [ops desc]; by rewrite !list_lookup_insert_ne.
    + split; cbn [ops desc q0 q1 q2 q_buf q_writing q].
      * eexists. rewrite list_lookup_insert_eq by lia. done.
      * rewrite !list_lookup_insert_ne by lia. by rewrite list_lookup_insert_eq by lia.
      * rewrite list_lookup_insert_ne by lia. by rewrite list_lookup_insert_eq by (rewrite length_insert; lia).
      * by rewrite list_lookup_insert_eq by (rewrite !length_insert; lia).
  - intros q' [Hq'| ->%list_elem_of_singleton]%elem_of_app.
    + destruct (Hne q' Hq') as (? & _). rewrite list_lookup_insert_ne by done. by apply Hinf.
    + by rewrite list_lookup_insert_eq by lia.
  - rewrite filter_app, fmap_app. by rewrite filter_cons_False, filter_nil, app_nil_r by done.
  - done.
  - done.
  - done.
  - rewrite filter_app, filter_cons_True, filter_nil, length_app by done. cbn [length]. split; [lia|done].
Qed.

(** A request that only changes its phase. *)
Lemma held_rephase d d' l1 q l2 ph : held d (l1 ++ q :: l2) → desc d' = desc d → ops d' = ops d → free d' = free d →
  info d' = <[q0 q := info_of (set_phase ph q)]> (info d) → held d' (l1 ++ set_phase ph q :: l2).
Proof.
  set (q' := set_phase ph q). intros [Hlens Hnd Hrg Hfree Hch Hinf] Ed Eo Ef Ei. destruct Hlens as (Ld & Li & Lo & Ll).
  assert (ixs (l1 ++ q' :: l2) = ixs (l1 ++ q :: l2)) as Eix by (by rewrite !ixs_app).
  rewrite length_app in Ll. split; [|by rewrite Eix|by rewrite Eix|by rewrite Eix, Ef|..].
  - rewrite Ed, Eo, Ei, length_insert, length_app. done.
  - intros p Hp. assert (∃ p', p' ∈ l1 ++ q :: l2 ∧ q0 p = q0 p' ∧ q1 p = q1 p' ∧ q2 p = q2 p' ∧ q_buf p = q_buf p' ∧ q_writing p = q_writing p')
      as (p' & Hp' & E0 & E1 & E2 & E3 & E4).
    { apply elem_of_app in Hp as [Hp|[->|Hp]%elem_of_cons]; [exists p|exists q|exists p]; (split; [set_solver|done]). }
    destruct (Hch p' Hp') as [C0 C1 C2 C3]. by split; rewrite ?Ed, ?Eo, ?E0, ?E1, ?E2, ?E3, ?E4.
  - intros p Hp. rewrite Ei. assert (is_Some (info d !! q0 q)) as [x Hx] by (rewrite Hinf by set_solver; eauto).
    apply elem_of_app in Hp as [Hp|[->|Hp]%elem_of_cons].
    2: { by rewrite list_lookup_insert_eq by (eapply lookup_lt_Some, Hx). }
    all: rewrite list_lookup_insert_ne; [apply Hinf; set_solver|]; intros E; rewrite ixs_app in Hnd; cbn in Hnd;
      rewrite (Permutation_app_comm (ixs l1)) in Hnd; cbn in Hnd; apply NoDup_cons in Hnd as [Hnin _]; apply Hnin; rewrite E;
      do 2 right; rewrite elem_of_app; apply ixs_elem in Hp; tauto.
Qed.

Lemma device_run n s l1 q l2 ans : queue_ok n (dk s) (l1 ++ q :: l2) ans → q_phase q = Pending → n < 2 ^ 16 →
  ∃ s', device_done (q0 q) s = Done (tt, s') ∧ queue_ok n (dk s') (l1 ++ set_phase Answered q :: l2) (ans ++ [q0 q]).
Proof.
  intros [Hh Hans Lu Hring [H0 Hu1] [Hcnt Havail]] Hq Hn.
  assert (info (dk s) !! q0 q = Some (info_of q)) as Hx by (apply (h_info _ _ Hh); set_solver).
  assert (length ans ≤ 2)%nat as La.
  { rewrite Hans, length_fmap. etransitivity; [apply length_filter|]. apply (h_lens _ _ Hh). }
  rewrite filter_app, filter_cons_True, length_app in Hcnt by done. cbn [length] in Hcnt.
  assert (u_idx (used (dk s)) + 1 < 2 ^ 16) as Hu by lia.
  eexists. split; [reflexivity|]. cbn [dk desc avail used free used_idx info ops u_idx u_ring].
  rewrite (alter_as_insert _ _ _ _ Hx). cbn [info_of buf_channel status disk]. unfold wrap. rewrite Z.mod_small by lia.
  split; cbn [desc avail used free used_idx info ops u_idx u_ring].
  - eapply (held_rephase (dk s)); [exact Hh|done..|]. cbn [info]. by rewrite Hq.
  - rewrite filter_app, filter_cons_True by done. rewrite filter_app, filter_cons_False, !fmap_app in Hans by (by rewrite Hq).
    rewrite Hans, fmap_app, fmap_cons. cbn [q0 set_phase]. rewrite <- app_assoc. f_equiv. by rewrite Permutation_app_comm.
  - by rewrite length_insert.
  - intros k i Hk. destruct (decide (k < length ans)%nat) as [Hka|Hka].
    + rewrite lookup_app_l in Hk by done. rewrite list_lookup_insert_ne; [by apply Hring|]. unfold NUM in *. intros E.
      apply Z2Nat.inj in E; [|dlia|dlia]. rewrite Hu1 in E. dlia.
    + rewrite lookup_app_r in Hk by lia. apply list_lookup_singleton_Some in Hk as [Hk ->]. assert (k = length ans) as -> by lia.
      rewrite Hu1. apply list_lookup_insert_eq. rewrite Lu. unfold NUM. dlia.
  - rewrite length_app. cbn. lia.
  - rewrite filter_app, filter_cons_False, length_app by done. lia.
Qed.

Lemma answered_split n d l i ans : queue_ok n d l (i :: ans) → ∃ l1 q l2, l = l1 ++ q :: l2 ∧ q0 q = i ∧ q_phase q = Answered.
Proof.
  intros Hq. assert (i ∈ q0 <$> filter (λ q, q_phase q = Answered) l) as Hi by (rewrite <- (qo_ans _ _ _ _ Hq); by left).
  apply list_elem_of_fmap in Hi as (q & -> & [Hp Hl]%list_elem_of_filter). apply list_elem_of_split in Hl as (l1 & l2 & ->). by exists l1, q, l2.
Qed.
Lemma intr_loop_run n ans : ∀ l s fuel, queue_ok n (dk s) l ans → n < 2 ^ 16 → (length ans ≤ fuel)%nat →
  ∃ s', intr_loop fuel s = Done (tt, s') ∧ queue_ok n (dk s') (handle <$> l) [].
Proof.
  induction ans as [|i ans IH]; intros l s fuel Hq Hn Hf; pose proof Hq as [Hh Hans Lu Hring [H0 Hu1] [Hcnt Havail]].
  { exists s. split.
    - destruct fuel; cbn [intr_loop]; rewrite (bind_run get _ s s s eq_refl); cbv zeta; cbn in Hu1; by rewrite (proj2 (Z.eqb_eq _ _)) by lia.
    - assert (handle <$> l = l) as ->; [|done]. rewrite <- (list_fmap_id l) at 2. apply list_fmap_ext. intros k q Hk. unfold handle.
      rewrite decide_False; [done|]. intros Ha. assert (q0 q ∈ ([] : list nat)) as Hin; [|by apply elem_of_nil in Hin].
      rewrite Hans. apply list_elem_of_fmap. exists q. split; [done|]. apply list_elem_of_filter. split; [done|by eapply list_elem_of_lookup_2]. }
  destruct fuel as [|fuel]; [cbn in Hf; lia|]. destruct (answered_split _ _ _ _ _ Hq) as (l1 & q & l2 & -> & <- & Hp).
  assert (info (dk s) !! q0 q = Some (info_of q)) as Hx by (apply (h_info _ _ Hh); set_solver).
  assert (u_ring (used (dk s)) !! Z.to_nat (used_idx (dk s) `mod` Z.of_nat NUM) = Some {| ue_id := Z.of_nat (q0 q); ue_len := 0 |}) as Hr.
  { rewrite <- (Z.add_0_r (used_idx (dk s))). exact (Hring 0%nat (q0 q) eq_refl). }
  cbn [length] in Hu1. cbn [intr_loop]. rewrite (bind_run get _ s s s eq_refl). cbv zeta. rewrite (proj2 (Z.eqb_neq _ _)) by lia.
  rewrite Hr. rewrite (bind_run _ _ s _ s eq_refl). cbn [ue_id]. rewrite Nat2Z.id, Hx. rewrite (bind_run _ _ s _ s eq_refl).
  cbn [info_of status buf_channel]. rewrite decide_False by (by rewrite Hp). cbn [Z.eqb negb]. rewrite (bind_run _ _ s _ s eq_refl).
  queue_simpl. rewrite add_chk_ok by lia. queue_simpl.
  rewrite (alter_as_insert _ _ _ _ Hx). cbn [info_of buf_channel status disk].
  match goal with |- ∃ _, intr_loop _ ?s1 = _ ∧ _ => set (s' := s1) end.
  assert (queue_ok n (dk s') (l1 ++ set_phase Handled q :: l2) ans) as Hq'.
  { split; cbn [s' dk desc avail used free used_idx info ops].
    - eapply (held_rephase (dk s)); [exact Hh|done..|]. cbn [s' dk info]. unfold info_of. cbn [q_phase set_phase q_buf]. do 2 f_equal. by rewrite Hp.
    - rewrite filter_app, filter_cons_True in Hans by done. rewrite filter_app, filter_cons_False by done. rewrite fmap_app in *.
      rewrite fmap_cons in Hans. rewrite <- Permutation_middle in Hans. by apply Permutation_cons_inv in Hans.
    - done.
    - intros k i Hk. replace (used_idx (dk s) + 1 + Z.of_nat k) with (used_idx (dk s) + Z.of_nat (S k)) by lia. by apply Hring.
    - lia.
    - rewrite filter_app, filter_cons_False, length_app in Hcnt |- * by (rewrite ?Hp; done). done. }
  destruct (IH _ s' fuel Hq' Hn) as (s2 & E2 & Hq2); [cbn in Hf; lia|]. exists s2. split; [exact E2|].
  rewrite fmap_app, fmap_cons in *. unfold handle at 2. rewrite decide_True by done. exact Hq2.
Qed.
Lemma intr_run n s l ans : queue_ok n (dk s) l ans → n < 2 ^ 16 →
  ∃ s', intr read s = Done (tt, s') ∧ queue_ok n (dk s') (handle <$> l) [].
Proof.
  intros Hq Hn. unfold intr. rewrite (bind_run _ _ s tt _ eq_refl). apply (intr_loop_run n ans); [exact Hq|done|].
  rewrite (qo_ans _ _ _ _ Hq), length_fmap. etransitivity; [apply length_filter|]. etransitivity; [apply (h_lens _ _ (qo_held _ _ _ _ Hq))|].
  rewrite <- (Nat2Z.id 2). apply Z2Nat.inj_le; lia.
Qed.

(** ** The end of a request *)
Definition freed (i : nat) (s : vstate) : vstate := {|
  dk := {| desc := <[i := VQDesc_new]> (desc (dk s)); avail := avail (dk s); used := used (dk s);
           free := <[i := true]> (free (dk s)); used_idx := used_idx (dk s); info := info (dk s); ops := ops (dk s) |};
  writes := writes s; woken := woken s ++ [free_chan] |}.
Lemma free_chain_one fuel i d s : desc (dk s) !! i = Some d → (i < NUM)%nat → free (dk s) !! i = Some false →
  free_chain free_chan (S fuel) i s =
    (if negb (Z.land (d_flags d) VRING_DESC_F_NEXT =? 0) then free_chain free_chan fuel (Z.to_nat (d_next d)) else mret tt) (freed i s).
Proof.
  intros Hd Hi Hf. cbn [free_chain]. rewrite (bind_run get _ s s s eq_refl), Hd. rewrite (bind_run _ _ s d s eq_refl).
  rewrite (bind_run _ _ s tt (freed i s)); [done|]. unfold free_desc. rewrite (bind_run get _ s s s eq_refl), Hf.
  rewrite (proj2 (Nat.leb_gt _ _)) by done. reflexivity.
Qed.
Lemma held_drop d l1 q l2 x : held d (l1 ++ q :: l2) → info d !! q0 q = Some x →
  held {| desc := <[q2 q := VQDesc_new]> (<[q1 q := VQDesc_new]> (<[q0 q := VQDesc_new]> (desc d))); avail := avail d; used := used d;
          free := <[q2 q := true]> (<[q1 q := true]> (<[q0 q := true]> (free d))); used_idx := used_idx d;
          info := <[q0 q := {| buf_channel := None; status := status x; disk := disk x |}]> (info d); ops := ops d |} (l1 ++ l2).
Proof.
  intros [Hlens Hnd Hrg Hfree Hch Hinf] Hx. destruct Hlens as (Ld & Li & Lo & Ll). rewrite length_app in Ll. cbn in Ll.
  assert (ixs (l1 ++ q :: l2) ≡ₚ q2 q :: q1 q :: q0 q :: ixs (l1 ++ l2)) as Hp.
  { rewrite !ixs_app. cbn. rewrite (Permutation_app_comm (ixs l1)). cbn. rewrite (Permutation_app_comm (ixs l2)).
    etransitivity; [apply perm_swap|]. etransitivity; [apply perm_skip, perm_swap|]. apply perm_swap. }
  rewrite Hp in Hnd, Hrg. apply NoDup_cons in Hnd as [N2 [N1 [N0 Hnd]%NoDup_cons]%NoDup_cons].
  apply Forall_cons in Hrg as [R2 [R1 [R0 Hrg]%Forall_cons]%Forall_cons].
  assert (∀ q', q' ∈ l1 ++ l2 → q' ∈ l1 ++ q :: l2) as Hin by set_solver.
  assert (∀ q', q' ∈ l1 ++ l2 → q0 q' ≠ q0 q ∧ q0 q' ≠ q1 q ∧ q0 q' ≠ q2 q ∧ q1 q' ≠ q0 q ∧ q1 q' ≠ q1 q ∧ q1 q' ≠ q2 q ∧
    q2 q' ≠ q0 q ∧ q2 q' ≠ q1 q ∧ q2 q' ≠ q2 q) as Hne.
  { rewrite !not_elem_of_cons in N2. rewrite !not_elem_of_cons in N1. clear - N0 N1 N2. intros q' (A & B & C)%ixs_elem. repeat split; intros E; rewrite E in *; tauto. }
  rewrite !not_elem_of_cons in N2. rewrite !not_elem_of_cons in N1.
  split; cbn [desc info ops free]; [|done|done|..].
  - rewrite !length_insert, length_app. repeat split; try done. lia.
  - rewrite Hfree, (free_of_perm _ _ Hp). rewrite (free_of_perm _ (q0 q :: q1 q :: q2 q :: ixs (l1 ++ l2))).
    2: { etransitivity; [apply perm_swap|]. etransitivity; [apply perm_skip, perm_swap|]. apply perm_swap. }
    rewrite !free_of_give by (rewrite ?not_elem_of_cons; done || (repeat split; naive_solver)). done.
  - intros q' Hq'. destruct (Hne q' Hq') as (? & ? & ? & ? & ? & ? & ? & ? & ?). eapply (chained_ext d); [..|by apply Hch, Hin]; cbn [ops desc];
      by rewrite ?list_lookup_insert_ne.
  - intros q' Hq'. destruct (Hne q' Hq') as (? & _). rewrite list_lookup_insert_ne by done. by apply Hinf, Hin.
Qed.
Lemma finish_run n s l1 q l2 ans : queue_ok n (dk s) (l1 ++ q :: l2) ans →
  if decide (q_phase q = Handled) then
    ∃ s', finish (q0 q) (q_buf q) s = Done (true, s') ∧ queue_ok n (dk s') (l1 ++ l2) ans
  else finish (q0 q) (q_buf q) s = Done (false, s).
Proof.
  intros [Hh Hans Lu Hring Hidx [Hcnt Havail]]. assert (q ∈ l1 ++ q :: l2) as Hq by set_solver.
  pose proof (h_info _ _ Hh q Hq) as Hx. unfold rw_finish. rewrite (bind_run get _ s s s eq_refl), Hx. rewrite (bind_run _ _ s _ s eq_refl).
  cbn [info_of disk buf_channel]. destruct (decide (q_phase q = Handled)) as [Hp|Hp].
  2: { by rewrite bool_decide_eq_true_2. }
  rewrite bool_decide_eq_false_2 by (by intros []). rewrite (bind_run _ _ s tt _ eq_refl). rewrite (bind_run _ _ _ (q_buf q) _ eq_refl).
  rewrite Z.eqb_refl. rewrite (bind_run _ _ _ tt _ eq_refl). cbn [dk desc avail used free used_idx info ops].
  rewrite (alter_as_insert _ _ _ _ Hx). match goal with |- context [(free_chain _ _ _ ≫= _) ?x] => set (s1 := x) end.
  destruct (h_chain _ _ Hh q Hq) as [_ C0 C1 C2]. pose proof (h_nodup _ _ Hh) as Hnd. pose proof (h_range _ _ Hh) as Hrg. pose proof (h_free _ _ Hh) as Hfr.
  destruct (ixs_elem q _ Hq) as (I0 & I1 & I2). rewrite Forall_forall in Hrg.
  assert (∀ i, i ∈ ixs (l1 ++ q :: l2) → free (dk s) !! i = Some false) as Hf.
  { intros i Hi. rewrite Hfr, free_of_lookup by (by apply Hrg). f_equal. apply bool_decide_eq_false. tauto. }
  rewrite ixs_app in Hnd. cbn in Hnd. rewrite (Permutation_app_comm (ixs l1)) in Hnd. cbn in Hnd.
  apply NoDup_cons in Hnd as [N0 [N1 _]%NoDup_cons]. rewrite !not_elem_of_cons in N0. rewrite !not_elem_of_cons in N1.
  rewrite (bind_run _ _ s1 tt (freed (q2 q) (freed (q1 q) (freed (q0 q) s1)))).
  2: { rewrite (free_chain_one NUM _ _ s1 C0 (Hrg _ I0) (Hf _ I0)). cbn [d_flags d_next].
       change (negb (Z.land VRING_DESC_F_NEXT VRING_DESC_F_NEXT =? 0)) with true. cbv iota. rewrite Nat2Z.id.
       change NUM with (S 7). rewrite (free_chain_one 7 _ {| d_addr := q_buf q; d_len := BSIZE;
         d_flags := Z.lor (if q_writing q then 0 else VRING_DESC_F_WRITE) VRING_DESC_F_NEXT; d_next := Z.of_nat (q2 q) |}).
       3: by apply Hrg.
       2: { cbn [freed dk desc s1]. rewrite list_lookup_insert_ne by naive_solver. exact C1. }
       2: { cbn [freed dk free s1]. rewrite list_lookup_insert_ne by naive_solver. by apply Hf. }
       cbn [d_flags d_next]. assert (negb (Z.land (Z.lor (if q_writing q then 0 else VRING_DESC_F_WRITE) VRING_DESC_F_NEXT) VRING_DESC_F_NEXT =? 0) = true) as -> by (by destruct (q_writing q)). cbv iota.
       rewrite Nat2Z.id. rewrite (free_chain_one 6 _ {| d_addr := status_addr (q0 q); d_len := 1; d_flags := VRING_DESC_F_WRITE; d_next := 0 |}).
       3: by apply Hrg.
       2: { cbn [freed dk desc s1]. rewrite !list_lookup_insert_ne by naive_solver. exact C2. }
       2: { cbn [freed dk free s1]. rewrite !list_lookup_insert_ne by naive_solver. by apply Hf. }
       reflexivity. }
  eexists. split; [reflexivity|].
  assert (∀ P : request → Prop, ∀ (dec : ∀ x, Decision (P x)), ¬ P q → filter P (l1 ++ q :: l2) = filter P (l1 ++ l2)) as Hflt.
  { intros P dec HP. by rewrite !filter_app, filter_cons_False by done. }
  rewrite Hflt in Hans, Hcnt by (by rewrite Hp).
  split; cbn [freed s1 dk desc avail used free used_idx info ops]; [|done..]. exact (held_drop (dk s) l1 q l2 (info_of q) Hh Hx).
Qed.

Lemma init_ok self_addr s s' : init read self_addr s = Done (tt, s') → dk s = Disk_new → queue_ok 0 (dk s') [] [].
Proof.
  intros E Hd. assert (dk s' = {| desc := desc Disk_new; avail := avail Disk_new; used := used Disk_new; free := replicate NUM true;
    used_idx := 0; info := info Disk_new; ops := ops Disk_new |}) as ->.
  { destruct s as [d ws wk]. cbn [dk] in Hd. subst d. unfold init in E.
    cbv beta iota zeta delta [assertM mbind M_bind mret M_ret panic write set_free upd modify dk writes woken] in E.
    clear -E.
    repeat match type of E with context [if ?b then _ else _] => destruct b; cbv beta iota in E; try done end.
    injection E as <-. done. }
  split; [split| | | | |].
  - repeat split. cbn. lia.
  - constructor.
  - constructor.
  - reflexivity.
  - intros q Hq. by apply elem_of_nil in Hq.
  - intros q Hq. by apply elem_of_nil in Hq.
  - done.
  - done.
  - done.
  - by split.
  - by split.
Qed.

Lemma qreach_ok n c : qreach n c → n < 2 ^ 16 → ∃ ans, queue_ok n (dk c.1) c.2 ans.
Proof.
  induction 1 as [s self_addr E|n c c' _ IH Hstep]; intros Hn; [exists []; by eapply init_ok|].
  destruct IH as [ans Hq]; [lia|]. assert (0 ≤ n) as H0.
  { destruct Hq as [_ _ _ _ [? ?] [? ?]]. lia. }
  destruct Hstep as [blockno buf w i0 i1 i2 s s' l Hl Hb E E1 E2|q s s' l1 l2 Hp E|s s' l E|q s s' l1 l2 E|q s s' l1 l2 E]; cbn [fst snd] in *.
  - rewrite length_app in *. cbn [length] in *. replace (Z.of_nat (length l + 1 - length l)) with 1 in * by lia.
    destruct (start_run n s l ans blockno buf w Hq Hl Hb Hn) as (j0 & j1 & j2 & s2 & E' & Hq' & _). rewrite E in E'. injection E' as <- <-.
    destruct (h_chain _ _ (qo_held _ _ _ _ Hq') {| q0 := i0; q1 := j1; q2 := j2; q_buf := buf; q_writing := w; q_phase := Pending |}) as [_ C0 C1 _]; [set_solver|].
    cbn in C0, C1. rewrite C0 in E1. injection E1 as E1. apply Nat2Z.inj in E1 as ->. rewrite C1 in E2. injection E2 as E2. apply Nat2Z.inj in E2 as ->.
    by exists ans.
  - rewrite !length_app in *. cbn [length] in *. rewrite Nat.sub_diag, Z.add_0_r in *.
    destruct (device_run n s l1 q l2 ans Hq Hp Hn) as (s2 & E' & Hq'). rewrite E in E'. injection E' as <-. eauto.
  - rewrite length_fmap in *. rewrite Nat.sub_diag, Z.add_0_r in *.
    destruct (intr_run n s l ans Hq Hn) as (s2 & E' & Hq'). rewrite E in E'. injection E' as <-. eauto.
  - rewrite !length_app in *. cbn [length] in *. replace (length l1 + length l2 - _)%nat with 0%nat in * by lia. rewrite Z.add_0_r in *.
    pose proof (finish_run n s l1 q l2 ans Hq) as Hf. destruct (decide _) in Hf; [|congruence].
    destruct Hf as (s2 & E' & Hq'). rewrite E in E'. injection E' as <-. eauto.
  - rewrite Nat.sub_diag, Z.add_0_r in *.
    pose proof (finish_run n s l1 q l2 ans Hq) as Hf. destruct (decide _) in Hf; [destruct Hf as (s2 & E' & _); congruence|].
    rewrite E in Hf. injection Hf as <-. eauto.
Qed.

(** C11. The disk queue works for two requests at a time.  However processes,
    the device and interrupts interleave, with at most two requests in flight
    and fewer than [2^16] since the boot: exactly the three descriptors of each
    request are taken, and they are chained as the device expects them, header,
    buffer and status byte; no turn panics: a new request gets three free
    descriptors, its sector and its place in the ring, the interrupt handler
    finds every answer and wakes its buffer, and a process that looks after its
    request goes on sleeping until the answer was handled, and then frees
    exactly its chain. *)
Theorem disk_requests_served n s l : qreach n (s, l) → n + 1 < 2 ^ 16 →
  (∀ i, (i < NUM)%nat → free (dk s) !! i = Some (bool_decide (i ∉ ixs l))) ∧ NoDup (ixs l) ∧ (∀ q, q ∈ l → chained (dk s) q) ∧
  (∀ blockno buf w, (length l < 2)%nat → 0 ≤ blockno < 2 ^ 32 → ∃ i0 s', start blockno buf w s = Done (Some i0, s') ∧
    (i0 ∉ ixs l) ∧ sector <$> ops (dk s') !! i0 = Some (2 * blockno) ∧
    a_ring (avail (dk s')) = <[Z.to_nat (n `mod` 8) := Z.of_nat i0]> (a_ring (avail (dk s)))) ∧
  (∃ s', intr read s = Done (tt, s') ∧ ∀ q, q ∈ handle <$> l → info (dk s') !! q0 q = Some (info_of q)) ∧
  ∀ q, q ∈ l → if decide (q_phase q = Handled)
    then ∃ s', finish (q0 q) (q_buf q) s = Done (true, s') ∧
      ∀ i, (i < NUM)%nat → free (dk s') !! i = Some (bool_decide ((i ∉ ixs l) ∨ i = q0 q ∨ i = q1 q ∨ i = q2 q))
    else finish (q0 q) (q_buf q) s = Done (false, s).
Proof.
  intros Hr Hn. destruct (qreach_ok n (s, l) Hr ltac:(lia)) as [ans Hq]. cbn [fst snd] in Hq. pose proof (qo_held _ _ _ _ Hq) as Hh.
  split; [intros i Hi; rewrite (h_free _ _ Hh); by apply free_of_lookup|]. split; [apply Hh|]. split; [apply Hh|]. split; [|split].
  - intros blockno buf w Hl Hb. destruct (start_run n s l ans blockno buf w Hq Hl Hb Hn) as (i0 & i1 & i2 & s' & E & Hq' & Hsec & Hring).
    exists i0, s'. split; [exact E|]. split; [|by split]. pose proof (h_nodup _ _ (qo_held _ _ _ _ Hq')) as Hnd.
    rewrite ixs_app in Hnd. apply NoDup_app in Hnd as (_ & Hnd & _). intros Hi. exact (Hnd i0 Hi ltac:(cbn; set_solver)).
  - destruct (intr_run n s l ans Hq ltac:(lia)) as (s' & E & Hq'). exists s'. split; [exact E|]. apply (h_info _ _ (qo_held _ _ _ _ Hq')).
  - intros q Hql. apply list_elem_of_split in Hql as (l1 & l2 & ->). pose proof (finish_run n s l1 q l2 ans Hq) as Hf.
    destruct (decide _); [|exact Hf]. destruct Hf as (s' & E & Hq'). exists s'. split; [exact E|]. intros i Hi.
    rewrite (h_free _ _ (qo_held _ _ _ _ Hq')), free_of_lookup by done. f_equal. apply bool_decide_ext.
    pose proof (h_nodup _ _ Hh) as Hnd. rewrite ixs_app in Hnd |- *. rewrite (ixs_app l1 (q :: l2)).
    change (ixs (q :: l2)) with ([q0 q; q1 q; q2 q] ++ ixs l2) in *.
    assert (∀ j, j ∈ [q0 q; q1 q; q2 q] → (j ∉ ixs l1) ∧ (j ∉ ixs l2)) as Hj.
    { apply NoDup_app in Hnd as (_ & H1 & H2). apply NoDup_app in H2 as (_ & H2 & _). intros j Hj. split; [|by apply H2].
      intros Hj1. apply (H1 j Hj1). apply elem_of_app. by left. }
    rewrite !not_elem_of_app, !not_elem_of_cons. split; [intros [? ?]|intros [[? [? ?]]|Hi']].
    + destruct (decide (i = q0 q)), (decide (i = q1 q)), (decide (i = q2 q)); try tauto. left. repeat split; try done. apply not_elem_of_nil.
    + by split.
    + apply Hj. set_solver.
Qed.
End queue.

(** * One request, from the boot to its end *)
Module One.
Definition after (m : M vstate unit) (s : vstate) : vstate := match m s with Done (_, s) => s | Panic _ => s end.
Definition booted : vstate := after (init Three.rd 0x80010000) Three.boot.
Definition started : vstate := after (rw_start Three.opa Three.sta 7 10 0x9000 false;; mret tt) booted.
Definition answered : vstate := after (device_done 0) started.
Definition handled : vstate := after (intr Three.rd) answered.
Definition q : request := {| q0 := 0; q1 := 1; q2 := 2; q_buf := 0x9000; q_writing := false; q_phase := Handled |}.
Lemma one_reached : qreach Three.rd Three.opa Three.sta 7 1 (handled, [q]).
Proof.
  apply (qr_step _ _ _ _ 1 (answered, [set_phase Answered q]) (handled, [q])).
  2: { apply (qs_intr _ _ _ _ answered handled [set_phase Answered q]). by vm_compute. }
  apply (qr_step _ _ _ _ 1 (started, [set_phase Pending q]) (answered, [set_phase Answered q])).
  2: { apply (qs_device _ _ _ _ (set_phase Pending q) started answered [] []); by vm_compute. }
  apply (qr_step _ _ _ _ 0 (booted, []) (started, [set_phase Pending q])).
  2: { apply (qs_start _ _ _ _ 10 0x9000 false 0 1 2 booted started []); [cbn; lia|lia|by vm_compute..]. }
  apply (qr_boot _ _ _ _ booted 0x80010000). by vm_compute.
Qed.
End One.

Lemma disk_requests_served_witness :
  free (dk One.handled) !! 2%nat = Some false ∧
  ∃ s', rw_finish 7 0 0x9000 One.handled = Done (true, s') ∧ free (dk s') !! 2%nat = Some true.
Proof.
  destruct (disk_requests_served Three.rd Three.opa Three.sta 7 1 One.handled [One.q] One.one_reached ltac:(lia)) as (Hf & _ & _ & _ & _ & Hfin).
  split; [exact (Hf 2%nat ltac:(unfold NUM; lia))|]. destruct (Hfin One.q ltac:(by left)) as (s' & E & Hs'). exists s'. split; [exact E|].
  exact (Hs' 2%nat ltac:(unfold NUM; lia)).
Defined.
