(* ===== verification/Console.v ===== *)
(** * Console and serial port ([kernel/src/driver/console.rs], [driver/uart.rs])

    The line discipline of the console (echo, erase, committing a line) and
    the output queue of the serial port, both rings whose indices are
    [Wrapping<usize>].  As in [Pipe], a *turn* is what one call does between two
    points where the lock is free; a call that sleeps is taken up again from
    where it was.  The device is the sequence of bytes it hands to [UART.intr],
    the number of times [is_idle] says yes, and the bytes written to [THR];
    [PANICKED] is not set, and [putc_sync] waits until the device takes its
    byte. *)
From S2P Require Import Prelude Consts Addr PageTable Uvm.

Inductive turn (A : Type) := Asleep | Return (r : A).
Arguments Asleep {A}.
Arguments Return {A} r.

(** ** Data *)
Record Console := { c_buf : list Z; c_ri : Z; c_wi : Z; c_ei : Z }.
Record Uart := { u_buf : list Z; u_ri : Z; u_wi : Z }.
Definition CONSOLE : Console := {| c_buf := replicate (Z.to_nat CONSOLE_BUF) 0; c_ri := 0; c_wi := 0; c_ei := 0 |}.
Definition UART : Uart := {| u_buf := replicate (Z.to_nat UART_BUF) 0; u_ri := 0; u_wi := 0 |}.

(** [Wrapping<usize>] *)
Definition winc (x : Z) : Z := wrap 64 (x + 1).
Definition wdec (x : Z) : Z := wrap 64 (x - 1).
Definition wsub (x y : Z) : Z := wrap 64 (x - y).

Section ops.
Context {U : Type} `{!UserMem U}.

Inductive wchan := ConsoleRi | UartRi.
Record dstate := {
  con : Console;
  uart : Uart;
  dmem : U;
  echo : list Z;          (* what [putc_sync] has sent *)
  thr : list Z;           (* what [transmit] has sent *)
  dwoken : list wchan;
}.
#[local] Abbreviation DM := (M dstate).

Definition set_con (c : Console) : DM unit := modify (λ s,
  {| con := c; uart := uart s; dmem := dmem s; echo := echo s; thr := thr s; dwoken := dwoken s |}).
Definition set_uart (u : Uart) : DM unit := modify (λ s,
  {| con := con s; uart := u; dmem := dmem s; echo := echo s; thr := thr s; dwoken := dwoken s |}).
Definition wake (c : wchan) : DM unit := modify (λ s,
  {| con := con s; uart := uart s; dmem := dmem s; echo := echo s; thr := thr s; dwoken := dwoken s ++ [c] |}).
Definition putc_sync (c : Z) : DM unit := modify (λ s,
  {| con := con s; uart := uart s; dmem := dmem s; echo := echo s ++ [c]; thr := thr s; dwoken := dwoken s |}).
Definition send (c : Z) : DM unit := modify (λ s,
  {| con := con s; uart := uart s; dmem := dmem s; echo := echo s; thr := thr s ++ [c]; dwoken := dwoken s |}).
Definition on_mem {A} (m : M U A) : DM A := λ s,
  match m (dmem s) with
  | Done (a, u) => Done (a, {| con := con s; uart := uart s; dmem := u; echo := echo s; thr := thr s; dwoken := dwoken s |})
  | Panic why => Panic why
  end.

(** ** console.rs *)
Definition putc (c : Z) : DM unit :=
  if c =? CTRL_BS then putc_sync CTRL_BS;; putc_sync 32;; putc_sync CTRL_BS else putc_sync c.

Definition con_at (c : Console) (i : Z) : DM Z :=
  unwrap (c_buf c !! Z.to_nat (i `mod` CONSOLE_BUF)) "index out of bounds".

(** The loop of [CTRL_BS_LINE]. *)
Fixpoint erase_line (n : nat) : DM unit :=
  s ← get;
  let c := con s in
  if c_ei c =? c_wi c then mret tt
  else
    b ← con_at c (wdec (c_ei c));
    if b =? CTRL_LF then mret tt
    else
      match n with
      | O => panic "out of fuel"
      | S n =>
          set_con {| c_buf := c_buf c; c_ri := c_ri c; c_wi := c_wi c; c_ei := wdec (c_ei c) |};;
          putc CTRL_BS;;
          erase_line n
      end.

Definition console_intr (c : Z) : DM unit :=
  s ← get;
  let k := con s in
  if c =? CTRL_PRINT_PROCESS then panic "not yet implemented: print process list to debug"
  else if c =? CTRL_BS_LINE then erase_line (Z.to_nat (wsub (c_ei k) (c_wi k)))
  else if (c =? CTRL_BS) || (c =? CTRL_DEL) then
    if negb (c_ei k =? c_wi k) then
      set_con {| c_buf := c_buf k; c_ri := c_ri k; c_wi := c_wi k; c_ei := wdec (c_ei k) |};;
      putc CTRL_BS
    else mret tt
  else if negb (c =? 0) && (wsub (c_ei k) (c_ri k) <? CONSOLE_BUF) then
    let c := if c =? CTRL_CR then CTRL_LF else c in
    putc c;;
    let ei := c_ei k `mod` CONSOLE_BUF in
    assertM (ei <? Z.of_nat (length (c_buf k))) "index out of bounds";;
    let k := {| c_buf := <[Z.to_nat ei := c]> (c_buf k); c_ri := c_ri k; c_wi := c_wi k; c_ei := winc (c_ei k) |} in
    set_con k;;
    if (c =? CTRL_LF) || (c =? CTRL_EOT) || (wsub (c_ei k) (c_ri k) =? CONSOLE_BUF) then
      set_con {| c_buf := c_buf k; c_ri := c_ri k; c_wi := c_ei k; c_ei := c_ei k |};;
      wake ConsoleRi
    else mret tt
  else mret tt.

(** [read], from [left] bytes still to read to [dst] on.  [left] and the
    destination are where the call goes on after it has slept. *)
Fixpoint con_read (n : nat) (killed : bool) (dst tot left : Z) : DM (Z * Z * turn (Z + unit)) :=
  if 0 <? left then
    match n with
    | O => panic "out of fuel"
    | S n =>
        s ← get;
        let k := con s in
        if c_ri k =? c_wi k then
          if killed then mret (dst, left, Return (inr tt)) else mret (dst, left, Asleep)
        else
          c ← con_at k (c_ri k);
          let advanced := {| c_buf := c_buf k; c_ri := winc (c_ri k); c_wi := c_wi k; c_ei := c_ei k |} in
          set_con advanced;;
          if c =? CTRL_EOT then
            (if left <? tot then
               set_con {| c_buf := c_buf k; c_ri := wdec (c_ri advanced); c_wi := c_wi k; c_ei := c_ei k |}
             else mret tt);;
            mret (dst, left, Return (inl (tot - left)))
          else
            r ← on_mem (um_copy_out [c] dst 1);
            match r with
            | inr _ => mret (dst, left, Return (inl (tot - left)))
            | inl _ =>
                dst ← lift (add64 dst 1);
                let left := left - 1 in
                if c =? CTRL_LF then mret (dst, left, Return (inl (tot - left)))
                else con_read n killed dst tot left
            end
    end
  else mret (dst, left, Return (inl (tot - left))).
Definition console_read (killed : bool) (dst tot left : Z) : DM (Z * Z * turn (Z + unit)) :=
  con_read (Z.to_nat left) killed dst tot left.

(** ** uart.rs *)
(** [transmit]; the device is idle [idle] times in a row. *)
Fixpoint transmit (idle : nat) : DM unit :=
  s ← get;
  let u := uart s in
  if u_wi u =? u_ri u then mret tt
  else
    match idle with
    | O => mret tt
    | S idle =>
        c ← unwrap (u_buf u !! Z.to_nat (u_ri u `mod` UART_BUF)) "index out of bounds";
        set_uart {| u_buf := u_buf u; u_ri := winc (u_ri u); u_wi := u_wi u |};;
        wake UartRi;;
        send c;;
        transmit idle
    end.

(** The volatile writes of [init]: a register's address and the byte. *)
Definition IER : Z := 1.
Definition FCR : Z := 2.
Definition LCR : Z := 3.
Definition Reg (reg : Z) : Z := UART0 + reg.
Definition uart_init : list (Z * Z) :=
  [(Reg IER, 0); (Reg LCR, 0x80); (Reg 0, 0x03); (Reg 1, 0); (Reg LCR, 0x03); (Reg FCR, 0x07); (Reg IER, 0x03)].

Definition uart_putc (idle : nat) (c : Z) : DM (turn unit) :=
  s ← get;
  let u := uart s in
  if u_wi u =? wrap 64 (u_ri u + UART_BUF) then mret Asleep
  else
    let wi := u_wi u `mod` UART_BUF in
    assertM (wi <? Z.of_nat (length (u_buf u))) "index out of bounds";;
    set_uart {| u_buf := <[Z.to_nat wi := c]> (u_buf u); u_ri := u_ri u; u_wi := winc (u_wi u) |};;
    transmit idle;;
    mret (Return tt).

(** [UART.intr]: the bytes that were received, then the output. *)
Fixpoint uart_receive (rx : list Z) : DM unit :=
  match rx with [] => mret tt | c :: rx => console_intr c;; uart_receive rx end.
Definition uart_intr (rx : list Z) (idle : nat) : DM unit := uart_receive rx;; transmit idle.

(** [console::write], from byte [i] on; [pending] is the byte that a call which
    slept in [UART.putc] has still to hand over; [idle i] is how often the
    device is idle while byte [i] is queued. *)
Fixpoint con_write (n : nat) (idle : Z → nat) (pending : option Z) (src i tot : Z)
    : DM (option Z * Z * Z * turn (Z + unit)) :=
  if i <? tot then
    match n with
    | O => panic "out of fuel"
    | S n =>
        o ← match pending with
            | Some c => mret (Some c)
            | None =>
                '(bytes, r) ← on_mem (um_copy_in src 1);
                mret (match r with inr _ => None | inl _ => Some (nth 0 bytes 0) end)
            end;
        match o with
        | None => mret (None, src, i, Return (inl i))
        | Some c =>
            t ← uart_putc (idle i) c;
            match t with
            | Asleep => mret (Some c, src, i, Asleep)
            | Return _ => src ← lift (add64 src 1); con_write n idle None src (i + 1) tot
            end
        end
    end
  else mret (None, src, i, Return (inl tot)).
Definition console_write (idle : Z → nat) (pending : option Z) (src i tot : Z)
    : DM (option Z * Z * Z * turn (Z + unit)) :=
  con_write (Z.to_nat (tot - i)) idle pending src i tot.
End ops.
Arguments dstate U : clear implicits.

(** * Rings with wrapping indices

    A ring of [C] bytes, [C] a divisor of [2 ^ 64]: index [k] of the queue is
    slot [(r + k) mod C], also once the counters have wrapped. *)
Section ring.
Context (C : Z) (HC : 0 < C ≤ 2 ^ 32) (Hdiv : (C | 2 ^ 64)).

Definition pos (r k : Z) : Z := wrap 64 (r + k).

Lemma pos_add r a b : pos (pos r a) b = pos r (a + b).
Proof. unfold pos, wrap. rewrite Zplus_mod_idemp_l. f_equal. lia. Qed.
Lemma pos_0 r : 0 ≤ r < 2 ^ 64 → pos r 0 = r.
Proof. intros Hr. unfold pos, wrap. rewrite Z.add_0_r. by apply Z.mod_small. Qed.
Lemma pos_range r k : 0 ≤ pos r k < 2 ^ 64.
Proof. by apply Z.mod_pos_bound. Qed.
Lemma winc_pos r k : winc (pos r k) = pos r (k + 1).
Proof. apply (pos_add r k 1). Qed.
Lemma wdec_pos r k : wdec (pos r k) = pos r (k - 1).
Proof. apply (pos_add r k (-1)). Qed.
Lemma wsub_pos r a b : 0 ≤ a - b < 2 ^ 64 → wsub (pos r a) (pos r b) = a - b.
Proof.
  intros Hab. unfold wsub, pos, wrap. rewrite <- Zminus_mod. replace (r + a - (r + b)) with (a - b) by lia.
  by apply Z.mod_small.
Qed.
Lemma pos_eqb r a b : Z.abs (a - b) < 2 ^ 64 → (pos r a =? pos r b) = (a =? b).
Proof.
  intros Hab. destruct (Z.eqb_spec a b) as [->|Hne]; [apply Z.eqb_refl|]. apply Z.eqb_neq. intros E.
  destruct (Z.lt_ge_cases a b).
  - pose proof (wsub_pos r b a ltac:(lia)) as Hs. rewrite E in Hs. unfold wsub in Hs. rewrite Z.sub_diag in Hs.
    change (wrap 64 0) with 0 in Hs. lia.
  - pose proof (wsub_pos r a b ltac:(lia)) as Hs. rewrite E in Hs. unfold wsub in Hs. rewrite Z.sub_diag in Hs.
    change (wrap 64 0) with 0 in Hs. lia.
Qed.
Lemma pos_slot r k : pos r k `mod` C = (r + k) `mod` C.
Proof using HC Hdiv. unfold pos, wrap. by apply Z.mod_mod_divide. Qed.

(** [buf] holds the queue [q] from index [r] on. *)
Record ring (buf : list Z) (r : Z) (q : list Z) : Prop := {
  rg_len : length buf = Z.to_nat C;
  rg_start : 0 ≤ r < 2 ^ 64;
  rg_size : Z.of_nat (length q) ≤ C;
  rg_at k x : q !! k = Some x → buf !! Z.to_nat ((r + Z.of_nat k) `mod` C) = Some x;
}.

Lemma slot_neq r j k : 0 ≤ j < C → 0 ≤ k < C → j ≠ k → (r + j) `mod` C ≠ (r + k) `mod` C.
Proof using HC.
  intros Hj Hk Hne E. pose proof (Z.div_mod (r + j) C ltac:(lia)) as E1. pose proof (Z.div_mod (r + k) C ltac:(lia)) as E2.
  rewrite E in E1. set (a := (r + j) / C) in *. set (b := (r + k) / C) in *.
  assert (a = b ∨ a ≤ b - 1 ∨ b ≤ a - 1) as [->|[?|?]] by lia; [lia|nia|nia].
Qed.

Lemma ring_push buf r q x : ring buf r q → Z.of_nat (length q) < C →
  ring (<[Z.to_nat (pos r (Z.of_nat (length q)) `mod` C) := x]> buf) r (q ++ [x]).
Proof using HC Hdiv.
  intros [Hl Hr Hs Hat] Hlt. rewrite pos_slot. split; [by rewrite length_insert|done|rewrite length_app; cbn; lia|].
  intros k y Hk. apply lookup_app_Some in Hk as [Hk|[Hk1 Hk]].
  - pose proof (lookup_lt_Some _ _ _ Hk) as Hkl. rewrite list_lookup_insert_ne; [by apply Hat|]. intros E.
    apply Z2Nat.inj in E; [|apply Z.mod_pos_bound; lia..]. revert E. apply slot_neq; lia.
  - apply list_lookup_singleton_Some in Hk as [Hk <-]. replace k with (length q) by lia.
    apply list_lookup_insert_eq. rewrite Hl. apply Z2Nat.inj_lt; [apply Z.mod_pos_bound; lia|lia|]. apply Z.mod_pos_bound. lia.
Qed.

Lemma ring_last buf r q x : ring buf r (q ++ [x]) →
  buf !! Z.to_nat (wdec (pos r (Z.of_nat (length (q ++ [x])))) `mod` C) = Some x ∧ ring buf r q.
Proof using HC Hdiv.
  intros [Hl Hr Hs Hat]. rewrite length_app in Hs. cbn in Hs. split.
  - rewrite wdec_pos, pos_slot, length_app. cbn [length].
    replace (Z.of_nat (length q + 1) - 1) with (Z.of_nat (length q)) by lia. apply Hat. by apply list_lookup_middle.
  - split; [done|done|lia|]. intros k y Hk. apply Hat. by apply lookup_app_l_Some.
Qed.

Lemma ring_pop buf r x q : ring buf r (x :: q) → buf !! Z.to_nat (r `mod` C) = Some x ∧ ring buf (winc r) q.
Proof using HC Hdiv.
  intros [Hl Hr Hs Hat]. cbn [length] in Hs. split.
  - pose proof (Hat 0%nat x eq_refl) as H0. by rewrite Z.add_0_r in H0.
  - split; [done|apply pos_range|lia|]. intros k y Hk. pose proof (Hat (S k) y Hk) as H1.
    rewrite <- H1. do 2 f_equal. rewrite <- (pos_slot (winc r) (Z.of_nat k)). unfold winc.
    change (wrap 64 (r + 1)) with (pos r 1). rewrite pos_add, pos_slot. f_equal. lia.
Qed.
End ring.

(** * The console as a line editor *)

(** [a_com]: what has been committed and not read; [a_ed]: the line being
    typed. *)
Section editor.
Context {U : Type} `{!UserMem U}.
Record astate := { a_com : list Z; a_ed : list Z; a_mem : U; a_echo : list Z; a_woken : list wchan }.

Definition a_put (com ed out : list Z) (w : list wchan) : M astate unit := modify (λ a,
  {| a_com := com; a_ed := ed; a_mem := a_mem a; a_echo := a_echo a ++ out; a_woken := a_woken a ++ w |}).
Definition rubout : list Z := [CTRL_BS; 32; CTRL_BS].

Definition a_typed (c : Z) : M astate unit :=
  a ← get;
  let com := a_com a in let ed := a_ed a in
  if c =? CTRL_PRINT_PROCESS then panic "todo"
  else if c =? CTRL_BS_LINE then a_put com [] (concat (replicate (length ed) rubout)) []
  else if (c =? CTRL_BS) || (c =? CTRL_DEL) then
    match ed with [] => mret tt | _ => a_put com (removelast ed) rubout [] end
  else if negb (c =? 0) && (Z.of_nat (length (com ++ ed)) <? CONSOLE_BUF) then
    let c := if c =? CTRL_CR then CTRL_LF else c in
    let ed := ed ++ [c] in
    if (c =? CTRL_LF) || (c =? CTRL_EOT) || (Z.of_nat (length (com ++ ed)) =? CONSOLE_BUF) then
      a_put (com ++ ed) [] [c] [ConsoleRi]
    else a_put com ed [c] []
  else mret tt.

Definition a_take (com : list Z) (u : U) : M astate unit := modify (λ a,
  {| a_com := com; a_ed := a_ed a; a_mem := u; a_echo := a_echo a; a_woken := a_woken a |}).
(** A call of [read] gets bytes up to the end of a line; an end of file counts
    as the end of a line, and is left for the next call when there are bytes
    before it. *)
Fixpoint a_read (com : list Z) (killed : bool) (dst tot left : Z) : M astate (Z * Z * turn (Z + unit)) :=
  a ← get;
  if 0 <? left then
    match com with
    | [] => mret (dst, left, if killed then Return (inr tt) else Asleep)
    | c :: rest =>
        if c =? CTRL_EOT then
          a_take (if left <? tot then com else rest) (a_mem a);;
          mret (dst, left, Return (inl (tot - left)))
        else
          '(r, u) ← lift (um_copy_out [c] dst 1 (a_mem a));
          a_take rest u;;
          match r with
          | inr _ => mret (dst, left, Return (inl (tot - left)))
          | inl _ =>
              dst ← lift (add64 dst 1);
              if c =? CTRL_LF then mret (dst, left - 1, Return (inl (tot - (left - 1))))
              else a_read rest killed dst tot (left - 1)
          end
    end
  else mret (dst, left, Return (inl (tot - left))).

(** What happens at a console. *)
Inductive con_op := Typed (c : Z) | Reads (killed : bool) (dst tot left : Z).
Definition con_res : Type := option (Z * Z * turn (Z + unit)).
Definition run_con (o : con_op) : M (dstate U) con_res :=
  match o with
  | Typed c => console_intr c;; mret None
  | Reads killed dst tot todo => r ← console_read killed dst tot todo; mret (Some r)
  end.
Definition run_editor (o : con_op) : M astate con_res :=
  match o with
  | Typed c => a_typed c;; mret None
  | Reads killed dst tot todo => a ← get; r ← a_read (a_com a) killed dst tot todo; mret (Some r)
  end.
Fixpoint run_all {S O R} (run : O → M S R) (ops : list O) : M S (list R) :=
  match ops with [] => mret [] | o :: ops => r ← run o; rs ← run_all run ops; mret (r :: rs) end.

Record edits (s : dstate U) (a : astate) : Prop := {
  ed_ring : ring CONSOLE_BUF (c_buf (con s)) (c_ri (con s)) (a_com a ++ a_ed a);
  ed_wi : c_wi (con s) = pos (c_ri (con s)) (Z.of_nat (length (a_com a)));
  ed_ei : c_ei (con s) = pos (c_ri (con s)) (Z.of_nat (length (a_com a ++ a_ed a)));
  ed_line : CTRL_LF ∉ a_ed a;
  ed_mem : dmem s = a_mem a;
  ed_echo : echo s = a_echo a;
  ed_woken : dwoken s = a_woken a;
}.

Lemma con_cap : 0 < CONSOLE_BUF ≤ 2 ^ 32.
Proof. done. Qed.
Lemma con_div : (CONSOLE_BUF | 2 ^ 64).
Proof. by exists (2 ^ 57). Qed.

(** Erasing one byte of the line. *)
Lemma erase_one s a ed x : edits s a → a_ed a = ed ++ [x] →
  con_at (con s) (wdec (c_ei (con s))) s = Done (x, s) ∧
  ∃ s', (set_con {| c_buf := c_buf (con s); c_ri := c_ri (con s); c_wi := c_wi (con s); c_ei := wdec (c_ei (con s)) |};;
     putc CTRL_BS) s = Done (tt, s') ∧
  edits s' {| a_com := a_com a; a_ed := ed; a_mem := a_mem a; a_echo := a_echo a ++ rubout; a_woken := a_woken a |}.
Proof.
  intros [Hr Hw He Hl Hm Hec Hwo] E. rewrite E in *. rewrite app_assoc in Hr, He.
  destruct (ring_last _ con_cap con_div _ _ _ _ Hr) as [Hx Hr']. split.
  - unfold con_at. rewrite He, Hx. done.
  - eexists. split; [reflexivity|]. split; cbn; try done.
    + rewrite He, wdec_pos. f_equal. rewrite length_app. cbn. lia.
    + intros Hin. apply Hl, elem_of_app. by left.
    + by rewrite Hec, <- !app_assoc.
Qed.

Lemma erase_line_run n s a : edits s a → length (a_ed a) = n →
  ∃ s', erase_line n s = Done (tt, s') ∧
    edits s' {| a_com := a_com a; a_ed := []; a_mem := a_mem a;
                a_echo := a_echo a ++ concat (replicate n rubout); a_woken := a_woken a |}.
Proof.
  revert s a. induction n as [|n IH]; intros s a Hs Hn.
  - apply length_zero_iff_nil in Hn. pose proof Hs as [Hr Hw He Hl Hm Hec Hwo]. rewrite Hn, app_nil_r in *.
    exists s. split; [|split; cbn; rewrite ?app_nil_r; done].
    cbn [erase_line]. rewrite (bind_run _ _ _ s s) by done. by rewrite He, Hw, Z.eqb_refl.
  - destruct (a_ed a) as [|y l] eqn:Ea using rev_ind; [done|]. clear IHl. rewrite length_app in Hn. cbn in Hn.
    destruct (erase_one s a l y Hs Ea) as (Rx & s1 & R1 & Hs1). pose proof Hs as [Hr Hw He Hl _ _ _].
    destruct (IH s1 _ Hs1) as (s2 & R2 & Hs2); [cbn; lia|].
    exists s2. split.
    + cbn [erase_line]. rewrite (bind_run _ _ _ s s) by done. cbn zeta.
      assert ((c_ei (con s) =? c_wi (con s)) = false) as ->.
      { rewrite He, Hw, pos_eqb; rewrite Ea, !length_app; cbn [length]; [apply Z.eqb_neq; lia|].
        pose proof (rg_size _ _ _ _ Hr) as Hsz. rewrite Ea, !length_app in Hsz. cbn in Hsz. change CONSOLE_BUF with 128 in Hsz. lia. }
      rewrite (bind_run _ _ _ _ _ Rx). rewrite (proj2 (Z.eqb_neq _ _)).
      2: { intros ->. apply Hl. rewrite Ea. apply elem_of_app. right. by left. }
      mbind_inv R1 as u s' R1 R1'. rewrite (bind_run _ _ _ _ _ R1), (bind_run _ _ _ _ _ R1'). exact R2.
    + destruct Hs2. split; try done. cbn [a_echo] in *. rewrite ed_echo0. cbn [replicate concat]. by rewrite <- app_assoc.
Qed.

Lemma typed_run c s a : edits s a →
  match a_typed c a with
  | Done (_, a') => ∃ s', console_intr c s = Done (tt, s') ∧ edits s' a'
  | Panic _ => panics (console_intr c s)
  end.
Proof.
  intros Hs. pose proof Hs as [Hr Hw He Hl Hm Hec Hwo]. pose proof (rg_size _ _ _ _ Hr) as Hsz.
  pose proof (rg_start _ _ _ _ Hr) as Hst. pose proof (rg_len _ _ _ _ Hr) as Hlen.
  unfold a_typed, console_intr. rewrite (bind_run _ _ _ a a) by done. rewrite (bind_run _ _ _ s s) by done. cbn zeta.
  destruct (c =? CTRL_PRINT_PROCESS); [by eexists|].
  assert (wsub (c_ei (con s)) (c_wi (con s)) = Z.of_nat (length (a_ed a))) as Hed.
  { rewrite He, Hw, wsub_pos; rewrite length_app in *; change CONSOLE_BUF with 128 in *; lia. }
  assert (wsub (c_ei (con s)) (c_ri (con s)) = Z.of_nat (length (a_com a ++ a_ed a))) as Hall.
  { rewrite He. rewrite <- (pos_0 (c_ri (con s))) at 2 by done. rewrite wsub_pos; change CONSOLE_BUF with 128 in *; lia. }
  destruct (c =? CTRL_BS_LINE).
  { rewrite Hed, Nat2Z.id. destruct (erase_line_run _ s a Hs eq_refl) as (s' & R & Hs'). exists s'. split; [done|].
    destruct Hs'. split; try done. cbn in *. by rewrite app_nil_r. }
  destruct ((c =? CTRL_BS) || (c =? CTRL_DEL)) eqn:Eb.
  { destruct (a_ed a) as [|y l] eqn:Ea using rev_ind; [|clear IHl].
    - rewrite app_nil_r in He. rewrite He, Hw, Z.eqb_refl. by exists s.
    - destruct (erase_one s a l y Hs Ea) as (_ & s1 & R1 & Hs1).
      rewrite He, Hw, pos_eqb by (rewrite !length_app in *; change CONSOLE_BUF with 128 in *; cbn [length] in *; lia).
      rewrite (proj2 (Z.eqb_neq _ _)) by (rewrite !length_app; cbn [length]; lia). cbn [negb]. rewrite <- Hw, <- He, R1.
      assert (match l ++ [y] with [] => mret tt | _ :: _ => a_put (a_com a) (removelast (l ++ [y])) rubout [] end a
        = a_put (a_com a) l rubout [] a) as ->.
      { rewrite removelast_last. by destruct l. }
      exists s1. split; [done|]. destruct Hs1. split; try done. cbn in *. by rewrite app_nil_r. }
  rewrite Hall. destruct (negb (c =? 0) && _) eqn:Eg; [|by exists s].
  apply andb_true_iff in Eg as [Hc0 Hroom%Z.ltb_lt]. set (c' := if c =? CTRL_CR then CTRL_LF else c).
  assert (putc c' s = putc_sync c' s) as Ep.
  { unfold putc. subst c'. destruct (c =? CTRL_CR); [done|]. apply orb_false_iff in Eb as [-> _]. done. }
  rewrite (bind_run (putc c') _ _ tt {| con := con s; uart := uart s; dmem := dmem s; echo := echo s ++ [c'];
    thr := thr s; dwoken := dwoken s |}) by exact Ep.
  pose proof (ring_push _ con_cap con_div _ _ _ c' Hr Hroom) as Hr'. rewrite <- He in Hr'.
  rewrite (proj2 (Z.ltb_lt _ _)).
  2: { rewrite Hlen. change CONSOLE_BUF with 128. apply Z.mod_pos_bound. done. }
  cbn [c_ei c_ri c_buf c_wi].
  assert (winc (c_ei (con s)) = pos (c_ri (con s)) (Z.of_nat (length (a_com a ++ a_ed a ++ [c'])))) as He'.
  { rewrite He, winc_pos. f_equal. rewrite !length_app. cbn. lia. }
  assert (wsub (winc (c_ei (con s))) (c_ri (con s)) = Z.of_nat (length (a_com a ++ a_ed a ++ [c']))) as ->.
  { rewrite He'. rewrite <- (pos_0 (c_ri (con s))) at 2 by done. rewrite !length_app in *. cbn [length] in *.
    rewrite wsub_pos; change CONSOLE_BUF with 128 in *; lia. }
  rewrite <- app_assoc in Hr'. run_simpl.
  destruct ((c' =? CTRL_LF) || (c' =? CTRL_EOT) || _) eqn:Ecommit.
  - eexists. split; [reflexivity|]. split; cbn; try done.
    + by rewrite app_nil_r.
    + by rewrite app_nil_r.
    + apply not_elem_of_nil.
    + by rewrite Hec.
    + by rewrite Hwo.
  - apply orb_false_iff in Ecommit as [[Elf%Z.eqb_neq _]%orb_false_iff _].
    eexists. split; [reflexivity|]. split; cbn; try done.
    + rewrite elem_of_app, list_elem_of_singleton. intros [?|?]; congruence.
    + by rewrite Hec.
    + by rewrite app_nil_r.
Qed.

(** Taking the first byte, with another process memory. *)
Definition advanced (s : dstate U) (u : U) : dstate U := {|
  con := {| c_buf := c_buf (con s); c_ri := winc (c_ri (con s)); c_wi := c_wi (con s); c_ei := c_ei (con s) |};
  uart := uart s; dmem := u; echo := echo s; thr := thr s; dwoken := dwoken s |}.
Lemma advance s a c rest u : edits s a → a_com a = c :: rest →
  edits (advanced s u) {| a_com := rest; a_ed := a_ed a; a_mem := u; a_echo := a_echo a; a_woken := a_woken a |}.
Proof.
  intros [Hr Hw He Hl Hm Hec Hwo] Ea. rewrite Ea in *. destruct (ring_pop _ con_cap con_div _ _ _ _ Hr) as [_ Hr'].
  assert (∀ k, pos (winc (c_ri (con s))) (Z.of_nat k) = pos (c_ri (con s)) (Z.of_nat (S k))) as Hp.
  { intros k. change (winc (c_ri (con s))) with (pos (c_ri (con s)) 1). rewrite pos_add. f_equal. lia. }
  split; cbn; try done; by rewrite Hp.
Qed.

Lemma read_run com s a killed dst tot todo : a_com a = com → edits s a →
  match a_read com killed dst tot todo a with
  | Done (r, a') => ∃ s', con_read (Z.to_nat todo) killed dst tot todo s = Done (r, s') ∧ edits s' a'
  | Panic why => con_read (Z.to_nat todo) killed dst tot todo s = Panic why
  end.
Proof.
  revert s a dst todo. induction com as [|c rest IH]; intros s a dst todo Ea Hs.
  all: pose proof Hs as [Hr Hw He Hl Hm Hec Hwo]; rewrite Ea in *; cbn [a_read].
  all: rewrite (bind_run _ _ _ a a) by done; destruct (Z.ltb_spec 0 todo) as [Ht|Ht].
  2, 4: exists s; split; [|done]; destruct (Z.to_nat todo); cbn [con_read]; by rewrite (proj2 (Z.ltb_ge 0 todo)).
  all: destruct (Z.to_nat todo) as [|n] eqn:En; [lia|]; cbn [con_read]; rewrite (proj2 (Z.ltb_lt 0 todo)) by done.
  all: rewrite (bind_run _ _ _ s s) by done; cbn zeta.
  - exists s. split; [|done]. rewrite Hw. cbn [length]. rewrite pos_0, Z.eqb_refl by (by destruct Hr). by destruct killed.
  - pose proof (rg_start _ _ _ _ Hr) as Hst. pose proof (rg_size _ _ _ _ Hr) as Hsz. rewrite length_app in Hsz. cbn [length] in Hsz.
    change CONSOLE_BUF with 128 in Hsz.
    assert ((c_ri (con s) =? c_wi (con s)) = false) as ->.
    { rewrite Hw. rewrite <- (pos_0 (c_ri (con s))) at 1 by done. rewrite pos_eqb; cbn [length]; [apply Z.eqb_neq|]; lia. }
    destruct (ring_pop _ con_cap con_div _ _ _ _ Hr) as [Hc Hr'].
    assert (con_at (con s) (c_ri (con s)) s = Done (c, s)) as Rc by (unfold con_at; rewrite Hc; done).
    rewrite (bind_run _ _ _ _ _ Rc). cbn [c_ri].
    rewrite (bind_run (set_con _) _ _ tt (advanced s (dmem s))) by done.
    destruct (c =? CTRL_EOT) eqn:Eeot.
    { destruct (todo <? tot).
      - eexists. split; [reflexivity|]. split; cbn; rewrite ?Ea; try done.
        all: change (winc (c_ri (con s))) with (pos (c_ri (con s)) 1); rewrite wdec_pos, pos_0; done.
      - eexists. split; [reflexivity|]. rewrite <- Hm. by apply (advance s a c rest). }
    destruct (um_copy_out [c] dst 1 (a_mem a)) as [[r u]|why] eqn:Eu.
    2: { unfold mbind at 1, M_bind, lift at 1. unfold mbind, M_bind, on_mem. cbn [dmem advanced]. by rewrite Hm, Eu. }
    rewrite (bind_run (lift (Done (r, u))) _ a (r, u) a) by done. cbn beta iota.
    rewrite (bind_run (a_take rest u) _ a tt
      {| a_com := rest; a_ed := a_ed a; a_mem := u; a_echo := a_echo a; a_woken := a_woken a |}) by done.
    rewrite (bind_run (on_mem _) _ _ r (advanced s u)) by (unfold on_mem; cbn [dmem advanced]; by rewrite Hm, Eu).
    pose proof (advance s a c rest u Hs Ea) as Hadv. destruct r; [|by exists (advanced s u)].
    unfold add_chk. destruct (dst + 1 <? 2 ^ 64); [|done].
    unfold lift, mbind, M_bind. cbn beta iota.
    destruct (c =? CTRL_LF); [by exists (advanced s u)|].
    replace n with (Z.to_nat (todo - 1)) by lia. by apply IH.
Qed.

Lemma con_op_run o s a : edits s a →
  match run_editor o a with
  | Done (r, a') => ∃ s', run_con o s = Done (r, s') ∧ edits s' a'
  | Panic _ => panics (run_con o s)
  end.
Proof.
  intros Hs. destruct o as [c|killed dst tot todo]; cbn [run_editor run_con].
  - pose proof (typed_run c s a Hs) as Ht. unfold mbind, M_bind. destruct (a_typed c a) as [[[] a']|why].
    + destruct Ht as (s' & -> & Hs'). by exists s'.
    + destruct Ht as [w ->]. by eexists.
  - rewrite (bind_run _ _ _ a a) by done. pose proof (read_run (a_com a) s a killed dst tot todo eq_refl Hs) as Ht.
    unfold console_read, mbind, M_bind. destruct (a_read _ _ _ _ _ a) as [[r a']|why].
    + destruct Ht as (s' & -> & Hs'). by exists s'.
    + rewrite Ht. by eexists.
Qed.

Lemma con_ops_run ops s a : edits s a →
  match run_all run_editor ops a with
  | Done (rs, a') => ∃ s', run_all run_con ops s = Done (rs, s') ∧ edits s' a'
  | Panic _ => panics (run_all run_con ops s)
  end.
Proof.
  revert s a. induction ops as [|o ops IH]; intros s a Hs; cbn [run_all]; [by exists s|].
  pose proof (con_op_run o s a Hs) as Ho. unfold mbind, M_bind. destruct (run_editor o a) as [[r a1]|why].
  - destruct Ho as (s1 & -> & Hs1). specialize (IH s1 a1 Hs1). destruct (run_all run_editor ops a1) as [[rs a2]|why].
    + destruct IH as (s2 & -> & Hs2). by exists s2.
    + destruct IH as [w ->]. by eexists.
  - destruct Ho as [w ->]. by eexists.
Qed.
End editor.
Arguments astate U : clear implicits.

(** C9. The console is a line editor.  Over any sequence of bytes typed and
    reads, and however often the ring's counters wrap, it behaves as the
    editor that keeps what was committed and the line being typed as two lists:
    the same answers to reads, echo and wake-ups; erasing never reaches
    committed bytes, and at most [CONSOLE_BUF] bytes are kept. *)
Theorem console_refines {U : Type} `{!UserMem U} ops (s : dstate U) : con s = CONSOLE →
  match run_all run_editor ops {| a_com := []; a_ed := []; a_mem := dmem s; a_echo := echo s; a_woken := dwoken s |} with
  | Done (rs, a) => ∃ s', run_all run_con ops s = Done (rs, s') ∧ edits s' a
  | Panic _ => panics (run_all run_con ops s)
  end.
Proof.
  intros E. apply con_ops_run. split; rewrite ?E; try done; try apply not_elem_of_nil.
Qed.

(** * The output queue of the serial port *)
Section output.
Context {U : Type} `{!UserMem U}.

Record sends (s : dstate U) (q : list Z) : Prop := {
  sd_ring : ring UART_BUF (u_buf (uart s)) (u_ri (uart s)) q;
  sd_wi : u_wi (uart s) = pos (u_ri (uart s)) (Z.of_nat (length q));
}.
Lemma uart_cap : 0 < UART_BUF ≤ 2 ^ 32.
Proof. done. Qed.
Lemma uart_div : (UART_BUF | 2 ^ 64).
Proof. by exists (2 ^ 59). Qed.

Lemma transmit_run idle s q : sends s q →
  ∃ s', transmit idle s = Done (tt, s') ∧ sends s' (drop idle q) ∧ thr s' = thr s ++ take idle q.
Proof.
  revert s q. induction idle as [|idle IH]; intros s q Hs; cbn [transmit]; rewrite (bind_run _ _ _ s s) by done; cbn zeta.
  - exists s. split; [by destruct (_ =? _)|]. by rewrite drop_0, take_0, app_nil_r.
  - pose proof Hs as [Hr Hw]. pose proof (rg_start _ _ _ _ Hr) as Hst. pose proof (rg_size _ _ _ _ Hr) as Hsz.
    change UART_BUF with 32 in Hsz.
    assert ((u_wi (uart s) =? u_ri (uart s)) = (Z.of_nat (length q) =? 0)) as ->.
    { rewrite Hw, <- (pos_eqb (u_ri (uart s)) (Z.of_nat (length q)) 0) by lia. by rewrite (pos_0 _ Hst). }
    destruct q as [|c q]; [exists s; by rewrite app_nil_r|]. cbn [length] in *.
    rewrite (proj2 (Z.eqb_neq _ _)) by lia.
    destruct (ring_pop _ uart_cap uart_div _ _ _ _ Hr) as [Hc Hr'].
    rewrite (bind_run (unwrap _ _) _ s c s) by (by rewrite Hc).
    destruct (IH {| con := con s; uart := {| u_buf := u_buf (uart s); u_ri := winc (u_ri (uart s)); u_wi := u_wi (uart s) |};
      dmem := dmem s; echo := echo s; thr := thr s ++ [c]; dwoken := dwoken s ++ [UartRi] |} q) as (s' & R & Hs' & Ht).
    { split; cbn; [done|]. rewrite Hw. change (winc (u_ri (uart s))) with (pos (u_ri (uart s)) 1). rewrite pos_add. f_equal. lia. }
    exists s'. split; [exact R|]. split; [exact Hs'|]. rewrite Ht. cbn [thr take]. by rewrite <- app_assoc.
Qed.

Lemma uart_putc_run idle c s q : sends s q →
  if decide (length q < 32)%nat then
    ∃ s', uart_putc idle c s = Done (Return tt, s') ∧ sends s' (drop idle (q ++ [c])) ∧ thr s' = thr s ++ take idle (q ++ [c])
  else uart_putc idle c s = Done (Asleep, s).
Proof.
  intros Hs. pose proof Hs as [Hr Hw]. pose proof (rg_size _ _ _ _ Hr) as Hsz. change UART_BUF with 32 in Hsz.
  unfold uart_putc. rewrite (bind_run _ _ _ s s) by done. cbn zeta. rewrite Hw.
  change (wrap 64 (u_ri (uart s) + UART_BUF)) with (pos (u_ri (uart s)) UART_BUF).
  rewrite (pos_eqb (u_ri (uart s)) (Z.of_nat (length q)) UART_BUF) by (change UART_BUF with 32; lia).
  destruct (decide (length q < 32)%nat) as [Hlt|Hge].
  2: { change UART_BUF with 32. rewrite (proj2 (Z.eqb_eq _ _)) by lia. done. }
  rewrite (proj2 (Z.eqb_neq _ _)) by (change UART_BUF with 32; lia). rewrite (proj2 (Z.ltb_lt _ _)).
  2: { rewrite (rg_len _ _ _ _ Hr). change UART_BUF with 32. by apply Z.mod_pos_bound. }
  pose proof (ring_push _ uart_cap uart_div _ _ _ c Hr ltac:(change UART_BUF with 32; lia)) as Hr'.
  destruct (transmit_run idle {| con := con s;
    uart := {| u_buf := <[Z.to_nat (pos (u_ri (uart s)) (Z.of_nat (length q)) `mod` UART_BUF) := c]> (u_buf (uart s));
               u_ri := u_ri (uart s); u_wi := winc (u_wi (uart s)) |};
    dmem := dmem s; echo := echo s; thr := thr s; dwoken := dwoken s |} (q ++ [c])) as (s' & R & Hs' & Ht).
  { split; cbn; [done|]. rewrite Hw, winc_pos, length_app. f_equal. cbn. lia. }
  exists s'. split; [|done]. rewrite <- Hw. run_simpl. unfold set_uart, modify. rewrite Hw. rewrite Hw in R. by rewrite R.
Qed.

(** What happens at the port: bytes to send, and interrupts. *)
Inductive uart_op := Puts (idle : nat) (c : Z) | Interrupt (idle : nat).
Definition run_uart (o : uart_op) : M (dstate U) (turn unit) :=
  match o with
  | Puts idle c => uart_putc idle c
  | Interrupt idle => uart_intr [] idle;; mret (Return tt)
  end.
(** The bytes whose [putc] did not have to wait. *)
Fixpoint accepted (ops : list uart_op) (rs : list (turn unit)) : list Z :=
  match ops, rs with
  | Puts _ c :: ops, Return _ :: rs => c :: accepted ops rs
  | _ :: ops, _ :: rs => accepted ops rs
  | _, _ => []
  end.

Lemma uart_ops_run ops s q : sends s q →
  ∃ rs s' q', run_all run_uart ops s = Done (rs, s') ∧ sends s' q' ∧
    thr s' ++ q' = thr s ++ q ++ accepted ops rs.
Proof.
  revert s q. induction ops as [|o ops IH]; intros s q Hs; cbn [run_all].
  { exists [], s, q. split; [done|]. split; [done|]. cbn. by rewrite app_nil_r. }
  destruct o as [idle c|idle]; cbn [run_uart].
  - pose proof (uart_putc_run idle c s q Hs) as Hp. destruct (decide _).
    + destruct Hp as (s1 & R1 & Hs1 & Ht). destruct (IH _ _ Hs1) as (rs & s2 & q2 & R2 & Hs2 & Ht2).
      exists (Return tt :: rs), s2, q2. rewrite (bind_run _ _ _ _ _ R1), (bind_run _ _ _ _ _ R2). split; [done|].
      split; [done|]. rewrite Ht2, Ht. cbn [accepted]. rewrite <- app_assoc. f_equal. rewrite app_assoc, take_drop.
      by rewrite <- app_assoc.
    + destruct (IH _ _ Hs) as (rs & s2 & q2 & R2 & Hs2 & Ht2).
      exists (Asleep :: rs), s2, q2. rewrite (bind_run _ _ _ _ _ Hp), (bind_run _ _ _ _ _ R2). done.
  - destruct (transmit_run idle s q Hs) as (s1 & R1 & Hs1 & Ht). destruct (IH _ _ Hs1) as (rs & s2 & q2 & R2 & Hs2 & Ht2).
    exists (Return tt :: rs), s2, q2. split; [|split; [done|]].
    + unfold uart_intr. cbn [uart_receive]. unfold mbind, M_bind, mret, M_ret. rewrite R1. by rewrite R2.
    + rewrite Ht2, Ht. cbn [accepted]. rewrite <- app_assoc. f_equal. by rewrite app_assoc, take_drop.
Qed.
End output.

(** The output of the serial port is a queue: what has been sent, followed by
    what is queued, is what [putc] has accepted, in order; a byte waits only
    when the queue is full, and nothing panics when the counters wrap. *)
Theorem uart_fifo {U : Type} `{!UserMem U} ops (s : dstate U) : uart s = UART →
  ∃ rs s' q, run_all run_uart ops s = Done (rs, s') ∧ thr s' ++ q = thr s ++ accepted ops rs ∧
    (length q ≤ 32)%nat ∧
    ∀ idle c, ∃ r s'', uart_putc idle c s' = Done (r, s'') ∧ (r = Asleep ↔ length q = 32%nat).
Proof.
  intros E. destruct (uart_ops_run ops s []) as (rs & s' & q & R & Hs' & Ht); [by split; rewrite E|].
  exists rs, s', q. split; [done|]. split; [done|]. pose proof (rg_size _ _ _ _ (sd_ring _ _ Hs')) as Hsz.
  change UART_BUF with 32 in Hsz. split; [lia|]. intros idle c. pose proof (uart_putc_run idle c s' q Hs') as Hp.
  destruct (decide _) as [Hlt|Hge].
  - destruct Hp as (s'' & R' & _). exists (Return tt), s''. split; [done|]. split; [done|lia].
  - exists Asleep, s'. split; [done|]. split; [lia|done].
Qed.

(** ** A console and a user buffer, to run the definitions *)
Module Terminal.
#[export] Instance sink : UserMem (list Z) :=
  {| um_copy_out src _ _ l := Done (inl tt, l ++ src); um_copy_in _ _ l := Done (([], inr tt), l) |}.
Definition boot : dstate (list Z) :=
  {| con := CONSOLE; uart := UART; dmem := []; echo := []; thr := []; dwoken := [] |}.
(** "hx", an erase, "i", Enter, then a read *)
Definition typing : list con_op :=
  [Typed 104; Typed 120; Typed CTRL_DEL; Typed 105; Typed CTRL_CR; Reads false 0 8 8].
End Terminal.
#[local] Existing Instance Terminal.sink.

Lemma console_refines_witness :
  ∃ rs s', run_all run_con Terminal.typing Terminal.boot = Done (rs, s') ∧ dmem s' = [104; 105; 10].
Proof.
  pose proof (console_refines Terminal.typing Terminal.boot eq_refl) as Hc.
  destruct (run_all run_editor Terminal.typing _) as [[rs a]|why] eqn:E; [|vm_compute in E; discriminate E].
  destruct Hc as (s' & R & Hs'). exists rs, s'. split; [exact R|]. rewrite (ed_mem _ _ Hs'). vm_compute in E. by injection E as _ <-.
Defined.

Lemma uart_fifo_witness :
  ∃ rs s' q, run_all run_uart [Puts 0 1; Puts 0 2; Interrupt 1] Terminal.boot = Done (rs, s') ∧ thr s' ++ q = [1; 2].
Proof.
  destruct (uart_fifo [Puts 0 1; Puts 0 2; Interrupt 1] Terminal.boot eq_refl) as (rs & s' & q & R & Ht & _).
  exists rs, s', q. split; [exact R|]. rewrite Ht. vm_compute in R. by injection R as <- _.
Defined.
