(* ===== verification/Exec.v ===== *)
(** * Loading programs ([kernel/src/process/proc/elf.rs], [sys_exec])

    The state joins the file layer and the processes: an inode state ([Inode])
    whose user memory is the process layer ([Proc.kstate]).  A read of a file
    into a page of the new address space goes through [kbuf], which holds the
    page for the time of the read.

    The stack of the new program is built by [prepare_stack], the middle part
    of [load]: the strings, then the vector that points to them. *)
From S2P Require Import Prelude Consts Alloc Bytes BlockCache Addr PageTable Uvm Kvm Block Inode FileData Icache Locks Sched Proc Files.

(** ** Headers *)
Record ElfHeader := {
  e_magic : Z; e_elf : list Z; e_type : Z; e_machine : Z; e_version : Z; e_entry : Z; e_phoff : Z; e_shoff : Z;
  e_flags : Z; e_ehsize : Z; e_phentsize : Z; e_phnum : Z; e_shentsize : Z; e_shnum : Z; e_shstrndx : Z;
}.
Definition ELF_HEADER_SIZE : nat := 64.
Definition elf_header (b : list Z) : ElfHeader := {|
  e_magic := read_u32 b 0; e_elf := take 12 (drop 4 b); e_type := read_u16 b 16; e_machine := read_u16 b 18;
  e_version := read_u32 b 20; e_entry := read_le 8 b 24; e_phoff := read_le 8 b 32; e_shoff := read_le 8 b 40;
  e_flags := read_u32 b 48; e_ehsize := read_u16 b 52; e_phentsize := read_u16 b 54; e_phnum := read_u16 b 56;
  e_shentsize := read_u16 b 58; e_shnum := read_u16 b 60; e_shstrndx := read_u16 b 62 |}.
Record ProgHeader := {
  pg_type : Z; p_flags : Z; p_off : Z; p_vaddr : Z; p_paddr : Z; p_filesz : Z; p_memsz : Z; p_align : Z;
}.
Definition PROG_HEADER_SIZE : nat := 56.
Definition prog_header (b : list Z) : ProgHeader := {|
  pg_type := read_u32 b 0; p_flags := read_u32 b 4; p_off := read_le 8 b 8; p_vaddr := read_le 8 b 16;
  p_paddr := read_le 8 b 24; p_filesz := read_le 8 b 32; p_memsz := read_le 8 b 40; p_align := read_le 8 b 48 |}.
Definition ELF_MAGIC : Z := 0x464C457F.
Definition ELF_PROG_LOAD : Z := 1.

Definition align_sp (sp : Z) : Z := sp - sp `mod` 16.

(** ** The user stack *)
Section stack.
Context {H : Type} `{!PageHeap H}.

(** [iter().position(|x| *x==0)] *)
Definition nul_position (a : list Z) : option nat := fst <$> list_find (λ x, x = 0) a.

(** The loop over the arguments: [ustack[i]] is where argument [i] went. *)
Fixpoint push_args (pgt stack_base : Z) (argv : list (option (list Z))) (sp : Z) (ustack : list Z) (i : nat)
    : M (pmem H) (Z * list Z + string) :=
  match argv with
  | [] => mret (inl (sp, ustack))
  | o :: argv =>
      arg_slice ← unwrap o "called `Option::unwrap()` on a `None` value";
      max_pos ← unwrap (nul_position arg_slice) "called `Option::unwrap()` on a `None` value";
      let count := Z.of_nat max_pos + 1 in
      sp ← lift (sub_chk sp count);
      let sp := align_sp sp in
      if sp <? stack_base then mret (inr "cmd args too much for stack"%string)
      else
        r ← copy_out pgt arg_slice sp count;
        match r with
        | inr _ => mret (inr "copy cmd args to pagetable go wrong"%string)
        | inl _ => push_args pgt stack_base argv sp (<[i := sp]> ustack) (S i)
        end
  end.

Definition prepare_stack (pgt ustack_base : Z) (argv : list (option (list Z))) : M (pmem H) (Z + string) :=
  first_task_ustack_bottom ← lift (ustack_bottom_by_pos ustack_base 1);
  stack_pointer ← lift (add64 first_task_ustack_bottom USER_STACK_SIZE);
  let stack_base := first_task_ustack_bottom in
  let argc := length argv in
  assertM (argc <? MAXARG)%nat "assertion failed: argc < MAXARG";;
  r ← push_args pgt stack_base argv stack_pointer (replicate (S MAXARG) 0) 0;
  match r with
  | inr e => mret (inr e)
  | inl (stack_pointer, ustack) =>
      assertM ((argc =? 0)%nat || negb (nth (argc - 1) ustack 0 =? 0)) "assertion failed: argc == 0 || ustack[argc-1] != 0";;
      assertM (nth argc ustack 0 =? 0) "assertion `left == right` failed";;
      stack_pointer ← lift (sub_chk stack_pointer ((Z.of_nat argc + 1) * 8));
      let stack_pointer := align_sp stack_pointer in
      if stack_pointer <? stack_base then mret (inr "cmd args too much for stack"%string)
      else
        r ← copy_out pgt (concat (le_bytes 8 <$> ustack)) stack_pointer ((Z.of_nat argc + 1) * 8);
        match r with
        | inr _ => mret (inr "copy cmd args to pagetable go wrong"%string)
        | inl _ => mret (inl stack_pointer)
        end
  end.

(** The guard pages under the stacks. *)
Definition clear_guards (pgt proc_size : Z) : M (pmem H) unit :=
  for_range (Z.to_nat MAX_TASKS_PER_PROC) 1 (λ i,
    t ← lift (mul64 i (USER_STACK_SIZE + PAGE_SIZE));
    va ← lift (sub_chk proc_size t);
    uvm_clear pgt va).
End stack.

Section ops.
Context {D H R : Type} `{!BlockStore D} `{!Journal D} `{!PageHeap H} `{!QuadHeap H} `{BF : !BitField}.
Context (kroot trampoline fork_ret user_trap satp hartid : Z).
#[local] Abbreviation KS := (kstate (H := H) (R := R)).
Context `{!UserMem KS}.
#[local] Abbreviation EM := (M (istate D KS)).

Definition on_proc {A} (m : M KS A) : EM A := on_user m.
Definition on_pm {A} (m : M (pmem H) A) : EM A := on_user (Proc.on_mem m).
Definition begin_op : EM unit := on_fs (on_store st_begin).
Definition end_op : EM unit := on_fs (on_store st_end).

(** Reading into a local of [n] bytes, whose contents are not defined before. *)
Definition iread_local (self : nat) (n : nat) (offset : Z) : EM (option (list Z)) :=
  set_kbuf (replicate n 0);;
  r ← iread self (KernelMut 0) offset (Z.of_nat n);
  match r with inr _ => mret None | inl _ => s ← get; mret (Some (kbuf s)) end.

(** [load_seg]; [l] holds the offsets still to do. *)
Fixpoint load_pages (l : list Z) (pgt : Z) (self : nat) (va offset size : Z) : EM (unit + unit) :=
  match l with
  | [] => mret (inl tt)
  | i :: l =>
      r ← on_pm (find_pa_mut pgt va);
      match r with
      | inr _ => panic "should already be mapped"
      | inl pa =>
          let count := if size - i <? PAGE_SIZE then size - i else PAGE_SIZE in
          off ← lift (add32 offset i);
          page ← on_pm (read_frame pa);
          set_kbuf page;;
          r ← iread self (KernelMut 0) off count;
          s ← get;
          on_pm (write_frame pa (kbuf s));;
          match r with
          | inr _ => mret (inr tt)
          | inl _ => va ← lift (add_page va); load_pages l pgt self va offset size
          end
      end
  end.
Definition load_seg (pgt va : Z) (self : nat) (offset size : Z) : EM (unit + unit) :=
  if negb (va `mod` PAGE_SIZE =? 0) then panic "va is not page aligned"
  else
    match VirtAddr_try_from va with
    | inr why => panic why
    | inl va => load_pages (step_by 0 size PAGE_SIZE) pgt self va offset size
    end.

(** The error exits: [dealloc_proc_pagetable] with the drop of the table, and
    the drop of the inode with the end of the transaction. *)
Definition drop_new (pgt proc_size pid : Z) : EM unit :=
  on_pm (dealloc_proc_pagetable pgt proc_size pid);; on_pm (drop_pagetable pgt).
Definition release (inode : Inode) : EM unit := iunlock inode;; put inode;; end_op.

(** The loop over the program headers. *)
Fixpoint load_headers (n : nat) (inode : Inode) (pgt pid off proc_size : Z) : EM (Z + string) :=
  match n with
  | O => mret (inl proc_size)
  | S n =>
      let self := in_index inode in
      o ← iread_local self PROG_HEADER_SIZE off;
      match o with
      | None =>
          drop_new pgt proc_size pid;; release inode;;
          mret (inr "cannot read elf program header"%string)
      | Some b =>
          let ph := prog_header b in
          if negb (pg_type ph =? ELF_PROG_LOAD) then
            off ← lift (add32 off (Z.of_nat PROG_HEADER_SIZE));
            load_headers n inode pgt pid off proc_size
          else
            bad ← (if p_memsz ph <? p_filesz ph then mret true
                   else
                     e ← lift (add64 (p_vaddr ph) (p_memsz ph));
                     mret ((e <? p_vaddr ph) || negb (p_vaddr ph `mod` PAGE_SIZE =? 0)));
            if (bad : bool) then
              drop_new pgt proc_size pid;; release inode;;
              mret (inr "one program header meta not correct"%string)
            else
              e ← lift (add64 (p_vaddr ph) (p_memsz ph));
              r ← on_pm (uvm_alloc pgt proc_size e);
              match r with
              | inr _ =>
                  drop_new pgt proc_size pid;; release inode;;
                  mret (inr "not enough uvm for program header"%string)
              | inl proc_size =>
                  r ← load_seg pgt (p_vaddr ph) self (wrap 32 (p_off ph)) (wrap 32 (p_filesz ph));
                  match r with
                  | inr _ =>
                      drop_new pgt proc_size pid;; release inode;;
                      mret (inr "load program section error"%string)
                  | inl _ =>
                      off ← lift (add32 off (Z.of_nat PROG_HEADER_SIZE));
                      load_headers n inode pgt pid off proc_size
                  end
              end
      end
  end.

(** The bytes of the path after its first slashes, as the name. *)
Definition set_name (self : nat) (path : list Z) : EM unit :=
  off ← unwrap (fst <$> list_find (λ x, x ≠ 47) path) "called `Option::unwrap()` on a `None` value";
  d ← on_proc (get_proc self);
  let count := Nat.min (length path - off) (length (pname d)) in
  on_proc (upd_proc self (set_pname (write_at (pname d) 0 (take count (drop off path))))).

(** [while let Some(item) = pdata.tasks.pop() { drop(item) }] *)
Fixpoint drop_tasks (n : nat) (self : nat) : EM unit :=
  match n with
  | O => mret tt
  | S n =>
      d ← on_proc (get_proc self);
      match vec_pop (tasks d) with
      | None => mret tt
      | Some (item, rest) =>
          on_proc (upd_proc self (set_tasks rest));;
          on_proc (drop_opt_task item);;
          drop_tasks n self
      end
  end.

(** From the last error exit on. *)
Definition commit_image (self : nat) (path : list Z) (pgt pid proc_size stack_pointer ustack_base entry : Z) : EM unit :=
  d ← on_proc (get_proc self);
  assertM (negb (trapframe d =? 0)) "called `Option::unwrap()` on a `None` value";;
  on_proc (tf_set (trapframe d) tf_a1 stack_pointer);;
  set_name self path;;
  drop_tasks (S (length (tasks d))) self;;
  d ← on_proc (get_proc self);
  old_pgt ← unwrap (pagetable d) "called `Option::unwrap()` on a `None` value";
  on_proc (upd_proc self (set_pagetable (Some pgt)));;
  let old_size := psize d in
  on_proc (upd_proc self (set_psize proc_size));;
  on_proc (tf_set (trapframe d) epc entry);;
  on_proc (tf_set (trapframe d) tf_sp stack_pointer);;
  task ← on_proc (Task_new kroot fork_ret user_trap satp hartid self 1 ustack_base entry);
  on_proc (upd_proc self (λ d, set_tasks (tasks d ++ [Some task]) d));;
  on_pm (dealloc_proc_pagetable old_pgt old_size pid);;
  on_pm (drop_pagetable old_pgt).

(** From the end of the transaction on; a failing exit drops the new table. *)
Definition load_stack (self : nat) (path : list Z) (argv : list (option (list Z))) (pgt pid proc_size entry : Z)
    : EM (Z + string) :=
  ustack_base ← lift (mm_pg_round_up proc_size);
  on_proc (upd_proc self (set_ustack_base ustack_base));;
  t ← lift (mul64 MAX_TASKS_PER_PROC (USER_STACK_SIZE + PAGE_SIZE));
  e ← lift (add64 ustack_base t);
  r ← on_pm (uvm_alloc pgt ustack_base e);
  match r with
  | inr _ => drop_new pgt ustack_base pid;; mret (inr "not enough uvm for user stack"%string)
  | inl proc_size =>
      on_pm (clear_guards pgt proc_size);;
      r ← on_pm (prepare_stack pgt ustack_base argv);
      match r with
      | inr e => drop_new pgt proc_size pid;; mret (inr e)
      | inl stack_pointer =>
          commit_image self path pgt pid proc_size stack_pointer ustack_base entry;;
          mret (inl (Z.of_nat (length argv)))
      end
  end.

(** The part of [load] that holds the inode; the new table with the size of
    the image and its entry. *)
Definition load_image (self : nat) (inode : Inode) : EM (Z * Z * Z * Z + string) :=
  ilock inode;;
  o ← iread_local (in_index inode) ELF_HEADER_SIZE 0;
  match o with
  | None => release inode;; mret (inr "cannot read elf inode"%string)
  | Some b =>
      let elf := elf_header b in
      if negb (e_magic elf =? ELF_MAGIC) then release inode;; mret (inr "bad elf magic number"%string)
      else
        excl ← on_proc (on_sch (get_excl self));
        let pid := pid excl in
        d ← on_proc (get_proc self);
        o ← on_pm (alloc_proc_pagetable trampoline (trapframe d) (up d) pid);
        match o with
        | None => release inode;; mret (inr "mem not enough"%string)
        | Some pgt =>
            r ← load_headers (Z.to_nat (e_phnum elf)) inode pgt pid (wrap 32 (e_phoff elf)) 0;
            match r with
            | inr e => mret (inr e)
            | inl proc_size => release inode;; mret (inl (pgt, pid, proc_size, e_entry elf))
            end
        end
  end.

Definition load (self : nat) (path : list Z) (argv : list (option (list Z))) : EM (Z + string) :=
  begin_op;;
  o ← namei path;
  match o with
  | None => end_op;; mret (inr "cannot name inode"%string)
  | Some inode =>
      r ← load_image self inode;
      match r with
      | inr e => mret (inr e)
      | inl (pgt, pid, proc_size, entry) => load_stack self path argv pgt pid proc_size entry
      end
  end.

(** [sys_exec]; [boxes i] says whether the heap has room for argument [i].  The
    page table of process 1 is printed at the end. *)
Fixpoint exec_args (n i : nat) (self : nat) (boxes : nat → bool) (path : list Z) (uargv : Z) (argv : list (option (list Z)))
    : EM (Z + unit) :=
  match n with
  | O => mret (inr tt)
  | S n =>
      t ← lift (mul64 (Z.of_nat i) 8);
      addr ← lift (add64 uargv t);
      r ← on_proc (fetch_addr self addr);
      match r with
      | inr _ => mret (inr tt)
      | inl uarg =>
          if uarg =? 0 then
            r ← load self path argv;
            mret (match r with inl ret => inl ret | inr _ => inr tt end)
          else if negb (boxes i) then mret (inr tt)
          else
            '(arg, r) ← on_proc (fetch_str self uarg (replicate MAXARGLEN 0));
            match r with
            | inr _ => mret (inr tt)
            | inl _ => exec_args n (S i) self boxes path uargv (argv ++ [Some arg])
            end
      end
  end.
Definition sys_exec (self : nat) (boxes : nat → bool) : EM (Z + unit) :=
  '(path, r) ← on_proc (arg_str self 0 (replicate MAXPATH 0));
  match r with
  | inr _ => mret (inr tt)
  | inl _ =>
      uargv ← on_proc (arg_addr self 1);
      exec_args MAXARG 0 self boxes path uargv []
  end.
End ops.

(** * The stack that [load] builds *)
Section stack_theorems.
Context {H : Type} `{!PageHeap H, !PageHeapLaws H}.
Implicit Types (s : pmem H).

(** User memory has the bytes [bs] at [a]. *)
Definition holds s (root a : Z) (bs : list Z) : Prop := ∀ j, (j < length bs)%nat → ubyte s root (a + Z.of_nat j) = bs !! j.
(** An argument as [fetch_str] leaves it, and its text up to the zero. *)
Definition arg_ok (o : option (list Z)) : Prop := ∃ a p, o = Some a ∧ nul_position a = Some p ∧ (p < MAXARGLEN)%nat.
Definition text (o : option (list Z)) : list Z :=
  match o with
  | Some a => match nul_position a with Some p => take (S p) a | None => [] end
  | None => []
  end.

Lemma text_len a p : nul_position a = Some p → length (text (Some a)) = S p ∧ (S p ≤ length a)%nat.
Proof.
  intros E. cbn [text]. rewrite E, length_take. unfold nul_position in E. destruct (list_find _ _) as [[q x]|] eqn:Ef; [|done].
  injection E as ->. apply list_find_Some in Ef as (Hq & _). apply lookup_lt_Some in Hq. lia.
Qed.

Context (live : gset Z) (own : owners) (root base : Z).
Let top := base + USER_STACK_SIZE.
(** The stack is mapped, page by page. *)
Record stacked s : Prop := {
  sk_inv : pinv s live own;
  sk_unshared : unshared s root;
  sk_mapped n : base / PAGE_SIZE ≤ n < top / PAGE_SIZE → umapped s root n;
}.
Context (Hroot : is_root own root) (Hbase : 0 < base ∧ base `mod` PAGE_SIZE = 0) (Htop : top < MAXVA).

Lemma top_value : top = base + 0x4000 ∧ base < 2 ^ 38.
Proof. unfold top, USER_STACK_SIZE, PAGE_SIZE in *. rewrite MAXVA_value in Htop. lia. Qed.
Lemma page_in_stack n lo hi : base ≤ lo → hi < top → floor lo ≤ n ≤ floor hi → base / PAGE_SIZE ≤ n < top / PAGE_SIZE.
Proof.
  intros Hlo Hhi Hn. pose proof top_value as [Ht Hb]. unfold floor in Hn. destruct Hbase as [_ Hm]. rewrite Ht in *.
  unfold PAGE_SIZE in *. dlia.
Qed.

Lemma unshared_tabs s s' : tabs s' = tabs s → unshared s root → unshared s' root.
Proof.
  intros Ht Hun n n' pa Hn Hn'. assert (∀ m, user_pa s' root m = user_pa s root m) as E by (intros m; unfold user_pa, tr; by rewrite Ht).
  rewrite !E. by apply Hun.
Qed.

Lemma write_stack s src dst count : stacked s → base ≤ dst → 0 < count → dst + count < top → count ≤ Z.of_nat (length src) →
  ∃ s', copy_out root src dst count s = Done (inl tt, s') ∧ stacked s' ∧ tabs s' = tabs s ∧
    ∀ va, 0 ≤ va < 2 ^ 39 → ubyte s' root va =
      if decide (dst ≤ va < dst + count) then src !! Z.to_nat (va - dst) else ubyte s root va.
Proof.
  intros Hs Hd Hc Hend Hsrc. pose proof (page_in_stack) as Hpg. unfold copy_out, VirtAddr_try_from.
  pose proof top_value as [Ht Hb].
  rewrite (proj2 (Z.eqb_neq _ _)), (proj2 (Z.ltb_ge _ _)) by lia.
  destruct (copy_out_loop_run (S (Z.to_nat count)) s live own root src dst count) as [Hok _];
    [apply Hs|done|apply Hs|lia|by left|lia|lia|done| |].
  { intros n Hn1 Hn2. apply (sk_mapped _ Hs). apply (Hpg n dst (dst + count)); [lia|lia|]. split; [done|].
    unfold floor, PAGE_SIZE in *. dlia. }
  destruct Hok as (s' & E & Hs' & Htb & _ & Hum & _ & Hx).
  { apply (sk_mapped _ Hs). apply (Hpg _ dst (dst + count)); [lia|lia|]. unfold floor, PAGE_SIZE. dlia. }
  exists s'. split; [done|]. split; [|by split]. split; [done|by apply (unshared_tabs s); [|apply Hs]|].
  intros n Hn. apply Hum, (sk_mapped _ Hs), Hn.
Qed.

Lemma holds_kept s s' dst count a bs : 0 ≤ a → a + Z.of_nat (length bs) ≤ 2 ^ 39 →
  (∀ va, 0 ≤ va < 2 ^ 39 → dst + count ≤ va → ubyte s' root va = ubyte s root va) →
  dst + count ≤ a → holds s root a bs → holds s' root a bs.
Proof. intros Ha Hl Hx Hd Hh j Hj. rewrite Hx by lia. by apply Hh. Qed.

(** Where one argument goes. *)
Lemma align_sp_bounds x : 0 ≤ x → x - 15 ≤ align_sp x ≤ x ∧ align_sp x `mod` 16 = 0 ∧ 0 ≤ align_sp x.
Proof. intros Hx. unfold align_sp. dlia. Qed.

(** The first string must not end on the top of the stack. *)
Definition first_fits (argv : list (option (list Z))) : Prop :=
  match argv with [] => True | o :: _ => Z.of_nat (length (text o)) `mod` 16 ≠ 0 end.
Definition clears_top (sp : Z) (argv : list (option (list Z))) : Prop := sp < top ∨ first_fits argv.

Record pushed s (argv : list (option (list Z))) (sp : Z) s' (us : list Z) (sp' : Z) : Prop := {
  pu_stacked : stacked s';
  pu_tabs : tabs s' = tabs s;
  pu_len : length us = length argv;
  pu_down : sp - 79 * Z.of_nat (length argv) ≤ sp' ≤ sp;
  pu_below : argv ≠ [] → sp' < top;
  pu_above va : 0 ≤ va < 2 ^ 39 → sp ≤ va → ubyte s' root va = ubyte s root va;
  pu_each k u o : us !! k = Some u → argv !! k = Some o →
    sp' ≤ u ∧ u + Z.of_nat (length (text o)) ≤ sp ∧ holds s' root u (text o);
}.

Lemma push_args_run argv : ∀ s sp ustack i,
  stacked s → Forall arg_ok argv → base + 79 * Z.of_nat (length argv) ≤ sp ≤ top → top `mod` 16 = 0 → clears_top sp argv →
  ∃ s' us sp', push_args root base argv sp ustack i s = Done (inl (sp', list_inserts i us ustack), s') ∧
    pushed s argv sp s' us sp'.
Proof.
  induction argv as [|o argv IH]; intros s sp ustack i Hs Hok Hsp Hal Hcl.
  { exists s, [], sp. split; [done|]. split; cbn [length] in *; try done. lia. }
  apply Forall_cons in Hok as [(a & p & -> & Hp & Hpl) Hok]. destruct (text_len a p Hp) as [Hlen Hla].
  pose proof top_value as [Ht Hb]. unfold MAXARGLEN in Hpl. cbn [length] in Hsp. cbn [push_args].
  set (sp1 := align_sp (sp - (Z.of_nat p + 1))).
  destruct (align_sp_bounds (sp - (Z.of_nat p + 1))) as (H1 & H2 & H3); [lia|]. fold sp1 in H1, H2, H3.
  assert (sp1 + (Z.of_nat p + 1) < top) as Hend.
  { destruct Hcl as [Hcl|Hcl]; [lia|]. unfold first_fits in Hcl. rewrite Hlen in Hcl. destruct (decide (sp1 + (Z.of_nat p + 1) = top)) as [E|]; [|lia].
    exfalso. apply Hcl. dlia. }
  destruct (write_stack s a sp1 (Z.of_nat p + 1) Hs) as (s1 & E1 & Hs1 & Ht1 & Hu1); [lia|lia|done|lia|].
  destruct (IH s1 sp1 (<[i := sp1]> ustack) (S i)) as (s2 & us & sp2 & E2 & Hpu); [done|done|lia|done|left; lia|].
  exists s2, (sp1 :: us), sp2. split.
  { cbn [unwrap]. rewrite (bind_run _ _ _ a s) by done. rewrite Hp. rewrite (bind_run _ _ _ p s) by done.
    rewrite (bind_run _ _ _ (sp - (Z.of_nat p + 1)) s) by (unfold lift; by rewrite sub_chk_ok by lia). cbv zeta. fold sp1.
    rewrite (proj2 (Z.ltb_ge _ _)) by lia. rewrite (bind_run _ _ _ _ _ E1), E2. cbn [list_inserts]. by rewrite list_insert_inserts_lt by lia. }
  destruct Hpu as [P1 P2 P3 P4 P5 P6 P7].
  assert (holds s2 root sp1 (text (Some a))) as Hh.
  { intros j Hj. rewrite Hlen in Hj. rewrite P6 by lia. rewrite Hu1 by lia. rewrite decide_True by lia. cbn [text]. rewrite Hp.
    rewrite lookup_take_lt by lia. f_equal. lia. }
  split; cbn [length] in *; [done|congruence|lia|lia|intros _; lia| |].
  - intros va Hva Hge. rewrite P6 by lia. rewrite Hu1 by done. by rewrite decide_False by lia.
  - intros [|k] u o Hu Ho; cbn in Hu, Ho.
    + injection Hu as <-. injection Ho as <-. rewrite Hlen. split; [lia|]. split; [lia|done].
    + destruct (P7 k u o Hu Ho) as (? & ? & ?). split; [done|]. split; [lia|done].
Qed.

Lemma prepare_stack_split ustack_base argv s : ustack_base + PAGE_SIZE = base → (length argv < MAXARG)%nat →
  prepare_stack root ustack_base argv s =
  (r ← push_args root base argv top (replicate (S MAXARG) 0) 0;
   match r with
   | inr e => mret (inr e)
   | inl (stack_pointer, ustack) =>
      assertM ((length argv =? 0)%nat || negb (nth (length argv - 1) ustack 0 =? 0)) "assertion failed: argc == 0 || ustack[argc-1] != 0";;
      assertM (nth (length argv) ustack 0 =? 0) "assertion `left == right` failed";;
      stack_pointer ← lift (sub_chk stack_pointer ((Z.of_nat (length argv) + 1) * 8));
      let stack_pointer := align_sp stack_pointer in
      if stack_pointer <? base then mret (inr "cmd args too much for stack"%string)
      else
        r ← copy_out root (concat (le_bytes 8 <$> ustack)) stack_pointer ((Z.of_nat (length argv) + 1) * 8);
        match r with
        | inr _ => mret (inr "copy cmd args to pagetable go wrong"%string)
        | inl _ => mret (inl stack_pointer)
        end
   end) s.
Proof.
  intros Hu Ha. pose proof top_value as [Ht Hb]. unfold prepare_stack, ustack_bottom_by_pos.
  rewrite (bind_run _ _ _ base s).
  2: { unfold lift. rewrite sub_chk_ok by lia. cbn [mbind outcome_bind]. rewrite mul_chk_ok by done. cbn [mbind outcome_bind].
       change (1 - 1) with 0. rewrite Z.mul_0_l. rewrite add_chk_ok by (unfold PAGE_SIZE in *; lia). cbn [mbind outcome_bind]. rewrite Z.add_0_r.
       rewrite add_chk_ok by lia. by rewrite Hu. }
  rewrite (bind_run _ _ _ top s) by (unfold lift; by rewrite add_chk_ok by (fold top; lia)). cbv zeta.
  rewrite (proj2 (Nat.ltb_lt _ _)) by done. by rewrite (bind_run _ _ _ tt s) by done.
Qed.

Lemma prepare_stack_run ustack_base argv s : stacked s → ustack_base + PAGE_SIZE = base →
  (length argv < MAXARG)%nat → Forall arg_ok argv → first_fits argv →
  ∃ s' us sp, prepare_stack root ustack_base argv s = Done (inl sp, s') ∧ stacked s' ∧ tabs s' = tabs s ∧
    sp `mod` 16 = 0 ∧ base ≤ sp < top ∧ length us = length argv ∧
    holds s' root sp (concat (le_bytes 8 <$> us ++ [0])) ∧
    ∀ k u o, us !! k = Some u → argv !! k = Some o →
      sp < u ∧ u + Z.of_nat (length (text o)) ≤ top ∧ holds s' root u (text o).
Proof.
  intros Hs Hu Ha Hok Hcl. pose proof top_value as [Ht Hb]. unfold MAXARG in Ha.
  rewrite (prepare_stack_split _ _ _ Hu Ha).
  destruct (push_args_run argv s top (replicate (S MAXARG) 0) 0) as (s1 & us & sp1 & E & Hpu); [done|done|lia| |by right|].
  { rewrite Ht. unfold PAGE_SIZE in Hbase. dlia. }
  rewrite (bind_run _ _ _ _ _ E).
  assert (list_inserts 0 us (replicate (S MAXARG) 0) = us ++ replicate (S MAXARG - length argv) 0) as ->.
  { replace (S MAXARG) with (length us + (S MAXARG - length argv))%nat at 1 by (rewrite (pu_len _ _ _ _ _ _ Hpu); unfold MAXARG; lia).
    rewrite replicate_add. apply list_inserts_0_r. by rewrite length_replicate. }
  pose proof (pu_len _ _ _ _ _ _ Hpu) as Hlu. pose proof (pu_down _ _ _ _ _ _ Hpu) as Hdn.
  rewrite (bind_run _ _ _ tt s1).
  2: { destruct (length argv =? 0)%nat eqn:E0; [done|]. apply Nat.eqb_neq in E0.
       destruct (lookup_lt_is_Some_2 us (length argv - 1)) as [u Hu1]; [lia|].
       destruct (lookup_lt_is_Some_2 argv (length argv - 1)) as [o Ho]; [lia|].
       destruct (pu_each _ _ _ _ _ _ Hpu _ _ _ Hu1 Ho) as (Hlow & _). rewrite app_nth1 by lia.
       rewrite (nth_lookup_Some _ _ _ _ Hu1). rewrite (proj2 (Z.eqb_neq _ _)) by lia. done. }
  rewrite (bind_run _ _ _ tt s1).
  2: { rewrite <- Hlu, app_nth2, Nat.sub_diag by lia. rewrite Hlu. unfold MAXARG. by replace (17 - length argv)%nat with (S (16 - length argv)) by lia. }
  set (c := (Z.of_nat (length argv) + 1) * 8).
  rewrite (bind_run _ _ _ (sp1 - c) s1) by (unfold lift; by rewrite sub_chk_ok by (unfold c; lia)). cbv zeta.
  destruct (align_sp_bounds (sp1 - c)) as (H1 & H2 & H3); [unfold c; lia|]. set (v := align_sp (sp1 - c)) in *.
  rewrite (proj2 (Z.ltb_ge _ _)) by (unfold c in *; lia).
  destruct (write_stack s1 (concat (le_bytes 8 <$> us ++ replicate (S MAXARG - length argv) 0)) v c) as (s2 & E2 & Hs2 & Ht2 & Hx);
    [apply Hpu|unfold c in *; lia|unfold c; lia| | |].
  { destruct argv as [|o argv].
    { cbn [length] in *. assert (v + 8 ≠ top) as Hne; [|unfold c in *; lia]. intros Ev.
      assert (top `mod` 16 = 0) as Htm by (rewrite Ht; unfold PAGE_SIZE in Hbase; dlia). rewrite <- Ev in Htm. clear - H2 Htm. dlia. }
    pose proof (pu_below _ _ _ _ _ _ Hpu ltac:(done)). unfold c in *. lia. }
  { rewrite length_concat_le, length_app, length_replicate, Hlu. unfold c, MAXARG. lia. }
  rewrite (bind_run _ _ _ _ _ E2). exists s2, us, v. split; [done|]. split; [done|].
  split; [rewrite Ht2; apply Hpu|]. split; [done|]. split; [unfold c in *; lia|]. split; [done|].
  assert (length (concat (le_bytes 8 <$> us ++ [0])) = Z.to_nat c) as Hlc.
  { rewrite length_concat_le, length_app, Hlu. cbn [length]. unfold c. lia. }
  split.
  - intros j Hj. rewrite Hlc in Hj. rewrite Hx by lia. rewrite decide_True by lia.
    replace (Z.to_nat (v + Z.of_nat j - v)) with j by lia.
    replace (S MAXARG - length argv)%nat with (1 + (16 - length argv))%nat by (unfold MAXARG; lia).
    rewrite replicate_add, app_assoc, fmap_app, concat_app. apply lookup_app_l. rewrite Hlc. lia.
  - intros k u o Hku Ho. destruct (pu_each _ _ _ _ _ _ Hpu _ _ _ Hku Ho) as (Hlo & Hhi & Hh).
    split; [unfold c in *; lia|]. split; [done|].
    eapply (holds_kept s1 s2 v c); [lia|lia| |unfold c in *; lia|done].
    intros va Hva Hge. rewrite Hx by done. by rewrite decide_False by lia.
Qed.

(** C6. The arguments of a program are where it looks for them.  With the stack
    mapped and up to 15 arguments of the length [sys_exec] allows, of which
    the first does not end on a multiple of 16 bytes, building the stack
    succeeds: the stack pointer is aligned and inside the first stack, at it
    lies a vector of [argc] pointers closed by a null pointer, and each of
    them points above the vector, to its argument with its terminating zero, all
    of it below the top; the page tables
    are as they were. *)
Theorem argv_placed ustack_base argv s : stacked s → ustack_base + PAGE_SIZE = base →
  (length argv < MAXARG)%nat → Forall arg_ok argv → first_fits argv →
  ∃ s' us sp, prepare_stack root ustack_base argv s = Done (inl sp, s') ∧ tabs s' = tabs s ∧
    sp `mod` 16 = 0 ∧ base ≤ sp < top ∧ length us = length argv ∧
    holds s' root sp (concat (le_bytes 8 <$> us ++ [0])) ∧
    ∀ k u o, us !! k = Some u → argv !! k = Some o →
      sp < u ∧ u + Z.of_nat (length (text o)) ≤ top ∧ holds s' root u (text o).
Proof.
  intros Hs Hu Ha Hok Hcl. destruct (prepare_stack_run ustack_base argv s) as (s' & us & sp & E & _ & Hr); [done..|].
  by exists s', us, sp.
Qed.

(** The kernel panics on a first argument whose length with its zero is a
    multiple of 16 (a program called by a name of 15 bytes): the copy ends on
    the top of the stack, and [copy_out] looks up the page behind it, the
    guard of the next stack, which [uvm_clear] has taken from the user. *)
Theorem argument_at_top_panics ustack_base o argv s : stacked s → ustack_base + PAGE_SIZE = base →
  (S (length argv) < MAXARG)%nat → arg_ok o → Z.of_nat (length (text o)) `mod` 16 = 0 →
  user_pa s root (floor top) = None →
  panics (prepare_stack root ustack_base (o :: argv) s).
Proof.
  intros Hs Hu Ha (a & p & -> & Hp & Hpl) Hm Hno. pose proof top_value as [Ht Hb].
  destruct (text_len a p Hp) as [Hlen Hla]. rewrite Hlen in Hm. unfold MAXARGLEN in Hpl.
  rewrite (prepare_stack_split _ (Some a :: argv) _ Hu Ha). apply bind_panic. left. cbn [push_args unwrap].
  rewrite (bind_run _ _ _ a s) by done. rewrite Hp. rewrite (bind_run _ _ _ p s) by done.
  rewrite (bind_run _ _ _ (top - (Z.of_nat p + 1)) s) by (unfold lift; by rewrite sub_chk_ok by lia). cbv zeta.
  assert (align_sp (top - (Z.of_nat p + 1)) = top - (Z.of_nat p + 1)) as ->.
  { unfold align_sp. rewrite Ht. unfold PAGE_SIZE in Hbase. dlia. }
  rewrite (proj2 (Z.ltb_ge _ _)) by lia. apply bind_panic. left. unfold copy_out, VirtAddr_try_from.
  rewrite (proj2 (Z.eqb_neq _ _)), (proj2 (Z.ltb_ge _ _)) by lia.
  destruct (copy_out_loop_run (S (Z.to_nat (Z.of_nat p + 1))) s live own root a (top - (Z.of_nat p + 1)) (Z.of_nat p + 1)) as [_ Hbad];
    [apply Hs|done|apply Hs|lia|by left; lia|lia|lia|lia| |].
  { intros n Hn1 Hn2. apply (sk_mapped _ Hs). rewrite Ht in *. unfold floor, PAGE_SIZE in *. dlia. }
  replace (top - (Z.of_nat p + 1) + (Z.of_nat p + 1)) with top in Hbad by lia. apply Hbad; [|done].
  rewrite Ht. unfold PAGE_SIZE in *. dlia.
Qed.
End stack_theorems.

(** * Loading a segment *)
Section segment.
Context {D H R : Type} `{!BlockStore D} `{!BlockStoreLaws D} `{BFL : BitFieldLaws} `{!PageHeap H, !PageHeapLaws H}.
#[local] Abbreviation KS := (kstate (H := H) (R := R)).
Context `{!UserMem KS}.

(** The memory behind the processes. *)
Definition mem (s : istate D KS) : pmem H := km (kv (umem s)).
Lemma on_pm_run {A} (m : M (pmem H) A) (s : istate D KS) a x : m (mem s) = Done (a, x) →
  ∃ s', on_pm m s = Done (a, s') ∧ mem s' = x ∧ kbuf s' = kbuf s ∧ fsys s' = fsys s ∧ idata s' = idata s.
Proof.
  intros E. unfold on_pm, on_user, Proc.on_mem, on_kv, Kvm.on_mem, mem in *. rewrite E. by eexists.
Qed.

Context (live : gset Z) (own : owners) (root : Z) (Hroot : is_root own root).
Context (r : RawSuperBlock) (v : Z → block) (h : list Z) (self : nat) (dev inum : Z) (d : DiskInode).

(** A process's memory with the file that is loaded. *)
Record loading (s : istate D KS) : Prop := {
  lo_inv : pinv (mem s) live own;
  lo_unshared : unshared (mem s) root;
  lo_file : file_in s self r v h dev inum d;
}.

Lemma write_at_poke bs page : (length bs ≤ length page)%nat → write_at page 0 bs = poke 0 bs page.
Proof.
  intros Hl. unfold write_at, poke. cbn [take Nat.add app].
  rewrite <- (list_inserts_0_r bs (take (length bs) page)) by (rewrite length_take; lia). by rewrite take_drop.
Qed.

(** One page: [count] bytes of the file from [off] on. *)
Lemma load_page s n off count : loading s → umapped (mem s) root n → vpn n → 0 ≤ count ≤ PAGE_SIZE → 0 ≤ off → off + count ≤ size d →
  ∃ pa page s1 s2 s3, find_pa_mut root (n * PAGE_SIZE) (mem s) = Done (inl pa, mem s) ∧ frs (mem s) !! pa = Some page ∧
    s1 = {| fsys := fsys s; umem := umem s; kbuf := page; imeta := imeta s; idata := idata s; ilocked := ilocked s; cwd := cwd s |} ∧
    iread self (KernelMut 0) off count s1 = Done (inl tt, s2) ∧ on_pm (write_frame pa (kbuf s2)) s2 = Done (tt, s3) ∧
    loading s3 ∧ tabs (mem s3) = tabs (mem s) ∧ (∀ m, umapped (mem s) root m → umapped (mem s3) root m) ∧
    ∀ a, 0 ≤ a < 2 ^ 39 → ubyte (mem s3) root a =
      if decide (n * PAGE_SIZE ≤ a < n * PAGE_SIZE + count)
      then content v d !! Z.to_nat (off + (a - n * PAGE_SIZE)) else ubyte (mem s) root a.
Proof using All.
  intros [Hi Hun Hf] Hm Hn Hc Ho Hsz. pose proof Hm as (pa & page & Hpa & Hpg & Hlen).
  assert (0 ≤ n * PAGE_SIZE < 2 ^ 39) as Hva by (unfold vpn, PAGE_SIZE in *; lia).
  pose proof (find_pa_run (mem s) live own root (n * PAGE_SIZE) Hi Hroot Hva) as Hfind. rewrite floor_page, Hpa in Hfind.
  destruct Hfind as [_ Hfind].
  set (s1 := {| fsys := fsys s; umem := umem s; kbuf := page; imeta := imeta s; idata := idata s; ilocked := ilocked s; cwd := cwd s |}).
  assert (file_in s1 self r v h dev inum d) as Hf1 by (by destruct Hf).
  destruct (iread_run s1 self r v h dev inum d 0 off count Hf1) as (s2 & E2 & Hf2 & Hu2 & Hk2); [done|lia|done|done| |].
  { cbn [kbuf s1]. rewrite Hlen. unfold isize_max, PAGE_SIZE in *. lia. }
  set (bs := take (Z.to_nat count) (drop (Z.to_nat off) (content v d))) in *.
  assert (length bs = Z.to_nat count) as Hlb.
  { unfold bs. rewrite length_take, length_drop, length_content by (by eapply file_blocks, fi_file).
    pose proof (cv_max _ _ (fi_covered _ _ _ _ _ _ _ _ Hf)) as Hmx. change MAX_FILE_SIZE with 274432 in Hmx. unfold NSLOT. lia. }
  assert (mem s2 = mem s) as Em2 by (unfold mem; by rewrite Hu2).
  destruct (copy_to_frame_run (mem s) live own root n 0 bs Hi Hroot Hm Hun Hn) as (pa' & x & Hpa' & Ex & Hix & Htx & _ & Hmx & _ & Hbx);
    [lia|lia|]. assert (pa' = pa) as -> by congruence.
  destruct (on_pm_run (write_frame pa (kbuf s2)) s2 tt x) as (s3 & E3 & Em3 & Hk3 & Hfs3 & Hd3).
  { rewrite Em2, Hk2. cbn [kbuf s1]. change (Z.to_nat 0) with 0%nat. rewrite write_at_poke by lia.
    unfold copy_to_frame, read_frame in Ex. run_simpl in Ex. by rewrite Hpg in Ex. }
  exists pa, page, s1, s2, s3. split; [done|]. split; [done|]. split; [done|]. split; [done|]. split; [done|]. rewrite Em3.
  split; [|split; [done|split; [done|]]].
  - split; rewrite ?Em3; [done| |].
    + intros m m' q Hvm Hvm' Hq Hq'. assert (∀ k, user_pa x root k = user_pa (mem s) root k) as Eu
        by (intros k; unfold user_pa, tr; by rewrite Htx). rewrite !Eu in *. by eapply Hun.
    + destruct Hf2 as [F1 F2 F3 F4]. split; rewrite ?Hd3, ?Hfs3; done.
  - intros a Ha. rewrite Hbx, Hlb, Z.add_0_r, Z2Nat.id by lia. case_decide as Hin; [|done]. unfold bs.
    rewrite lookup_take_lt by lia. rewrite lookup_drop. f_equal. lia.
Qed.

Lemma load_pages_run k : ∀ s n i offset size, loading s → (Z.to_nat ((size - i + PAGE_SIZE - 1) / PAGE_SIZE) ≤ k)%nat →
  0 ≤ i → i `mod` PAGE_SIZE = 0 → 0 ≤ n → n * PAGE_SIZE + (size - i) ≤ 2 ^ 38 → 0 ≤ offset → offset + size ≤ Block.size d →
  (∀ m, n ≤ m → m * PAGE_SIZE < n * PAGE_SIZE + (size - i) → umapped (mem s) root m) →
  ∃ s', load_pages (step_by i size PAGE_SIZE) root self (n * PAGE_SIZE) offset size s = Done (inl tt, s') ∧ loading s' ∧
    tabs (mem s') = tabs (mem s) ∧
    ∀ a, 0 ≤ a < 2 ^ 39 → ubyte (mem s') root a =
      if decide (n * PAGE_SIZE ≤ a < n * PAGE_SIZE + (size - i))
      then content v d !! Z.to_nat (offset + i + (a - n * PAGE_SIZE)) else ubyte (mem s) root a.
Proof using All.
  induction k as [|k IH]; intros s n i offset size Hs Hk Hi Him Hn Hmax Ho Hsz Hm.
  all: destruct (Z.le_gt_cases size i) as [Hle|Hlt].
  1,3: rewrite step_by_nil by (unfold PAGE_SIZE in *; lia); exists s; (split; [done|]); (split; [done|]); (split; [done|]);
    intros a Ha; by rewrite decide_False by lia.
  { exfalso. unfold PAGE_SIZE in *. dlia. }
  rewrite step_by_cons by (unfold PAGE_SIZE in *; lia). cbn [load_pages].
  set (count := if size - i <? PAGE_SIZE then size - i else PAGE_SIZE).
  assert (0 ≤ count ≤ PAGE_SIZE ∧ count ≤ size - i ∧ (count = size - i ∨ count = PAGE_SIZE)) as (Hc1 & Hc2 & Hc3).
  { unfold count. destruct (Z.ltb_spec (size - i) PAGE_SIZE); unfold PAGE_SIZE in *; lia. }
  destruct (load_page s n (offset + i) count Hs) as (pa & page & s1 & s2 & s3 & Hfind & Hpg & E1 & E2 & E3 & Hs3 & Ht3 & Hm3 & Hb3);
    [apply Hm; unfold PAGE_SIZE in *; lia|unfold vpn, PAGE_SIZE in *; lia|done|lia|lia|].
  assert (∀ s0 : istate D KS, ∀ A (m : M (pmem H) A) a, m (mem s0) = Done (a, mem s0) → on_pm m s0 = Done (a, s0)) as Hsame.
  { intros [? [[? ?] ? ? ? ? ? ?] ? ? ? ? ?] A m a E. unfold on_pm, on_user, Proc.on_mem, on_kv, Kvm.on_mem, mem in *. cbn in *. by rewrite E. }
  rewrite (bind_run _ _ _ _ _ (Hsame _ _ _ _ Hfind)).
  assert (offset + i < 2 ^ 32) as H32.
  { pose proof (cv_max _ _ (fi_covered _ _ _ _ _ _ _ _ (lo_file _ Hs))) as Hmx. change MAX_FILE_SIZE with 274432 in Hmx. lia. }
  fold count. rewrite (bind_run _ _ _ (offset + i) s) by (unfold lift; by rewrite add_chk_ok by lia).
  rewrite (bind_run (on_pm (read_frame pa)) _ _ page s).
  2: { apply Hsame. unfold read_frame. run_simpl. by rewrite Hpg. }
  rewrite (bind_run (set_kbuf page) _ _ tt s1) by (by rewrite E1).
  rewrite (bind_run _ _ _ _ _ E2). rewrite (bind_run _ _ _ s2 s2) by done. rewrite (bind_run _ _ _ _ _ E3).
  rewrite (bind_run _ _ _ ((n + 1) * PAGE_SIZE) s3).
  2: { unfold lift, add_page. rewrite add_chk_ok by (unfold PAGE_SIZE in *; lia). do 2 f_equal. unfold PAGE_SIZE. lia. }
  destruct (IH s3 (n + 1) (i + PAGE_SIZE) offset size Hs3) as (s4 & E4 & Hs4 & Ht4 & Hb4);
    [unfold PAGE_SIZE in *; dlia|unfold PAGE_SIZE; lia|unfold PAGE_SIZE in *; dlia|lia|unfold PAGE_SIZE in *; lia|done|done
     |intros m H1 H2; apply Hm3, Hm; unfold PAGE_SIZE in *; lia|].
  exists s4. split; [done|]. split; [done|]. split; [congruence|]. intros a Ha. rewrite Hb4, Hb3 by done.
  unfold PAGE_SIZE in *. repeat case_decide; try lia; try done; f_equal; lia.
Qed.

(** C7. A segment is loaded where it belongs.  With the pages from [va] on
    mapped and the segment's bytes inside the file, [load_seg] succeeds, and
    afterwards the user reads at [va + k] byte [offset + k] of the file, for
    every [k] below the size of the segment; every other byte of user memory,
    the page tables and the file are as they were. *)
Theorem load_seg_loads s va offset size : loading s → va `mod` PAGE_SIZE = 0 → 0 ≤ va → va + size < MAXVA →
  0 ≤ size → 0 ≤ offset → offset + size ≤ Block.size d →
  (∀ m, va / PAGE_SIZE ≤ m → m * PAGE_SIZE < va + size → umapped (mem s) root m) →
  ∃ s', load_seg root va self offset size s = Done (inl tt, s') ∧ file_in s' self r v h dev inum d ∧
    tabs (mem s') = tabs (mem s) ∧
    ∀ a, 0 ≤ a < 2 ^ 39 → ubyte (mem s') root a =
      if decide (va ≤ a < va + size) then content v d !! Z.to_nat (offset + (a - va)) else ubyte (mem s) root a.
Proof using All.
  intros Hs Hal Hva Hmax Hsz Ho Hin Hm. rewrite MAXVA_value in Hmax.
  assert (va = va / PAGE_SIZE * PAGE_SIZE) as Ev by (unfold PAGE_SIZE in *; dlia).
  destruct (load_pages_run (Z.to_nat ((size - 0 + PAGE_SIZE - 1) / PAGE_SIZE)) s (va / PAGE_SIZE) 0 offset size Hs)
    as (s' & E & Hs' & Ht & Hb); rewrite <- ?Ev, ?Z.sub_0_r; [done|done|done|unfold PAGE_SIZE; dlia|lia|done|done|done|].
  exists s'. unfold load_seg, VirtAddr_try_from. rewrite Hal, Z.eqb_refl. cbn [negb].
  rewrite (proj2 (Z.ltb_ge _ _)) by (rewrite MAXVA_value; lia). rewrite <- Ev in E. split; [done|].
  split; [apply Hs'|]. split; [done|]. intros a Ha. rewrite (Hb a Ha), <- Ev, Z.sub_0_r, Z.add_0_r. done.
Qed.
End segment.


(** * What the log is asked for *)
Section transactions.
Context {D H R : Type} `{!BlockStore D, !Journal D, !JournalLaws D} `{!PageHeap H} `{!QuadHeap H} `{BF : !BitField}.
Context (kroot trampoline fork_ret user_trap satp hartid : Z).
#[local] Abbreviation KS := (kstate (H := H) (R := R)).
Context `{!UserMem KS}.
#[local] Abbreviation EM := (M (istate D KS)).
#[local] Abbreviation tr := (itr (D := D) (U := KS)).

Lemma traced_begin_op : traced tr opens begin_op.
Proof. apply traced_st_begin. Qed.
Lemma traced_end_op : traced tr closes end_op.
Proof. apply traced_st_end. Qed.
Lemma traced_on_proc {A} P (m : M KS A) : P [] → traced tr P (on_proc m).
Proof. apply traced_on_user. Qed.
Lemma traced_on_pm {A} P (m : M (pmem H) A) : P [] → traced tr P (on_pm (D := D) (R := R) m).
Proof. apply traced_on_user. Qed.
#[local] Hint Resolve traced_on_proc traced_on_pm w_iread : traces.
#[local] Hint Extern 1 (traced _ opens _) => apply traced_begin_op : traces.
#[local] Hint Extern 1 (traced _ closes _) => apply traced_end_op : traces.

Lemma w_iread_local self n offset : traced tr writes (iread_local self n offset).
Proof. unfold iread_local. writes. Qed.
Lemma w_load_pages l pgt self va offset size : traced tr writes (load_pages l pgt self va offset size).
Proof. revert va. induction l as [|i l IH]; intros va; cbn [load_pages]; writes; apply IH. Qed.
#[local] Hint Resolve w_iread_local w_load_pages : traces.
Lemma w_load_seg pgt va self offset size : traced tr writes (load_seg pgt va self offset size).
Proof. unfold load_seg. writes. Qed.
#[local] Hint Resolve w_load_seg : traces.
Lemma s_drop_new pgt size pid : traced tr silent (drop_new pgt size pid).
Proof. unfold drop_new. silent. Qed.
#[local] Hint Extern 1 (traced _ silent (drop_new _ _ _)) => apply s_drop_new : traces.
Lemma release_closing P inode : P [] → traced tr (closing P) (release inode).
Proof. intros. unfold release. repeat (apply writes_then; [solve [writes]|intros]). apply end_last; auto with traces. Qed.

(** The headers are read in the open transaction; a failing exit closes it. *)
Definition headers_left (r : Z + string) (t : list jev) : Prop :=
  match r with inl _ => writes t | inr _ => closing silent t end.
Definition headers_traced (m : EM (Z + string)) : Prop :=
  ∀ s r s', m s = Done (r, s') → ∃ t, tr s' = tr s ++ t ∧ headers_left r t.

Lemma headers_then {A} (m : EM A) f : traced tr writes m → (∀ a, headers_traced (f a)) → headers_traced (m ≫= f).
Proof.
  intros Hm Hf s r s' E. mbind_inv E as a s1 E1 E2. destruct (Hm _ _ _ E1) as (t & Et & Ht).
  destruct (Hf _ _ _ _ E2) as (u & Eu & Hu). exists (t ++ u). split; [by rewrite Eu, Et, app_assoc|].
  destruct r; [by apply writes_app|by apply closing_app].
Qed.
Lemma headers_exit pgt size pid inode e : headers_traced (drop_new pgt size pid;; release inode;; mret (inr e)).
Proof.
  intros s r s' E. mbind_inv E as u s1 E1 E. mbind_inv E as v s2 E2 E. injection E as <- <-.
  destruct (s_drop_new _ _ _ _ _ _ E1) as (? & Et1 & ->).
  destruct (release_closing silent inode silent_nil _ _ _ E2) as (t & Et & Ht). exists t. by rewrite Et, Et1, app_nil_r.
Qed.
Lemma headers_ret size : headers_traced (mret (inl size)).
Proof. intros s r s' [= <- <-]. exists []. split; [by rewrite app_nil_r|apply writes_nil]. Qed.
Lemma load_headers_left n inode pgt pid off size : headers_traced (load_headers n inode pgt pid off size).
Proof.
  revert off size. induction n as [|n IH]; intros off size; cbn [load_headers]; [apply headers_ret|].
  repeat first [ progress intros | apply headers_exit | apply IH | apply headers_then; [solve [writes]|] | case_match ].
Qed.

Lemma t_load_image self inode : traced tr (closing silent) (load_image trampoline self inode).
Proof.
  unfold load_image.
  repeat first [ progress intros | apply writes_then; [solve [writes]|] | case_match ].
  all: try (intros s r s' E; mbind_inv E as u s1 E1 E; injection E as <- <-; by apply (release_closing silent) in E1).
  intros s r s' E. mbind_inv E as u s1 E1 E. destruct (load_headers_left _ _ _ _ _ _ _ _ _ E1) as (t & Et & Ht).
  destruct u as [size|e].
  - mbind_inv E as u s2 E2 E. injection E as <- <-.
    destruct (release_closing silent inode silent_nil _ _ _ E2) as (u' & Eu & Hu). exists (t ++ u').
    split; [by rewrite Eu, Et, app_assoc|by apply closing_app].
  - injection E as <- <-. by exists t.
Qed.
Lemma s_load_stack self path argv pgt pid size entry :
  traced tr silent (load_stack kroot fork_ret user_trap satp hartid self path argv pgt pid size entry).
Proof.
  assert (∀ n, traced tr silent (drop_tasks n self)) as Hd.
  { induction n as [|n IH]; cbn [drop_tasks]; silent; apply IH. }
  unfold load_stack, commit_image, set_name. silent; apply Hd.
Qed.
Lemma load_one self path argv :
  traced tr (λ t, ∃ ws, t = tx ws) (load kroot trampoline fork_ret user_trap satp hartid self path argv).
Proof.
  unfold load.
  apply (traced_bind _ opens (closing silent)); [|apply traced_begin_op|].
  { intros t u -> (ws & x & -> & ->). by exists ws. }
  intros _. apply writes_then; [solve [writes]|]. intros [inode|].
  - apply (traced_bind _ (closing silent) silent).
    { intros t u Ht ->. by rewrite app_nil_r. }
    { apply t_load_image. }
    intros [[[[??]?]?]|]; [apply s_load_stack|silent].
  - apply end_then; [apply traced_end_op|silent].
Qed.

Definition at_most_one (t : list jev) : Prop := t = [] ∨ ∃ ws, t = tx ws.
Lemma load_then_silent t u : (∃ ws, t = tx ws) → silent u → at_most_one (t ++ u).
Proof. intros [ws ->] ->. right. exists ws. by rewrite app_nil_r. Qed.
Lemma exec_args_one n i self boxes path uargv argv :
  traced tr at_most_one (exec_args kroot trampoline fork_ret user_trap satp hartid n i self boxes path uargv argv).
Proof.
  revert i argv. induction n as [|n IH]; intros i argv; cbn [exec_args]; [apply traced_ret; by left|].
  repeat first [ progress intros | apply traced_ret; by left | apply IH | apply silent_then; [solve [silent]|]
    | apply (traced_bind _ (λ t, ∃ ws, t = tx ws) silent);
        [exact load_then_silent|apply load_one|solve [silent]] | case_match ].
Qed.
Lemma sys_exec_one self boxes :
  traced tr at_most_one (sys_exec kroot trampoline fork_ret user_trap satp hartid self boxes).
Proof.
  unfold sys_exec. apply silent_then; [solve [silent]|]. intros [path [?|?]]; [|apply traced_ret; by left].
  apply silent_then; [solve [silent]|]. intros. apply exec_args_one.
Qed.
(** C5. Loading a program asks the log for exactly one transaction, whether it
    succeeds or fails in any of its ways: the reads of the headers and of the
    segments, and the blocks that dropping the last handle of a file may free,
    lie between its [begin_op] and its [end_op]. *)
Theorem load_in_one_transaction self path argv (s s' : istate D KS) r :
  load kroot trampoline fork_ret user_trap satp hartid self path argv s = Done (r, s') →
  ∃ ws, tr s' = tr s ++ [JBegin] ++ (JWrite <$> ws) ++ [JEnd].
Proof. intros E. destruct (load_one _ _ _ _ _ _ E) as (t & -> & ws & ->). by exists ws. Qed.
End transactions.

(** * What a failed [load] leaves *)

(** The file layer does not touch the user memory, as long as no user address
    is read or written. *)
Section files_only.
Context {D U : Type} `{!BlockStore D, !UserMem U, !BitField}.
#[local] Abbreviation K m := (untouched (umem (D := D) (U := U)) m).

Lemma uk_fs {A} (m : M (fsd D) A) : K (on_fs m : M (istate D U) A).
Proof. intros s x s'. unfold on_fs. destruct (m (fsys s)) as [[y f]|]; [|done]. by intros [= _ <-]. Qed.
Lemma uk_kbuf l : K (set_kbuf l).
Proof. by intros s x s' [= _ <-]. Qed.
Lemma uk_meta f : K (set_meta f).
Proof. by intros s x s' [= _ <-]. Qed.
Lemma uk_data f : K (set_data f).
Proof. by intros s x s' [= _ <-]. Qed.
Lemma uk_locked i b : K (Inode.set_locked i b).
Proof. by intros s x s' [= _ <-]. Qed.
#[local] Hint Resolve uk_fs uk_kbuf uk_meta uk_data uk_locked : untouched.

Lemma uk_get_data i : K (get_data i).
Proof. unfold get_data. untouched. Qed.
Lemma uk_get_meta i : K (get_meta i).
Proof. unfold get_meta. untouched. Qed.
#[local] Hint Resolve uk_get_data uk_get_meta : untouched.
Lemma uk_get_dinode i : K (get_dinode i).
Proof. unfold get_dinode. untouched. Qed.
Lemma uk_get_valid i : K (get_valid i).
Proof. unfold get_valid. untouched. Qed.
Lemma uk_upd_dinode i f : K (upd_dinode i f).
Proof. apply uk_data. Qed.
#[local] Hint Resolve uk_get_dinode uk_get_valid uk_upd_dinode : untouched.
Lemma uk_map_blockno i b : K (map_blockno i b).
Proof. unfold map_blockno. untouched. Qed.
#[local] Hint Resolve uk_map_blockno : untouched.
Lemma uk_copy_out k x n : K (addr_copy_out (KernelMut k) x n).
Proof. unfold addr_copy_out. untouched. Qed.
#[local] Hint Resolve uk_copy_out : untouched.
Lemma uk_iread_loop n i k c b o r : K (iread_loop n i (KernelMut k) c b o r).
Proof.
  revert k c b o r. induction n as [|n IH]; intros k c b o r; cbn [iread_loop]; [untouched|].
  destruct (0 <? c); [|untouched]. repeat (apply untouched_bind; [solve [untouched]|intros]). case_match; [|untouched].
  unfold Address_offset. unfold assertO, add_chk.
  destruct (r <? isize_max), (k + r <? 2 ^ 64); try apply untouched_panic. apply IH.
Qed.
#[local] Hint Resolve uk_iread_loop : untouched.
Lemma uk_iread i k o c : K (iread i (KernelMut k) o c).
Proof. unfold iread. untouched. Qed.
#[local] Hint Resolve uk_iread : untouched.

Lemma uk_iget d i : K (iget d i).
Proof. unfold iget, upd_refs. untouched. Qed.
Lemma uk_idup i : K (idup i).
Proof. unfold idup, upd_refs. untouched. Qed.
Lemma uk_data_lock i : K (data_lock i).
Proof. unfold data_lock. untouched. Qed.
Lemma uk_iunlock i : K (iunlock i).
Proof. unfold iunlock, data_unlock. untouched. Qed.
#[local] Hint Resolve uk_iget uk_idup uk_data_lock uk_iunlock : untouched.
Lemma uk_ilock i : K (ilock i).
Proof. unfold ilock. untouched. Qed.
Lemma uk_put i : K (put i).
Proof. unfold put, upd_refs, data_unlock, truncate, update. untouched. Qed.
#[local] Hint Resolve uk_ilock uk_put : untouched.
Lemma uk_dir_lookup i name b : K (dir_lookup i name b).
Proof. unfold dir_lookup, read_entry. untouched. Qed.
#[local] Hint Resolve uk_dir_lookup : untouched.
Lemma uk_namex_loop n path b i c name : K (namex_loop n path b i c name).
Proof.
  revert i c name. induction n as [|n IH]; intros i c name; cbn [namex_loop]; untouched; apply IH.
Qed.
#[local] Hint Resolve uk_namex_loop : untouched.
Lemma uk_namei path : K (namei path).
Proof. unfold namei, namex. untouched. Qed.
End files_only.
#[export] Hint Resolve uk_fs uk_kbuf uk_iread uk_ilock uk_iunlock uk_put uk_namei : untouched.

Section exits.
Context {D H R : Type} `{!BlockStore D, !Journal D} `{!PageHeap H} `{!QuadHeap H} `{BF : !BitField}.
Context (kroot trampoline fork_ret user_trap satp hartid : Z).
#[local] Abbreviation KS := (kstate (H := H) (R := R)).
Context `{!UserMem KS}.
#[local] Abbreviation EM := (M (istate D KS)).

(** The process layer without the pages: all but [km] of it. *)
Definition bare (k : KS) : Z * sched * RecycleAllocator * RecycleAllocator * list (ProcData R) * list ProcAlarm * list (event R) :=
  (kstacks (kv k), sch k, pids k, tids k, procs k, alarms k, events k).
Definition others (s : istate D KS) := bare (umem s).
#[local] Abbreviation K m := (untouched others m).

Lemma ok_files {A} (m : EM A) : untouched umem m → K m.
Proof. intros Hm s a s' E. unfold others. by rewrite (Hm _ _ _ E). Qed.
Lemma ok_pm {A} (m : M (pmem H) A) : K (on_pm m).
Proof.
  intros s a s'. unfold on_pm, on_user, Proc.on_mem, on_kv, Kvm.on_mem. destruct (m (km (kv (umem s)))) as [[y x]|]; [|done].
  by intros [= _ <-].
Qed.
#[local] Hint Resolve ok_files ok_pm : untouched.
Lemma ok_get_proc i : K (on_proc (get_proc i)).
Proof.
  intros s a s'. unfold on_proc, on_user, get_proc. run_simpl. destruct (procs (umem s) !! i); [|done]. by intros [= _ <-].
Qed.
Lemma ok_get_excl i : K (on_proc (on_sch (get_excl i))).
Proof.
  intros s a s'. unfold on_proc, on_user, on_sch, get_excl. run_simpl. destruct (excl (sch (umem s)) !! i); [|done].
  by intros [= _ <-].
Qed.
#[local] Hint Resolve ok_get_proc ok_get_excl : untouched.
Lemma ok_iread_local i n o : K (iread_local i n o).
Proof. unfold iread_local. untouched. Qed.
Lemma ok_load_pages l pgt i va o n : K (load_pages l pgt i va o n).
Proof. revert va. induction l as [|x l IH]; intros va; cbn [load_pages]; untouched; apply IH. Qed.
#[local] Hint Resolve ok_iread_local ok_load_pages : untouched.
Lemma ok_load_seg pgt va i o n : K (load_seg pgt va i o n).
Proof. unfold load_seg. untouched. Qed.
Lemma ok_drop_new pgt n pid : K (drop_new pgt n pid).
Proof. unfold drop_new. untouched. Qed.
Lemma ok_release h : K (release h).
Proof. unfold release, end_op. untouched. Qed.
#[local] Hint Resolve ok_load_seg ok_drop_new ok_release : untouched.
Lemma ok_load_headers n h pgt pid off size : K (load_headers n h pgt pid off size).
Proof. revert off size. induction n as [|n IH]; intros off size; cbn [load_headers]; untouched; apply IH. Qed.
#[local] Hint Resolve ok_load_headers : untouched.
Lemma ok_load_image i h : K (load_image trampoline i h).
Proof. unfold load_image. untouched. Qed.
(** The inode is locked by [load_image] and given back on each of its exits. *)
#[local] Abbreviation L m := (untouched (handles_locks (D := D) (U := KS)) m).
Lemma hl_proc {A} (m : M KS A) : L (on_proc m).
Proof. apply hl_user. Qed.
Lemma hl_pm {A} (m : M (pmem H) A) : L (on_pm m).
Proof. apply hl_user. Qed.
#[local] Hint Resolve hl_proc hl_pm : untouched.
Lemma hl_iread_local i n o : L (iread_local i n o).
Proof. unfold iread_local. untouched. Qed.
Lemma hl_load_pages l pgt i va o n : L (load_pages l pgt i va o n).
Proof. revert va. induction l as [|x l IH]; intros va; cbn [load_pages]; untouched; apply IH. Qed.
#[local] Hint Resolve hl_iread_local hl_load_pages : untouched.
Lemma hl_load_seg pgt va i o n : L (load_seg pgt va i o n).
Proof. unfold load_seg. untouched. Qed.
Lemma hl_drop_new pgt n pid : L (drop_new pgt n pid).
Proof. unfold drop_new. untouched. Qed.
#[local] Hint Resolve hl_load_seg hl_drop_new : untouched.

Section held.
Context (h : Inode) (Hs : list Inode) (l : list bool).
Hypothesis Hfree : l !! in_index h = Some false.
#[local] Abbreviation held s := (took (D := D) (U := KS) (h :: Hs) (<[in_index h := true]> l) None s).
#[local] Abbreviation freed s := (took (D := D) (U := KS) Hs l None s).

Lemma release_freed s u s' : held s → release h s = Done (u, s') → freed s'.
Proof using Hfree.
  intros Ht E. unfold release in E. mbind_inv E as v s1 E1 E. mbind_inv E as w s2 E2 E.
  pose proof (unlock_put_took _ _ _ _ _ _ _ _ _ Ht Hfree E1 E2) as Hf.
  exact (took_untouched _ _ _ _ _ (hl_fs _ _ _ _ E) Hf).
Qed.
(** Every run of [m] frees the inode; only those that return [inr] do. *)
Definition freeing {A} (m : EM A) : Prop := ∀ s r s', held s → m s = Done (r, s') → freed s'.
Definition exiting {A B} (m : EM (A + B)) : Prop :=
  ∀ s r s', held s → m s = Done (r, s') → match r with inl _ => held s' | inr _ => freed s' end.
Lemma freeing_release {A} (a : A) : freeing (release h;; mret a).
Proof using Hfree. intros s r s' Ht E. mbind_inv E as u s1 E1 E. injection E as <- <-. by eapply release_freed. Qed.
Lemma freeing_bind {A B} (m : EM A) (f : A → EM B) : L m → (∀ a, freeing (f a)) → freeing (m ≫= f).
Proof.
  intros Hm Hf s r s' Ht E. mbind_inv E as a s1 E1 E2. eapply Hf; [|exact E2]. by eapply took_untouched; [eapply Hm|].
Qed.
Lemma freeing_exit {A B C} (m : EM (A + B)) (f : A + B → EM C) :
  exiting m → (∀ a, freeing (f (inl a))) → (∀ e, ∃ c, f (inr e) = mret c) → freeing (m ≫= f).
Proof.
  intros Hm Hl Hr s r s' Ht E. mbind_inv E as a s1 E1 E2. specialize (Hm _ _ _ Ht E1). destruct a as [a|e].
  - exact (Hl a _ _ _ Hm E2).
  - destruct (Hr e) as [c Ec]. rewrite Ec in E2. by injection E2 as _ <-.
Qed.
Lemma exiting_bind {A B C} (m : EM A) (f : A → EM (B + C)) : L m → (∀ a, exiting (f a)) → exiting (m ≫= f).
Proof.
  intros Hm Hf s r s' Ht E. mbind_inv E as a s1 E1 E2. eapply Hf; [|exact E2]. by eapply took_untouched; [eapply Hm|].
Qed.
Lemma exiting_ret {A B} (a : A) : exiting (B := B) (mret (inl a)).
Proof. by intros s r s' Ht [= <- <-]. Qed.
Lemma exiting_error {A B} (e : B) : exiting (A := A) (release h;; mret (inr e)).
Proof using Hfree. intros s r s' Ht E. mbind_inv E as u s1 E1 E. injection E as <- <-. by eapply release_freed. Qed.
Lemma load_headers_exiting n pgt pid off size : exiting (load_headers n h pgt pid off size).
Proof using Hfree.
  revert off size. induction n as [|n IH]; intros off size; cbn [load_headers]; [apply exiting_ret|].
  repeat first [ progress intros | apply exiting_error | apply IH | apply exiting_bind; [solve [untouched]|] | case_match ].
Qed.
Lemma load_image_freeing i :
  ∃ m, load_image (D := D) trampoline i h = (ilock h;; m) ∧ freeing m.
Proof using Hfree.
  eexists. split; [reflexivity|].
  repeat first [ progress intros | progress cbv zeta | apply freeing_release | apply freeing_bind; [solve [untouched]|]
    | apply freeing_exit; [apply load_headers_exiting| |by eexists] | case_match ].
Qed.
End held.

Lemma load_image_freed i h Hs l s r s' : took Hs l (Some h) s → load_image trampoline i h s = Done (r, s') → took Hs l None s'.
Proof.
  intros [Ht Hl] E. assert (l !! in_index h = Some false) as Hf.
  { rewrite <- Hl. unfold load_image in E. mbind_inv E as u s1 E1 E. by apply ilock_inv in E1 as (? & _ & _). }
  destruct (load_image_freeing h Hs l Hf i) as (m & Em & Hm). rewrite Em in E.
  mbind_inv E as u s1 E1 E. destruct (ilock_inv _ _ _ _ E1) as (_ & E2 & E3).
  eapply Hm; [|exact E]. split; congruence.
Qed.

(** A failing exit after the transaction changes [ustack_base] alone. *)
Definition fails_bare {A} (m : EM (A + string)) : Prop := ∀ s e s', m s = Done (inr e, s') → others s' = others s.
Lemma fails_bind {A B} (m : EM A) (f : A → EM (B + string)) : K m → (∀ a, fails_bare (f a)) → fails_bare (m ≫= f).
Proof. intros Hm Hf s e s' E. mbind_inv E as a s1 E1 E2. rewrite (Hf _ _ _ _ E2). by apply (Hm _ _ _ E1). Qed.
Lemma fails_error {A} (e : string) : fails_bare (A := A) (mret (inr e)).
Proof. by intros s e' s' [= _ <-]. Qed.
Lemma fails_commit {A B} (m : EM A) (b : B) : fails_bare (m;; mret (inl b)).
Proof. intros s e s' E. by mbind_inv E as a s1 E1 E2. Qed.

(** The process layer with one [ustack_base] changed. *)
Definition with_base (i : nat) (b : Z) (k : KS) : KS :=
  {| kv := kv k; sch := sch k; pids := pids k; tids := tids k; procs := alter (set_ustack_base b) i (procs k);
     alarms := alarms k; events := events k |}.
Lemma load_stack_failed i path argv pgt pid size entry s e s' :
  load_stack kroot fork_ret user_trap satp hartid i path argv pgt pid size entry s = Done (inr e, s') →
  ∃ b, others s' = bare (with_base i b (umem s)).
Proof.
  unfold load_stack. intros E. mbind_inv E as b s1 E1 E. apply lift_inv in E1 as [_ ->]. mbind_inv E as u s1 E1 E.
  exists b. transitivity (others s1); [|injection E1 as _ <-; done]. clear E1. revert s1 e s' E.
  match goal with |- ∀ s1 e s', ?m s1 = _ → _ => change (fails_bare m) end.
  repeat first [ progress intros | apply fails_error | apply fails_commit | apply fails_bind; [solve [untouched]|] | case_match ].
Qed.
Lemma hl_load_stack i path argv pgt pid size entry :
  L (load_stack kroot fork_ret user_trap satp hartid i path argv pgt pid size entry).
Proof.
  assert (∀ n, L (drop_tasks n i)) as Hd by (induction n as [|n IH]; cbn [drop_tasks]; untouched; apply IH).
  unfold load_stack, commit_image, set_name. untouched; apply Hd.
Qed.

Lemma fs_frame {A} (m : M (fsd D) A) (s s' : istate D KS) a : on_fs m s = Done (a, s') →
  imeta s' = imeta s ∧ ilocked s' = ilocked s ∧ cwd s' = cwd s ∧ umem s' = umem s.
Proof. unfold on_fs. destruct (m (fsys s)) as [[x f]|]; [|done]. by intros [= _ <-]. Qed.

(** C4. [load] gives back what it takes.  However it ends, the handles on
    inodes and their sleep locks are as before; and when it fails, nothing of
    the processes, their data, the scheduler, the alarms and the id allocators
    has changed but the stack base of the calling process, which its two last
    failing exits leave at the size of the image that was not loaded. *)
Theorem load_exits i path argv Hs s r s' :
  tracked (imeta s) Hs → (∀ w, cwd s = Some w → w ∈ Hs) → Z.of_nat (S (length Hs)) < 2 ^ 63 →
  load kroot trampoline fork_ret user_trap satp hartid i path argv s = Done (r, s') →
  tracked (imeta s') Hs ∧ ilocked s' = ilocked s ∧
  ∀ e, r = inr e → bare (umem s') = bare (umem s) ∨ ∃ b, bare (umem s') = bare (with_base i b (umem s)).
Proof.
  intros Ht Hw Hlen E. unfold load in E. mbind_inv E as u s1 E1 E. mbind_inv E as o s2 E2 E.
  destruct (fs_frame _ _ _ _ E1) as (Em & El & Ec & Eu).
  pose proof (uk_namei _ _ _ _ E2) as Eu2. rewrite <- Em in Ht. rewrite <- Ec in Hw.
  pose proof (namei_took _ _ _ _ _ Ht Hw Hlen E2) as H2. rewrite El in H2.
  destruct o as [h|].
  - mbind_inv E as x s3 E3 E. pose proof (load_image_freed _ _ _ _ _ _ _ H2 E3) as H3.
    pose proof (ok_load_image _ _ _ _ _ E3) as Eu3. unfold others in Eu3. rewrite Eu2, Eu in Eu3.
    destruct x as [[[[pgt pid] size] entry]|e].
    + destruct (took_untouched _ _ _ _ _ (hl_load_stack _ _ _ _ _ _ _ _ _ _ E) H3) as [Ht' Hl']. split; [done|]. split; [done|].
      intros e ->. right. apply load_stack_failed in E as [b Eb]. exists b. unfold others in Eb. rewrite Eb.
      revert Eu3. unfold bare, with_base. cbn. intros Eu3. injection Eu3 as -> -> -> -> -> -> ->. done.
    + injection E as <- <-. destruct H3 as [Ht' Hl']. split; [done|]. split; [done|]. intros e' _. by left.
  - mbind_inv E as v s3 E3 E. injection E as <- <-. destruct H2 as [Ht2 Hl2].
    destruct (fs_frame _ _ _ _ E3) as (Em3 & El3 & _ & Eu3).
    split; [by rewrite Em3|]. split; [by rewrite El3|]. intros e _. left. by rewrite Eu3, Eu2, Eu.
Qed.
End exits.

#[local] Existing Instances Bump.bump Bump.bump_laws.
(** A process with its stack on pages 1 to 4, nothing behind. *)
Module SmallStack.
Definition user : pmem Z :=
  match uvm_alloc Bump.root0 0 (5 * PAGE_SIZE) Bump.boot with Done (_, s) => s | Panic _ => Bump.boot end.
Lemma user_alloc : uvm_alloc Bump.root0 0 (5 * PAGE_SIZE) Bump.boot = Done (inl (5 * PAGE_SIZE), user).
Proof. by vm_compute. Qed.
Lemma user_stacked : ∃ live own, is_root own Bump.root0 ∧ stacked live own Bump.root0 0x1000 user ∧
  user_pa user Bump.root0 5 = None.
Proof.
  destruct (fresh_user 5 user) as (live & own & Hs & Hr & Hun & Hm & Hno); [done|by vm_compute|apply user_alloc|].
  exists live, own. split; [done|]. split; [split; [done|done|]|apply Hno; [by vm_compute|lia]].
  intros n Hn. apply Hm. unfold USER_STACK_SIZE, PAGE_SIZE in Hn. change (0x1000 / 0x1000) with 1 in Hn.
  change ((0x1000 + 0x1000 * 4) / 0x1000) with 5 in Hn. lia.
Qed.
(** "ls", and a name of 15 bytes, as [fetch_str] leaves them. *)
Definition ls : list Z := [108; 115] ++ replicate 62 0.
Definition long_name : list Z := replicate 15 97 ++ replicate 49 0.
End SmallStack.

Lemma argv_placed_witness : ∃ s' sp u, prepare_stack Bump.root0 0 [Some SmallStack.ls] SmallStack.user = Done (inl sp, s') ∧
  holds s' Bump.root0 u [108; 115; 0].
Proof.
  destruct SmallStack.user_stacked as (live & own & Hr & Hs & _).
  destruct (argv_placed (H := Z) live own Bump.root0 0x1000 Hr (conj eq_refl eq_refl) eq_refl 0 [Some SmallStack.ls]
    SmallStack.user Hs eq_refl) as (s' & us & sp & E & _ & _ & _ & Hl & _ & Hh).
  - unfold MAXARG. cbn. lia.
  - constructor; [|constructor]. exists SmallStack.ls, 2%nat. split; [done|]. split; [done|]. unfold MAXARGLEN. lia.
  - done.
  - destruct us as [|u us]; [done|]. exists s', sp, u. split; [exact E|]. exact (proj2 (proj2 (Hh 0%nat u _ eq_refl eq_refl))).
Defined.

Lemma argument_at_top_panics_witness : panics (prepare_stack Bump.root0 0 [Some SmallStack.long_name] SmallStack.user).
Proof.
  destruct SmallStack.user_stacked as (live & own & Hr & Hs & Hno).
  apply (argument_at_top_panics (H := Z) live own Bump.root0 0x1000 Hr (conj eq_refl eq_refl) eq_refl 0
    (Some SmallStack.long_name) [] SmallStack.user Hs eq_refl).
  - unfold MAXARG. cbn. lia.
  - exists SmallStack.long_name, 15%nat. split; [done|]. split; [done|]. unfold MAXARGLEN. lia.
  - done.
  - exact Hno.
Defined.

(** The process of [SmallStack], with the file of [SmallFile] after "hi" was
    written to it. *)
Module SmallSegment.
Definition proc : kstate (H := Z) (R := unit) :=
  {| kv := {| km := SmallStack.user; kstacks := 0 |}; sch := sch kboot; pids := pids kboot; tids := tids kboot;
     procs := procs kboot; alarms := alarms kboot; events := [] |}.
#[export] Instance user_mem : UserMem (kstate (H := Z) (R := unit)) :=
  {| um_copy_out _ _ _ := panic "not used"; um_copy_in _ _ := panic "not used" |}.
Definition with_proc (s : istate plain unit) : istate plain (kstate (H := Z) (R := unit)) :=
  {| fsys := fsys s; umem := proc; kbuf := kbuf s; imeta := imeta s; idata := idata s; ilocked := ilocked s; cwd := cwd s |}.
End SmallSegment.
#[local] Existing Instance SmallSegment.user_mem.

Lemma write_at_two (l : list Z) : (2 ≤ length l)%nat →
  write_at l 0 [104; 105] !! 0%nat = Some 104 ∧ write_at l 0 [104; 105] !! 1%nat = Some 105.
Proof. intros Hl. rewrite !lookup_write_at_in by (cbn; lia). done. Qed.

Lemma load_seg_loads_witness : ∃ s s', load_seg (D := plain) (H := Z) (R := unit) Bump.root0 0x1000 0 0 2 s = Done (inl tt, s') ∧
  ubyte (mem s') Bump.root0 0x1000 = Some 104 ∧ ubyte (mem s') Bump.root0 0x1001 = Some 105.
Proof.
  destruct (try_iwrite_run SmallFile.state 0 Small.raw Small.blocks [] 1 1 SmallFile.inode 0 0 2
    SmallFile.file ltac:(done) ltac:(done) ltac:(done) ltac:(done) ltac:(done) ltac:(by repeat constructor) SmallFile.room)
    as (s1 & v1 & d1 & _ & Hf1 & [Hc Hme _ _] & _).
  assert (Block.size d1 = 2) as Hsz by by rewrite Hme.
  destruct SmallStack.user_stacked as (live & own & Hr & [Hi Hun Hm] & _).
  destruct (load_seg_loads (D := plain) (H := Z) (R := unit) live own Bump.root0 Hr Small.raw v1 [] 0 1 1 d1
    (SmallSegment.with_proc s1) 0x1000 0 2) as (s' & E & _ & _ & Hb).
  - split; [exact Hi|exact Hun|]. by destruct Hf1.
  - done.
  - lia.
  - by vm_compute.
  - lia.
  - lia.
  - by rewrite Hsz.
  - intros m H1 H2. apply Hm. change (0x1000 / PAGE_SIZE) with 1 in *. unfold USER_STACK_SIZE, PAGE_SIZE in *.
    change ((0x1000 + 0x1000 * 4) / 0x1000) with 5. lia.
  - exists (SmallSegment.with_proc s1), s'. split; [exact E|]. rewrite !Hb by lia. rewrite Hc.
    assert (2 ≤ length (content Small.blocks SmallFile.inode))%nat as Hl.
    { rewrite length_content by apply Small.blocks_ok. unfold NSLOT. lia. }
    change (take (Z.to_nat 2) (drop (Z.to_nat 0) (kbuf SmallFile.state))) with [104; 105].
    rewrite !decide_True by lia. change (Z.to_nat (0 + (0x1000 - 0x1000))) with 0%nat.
    change (Z.to_nat (0 + (0x1001 - 0x1000))) with 1%nat. change (Z.to_nat 0) with 0%nat.
    split; [exact (proj1 (write_at_two _ Hl))|exact (proj2 (write_at_two _ Hl))].
Defined.

(** A process that executes the root directory of [Files.Root]. *)
Module BadImage.
Definition state : istate jstore (kstate (H := Z) (R := unit)) :=
  let s := ist Root.state in
  {| fsys := fsys s; umem := SmallSegment.proc; kbuf := kbuf s; imeta := imeta s; idata := idata s; ilocked := ilocked s;
     cwd := cwd s |}.
Definition run := load (H := Z) (R := unit) 0 0 0 0 0 0 0 [47; 0] [] state.
Definition error : option string := match run with Done (inr e, _) => Some e | _ => None end.
Lemma fails : error = Some "cannot read elf inode"%string.
Proof. by vm_compute. Qed.
Lemma run_fails : ∃ s', load (H := Z) (R := unit) 0 0 0 0 0 0 0 [47; 0] [] state = Done (inr "cannot read elf inode"%string, s').
Proof.
  pose proof fails as Hf. unfold error, run in Hf.
  destruct (load (H := Z) (R := unit) 0 0 0 0 0 0 0 [47; 0] [] state) as [[[?|?] s']|]; [discriminate Hf| |discriminate Hf].
  injection Hf as ->. exists s'. reflexivity.
Qed.
End BadImage.

Lemma load_in_one_transaction_witness : ∃ s' ws,
  load (H := Z) (R := unit) 0 0 0 0 0 0 0 [47; 0] [] BadImage.state = Done (inr "cannot read elf inode"%string, s') ∧
  jt (store (fsys s')) = [JBegin] ++ (JWrite <$> ws) ++ [JEnd].
Proof.
  destruct BadImage.run_fails as [s' E].
  destruct (load_in_one_transaction (R := unit) 0 0 0 0 0 0 0 [47; 0] [] BadImage.state s' _ E) as [ws Hws].
  exists s', ws. split; [exact E|exact Hws].
Defined.

Lemma load_exits_witness : ∃ s',
  load (H := Z) (R := unit) 0 0 0 0 0 0 0 [47; 0] [] BadImage.state = Done (inr "cannot read elf inode"%string, s') ∧
  tracked (imeta s') [] ∧ ilocked s' = replicate NINODE false.
Proof.
  destruct BadImage.run_fails as [s' E].
  destruct (load_exits (R := unit) 0 0 0 0 0 0 0 [47; 0] [] [] BadImage.state _ s' tracked_boot ltac:(done) eq_refl E) as (Ht & Hl & _).
  exists s'. split; [exact E|]. split; [exact Ht|exact Hl].
Defined.
