(* ===== verification/Ulib.v ===== *)
(** * The library of the user programs ([user_rust/src/ulib.rs], [lib.rs],
    [file.rs], [user_rust/syscall_riscv/src/lib.rs])

    The memory of a program is a partial function from addresses to bytes; an
    access outside it is a fault, which the model ends in as in a panic.  A
    [while] loop takes as fuel a bound on its rounds; the theorems say which
    fuel is enough.  User programs are built with the [release] profile, in
    which integers wrap. *)
From S2P Require Import Prelude Consts Bytes PageTable Uvm Block Inode Files Proc Exec.

Definition umemory := Z → option Z.
Definition load (p : Z) : M umemory Z := m ← get; unwrap (m p) "fault".
Definition set_byte (p x : Z) (m : umemory) : umemory := λ q, if decide (q = p) then Some x else m q.
Definition store (p x : Z) : M umemory unit :=
  m ← get; unwrap (m p) "fault";; put (set_byte p x m).

(** ** ulib.rs *)
Fixpoint strcpy_loop (fuel : nat) (d s : Z) : M umemory Z :=
  match fuel with
  | O => panic "out of fuel"
  | S fuel =>
      c ← load s;
      if c =? 0 then mret d
      else store d c;; strcpy_loop fuel (d + 1) (s + 1)
  end.
Definition strcpy (fuel : nat) (dst src : Z) : M umemory Z :=
  d ← strcpy_loop fuel dst src; store d 0;; mret dst.

Fixpoint strcmp (fuel : nat) (p1 q1 : Z) : M umemory Z :=
  match fuel with
  | O => panic "out of fuel"
  | S fuel =>
      a ← load p1;
      if a =? 0 then b ← load q1; mret (a - b)
      else
        b ← load q1;
        if a =? b then strcmp fuel (p1 + 1) (q1 + 1) else mret (a - b)
  end.

Fixpoint strlen_loop (fuel : nat) (p len : Z) : M umemory Z :=
  match fuel with
  | O => panic "out of fuel"
  | S fuel => c ← load p; if c =? 0 then mret len else strlen_loop fuel (p + 1) (len + 1)
  end.
Definition strlen (fuel : nat) (s : Z) : M umemory Z := strlen_loop fuel s 0.

Fixpoint for_in {S} (l : list Z) (f : Z → M S unit) : M S unit :=
  match l with [] => mret tt | i :: l => f i;; for_in l f end.

Definition memset (dst c : Z) (n : nat) : M umemory Z :=
  for_in (seqZ 0 (Z.of_nat n)) (λ i, store (dst + i) c);; mret dst.

Fixpoint strchr (fuel : nat) (p c : Z) : M umemory Z :=
  match fuel with
  | O => panic "out of fuel"
  | S fuel =>
      a ← load p;
      if a =? 0 then mret 0
      else if a =? c then mret p
      else strchr fuel (p + 1) c
  end.

(** [read(0, &mut c, 1)] takes a byte of the standard input, if there is one. *)
Definition on_umem {A} (m : M umemory A) : M (umemory * list Z) A := λ s,
  match m s.1 with Done (a, x) => Done (a, (x, s.2)) | Panic why => Panic why end.
Definition read1 : M (umemory * list Z) (option Z) := λ s,
  match s.2 with [] => Done (None, s) | c :: l => Done (Some c, (s.1, l)) end.
Fixpoint gets_loop (fuel : nat) (buf max i : Z) : M (umemory * list Z) Z :=
  match fuel with
  | O => panic "out of fuel"
  | S fuel =>
      if i + 1 <? max then
        n ← read1;
        match n with
        | None => mret i
        | Some c =>
            on_umem (store (buf + i) c);;
            if (c =? 10) || (c =? 13) then mret (i + 1)
            else gets_loop fuel buf max (i + 1)
        end
      else mret i
  end.
Definition gets_line (fuel : nat) (buf max : Z) : M (umemory * list Z) Z :=
  i ← gets_loop fuel buf max 0; on_umem (store (buf + i) 0);; mret buf.

(** [i32] arithmetic that wraps. *)
Fixpoint atoi_loop (fuel : nat) (p n : Z) : M umemory Z :=
  match fuel with
  | O => panic "out of fuel"
  | S fuel =>
      c ← load p;
      if (48 <=? c) && (c <=? 57) then atoi_loop fuel (p + 1) (as_i32 (n * 10 + (c - 48)))
      else mret n
  end.
Definition atoi (fuel : nat) (s : Z) : M umemory Z := atoi_loop fuel s 0.

Definition copy_byte (dst src i : Z) : M umemory unit := c ← load (src + i); store (dst + i) c.
Definition memmove (dst src : Z) (n : nat) : M umemory Z :=
  (if dst <? src then for_in (seqZ 0 (Z.of_nat n)) (copy_byte dst src)
   else for_in (reverse (seqZ 0 (Z.of_nat n))) (copy_byte dst src));;
  mret dst.
Definition memcpy (dst src : Z) (n : nat) : M umemory Z := memmove dst src n.

Definition memcmp (s1 s2 : Z) (n : nat) : M umemory Z :=
  r ← for_ret (seqZ 0 (Z.of_nat n)) (λ i,
    a ← load (s1 + i); b ← load (s2 + i);
    mret (if a =? b then None else Some (a - b)));
  mret (default 0 r).

(** ** lib.rs: [_start] *)
Fixpoint load_bytes (p : Z) (n : nat) : M umemory (list Z) :=
  match n with O => mret [] | S n => c ← load p; l ← load_bytes (p + 1) n; mret (c :: l) end.
Definition load_usize (p : Z) : M umemory Z := l ← load_bytes p 8; mret (le_val l).

(** [str::from_utf8] accepts exactly these bytes. *)
Definition between (a b x : Z) : bool := (a <=? x) && (x <=? b).
Definition cont (x : Z) : bool := between 0x80 0xbf x.
Definition utf8_second (b0 b1 : Z) : bool :=     (* of a sequence of three or four *)
  if b0 =? 0xe0 then between 0xa0 0xbf b1
  else if b0 =? 0xed then between 0x80 0x9f b1
  else if b0 =? 0xf0 then between 0x90 0xbf b1
  else if b0 =? 0xf4 then between 0x80 0x8f b1
  else cont b1.
Fixpoint utf8 (l : list Z) : bool :=
  match l with
  | [] => true
  | b0 :: l =>
      if between 0 0x7f b0 then utf8 l
      else match l with
      | b1 :: l =>
          if between 0xc2 0xdf b0 then cont b1 && utf8 l
          else match l with
          | b2 :: l =>
              if between 0xe0 0xef b0 then utf8_second b0 b1 && cont b2 && utf8 l
              else match l with
              | b3 :: l => between 0xf0 0xf4 b0 && utf8_second b0 b1 && cont b2 && cont b3 && utf8 l
              | [] => false
              end
          | [] => false
          end
      | [] => false
      end
  end.

Definition start_arg (fuel : nat) (argv i : Z) : M umemory (list Z) :=
  str_start ← load_usize (wrap 64 (argv + i * 8));
  len ← strlen_loop fuel str_start 0;
  bs ← load_bytes str_start (Z.to_nat len);
  assertM (utf8 bs) "called `Result::unwrap()` on an `Err` value";;
  mret bs.
Fixpoint start_args (fuel : nat) (argv i : Z) (n : nat) : M umemory (list (list Z)) :=
  match n with
  | O => mret []
  | S n => v ← start_arg fuel argv i; l ← start_args fuel argv (i + 1) n; mret (v :: l)
  end.
(** Up to the call of [exit] with what [main] returned. *)
Definition start (main : Z → list (list Z) → M umemory Z) (fuel : nat) (argc : nat) (argv : Z) : M umemory Z :=
  v ← start_args fuel argv 0 argc; main (Z.of_nat argc) v.

(** ** The system calls: the number for [a7] and the arguments *)
Record ecall := { number : Z; args : list Z }.
Definition as_usize (x : Z) : Z := wrap 64 x.
Definition call0 (n : Z) : ecall := {| number := n; args := [0; 0; 0; 0; 0; 0] |}.
Definition call1 (n a : Z) : ecall := {| number := n; args := [as_usize a; 0; 0; 0; 0; 0] |}.
Definition call2 (n a b : Z) : ecall := {| number := n; args := [as_usize a; as_usize b; 0; 0; 0; 0] |}.
Definition call3 (n a b c : Z) : ecall := {| number := n; args := [as_usize a; as_usize b; as_usize c; 0; 0; 0] |}.
(** A [&str] or slice is given by its address, and its length where the call
    passes it. *)
Definition u_fork : ecall := call0 1.
Definition u_exit (no : Z) : ecall := call1 2 no.
Definition u_wait (addr : Z) : ecall := call1 3 addr.
Definition u_pipe (addr : Z) : ecall := call1 4 addr.
Definition u_read (fd buffer len : Z) : ecall := call3 5 fd buffer len.
Definition u_kill (pid : Z) : ecall := call1 6 pid.
Definition u_exec (path argv : Z) : ecall := call2 7 path argv.
Definition u_fstat (fd fstat : Z) : ecall := call2 8 fd fstat.
Definition u_chdir (dir : Z) : ecall := call1 9 dir.
Definition u_dup (fd : Z) : ecall := call1 10 fd.
Definition u_getpid : ecall := call0 11.
Definition u_sbrk (increment : Z) : ecall := call1 12 increment.
Definition u_sleep (ticks : Z) : ecall := call1 13 ticks.
Definition u_uptime : ecall := call0 14.
Definition u_open (path flag : Z) : ecall := call2 15 path flag.
Definition u_write (fd buffer len : Z) : ecall := call3 16 fd buffer len.
Definition u_mknod (path major minor : Z) : ecall := call3 17 path major minor.
Definition u_unlink (path : Z) : ecall := call1 18 path.
Definition u_link (old_path new_path : Z) : ecall := call2 19 old_path new_path.
Definition u_mkdir (dir : Z) : ecall := call1 20 dir.
Definition u_close (fd : Z) : ecall := call1 21 fd.
Definition u_getmtime : ecall := call0 22.
Definition u_waitpid (pid exit_code : Z) : ecall := call2 23 pid exit_code.

(** ** file.rs: [fstat] *)
Inductive FileT := TDIR | TFILE | TDEVICE | TNONE.
Record Stat := { dev : Z; ino : Z; ftype : FileT; nlink : Z; size : Z }.
Definition Stat_default : Stat := {| dev := 0; ino := 0; ftype := TNONE; nlink := 0; size := 0 |}.
(** The bytes of the [StatC] that the kernel wrote, as the fields. *)
Definition stat_of_c (buf : list Z) : Stat := {|
  dev := as_i32 (read_le 4 buf 0); ino := read_le 4 buf 4;
  ftype := match read_le 2 buf 8 with 1 => TDIR | 2 => TFILE | 3 => TDEVICE | _ => TNONE end;
  nlink := read_le 2 buf 10; size := read_le 8 buf 16 |}.
Definition STATC_SIZE : nat := 24.
(** [sys] is the system call: what it returns and what it wrote to [fstat_c]. *)
Definition file_fstat (sys : list Z → Z * list Z) (fstat : Stat) : Z * Stat :=
  let '(res, fstat_c) := sys (replicate STATC_SIZE 0) in
  if res =? -1 then (res, fstat) else (res, stat_of_c fstat_c).

(** * Runs of the loops *)
Definition at_bytes (m : umemory) (p : Z) (l : list Z) : Prop := ∀ i, (i < length l)%nat → m (p + Z.of_nat i) = l !! i.
(** A string of C at [p]. *)
Definition cstring (m : umemory) (p : Z) (l : list Z) : Prop := at_bytes m p (l ++ [0]) ∧ (0 ∉ l).

Lemma load_run m p x : m p = Some x → load p m = Done (x, m).
Proof. intros E. unfold load. run_simpl. by rewrite E. Qed.
Lemma store_run m p x : is_Some (m p) → store p x m = Done (tt, set_byte p x m).
Proof. intros [y E]. unfold store. run_simpl. by rewrite E. Qed.

Lemma at_cons m p c l : at_bytes m p (c :: l) ↔ m p = Some c ∧ at_bytes m (p + 1) l.
Proof.
  split.
  - intros H. split; [rewrite <- (Z.add_0_r p); exact (H 0%nat ltac:(cbn; lia))|]. intros i Hi.
    replace (p + 1 + Z.of_nat i) with (p + Z.of_nat (S i)) by lia. exact (H (S i) ltac:(cbn; lia)).
  - intros [Hc H] [|i] Hi; [by rewrite Z.add_0_r|]. cbn in *.
    replace (p + Z.of_nat (S i)) with (p + 1 + Z.of_nat i) by lia. apply H. lia.
Qed.
Lemma cstring_nil m p : cstring m p [] → m p = Some 0.
Proof. intros [H _]. by apply at_cons in H as [H _]. Qed.
Lemma cstring_cons m p c l : cstring m p (c :: l) → m p = Some c ∧ c ≠ 0 ∧ cstring m (p + 1) l.
Proof. intros [H [Hc Hl]%not_elem_of_cons]. apply at_cons in H as [Hp H]. split; [done|]. split; [congruence|by split]. Qed.

Lemma strlen_run m l p len fuel : cstring m p l → (length l < fuel)%nat →
  strlen_loop fuel p len m = Done (len + Z.of_nat (length l), m).
Proof.
  revert p len fuel. induction l as [|c l IH]; intros p len [|fuel] Hs Hf; try (cbn in Hf; lia); cbn [strlen_loop].
  - rewrite (bind_run _ _ _ _ _ (load_run _ _ _ (cstring_nil _ _ Hs))). cbn. by rewrite Z.add_0_r.
  - destruct (cstring_cons _ _ _ _ Hs) as (Hp & Hc & Hs'). rewrite (bind_run _ _ _ _ _ (load_run _ _ _ Hp)).
    rewrite (proj2 (Z.eqb_neq _ _) Hc), (IH _ _ fuel Hs') by (cbn in Hf; lia). do 2 f_equal. cbn. lia.
Qed.

(** ** Copies *)
(** [m] after [n] bytes from [src] went to [dst]. *)
Definition moved (dst src n : Z) (m : umemory) : umemory := λ q,
  if decide (dst ≤ q < dst + n) then m (src + (q - dst)) else m q.
Definition copyable (m : umemory) (dst src n : Z) : Prop := ∀ i, 0 ≤ i < n → is_Some (m (src + i)) ∧ is_Some (m (dst + i)).
(** The bytes from [a] to [b] of the move are done. *)
Definition moving (dst src a b : Z) (m : umemory) (m' : umemory) : Prop :=
  ∀ q, m' q = if decide (dst + a ≤ q < dst + b) then m (src + (q - dst)) else m q.

Lemma copy_byte_run dst src i n a b m m' : copyable m dst src n → moving dst src a b m m' → 0 ≤ i < n →
  ¬ dst + a ≤ src + i < dst + b →
  ∃ m1, copy_byte dst src i m' = Done (tt, m1) ∧ ∀ q, m1 q = if decide (q = dst + i) then m (src + i) else m' q.
Proof.
  intros Hc Hm Hi Hout. destruct (Hc i Hi) as [[x Hx] [y Hy]].
  assert (m' (src + i) = Some x) as Ex by (rewrite Hm, decide_False by done; exact Hx).
  assert (is_Some (m' (dst + i))) as Ey.
  { rewrite Hm. case_decide; [|eauto]. replace (src + (dst + i - dst)) with (src + i) by lia. eauto. }
  exists (set_byte (dst + i) x m'). split; [|intros q; unfold set_byte; by rewrite Hx].
  unfold copy_byte. rewrite (bind_run _ _ _ _ _ (load_run _ _ _ Ex)). by apply store_run.
Qed.
Lemma forward_run dst src n k j m m' : dst < src → copyable m dst src n → 0 ≤ j → j + Z.of_nat k = n → moving dst src 0 j m m' →
  ∃ m1, for_in (seqZ j (Z.of_nat k)) (copy_byte dst src) m' = Done (tt, m1) ∧ moving dst src 0 n m m1.
Proof.
  revert j m'. induction k as [|k IH]; intros j m' Hd Hc Hj Hn Hm.
  { exists m'. split; [done|]. by replace n with j by lia. }
  rewrite seqZ_cons by lia. cbn [for_in]. replace (Z.pred (Z.of_nat (S k))) with (Z.of_nat k) by lia.
  destruct (copy_byte_run dst src j n 0 j m m') as (m1 & E & Hm1); [done|done|lia|lia|]. rewrite (bind_run _ _ _ _ _ E).
  apply (IH (Z.succ j)); [done|done|lia|lia|]. intros q. rewrite Hm1. destruct (decide (q = dst + j)) as [->|Hq].
  - rewrite decide_True by lia. f_equal. lia.
  - rewrite Hm. repeat case_decide; (done || lia).
Qed.
Lemma backward_run dst src n k m m' : src ≤ dst → copyable m dst src n → Z.of_nat k ≤ n → moving dst src (Z.of_nat k) n m m' →
  ∃ m1, for_in (reverse (seqZ 0 (Z.of_nat k))) (copy_byte dst src) m' = Done (tt, m1) ∧ moving dst src 0 n m m1.
Proof.
  revert m'. induction k as [|k IH]; intros m' Hd Hc Hn Hm.
  { exists m'. by split. }
  rewrite seqZ_S, reverse_app. cbn [reverse rev_append app for_in]. rewrite Z.add_0_l.
  destruct (copy_byte_run dst src (Z.of_nat k) n (Z.of_nat (S k)) n m m') as (m1 & E & Hm1); [done|done|lia|lia|].
  rewrite (bind_run _ _ _ _ _ E). apply IH; [done|done|lia|]. intros q. rewrite Hm1.
  destruct (decide (q = dst + Z.of_nat k)) as [->|Hq].
  - rewrite decide_True by lia. f_equal. lia.
  - rewrite Hm. repeat case_decide; (done || lia).
Qed.

(** [memmove] moves, whether or not the two areas overlap.  With both
    areas in memory it returns [dst], every byte of the destination becomes what
    the source held at the same offset before the call, and no other byte
    changes; nothing is assumed of the order of the areas. *)
Theorem memmove_moves dst src n m : copyable m dst src (Z.of_nat n) →
  ∃ m', memmove dst src n m = Done (dst, m') ∧ ∀ q, m' q = moved dst src (Z.of_nat n) m q.
Proof.
  intros Hc. unfold memmove, moved. destruct (Z.ltb_spec dst src) as [Hlt|Hge].
  - destruct (forward_run dst src (Z.of_nat n) n 0 m m) as (m' & E & Hm); [done|done|lia|lia| |].
    { intros q. by rewrite decide_False by lia. }
    exists m'. rewrite (bind_run _ _ _ _ _ E). split; [done|]. intros q. rewrite Hm. by replace (dst + 0) with dst by lia.
  - destruct (backward_run dst src (Z.of_nat n) n m m) as (m' & E & Hm); [done|done|lia| |].
    { intros q. by rewrite decide_False by lia. }
    exists m'. rewrite (bind_run _ _ _ _ _ E). split; [done|]. intros q. rewrite Hm. by replace (dst + 0) with dst by lia.
Qed.

(** * Starting a program *)
Lemma load_bytes_run m l p : at_bytes m p l → load_bytes p (length l) m = Done (l, m).
Proof.
  revert p. induction l as [|c l IH]; intros p Hl; [done|]. apply at_cons in Hl as [Hc Hl]. cbn [load_bytes length].
  rewrite (bind_run _ _ _ _ _ (load_run _ _ _ Hc)). by rewrite (bind_run _ _ _ _ _ (IH _ Hl)).
Qed.
Lemma load_usize_run m p u : 0 ≤ u < 2 ^ 64 → at_bytes m p (le_bytes 8 u) → load_usize p m = Done (u, m).
Proof.
  intros Hu Hp. apply load_bytes_run in Hp. rewrite length_le_bytes in Hp. unfold load_usize.
  rewrite (bind_run _ _ _ _ _ Hp), le_val_le_bytes. rewrite Z.mod_small; [done|lia].
Qed.
Lemma at_window m p l o n l' : at_bytes m p l → take n (drop o l) = l' → length l' = n → at_bytes m (p + Z.of_nat o) l'.
Proof.
  intros Hl <- Hn i Hi. rewrite Hn in Hi. replace (p + Z.of_nat o + Z.of_nat i) with (p + Z.of_nat (o + i)) by lia.
  rewrite Hl; [by rewrite lookup_take_lt, lookup_drop by done|]. rewrite length_take, length_drop in Hn. lia.
Qed.

Definition bad_arg {A} : outcome A := Panic "called `Result::unwrap()` on an `Err` value".
Lemma start_arg_run m fuel argv i u a :
  at_bytes m (wrap 64 (argv + i * 8)) (le_bytes 8 u) → 0 ≤ u < 2 ^ 64 → cstring m u a → (length a < fuel)%nat →
  start_arg fuel argv i m = if utf8 a then Done (a, m) else bad_arg.
Proof.
  intros Hp Hu Ha Hf. unfold start_arg. rewrite (bind_run _ _ _ _ _ (load_usize_run _ _ _ Hu Hp)).
  rewrite (bind_run _ _ _ _ _ (strlen_run _ _ _ 0 _ Ha Hf)), Z.add_0_l, Nat2Z.id.
  assert (at_bytes m u a) as Hb.
  { intros j Hj. rewrite (proj1 Ha) by (rewrite length_app; lia). by apply lookup_app_l. }
  rewrite (bind_run _ _ _ _ _ (load_bytes_run _ _ _ Hb)). by destruct (utf8 a).
Qed.
(** A vector of pointers to strings. *)
Definition points (m : umemory) (us : list Z) (l : list (list Z)) : Prop :=
  length us = length l ∧ ∀ k u a, us !! k = Some u → l !! k = Some a → 0 ≤ u < 2 ^ 64 ∧ cstring m u a.
Lemma start_args_run m fuel argv us l : ∀ i,
  at_bytes m (argv + 8 * Z.of_nat i) (concat (le_bytes 8 <$> us)) → 0 ≤ argv → argv + 8 * Z.of_nat (i + length us) < 2 ^ 64 →
  points m us l → Forall (λ a, (length a < fuel)%nat) l →
  start_args fuel argv (Z.of_nat i) (length l) m = if forallb utf8 l then Done (l, m) else bad_arg.
Proof.
  revert us. induction l as [|a l IH]; intros us i Hv H0 Hend [Hlen Hp] Hf; [done|].
  destruct us as [|u us]; [done|]. destruct (Hp 0%nat u a) as [Hu Ha]; [done|done|]. apply Forall_cons in Hf as [Hfa Hf].
  rewrite fmap_cons in Hv. cbn [concat length] in Hv, Hend, Hlen. cbn [start_args length forallb].
  pose proof (at_window _ _ _ 0 8 (le_bytes 8 u) Hv (take_app_length' _ _ _ (eq_sym (length_le_bytes 8 u))) (length_le_bytes 8 u)) as Hw.
  unfold mbind at 1, M_bind. rewrite (start_arg_run m fuel argv (Z.of_nat i) u a); [|  |done|done|done].
  2: { unfold wrap. rewrite Z.mod_small by lia. by replace (argv + Z.of_nat i * 8) with (argv + 8 * Z.of_nat i + Z.of_nat 0) by lia. }
  destruct (utf8 a); [|done]. cbn [andb]. replace (Z.of_nat i + 1) with (Z.of_nat (S i)) by lia.
  unfold mbind, M_bind. rewrite (IH us (S i)).
  - by destruct (forallb utf8 l).
  - replace (argv + 8 * Z.of_nat (S i)) with (argv + 8 * Z.of_nat i + Z.of_nat 8) by lia.
    eapply (at_window _ _ _ 8 (length (concat (le_bytes 8 <$> us)))); [exact Hv| |done].
    rewrite drop_app_length' by (by rewrite length_le_bytes). by apply take_ge.
  - done.
  - lia.
  - split; [lia|]. intros k. exact (Hp (S k)).
  - done.
Qed.

(** An argument without its final zero. *)
Definition arg_text (o : option (list Z)) : list Z := take (pred (length (text o))) (text o).
Lemma text_split o : arg_ok o → text o = arg_text o ++ [0] ∧ (0 ∉ arg_text o) ∧ (length (arg_text o) < MAXARGLEN)%nat.
Proof.
  intros (a & p & -> & Hp & Hl). destruct (text_len a p Hp) as [Ht Hla]. unfold arg_text. rewrite Ht. cbn [text pred]. rewrite Hp.
  unfold nul_position in Hp. destruct (list_find _ a) as [[q x]|] eqn:Ef; [|done]. injection Hp as ->.
  apply list_find_Some in Ef as (Hq & -> & Hb). rewrite take_take, Nat.min_l by lia. split; [by apply take_S_r|]. split.
  - intros (i & Hi & Hip)%elem_of_take. exact (Hb i 0 Hi Hip eq_refl).
  - rewrite length_take. lia.
Qed.

Section starting.
Context {H : Type} `{!PageHeap H, !PageHeapLaws H}.
Context (live : gset Z) (own : owners) (root base : Z).

End starting.

(** * Strings *)
Lemma cstring_load m p l : cstring m p l → m p = Some (default 0 (head l)).
Proof. destruct l as [|c l]; intros Hs; [by apply cstring_nil|]. by destruct (cstring_cons _ _ _ _ Hs). Qed.

(** Lexicographic order. *)
Fixpoint lex (a b : list Z) : comparison :=
  match a, b with
  | [], [] => Eq
  | [], _ :: _ => Lt
  | _ :: _, [] => Gt
  | x :: a, y :: b => match x ?= y with Eq => lex a b | c => c end
  end.
Lemma lex_eq a b : lex a b = Eq ↔ a = b.
Proof.
  revert b. induction a as [|x a IH]; intros [|y b]; cbn; try done.
  destruct (Z.compare_spec x y) as [->|Hlt|Hgt]; [rewrite IH; naive_solver| |]; (split; [done|]; intros [= -> ->]; lia).
Qed.

(** [strcmp] orders strings of bytes as a dictionary does, and changes nothing. *)
Theorem strcmp_orders m a b fuel p q :
  cstring m p a → cstring m q b → Forall is_byte a → Forall is_byte b → (length a < fuel)%nat →
  ∃ r, strcmp fuel p q m = Done (r, m) ∧ (r ?= 0) = lex a b.
Proof.
  revert b fuel p q. induction a as [|x a IH]; intros b [|fuel] p q Ha Hb Fa Fb Hf; try (cbn in Hf; lia); cbn [strcmp].
  - rewrite (bind_run _ _ _ _ _ (load_run _ _ _ (cstring_nil _ _ Ha))). cbn [Z.eqb].
    rewrite (bind_run _ _ _ _ _ (load_run _ _ _ (cstring_load _ _ _ Hb))). eexists. split; [done|].
    destruct b as [|y b]; cbn; [done|]. apply Forall_cons in Fb as [Hy _]. destruct (cstring_cons _ _ _ _ Hb) as (_ & Hy0 & _).
    unfold is_byte in Hy. apply Z.compare_lt_iff. lia.
  - destruct (cstring_cons _ _ _ _ Ha) as (Hx & Hx0 & Ha'). apply Forall_cons in Fa as [Bx Fa].
    rewrite (bind_run _ _ _ _ _ (load_run _ _ _ Hx)), (proj2 (Z.eqb_neq _ _) Hx0).
    rewrite (bind_run _ _ _ _ _ (load_run _ _ _ (cstring_load _ _ _ Hb))).
    destruct b as [|y b]; cbn [head default lex].
    + rewrite (proj2 (Z.eqb_neq _ _)) by (cbn; done). eexists. split; [done|]. unfold is_byte in Bx. apply Z.compare_gt_iff. cbn. lia.
    + apply Forall_cons in Fb as [By Fb]. destruct (cstring_cons _ _ _ _ Hb) as (_ & _ & Hb'). cbn [from_option id].
      destruct (Z.compare_spec x y) as [->|Hlt|Hgt].
      * rewrite Z.eqb_refl. apply IH; [done..|cbn in Hf; lia].
      * rewrite (proj2 (Z.eqb_neq _ _)) by lia. eexists. split; [done|]. apply Z.compare_lt_iff. lia.
      * rewrite (proj2 (Z.eqb_neq _ _)) by lia. eexists. split; [done|]. apply Z.compare_gt_iff. lia.
Qed.

(** [strchr] finds the first occurrence, or gives a null pointer. *)
Theorem strchr_finds m a fuel p c : cstring m p a → c ≠ 0 → (length a < fuel)%nat →
  strchr fuel p c m = Done (match list_find (λ x, x = c) a with Some (i, _) => p + Z.of_nat i | None => 0 end, m).
Proof.
  revert fuel p. induction a as [|x a IH]; intros [|fuel] p Ha Hc Hf; try (cbn in Hf; lia); cbn [strchr].
  - by rewrite (bind_run _ _ _ _ _ (load_run _ _ _ (cstring_nil _ _ Ha))).
  - destruct (cstring_cons _ _ _ _ Ha) as (Hx & Hx0 & Ha'). rewrite (bind_run _ _ _ _ _ (load_run _ _ _ Hx)), (proj2 (Z.eqb_neq _ _) Hx0).
    cbn [list_find]. destruct (Z.eqb_spec x c) as [->|Hne]; [rewrite decide_True by done; by rewrite Z.add_0_r|].
    rewrite decide_False by done. rewrite IH by (done || (cbn in Hf; lia)). destruct (list_find _ a) as [[i y]|]; cbn; do 2 f_equal. lia.
Qed.

(** [m] with the bytes [l] at [d]. *)
Definition written (d : Z) (l : list Z) (m : umemory) : umemory := λ q,
  if decide (d ≤ q < d + Z.of_nat (length l)) then l !! Z.to_nat (q - d) else m q.
Lemma written_cons d c l m q : written (d + 1) l (set_byte d c m) q = written d (c :: l) m q.
Proof.
  unfold written, set_byte. cbn [length]. destruct (decide (q = d)) as [->|Hq].
  - rewrite decide_False, decide_True by lia. by rewrite Z.sub_diag.
  - destruct (decide (d + 1 ≤ q < d + 1 + Z.of_nat (length l))).
    + rewrite decide_True by lia. by replace (Z.to_nat (q - d)) with (S (Z.to_nat (q - (d + 1)))) by lia.
    + by rewrite decide_False by lia.
Qed.
(** The area at [d] of the string at [s] with its zero: writable, and apart from it. *)
Definition room (m : umemory) (d s n : Z) : Prop := (∀ i, 0 ≤ i ≤ n → is_Some (m (d + i))) ∧ (d + n < s ∨ s + n < d).
Lemma cstring_apart m s d c l : cstring m s l → d < s ∨ s + Z.of_nat (length l) < d → cstring (set_byte d c m) s l.
Proof.
  intros [Hl H0] Hd. split; [|done]. intros i Hi. rewrite length_app in Hi. cbn in Hi. unfold set_byte. rewrite decide_False by lia.
  apply Hl. rewrite length_app. cbn. lia.
Qed.
Lemma strcpy_loop_run l fuel : ∀ m d s, cstring m s l → room m d s (Z.of_nat (length l)) → (length l < fuel)%nat →
  ∃ m', strcpy_loop fuel d s m = Done (d + Z.of_nat (length l), m') ∧ ∀ q, m' q = written d l m q.
Proof.
  revert fuel. induction l as [|c l IH]; intros [|fuel] m d s Hs [Hr Hd] Hf; try (cbn in Hf; lia); cbn [strcpy_loop].
  - rewrite (bind_run _ _ _ _ _ (load_run _ _ _ (cstring_nil _ _ Hs))). exists m. split; [cbn; by rewrite Z.add_0_r|].
    intros q. unfold written. by rewrite decide_False by (cbn; lia).
  - destruct (cstring_cons _ _ _ _ Hs) as (Hc & Hc0 & Hs'). cbn [length] in *.
    rewrite (bind_run _ _ _ _ _ (load_run _ _ _ Hc)), (proj2 (Z.eqb_neq _ _) Hc0).
    rewrite (bind_run _ _ _ tt (set_byte d c m)) by (apply store_run; rewrite <- (Z.add_0_r d); apply Hr; lia).
    destruct (IH fuel (set_byte d c m) (d + 1) (s + 1)) as (m' & E & Hm'); [apply cstring_apart; [done|lia]| |lia|].
    + split; [|lia]. intros i Hi. unfold set_byte. case_decide; [eauto|]. replace (d + 1 + i) with (d + (i + 1)) by lia. apply Hr. lia.
    + exists m'. rewrite E. split; [do 2 f_equal; lia|]. intros q. rewrite Hm'. apply written_cons.
Qed.
(** [strcpy] copies a string with its zero to an area apart from it. *)
Theorem strcpy_copies l fuel m dst src : cstring m src l → room m dst src (Z.of_nat (length l)) → (length l < fuel)%nat →
  ∃ m', strcpy fuel dst src m = Done (dst, m') ∧ cstring m' dst l ∧ ∀ q, m' q = written dst (l ++ [0]) m q.
Proof.
  intros Hs Hr Hf. destruct (strcpy_loop_run l fuel m dst src Hs Hr Hf) as (m1 & E & Hm1). unfold strcpy. rewrite (bind_run _ _ _ _ _ E).
  assert (is_Some (m1 (dst + Z.of_nat (length l)))) as Hend.
  { rewrite Hm1. unfold written. rewrite decide_False by lia. apply Hr. lia. }
  rewrite (bind_run _ _ _ _ _ (store_run _ _ 0 Hend)). eexists. split; [done|].
  assert (∀ q, set_byte (dst + Z.of_nat (length l)) 0 m1 q = written dst (l ++ [0]) m q) as Hw.
  { intros q. unfold set_byte. case_decide as Hq; [subst q|].
    - unfold written. rewrite length_app, decide_True by (cbn; lia). replace (Z.to_nat _) with (length l) by lia. rewrite lookup_app_r, Nat.sub_diag by done. done.
    - rewrite Hm1. unfold written. rewrite length_app. cbn [length]. repeat case_decide; try lia; [|done].
      by rewrite lookup_app_l by lia. }
  split; [|exact Hw]. split; [|apply Hs]. intros i Hi. rewrite Hw. unfold written. rewrite decide_True by lia. f_equal. lia.
Qed.

(** * Numbers and lines *)
Definition is_digit (c : Z) : bool := (48 <=? c) && (c <=? 57).
Definition dec_from (n : Z) (l : list Z) : Z := foldl (λ n c, n * 10 + (c - 48)) n l.

Lemma as_i32_mod x y : x `mod` 2 ^ 32 = y `mod` 2 ^ 32 → as_i32 x = as_i32 y.
Proof. unfold as_i32, wrap. by intros ->. Qed.
Lemma as_i32_id x : - 2 ^ 31 ≤ x < 2 ^ 31 → as_i32 x = x.
Proof.
  intros Hx. unfold as_i32, wrap. destruct (Z.ltb_spec (x `mod` 2 ^ 32) (2 ^ 31)); dlia.
Qed.
Lemma as_i32_cong x : as_i32 x `mod` 2 ^ 32 = x `mod` 2 ^ 32.
Proof. unfold as_i32, wrap. destruct (Z.ltb_spec (x `mod` 2 ^ 32) (2 ^ 31)); dlia. Qed.

Lemma atoi_loop_run m l c : ∀ fuel p n, at_bytes m p (l ++ [c]) → forallb is_digit l → is_digit c = false → (length l < fuel)%nat →
  atoi_loop fuel p (as_i32 n) m = Done (as_i32 (dec_from n l), m).
Proof.
  induction l as [|x l IH]; intros [|fuel] p n Hp Hl Hc Hf; try (cbn in Hf; lia); apply at_cons in Hp as [Hx Hp];
    cbn [atoi_loop]; rewrite (bind_run _ _ _ _ _ (load_run _ _ _ Hx)).
  - fold (is_digit c). by rewrite Hc.
  - cbn [forallb] in Hl. apply andb_prop_elim in Hl as [Hd Hl]. fold (is_digit x). destruct (is_digit x); [|done].
    cbn [dec_from foldl]. rewrite <- (IH fuel (p + 1) _ Hp Hl Hc) by (cbn in Hf; lia). f_equal. apply as_i32_mod.
    rewrite Z.add_mod, Z.mul_mod, as_i32_cong, <- Z.mul_mod, <- Z.add_mod by lia. done.
Qed.
(** [atoi] reads the number that the leading digits write, reduced to 32
    bits; a number below [2^31] comes out as it is. *)
Theorem atoi_value m l c fuel s : at_bytes m s (l ++ [c]) → forallb is_digit l → is_digit c = false → (length l < fuel)%nat →
  atoi fuel s m = Done (as_i32 (dec_from 0 l), m) ∧ (0 ≤ dec_from 0 l < 2 ^ 31 → as_i32 (dec_from 0 l) = dec_from 0 l).
Proof.
  intros Hs Hl Hc Hf. split; [|intros; apply as_i32_id; lia]. unfold atoi. change 0 with (as_i32 0) at 1. by apply (atoi_loop_run m l c).
Qed.

(** The line that [gets] takes: up to a new line, at most [n] bytes. *)
Definition is_eol (c : Z) : bool := (c =? 10) || (c =? 13).
Fixpoint line (n : nat) (inp : list Z) : list Z :=
  match n, inp with
  | S n, c :: inp => c :: if is_eol c then [] else line n inp
  | _, _ => []
  end.
Lemma gets_loop_run n : ∀ fuel buf max i m inp, 0 ≤ i → Z.of_nat n = Z.max 0 (max - 1 - i) → (n < fuel)%nat →
  (∀ j, i ≤ j < i + Z.of_nat n → is_Some (m (buf + j))) →
  let l := line n inp in
  ∃ m', gets_loop fuel buf max i (m, inp) = Done (i + Z.of_nat (length l), (m', drop (length l) inp)) ∧ ∀ q, m' q = written (buf + i) l m q.
Proof.
  assert (∀ b (m : umemory) q, m q = written b [] m q) as Hw0 by (intros b m q; unfold written; by rewrite decide_False by (cbn; lia)).
  induction n as [|n IH]; intros [|fuel] buf max i m inp Hi Hn Hf Hr l; try lia; cbn [gets_loop].
  { rewrite (proj2 (Z.ltb_ge _ _)) by lia. exists m. cbn. by rewrite Z.add_0_r. }
  rewrite (proj2 (Z.ltb_lt _ _)) by lia. destruct inp as [|c inp]; cbn [line] in l.
  { exists m. cbn. by rewrite Z.add_0_r. }
  unfold l. clear l. cbn [length drop]. unfold mbind, M_bind, read1, on_umem. cbn [fst snd].
  rewrite store_run by (apply Hr; lia). fold (is_eol c). destruct (is_eol c).
  - eexists. split; [done|]. intros q. rewrite <- written_cons. unfold written. by rewrite decide_False by (cbn; lia).
  - destruct (IH fuel buf max (i + 1) (set_byte (buf + i) c m) inp) as (m' & E & Hm'); [lia|lia|lia| |].
    { intros j Hj. unfold set_byte. case_decide; [eauto|]. apply Hr. lia. }
    exists m'. split; [etransitivity; [exact E|]; do 2 f_equal; lia|]. intros q. rewrite Hm'.
    replace (buf + (i + 1)) with (buf + i + 1) by lia. apply written_cons.
Qed.
(** [gets] stores the line with a zero behind it in a buffer of [max] bytes and
    leaves the rest of the input; for [max = 0] it still writes a byte. *)
Theorem gets_reads fuel buf max m inp : let n := Z.to_nat (max - 1) in
  (∀ j, 0 ≤ j ≤ Z.of_nat n → is_Some (m (buf + j))) → (n < fuel)%nat →
  ∃ m', gets_line fuel buf max (m, inp) = Done (buf, (m', drop (length (line n inp)) inp)) ∧
    ∀ q, m' q = written buf (line n inp ++ [0]) m q.
Proof.
  intros n Hr Hf. destruct (gets_loop_run n fuel buf max 0 m inp) as (m1 & E & Hm1); [done|lia|done|intros; apply Hr; lia|].
  assert (length (line n inp) ≤ n)%nat as Hl.
  { clear. revert inp. induction n as [|n IH]; intros [|c inp]; cbn; try lia. destruct (is_eol c); [cbn; lia|]. specialize (IH inp). lia. }
  unfold gets_line. rewrite (bind_run _ _ _ _ _ E). set (l := line n inp) in *. clearbody l.
  unfold mbind, M_bind, on_umem. cbn [fst snd]. rewrite store_run.
  2: { rewrite Hm1. unfold written. case_decide; [lia|]. apply Hr. lia. }
  eexists. split; [done|]. intros q. rewrite Z.add_0_l, Z.add_0_r in *. unfold set_byte. case_decide as Hq; [subst q|].
  - unfold written. rewrite length_app, decide_True by (cbn; lia). replace (Z.to_nat _) with (length l) by lia. by rewrite lookup_app_r, Nat.sub_diag.
  - rewrite Hm1. unfold written. rewrite length_app. cbn [length]. repeat case_decide; try lia; [|done]. by rewrite lookup_app_l by lia.
Qed.

(** * System calls *)
(** A negative [i32] or [isize] in a register comes back, and an [i32] that the
    kernel takes from it too. *)
Lemma arg_i32_back x : - 2 ^ 31 ≤ x < 2 ^ 31 → as_i32 (as_usize x) = x.
Proof.
  intros Hx. rewrite <- (as_i32_id x Hx) at 2. apply as_i32_mod. unfold as_usize, wrap. dlia.
Qed.

#[export] Instance sysno_eq_dec : EqDecision sysno.
Proof. solve_decision. Defined.
(** Every call of the library with the function of the kernel that has its name. *)
Definition library_calls (a b c : Z) : list (ecall * sysno) := [
  (u_fork, Sys_fork); (u_exit a, Sys_exit); (u_wait a, Sys_wait); (u_pipe a, Sys_pipe); (u_read a b c, Sys_read);
  (u_kill a, Sys_kill); (u_exec a b, Sys_exec); (u_fstat a b, Sys_fstat); (u_chdir a, Sys_chdir); (u_dup a, Sys_dup);
  (u_getpid, Sys_getpid); (u_sbrk a, Sys_sbrk); (u_sleep a, Sys_sleep); (u_uptime, Sys_uptime); (u_open a b, Sys_open);
  (u_write a b c, Sys_write); (u_mknod a b c, Sys_mknod); (u_unlink a, Sys_unlink); (u_link a b, Sys_link);
  (u_mkdir a, Sys_mkdir); (u_close a, Sys_close); (u_getmtime, Sys_getmtime); (u_waitpid a b, Sys_waitpid)].
Definition reaches (p : ecall * sysno) : bool :=
  match syscall_of (number p.1) with Some n => bool_decide (n = p.2) | None => false end.
(** The numbers that the user library loads into [a7] are the kernel's:
    whatever the arguments, each call is dispatched to the function of its name,
    but for [get_mtime] and [waitpid], which run [setpri] and [getpri], because
    earlier arms of the kernel take 22 and 23; and an [i32] argument arrives as
    it was passed, a negative one too. *)
Theorem user_calls_dispatch a b c :
  filter (λ p, ¬ reaches p) (library_calls a b c) = [(u_getmtime, Sys_getmtime); (u_waitpid a b, Sys_waitpid)] ∧
  syscall_of (number u_getmtime) = Some Sys_setpri ∧ syscall_of (number (u_waitpid a b)) = Some Sys_getpri ∧
  (- 2 ^ 31 ≤ a < 2 ^ 31 → as_i32 <$> head (args (u_exit a)) = Some a ∧ as_i32 <$> head (args (u_kill a)) = Some a ∧
    as_i32 <$> head (args (u_sbrk a)) = Some a).
Proof.
  split; [reflexivity|]. split; [reflexivity|]. split; [reflexivity|]. intros Ha. cbn [args u_exit u_kill u_sbrk call1 head fmap option_fmap option_map].
  by rewrite arg_i32_back.
Qed.

(** * What [fstat] tells *)
Definition file_type (t : InodeType) : FileT :=
  match t with Empty => TNONE | Directory => TDIR | Block.File => TFILE | Block.Device => TDEVICE end.
(** The program reads in a [Stat] what the kernel wrote of a [FileStat]: the two
    layouts agree, whatever is in the padding. *)
Theorem fstat_roundtrip pad st old sys :
  length pad = 4%nat → 0 ≤ st_dev st < 2 ^ 31 → is_u32 (st_inum st) → 0 ≤ st_nlink st < 2 ^ 16 → 0 ≤ st_size st < 2 ^ 64 →
  sys (replicate STATC_SIZE 0) = (0, stat_bytes pad st) →
  file_fstat sys old = (0, {| dev := st_dev st; ino := st_inum st; ftype := file_type (st_itype st); nlink := st_nlink st; size := st_size st |}).
Proof.
  intros Hpad Hd Hi Hn Hs E. unfold file_fstat. rewrite E. cbn [Z.eqb]. f_equal. unfold stat_of_c, stat_bytes.
  rewrite read_le_app_here, (read_le_app_there 4 4 _ _ 0), read_le_app_here.
  rewrite (read_le_app_there 2 4 _ _ 4), (read_le_app_there 2 4 _ _ 0), read_le_app_here.
  rewrite (read_le_app_there 2 4 _ _ 6), (read_le_app_there 2 4 _ _ 2), (read_le_app_there 2 2 _ _ 0), read_le_app_here.
  rewrite (read_le_app_there 8 4 _ _ 12), (read_le_app_there 8 4 _ _ 8), (read_le_app_there 8 2 _ _ 6), (read_le_app_there 8 2 _ _ 4).
  assert (read_le 8 (pad ++ le_bytes 8 (st_size st)) 4 = st_size st) as ->.
  { unfold read_le. rewrite drop_app_length' by done. rewrite take_ge by (by rewrite length_le_bytes).
    rewrite le_val_le_bytes. by apply Z.mod_small. }
  unfold is_u32 in Hi. rewrite !(Z.mod_small _ (256 ^ Z.of_nat 4)) by lia. rewrite (Z.mod_small (st_nlink st)) by lia.
  rewrite as_i32_id by lia. f_equal. by destruct (st_itype st).
Qed.

(** * At concrete memories *)
Definition ten : umemory := λ q, if decide (0 ≤ q < 10) then Some (100 + q) else None.
Lemma memmove_moves_witness : ∃ m', memmove 2 0 5 ten = Done (2, m') ∧ m' 6 = Some 104 ∧ m' 7 = Some 107.
Proof.
  destruct (memmove_moves 2 0 5 ten) as (m' & E & Hm).
  - intros i Hi. unfold ten. rewrite !decide_True by lia. eauto.
  - exists m'. split; [exact E|]. split; [exact (Hm 6)|exact (Hm 7)].
Defined.

