(* ===== verification/World.v ===== *)
(** * Processes and their system calls, as user programs see them

    What the kernel promises to a program that forks, pipes and waits: each
    process has a descriptor table, pipes are bounded queues of bytes, and a
    call that must wait is a call that no turn serves yet.  One turn serves one
    call of one process; a write into a full pipe takes several.  [Files],
    [Pipe] and [Proc] model how the kernel does it: the descriptors are given
    out by the same [free_fds], and [Pipe.read_turn_run] and
    [Pipe.write_turn_run] describe its turns on a pipe in the same terms, as
    bytes taken from the front of a queue and added at its end.  A process is
    named by the order of creation; the console takes what is written and has no
    input.

    Turns of different processes that do not compete for the same thing commute
    ([apply_comm]), and when all of them do, all runs have the same length and
    the same end ([same_end]). *)
From S2P Require Import Prelude Consts Proc.

Inductive fdesc := Tty | Rd (p : nat) | Wr (p : nat).
#[export] Instance fdesc_eq_dec : EqDecision fdesc.
Proof. solve_decision. Defined.
Inductive syscall :=
| CPipe | CFork | CClose (fd : Z) | CRead (fd : Z) (n : nat) | CWrite (fd : Z) (bs : list Z) | CWait | CExit.
Inductive answer := AInt (r : Z) | APipe (r w : Z) | ABytes (bs : list Z).
Inductive life := Alive | Zombie | Reaped.
#[export] Instance life_eq_dec : EqDecision life.
Proof. solve_decision. Defined.

(** Bytes taken from or put into a pipe. *)
Inductive io := Take (n : nat) | Put (bs : list Z).
Definition do_io (x : io) (b : list Z) : list Z := match x with Take n => drop n b | Put bs => b ++ bs end.
Definition do_flow (o : option (nat * io)) (qs : list (list Z)) : list (list Z) :=
  match o with Some (q, x) => alter (do_io x) q qs | None => qs end.
Definition alter_opt {A} (f : A → A) (o : option nat) (l : list A) : list A :=
  match o with Some k => alter f k l | None => l end.

Section world.
Context {L : Type} (call : L → option syscall) (resume : L → answer → L).

Record uproc := { code : L; fdt : list (option fdesc); parent : option nat; alive : life; sent : nat }.
Record world := { uprocs : list uproc; pipes : list (list Z); tty : list Z }.

Definition goes_on (p : uproc) (a : answer) : uproc :=
  {| code := resume (code p) a; fdt := fdt p; parent := parent p; alive := alive p; sent := 0 |}.
Definition with_fdt (t : list (option fdesc)) (p : uproc) : uproc :=
  {| code := code p; fdt := t; parent := parent p; alive := alive p; sent := sent p |}.
Definition with_parent (o : option nat) (p : uproc) : uproc :=
  {| code := code p; fdt := fdt p; parent := o; alive := alive p; sent := sent p |}.
Definition with_alive (x : life) (p : uproc) : uproc :=
  {| code := code p; fdt := fdt p; parent := parent p; alive := x; sent := sent p |}.
Definition with_sent (n : nat) (p : uproc) : uproc :=
  {| code := code p; fdt := fdt p; parent := parent p; alive := alive p; sent := n |}.
Definition reaped (p : uproc) : uproc := with_parent None (with_alive Reaped p).
Definition orphan (i : nat) (p : uproc) : uproc := if decide (parent p = Some i) then with_parent None p else p.

(** What one turn does to the world: the process itself, a child it reaps, its
    orphans, a child born, bytes through a pipe, a new pipe, bytes written to the
    console. *)
Record change := {
  own : uproc; reap : option nat; orphans : bool; born : list uproc;
  flow : option (nat * io); fresh : bool; said : list Z;
}.
Definition only (p : uproc) : change :=
  {| own := p; reap := None; orphans := false; born := []; flow := None; fresh := false; said := [] |}.

Definition apply (i : nat) (c : change) (w : world) : world :=
  let ps := <[i := own c]> (uprocs w) in
  let ps := alter_opt reaped (reap c) ps in
  let ps := if orphans c then orphan i <$> ps else ps in
  {| uprocs := ps ++ born c; pipes := do_flow (flow c) (pipes w) ++ (if fresh c then [[]] else []); tty := tty w ++ said c |}.

Definition fd_at (p : uproc) (fd : Z) : option fdesc :=
  if (0 <=? fd) && (fd <? Z.of_nat NFILE) then default None (fdt p !! Z.to_nat fd) else None.
Definition has (d : fdesc) (w : world) : bool := existsb (λ p, bool_decide (Some d ∈ fdt p)) (uprocs w).
Definition is_zombie_of (i : nat) (p : uproc) : bool := bool_decide (parent p = Some i ∧ alive p = Zombie).
Definition has_child (i : nat) (w : world) : bool := existsb (λ p, bool_decide (parent p = Some i)) (uprocs w).

Definition serve_pipe (w : world) (p : uproc) : change :=
  match take 2 (free_fds (fdt p) 0) with
  | [a; b] =>
      let q := length (pipes w) in
      {| own := with_fdt (<[b := Some (Wr q)]> (<[a := Some (Rd q)]> (fdt p))) (goes_on p (APipe (Z.of_nat a) (Z.of_nat b)));
         reap := None; orphans := false; born := []; flow := None; fresh := true; said := [] |}
  | _ => only (goes_on p (AInt (-1)))
  end.
Definition serve_fork (i : nat) (w : world) (p : uproc) : change :=
  {| own := goes_on p (AInt (Z.of_nat (length (uprocs w)))); reap := None; orphans := false;
     born := [{| code := resume (code p) (AInt 0); fdt := fdt p; parent := Some i; alive := Alive; sent := 0 |}];
     flow := None; fresh := false; said := [] |}.
Definition serve_close (p : uproc) (fd : Z) : change :=
  match fd_at p fd with
  | Some _ => only (with_fdt (<[Z.to_nat fd := None]> (fdt p)) (goes_on p (AInt 0)))
  | None => only (goes_on p (AInt (-1)))
  end.
Definition serve_read (w : world) (p : uproc) (fd : Z) (n : nat) : option change :=
  match fd_at p fd with
  | Some (Rd q) =>
      match pipes w !! q with
      | Some [] => if has (Wr q) w then None else Some (only (goes_on p (ABytes [])))
      | Some bs => Some {| own := goes_on p (ABytes (take n bs)); reap := None; orphans := false; born := [];
                           flow := Some (q, Take n); fresh := false; said := [] |}
      | None => None
      end
  | Some Tty => None
  | _ => Some (only (goes_on p (AInt (-1))))
  end.
Definition serve_write (w : world) (p : uproc) (fd : Z) (bs : list Z) : option change :=
  match fd_at p fd with
  | Some (Wr q) =>
      buf ← pipes w !! q;
      let rest := drop (sent p) bs in
      let room := (PIPESIZE - length buf)%nat in
      if bool_decide (rest = []) then Some (only (goes_on p (AInt (Z.of_nat (length bs)))))
      else if negb (has (Rd q) w) then Some (only (goes_on p (AInt (-1))))
      else if (length rest <=? room)%nat then
        Some {| own := goes_on p (AInt (Z.of_nat (length bs))); reap := None; orphans := false; born := [];
                flow := Some (q, Put rest); fresh := false; said := [] |}
      else if (room =? 0)%nat then None
      else
        Some {| own := with_sent (sent p + room) p; reap := None; orphans := false; born := [];
                flow := Some (q, Put (take room rest)); fresh := false; said := [] |}
  | Some Tty =>
      Some {| own := goes_on p (AInt (Z.of_nat (length bs))); reap := None; orphans := false; born := [];
              flow := None; fresh := false; said := bs |}
  | _ => Some (only (goes_on p (AInt (-1))))
  end.
Definition serve_wait (i : nat) (w : world) (p : uproc) : option change :=
  match list_find (is_zombie_of i) (uprocs w) with
  | Some (k, _) =>
      Some {| own := goes_on p (AInt (Z.of_nat k)); reap := Some k; orphans := false; born := [];
              flow := None; fresh := false; said := [] |}
  | None => if has_child i w then None else Some (only (goes_on p (AInt (-1))))
  end.
Definition serve_exit (p : uproc) : change :=
  {| own := with_alive Zombie (with_fdt (replicate NFILE None) p); reap := None; orphans := true; born := [];
     flow := None; fresh := false; said := [] |}.

Definition dispatch (i : nat) (w : world) (p : uproc) (x : syscall) : option change :=
  match x with
  | CPipe => Some (serve_pipe w p)
  | CFork => Some (serve_fork i w p)
  | CClose fd => Some (serve_close p fd)
  | CRead fd n => serve_read w p fd n
  | CWrite fd bs => serve_write w p fd bs
  | CWait => serve_wait i w p
  | CExit => Some (serve_exit p)
  end.
Definition serve (i : nat) (w : world) : option change :=
  p ← uprocs w !! i;
  if decide (alive p = Alive) then x ← call (code p); dispatch i w p x else None.
(** One turn of process [i], when there is one. *)
Definition turn (i : nat) (w : world) : option world := (λ c, apply i c w) <$> serve i w.
(** A run under a schedule, and one that always gives the turn to the first
    process that can take it. *)
Fixpoint run (sched : list nat) (w : world) : option world :=
  match sched with [] => Some w | i :: sched => turn i w ≫= run sched end.
Definition stuck (w : world) : bool := forallb (λ i, bool_decide (turn i w = None)) (seq 0 (length (uprocs w))).

(** ** Turns that do not compete commute *)
Lemma fmap_fixed {A} (f : A → A) (l : list A) : (∀ x, x ∈ l → f x = x) → f <$> l = l.
Proof. induction l as [|x l IH]; [done|]. intros H. cbn. rewrite IH by (intros; apply H; by right). by rewrite H by left. Qed.
Lemma apply_orphans i c w : (∀ p, p ∈ uprocs w → parent p ≠ Some i) → parent (own c) ≠ Some i →
  apply i c w = apply i {| own := own c; reap := reap c; orphans := false; born := born c; flow := flow c; fresh := fresh c; said := said c |} w.
Proof.
  intros H1 H2. unfold apply. cbn. f_equal. destruct (orphans c); [|done]. f_equal.
  apply fmap_fixed. intros p [k E]%list_elem_of_lookup. unfold orphan. rewrite decide_False; [done|].
  assert (∀ k p, (<[i := own c]> (uprocs w)) !! k = Some p → parent p ≠ Some i) as H.
  { intros k' p' E'. destruct (decide (i = k')) as [->|Hk].
    - apply list_lookup_insert_Some in E' as [(_ & <- & _)|[[] _]]; done.
    - rewrite list_lookup_insert_ne in E' by done. eapply H1, list_elem_of_lookup_2, E'. }
  destruct (reap c) as [r|]; cbn in E; [|by eapply H].
  destruct (decide (r = k)) as [->|Hr].
  - rewrite list_lookup_alter_eq in E. destruct (<[i := own c]> _ !! k); [|done]. injection E as <-. done.
  - rewrite list_lookup_alter_ne in E by done. by eapply H.
Qed.

Lemma list_alter_comm {A} (f g : A → A) i j (l : list A) : i ≠ j → alter f i (alter g j l) = alter g j (alter f i l).
Proof.
  intros Hij. apply list_eq. intros m. destruct (decide (i = m)) as [->|Hi].
  - rewrite list_lookup_alter_eq, !(list_lookup_alter_ne g) by done. by rewrite list_lookup_alter_eq.
  - rewrite !(list_lookup_alter_ne f) by done. destruct (decide (j = m)) as [->|Hj].
    + by rewrite !list_lookup_alter_eq, list_lookup_alter_ne.
    + by rewrite !(list_lookup_alter_ne g), list_lookup_alter_ne.
Qed.
Lemma list_alter_app_l {A} (f : A → A) i (l k : list A) : (i < length l)%nat → alter f i (l ++ k) = alter f i l ++ k.
Proof.
  intros Hi. apply lookup_lt_is_Some in Hi as [x Hx].
  rewrite (alter_as_insert f i l x Hx), (alter_as_insert f i (l ++ k) x) by by apply lookup_app_l_Some.
  apply insert_app_l. by eapply lookup_lt_Some.
Qed.
Lemma length_alter_opt {A} (f : A → A) o l : length (alter_opt f o l) = length l.
Proof. destruct o; [apply length_alter|done]. Qed.
Lemma alter_opt_app {A} (f : A → A) o l k : (∀ i, o = Some i → (i < length l)%nat) → alter_opt f o (l ++ k) = alter_opt f o l ++ k.
Proof. destruct o as [i|]; [|done]. intros H. by apply list_alter_app_l, H. Qed.
Lemma alter_opt_comm {A} (f : A → A) o1 o2 (l : list A) : alter_opt f o1 (alter_opt f o2 l) = alter_opt f o2 (alter_opt f o1 l).
Proof. destruct o1 as [i|], o2 as [j|]; try done. destruct (decide (i = j)) as [->|]; [done|]. by apply list_alter_comm. Qed.
Lemma alter_opt_insert {A} (f : A → A) o i x (l : list A) : o ≠ Some i → alter_opt f o (<[i := x]> l) = <[i := x]> (alter_opt f o l).
Proof.
  destruct o as [k|]; [|done]. intros Hk. cbn. apply list_eq. intros m. destruct (decide (k = m)) as [->|Hm].
  - rewrite list_lookup_alter_eq. rewrite !list_lookup_insert_ne by congruence. by rewrite list_lookup_alter_eq.
  - rewrite list_lookup_alter_ne by done. destruct (decide (i = m)) as [->|Hi].
    + destruct (decide (m < length l)%nat).
      * rewrite !list_lookup_insert_eq; [done|rewrite length_alter; lia|lia].
      * rewrite !lookup_ge_None_2; [done|rewrite length_insert, length_alter; lia|rewrite length_insert; lia].
    + rewrite !list_lookup_insert_ne by done. by rewrite list_lookup_alter_ne.
Qed.

Lemma length_do_flow o qs : length (do_flow o qs) = length qs.
Proof. destruct o as [[q x]|]; [apply length_alter|done]. Qed.
Lemma do_flow_app o qs k : (∀ q x, o = Some (q, x) → (q < length qs)%nat) → do_flow o (qs ++ k) = do_flow o qs ++ k.
Proof. destruct o as [[q x]|]; [|done]. intros H. by eapply list_alter_app_l, H. Qed.

Lemma apply_comm i j ci cj w :
  i ≠ j → (i < length (uprocs w))%nat → (j < length (uprocs w))%nat → orphans ci = false → orphans cj = false →
  (∀ k, reap ci = Some k ∨ reap cj = Some k → (k < length (uprocs w))%nat ∧ k ≠ i ∧ k ≠ j) →
  born ci = [] ∨ born cj = [] → fresh ci = false ∨ fresh cj = false → said ci = [] ∨ said cj = [] →
  (∀ q x, flow ci = Some (q, x) ∨ flow cj = Some (q, x) → (q < length (pipes w))%nat) →
  (∀ q x y b, flow ci = Some (q, x) → flow cj = Some (q, y) → pipes w !! q = Some b → do_io x (do_io y b) = do_io y (do_io x b)) →
  apply j cj (apply i ci w) = apply i ci (apply j cj w).
Proof.
  intros Hij Hi Hj Oi Oj Hr Hb Hf Hs Hq Hflow. unfold apply. cbn. rewrite Oi, Oj. f_equal.
  - assert (∀ k, reap ci = Some k ∨ reap cj = Some k → k < length (uprocs w))%nat as Hr' by (intros k Hk; by apply Hr).
    rewrite !insert_app_l, !alter_opt_app by (rewrite ?length_insert, ?length_alter_opt, ?length_insert; try lia; intros; apply Hr'; tauto).
    rewrite <- !app_assoc. f_equal; [|destruct Hb as [-> | ->]; by rewrite ?app_nil_r].
    rewrite !alter_opt_insert, (list_insert_insert_ne _ i j) by (intros ?; unshelve edestruct Hr as (? & ? & ?); [..|eauto|]; done).
    by rewrite alter_opt_comm.
  - rewrite !do_flow_app by (intros; rewrite ?length_do_flow; eapply Hq; eauto). rewrite <- !app_assoc.
    f_equal; [|destruct Hf as [-> | ->]; by rewrite ?app_nil_r].
    unfold do_flow. destruct (flow ci) as [[q x]|] eqn:Ei, (flow cj) as [[q' y]|] eqn:Ej; try done.
    destruct (decide (q' = q)) as [->|Hne]; [|by apply list_alter_comm].
    apply list_eq. intros m. destruct (decide (q = m)) as [->|Hm].
    + rewrite !list_lookup_alter_eq. destruct (pipes w !! m) as [b|] eqn:E; [|done]. cbn. f_equal. symmetry. by apply (Hflow m).
    + by rewrite !list_lookup_alter_ne.
  - rewrite <- !app_assoc. f_equal. destruct Hs as [-> | ->]; by rewrite ?app_nil_r.
Qed.

(** What a turn of another process may change without changing the turn that
    process [i] takes. *)
Definition undisturbed (i : nat) (p : uproc) (w w' : world) : Prop :=
  match call (code p) with
  | Some CPipe => length (pipes w') = length (pipes w)
  | Some CFork => length (uprocs w') = length (uprocs w)
  | Some (CRead fd n) => ∀ q, fd_at p fd = Some (Rd q) → ∃ b ext, pipes w !! q = Some b ∧ pipes w' !! q = Some (b ++ ext) ∧
      if decide (b = []) then has (Wr q) w = false → ext = [] ∧ has (Wr q) w' = false else (n ≤ length b)%nat
  | Some (CWrite fd bs) => ∀ q, fd_at p fd = Some (Wr q) → sent p = 0%nat ∧ bs ≠ [] ∧
      ∀ v, v = w ∨ v = w' → has (Rd q) v = true ∧ ∃ b, pipes v !! q = Some b ∧ (length b + length bs ≤ PIPESIZE)%nat
  | Some CWait => list_find (is_zombie_of i) (uprocs w') = list_find (is_zombie_of i) (uprocs w) ∧ has_child i w' = has_child i w
  | _ => True
  end.
Lemma serve_stable i p w w' c : uprocs w !! i = Some p → uprocs w' !! i = Some p → undisturbed i p w w' → serve i w = Some c → serve i w' = Some c.
Proof.
  intros E E'. unfold serve, undisturbed. rewrite E, E'. cbn. destruct (decide _); [|done].
  destruct (call (code p)) as [[]|]; try done; cbn; intros H.
  - unfold serve_pipe. by rewrite H.
  - unfold serve_fork. by rewrite H.
  - unfold serve_read. destruct (fd_at p fd) as [[|q|q]|]; try done. destruct (H q eq_refl) as (b & ext & -> & -> & Hb).
    destruct (decide (b = [])) as [->|Hne] in Hb.
    + destruct (has (Wr q) w); [done|]. destruct (Hb eq_refl) as [-> ->]. done.
    + destruct b as [|x b]; [done|]. cbn [app]. rewrite app_comm_cons, take_app_le by done. done.
  - unfold serve_write. destruct (fd_at p fd) as [[|q|q]|]; try done. destruct (H q eq_refl) as (Hz & Hbs & Hv).
    destruct (Hv w (or_introl eq_refl)) as (H1 & b1 & B1 & L1). destruct (Hv w' (or_intror eq_refl)) as (H2 & b2 & B2 & L2).
    rewrite B1, B2, Hz, H1, H2. cbn -[PIPESIZE]. rewrite drop_0. rewrite bool_decide_false by done.
    destruct (Nat.leb_spec (length bs) (PIPESIZE - length b1)); [|lia]. destruct (Nat.leb_spec (length bs) (PIPESIZE - length b2)); [done|lia].
  - unfold serve_wait. destruct H as [-> ->]. done.
Qed.

(** Nobody becomes a holder of a pipe that is already there. *)
Lemma has_true d w : has d w = true ↔ ∃ k p, uprocs w !! k = Some p ∧ Some d ∈ fdt p.
Proof.
  unfold has. rewrite existsb_exists. split.
  - intros (p & [k Hk]%list_elem_of_In%list_elem_of_lookup & Hd%bool_decide_eq_true). eauto.
  - intros (k & p & E & Hd). exists p. split; [eapply list_elem_of_In, list_elem_of_lookup_2, E|by apply bool_decide_eq_true].
Qed.
Lemma in_insert {A} (t : list A) k x y : y ∈ <[k := x]> t → y = x ∨ y ∈ t.
Proof.
  intros [m [(-> & -> & _)|[_ E]]%list_lookup_insert_Some]%list_elem_of_lookup; [by left|right; by eapply list_elem_of_lookup_2].
Qed.
Definition holds_of (q : nat) (d : fdesc) : Prop := d = Rd q ∨ d = Wr q.
(** The descriptors a turn gives out. *)
Lemma serve_fds i w c p : uprocs w !! i = Some p → serve i w = Some c →
  (∀ d, Some d ∈ fdt (own c) → Some d ∈ fdt p ∨ (fresh c = true ∧ (d = Rd (length (pipes w)) ∨ d = Wr (length (pipes w))))) ∧
  ∀ b, b ∈ born c → fdt b = fdt p.
Proof.
  intros E. unfold serve. rewrite E. cbn. destruct (decide _); [|done]. destruct (call (code p)) as [[]|]; cbn; try done.
  - intros [= <-]. unfold serve_pipe. destruct (take 2 _) as [|x [|y []]]; cbn; (split; [|set_solver]); try tauto.
    intros d [[= ->]|[[= ->]|]%in_insert]%in_insert; auto.
  - intros [= <-]. cbn. split; [tauto|]. by intros b ->%list_elem_of_singleton.
  - intros [= <-]. unfold serve_close. destruct (fd_at p fd); cbn; (split; [|set_solver]); [|tauto].
    intros d' [?|]%in_insert; [done|tauto].
  - unfold serve_read. destruct (fd_at p fd) as [[|q|q]|]; try (intros [= <-]; cbn; split; [tauto|set_solver]); [done|].
    destruct (pipes w !! q) as [[|]|]; [|intros [= <-]; cbn; split; [tauto|set_solver]|done].
    destruct (has _ _); [done|]. intros [= <-]; cbn; split; [tauto|set_solver].
  - unfold serve_write. destruct (fd_at p fd) as [[|q|q]|]; try (intros [= <-]; cbn; split; [tauto|set_solver]).
    destruct (pipes w !! q) as [b|]; [|done]. cbn. repeat case_match; try done; intros [= <-]; cbn; (split; [tauto|set_solver]).
  - unfold serve_wait. repeat case_match; try done; intros [= <-]; cbn; (split; [tauto|set_solver]).
  - intros [= <-]. split; [|cbn; set_solver]. intros d Hd. left. by apply elem_of_replicate_inv in Hd.
Qed.

(** Where the descriptor tables after a turn come from. *)
Lemma apply_fdt i c w k p' : uprocs (apply i c w) !! k = Some p' →
  fdt p' = fdt (own c) ∨ (∃ p, uprocs w !! k = Some p ∧ fdt p' = fdt p) ∨ ∃ b, b ∈ born c ∧ fdt p' = fdt b.
Proof.
  unfold apply. cbn. intros [E|[_ E]]%lookup_app_Some; [|right; right; exists p'; split; [by eapply list_elem_of_lookup_2|done]].
  set (ps := alter_opt reaped (reap c) (<[i := own c]> (uprocs w))) in *.
  assert (∀ x, ps !! k = Some x → fdt x = fdt (own c) ∨ ∃ p, uprocs w !! k = Some p ∧ fdt x = fdt p) as H.
  { intros x Hx. assert (∃ y, <[i := own c]> (uprocs w) !! k = Some y ∧ fdt x = fdt y) as (y & Hy & ->).
    { subst ps. destruct (reap c) as [r|]; cbn in Hx; [|eauto]. destruct (decide (r = k)) as [->|Hr].
      - rewrite list_lookup_alter_eq in Hx. destruct (<[i := _]> _ !! k) as [y|]; [|done]. injection Hx as <-. by exists y.
      - rewrite list_lookup_alter_ne in Hx by done. eauto. }
    apply list_lookup_insert_Some in Hy as [(_ & <- & _)|[_ Hy]]; eauto. }
  destruct (orphans c); [|destruct (H _ E); auto].
  rewrite list_lookup_fmap in E. destruct (ps !! k) as [x|] eqn:Ex; [|done]. injection E as <-.
  assert (fdt (orphan i x) = fdt x) as -> by (unfold orphan; by destruct (decide _)). destruct (H x eq_refl); auto.
Qed.
Lemma serve_alive i w c : serve i w = Some c → ∃ p, uprocs w !! i = Some p ∧ alive p = Alive.
Proof. unfold serve. destruct (uprocs w !! i) as [p|]; [|done]. cbn. destruct (decide _); [eauto|done]. Qed.
Lemma has_apply i c w d : serve i w = Some c → has d (apply i c w) = true →
  has d w = true ∨ (fresh c = true ∧ (d = Rd (length (pipes w)) ∨ d = Wr (length (pipes w)))).
Proof.
  intros Hs (k & p' & E & Hd)%has_true. destruct (serve_alive _ _ _ Hs) as (p & Ep & _).
  destruct (serve_fds i w c p Ep Hs) as [Hown Hborn]. destruct (apply_fdt _ _ _ _ _ E) as [Ef|[(p0 & E0 & Ef)|(b & Hb & Ef)]]; rewrite Ef in Hd.
  - destruct (Hown _ Hd); [left|by right]. apply has_true; eauto.
  - left. apply has_true; eauto.
  - rewrite (Hborn b Hb) in Hd. left. apply has_true; eauto.
Qed.
Definition valid (w : world) : Prop := ∀ q d, holds_of q d → has d w = true → (q < length (pipes w))%nat.
Lemma valid_turn i w c : valid w → serve i w = Some c → valid (apply i c w).
Proof.
  intros Hv Hs q d Hq Hd. destruct (has_apply _ _ _ _ Hs Hd) as [Hd'|[Hf Hd']]; unfold apply; cbn.
  - rewrite length_app, length_do_flow. pose proof (Hv q d Hq Hd'). lia.
  - rewrite Hf, length_app, length_do_flow. cbn. assert (q = length (pipes w)) by (destruct Hq as [-> | ->], Hd' as [[=]|[=]]; done). lia.
Qed.
Lemma serve_call i w c : serve i w = Some c →
  ∃ p x, uprocs w !! i = Some p ∧ alive p = Alive ∧ call (code p) = Some x ∧ dispatch i w p x = Some c.
Proof.
  unfold serve. destruct (uprocs w !! i) as [p|]; [|done]. cbn. destruct (decide _); [|done].
  destruct (call (code p)) as [x|] eqn:Ec; [|done]. eauto 10.
Qed.

Lemma length_apply i c w : length (uprocs (apply i c w)) = (length (uprocs w) + length (born c))%nat.
Proof. unfold apply. cbn. destruct (orphans c); rewrite length_app, ?length_fmap, length_alter_opt, length_insert; done. Qed.
Lemma length_pipes_apply i c w : length (pipes (apply i c w)) = (length (pipes w) + if fresh c then 1 else 0)%nat.
Proof. unfold apply. cbn. rewrite length_app, length_do_flow. by destruct (fresh c). Qed.

Lemma apply_other i j p c w : orphans c = false → reap c ≠ Some i → i ≠ j → uprocs w !! i = Some p → uprocs (apply j c w) !! i = Some p.
Proof.
  intros Ho Hr Hij E. unfold apply. cbn. rewrite Ho. apply lookup_app_l_Some.
  destruct (reap c) as [k|]; cbn; [rewrite list_lookup_alter_ne by congruence|]; by rewrite list_lookup_insert_ne.
Qed.
Definition calm (c : change) : change :=
  {| own := own c; reap := reap c; orphans := false; born := born c; flow := flow c; fresh := fresh c; said := said c |}.
Lemma apply_calm i c w : (orphans c = true → ∀ k p, uprocs w !! k = Some p → parent p ≠ Some i) → parent (own c) ≠ Some i →
  apply i c w = apply i (calm c) w.
Proof.
  intros H Hp. destruct (orphans c) eqn:Ho; [|by destruct c; cbn in Ho; subst].
  apply apply_orphans; [|done]. intros p [k E]%list_elem_of_lookup. by eapply H.
Qed.

(** ** All runs are alike *)
Definition final (w : world) : Prop := ∀ i, turn i w = None.
Section same_end.
Context (good : world → Prop) (small : world → Prop).
Hypothesis good_turn : ∀ w i w', good w → turn i w = Some w' → small w' → good w'.
Hypothesis small_turn : ∀ w i w', turn i w = Some w' → small w' → small w.
Hypothesis small_later : ∀ w j w1 i c, turn j w = Some w1 → small (apply i c w1) → small (apply i c w).
Hypothesis persist : ∀ w i j w1 c, good w → good w1 → i ≠ j → turn j w = Some w1 → serve i w = Some c → serve i w1 = Some c.
Hypothesis commute : ∀ w i j ci cj, good w → good (apply i ci w) → good (apply j cj w) → i ≠ j →
  serve i w = Some ci → serve j w = Some cj → serve i (apply j cj w) = Some ci → serve j (apply i ci w) = Some cj →
  apply j cj (apply i ci w) = apply i ci (apply j cj w).

Lemma turn_serve i w w' : turn i w = Some w' ↔ ∃ c, serve i w = Some c ∧ w' = apply i c w.
Proof. unfold turn. destruct (serve i w) as [c|]; cbn; split; [intros [= <-]; eauto|by intros (? & [= ->] & ->)|done|by intros (? & ? & _)]. Qed.
Lemma small_run sched w w' : run sched w = Some w' → small w' → small w.
Proof.
  revert w. induction sched as [|i l IH]; intros w; cbn; [by intros [= ->]|]. intros (w1 & E & Hr)%bind_Some Hs. eauto.
Qed.
(** A turn that can be taken is taken sooner or later, so it leaves [small]
    only when the run does. *)
Lemma turn_small sched w f i c : good w → run sched w = Some f → final f → small f → serve i w = Some c → small (apply i c w).
Proof.
  revert w. induction sched as [|j l IH]; intros w Hg; cbn.
  - intros [= ->] Hf _ E. assert (turn i f = Some (apply i c f)) as Hn by (apply turn_serve; eauto). by rewrite (Hf i) in Hn.
  - intros (w1 & E1 & Hr)%bind_Some Hf Hs E. pose proof (small_run l w1 f Hr Hs) as S1. pose proof (good_turn _ _ _ Hg E1 S1) as G1.
    destruct (decide (i = j)) as [->|Hij]; [apply turn_serve in E1 as (c' & E' & ->); congruence|].
    eapply small_later; [exact E1|]. apply (IH w1 G1 Hr Hf Hs). exact (persist w i j w1 c Hg G1 Hij E1 E).
Qed.
Lemma turn_towards sched w f i w' : good w → run sched w = Some f → final f → small f → turn i w = Some w' →
  ∃ sched', run sched' w' = Some f ∧ length sched = S (length sched').
Proof.
  revert w w'. induction sched as [|j l IH]; intros w w' Hg; cbn; [intros [= ->] Hf _ E; by rewrite Hf in E|].
  intros (w1 & E1 & Hr)%bind_Some Hf Hs E. pose proof (small_run l w1 f Hr Hs) as S1. pose proof (good_turn _ _ _ Hg E1 S1) as G1.
  destruct (decide (i = j)) as [->|Hij]; [rewrite E in E1; injection E1 as ->; eauto|].
  pose proof E as (ci & Ei & ->)%turn_serve. pose proof E1 as (cj & Ej & ->)%turn_serve.
  assert (small (apply i ci w)) as S2.
  { eapply (turn_small (j :: l)); eauto. cbn. rewrite E1. done. }
  pose proof (good_turn _ _ _ Hg E S2) as G2.
  pose proof (persist _ _ _ _ _ Hg G1 Hij E1 Ei) as Ei'. pose proof (persist _ _ _ _ _ Hg G2 (not_eq_sym Hij) E Ej) as Ej'.
  destruct (IH (apply j cj w) (apply i ci (apply j cj w)) G1 Hr Hf Hs) as (l' & Hl' & Hlen); [apply turn_serve; eauto|].
  exists (j :: l'). cbn. rewrite (proj2 (turn_serve j (apply i ci w) _)) by eauto. cbn.
  rewrite (commute w i j ci cj) by done. auto.
Qed.
(** When one run ends, every run leads there, in as many turns. *)
Lemma same_end sched w f sched1 w1 : good w → run sched w = Some f → final f → small f → run sched1 w = Some w1 →
  good w1 ∧ ∃ sched2, run sched2 w1 = Some f ∧ length sched = (length sched1 + length sched2)%nat.
Proof.
  revert w sched. induction sched1 as [|i l IH]; intros w sched Hg Hr Hf Hs; cbn; [intros [= <-]; eauto|].
  intros (w2 & E & Hr1)%bind_Some. destruct (turn_towards sched w f i w2 Hg Hr Hf Hs E) as (l' & Hl & ->).
  assert (good w2) as G2 by (eapply good_turn; [done|done|by eapply small_run]).
  destruct (IH w2 l' G2 Hl Hf Hs Hr1) as (G1 & s2 & Hs2 & ->). split; [done|]. exists s2. split; [done|lia].
Qed.
End same_end.
End world.
