(* ===== verification/Sieve.v ===== *)
(** * The sieve of primes ([user_rust/src/bin/primes_rust.rs])

    The program as a state machine between its system calls, run in [World].
    Its processes and pipes form a chain; [good] is the invariant of the chain:
    who holds which descriptors, how far a stage is when the next one has begun,
    ended or been waited for, and that only numbers below the limit travel.  In a
    [good] world the turns of two processes commute, so one computed run stands
    for all of them. *)
From Stdlib Require Import Znumtheory Sorted.
From S2P Require Import Prelude Consts Bytes Proc World.


(** The programs' local state: the two arrays, the number a stage filters by,
    the buffer, and the next system call. *)
Inductive point :=
| M_pipe | M_fork | M_close | M_write (i : Z) | M_close_w | M_wait
| C_close | P_close
| P_pipe | P_read | P_fork | P_print (n : nat) | P_loop | P_write (val : Z) | P_close_in | P_close_out | P_wait
| Exiting | Panicked.
Record locals := { in_pipe : Z * Z; out_pipe : Z * Z; buf : list Z; number : Z; at_ : point }.
Definition go (x : point) (l : locals) : locals :=
  {| in_pipe := in_pipe l; out_pipe := out_pipe l; buf := buf l; number := number l; at_ := x |}.
Definition set_in (x : Z * Z) (l : locals) : locals :=
  {| in_pipe := x; out_pipe := out_pipe l; buf := buf l; number := number l; at_ := at_ l |}.
Definition set_out (x : Z * Z) (l : locals) : locals :=
  {| in_pipe := in_pipe l; out_pipe := x; buf := buf l; number := number l; at_ := at_ l |}.
Definition set_buf (bs : list Z) (l : locals) : locals :=
  {| in_pipe := in_pipe l; out_pipe := out_pipe l; buf := write_at (buf l) 0 bs; number := number l; at_ := at_ l |}.
Definition set_number (x : Z) (l : locals) : locals :=
  {| in_pipe := in_pipe l; out_pipe := out_pipe l; buf := buf l; number := x; at_ := at_ l |}.

(** Decimal digits of a [u32], as [Display] writes them. *)
Fixpoint digits_loop (fuel : nat) (x : Z) (acc : list Z) : list Z :=
  match fuel with
  | O => acc
  | S fuel => let acc := (48 + x `mod` 10) :: acc in if x / 10 =? 0 then acc else digits_loop fuel (x / 10) acc
  end.
Definition digits (x : Z) : list Z := digits_loop 10 x [].
(** [println!("prime {}", head)]: one [write_str] per piece. *)
Definition println_prime (head : Z) : list (list Z) := [[112; 114; 105; 109; 101; 32]; digits head; [10]].

Definition LIMIT : Z := 35.

Definition main_call (l : locals) : option syscall :=
  match at_ l with
  | M_pipe | P_pipe => Some CPipe
  | M_fork | P_fork => Some CFork
  | M_close => Some (CClose (in_pipe l).1)
  | M_write i => Some (CWrite (in_pipe l).2 (le_bytes 4 i))
  | M_close_w | C_close => Some (CClose (in_pipe l).2)
  | P_close => Some (CClose (out_pipe l).2)
  | M_wait | P_wait => Some CWait
  | P_read | P_loop => Some (CRead (in_pipe l).1 4)
  | P_print n => Some (CWrite 1 (nth n (println_prime (number l)) []))
  | P_write val => Some (CWrite (out_pipe l).2 (le_bytes 4 val))
  | P_close_in => Some (CClose (in_pipe l).1)
  | P_close_out => Some (CClose (out_pipe l).2)
  | Exiting => Some CExit
  | Panicked => None
  end.

(** [pipeline(p)] from its start. *)
Definition pipeline (p : Z * Z) (l : locals) : locals :=
  {| in_pipe := p; out_pipe := (0, 0); buf := replicate 4 0; number := 0; at_ := P_pipe |}.

Definition main_resume (l : locals) (a : answer) : locals :=
  match at_ l with
  | M_pipe => go M_fork (match a with APipe r w => set_in (r, w) l | _ => l end)
  | M_fork => match a with AInt 0 => go C_close l | _ => go M_close l end
  | M_close => go (M_write 2) l
  | M_write i => if i + 1 <? LIMIT then go (M_write (i + 1)) l else go M_close_w l
  | M_close_w => go M_wait l
  | M_wait => go Exiting l
  | C_close => pipeline (in_pipe l) l
  | P_pipe => go P_read (match a with APipe r w => set_out (r, w) l | _ => l end)
  | P_read =>
      match a with
      | ABytes [] | AInt 0 => go Exiting l
      | _ =>
          let l := match a with ABytes bs => set_buf bs l | _ => l end in
          let l := set_number (le_val (buf l)) l in
          if LIMIT <=? number l then go Exiting l else go P_fork l
      end
  | P_fork => match a with AInt 0 => go P_close l | _ => go (P_print 0) l end
  | P_close => pipeline (out_pipe l) l
  | P_print n => if (n + 1 <? length (println_prime (number l)))%nat then go (P_print (n + 1)) l else go P_loop l
  | P_loop =>
      match a with
      | ABytes [] | AInt 0 => go P_close_in l
      | _ =>
          let l := match a with ABytes bs => set_buf bs l | _ => l end in
          let val := le_val (buf l) in
          if number l =? 0 then go Panicked l
          else if negb (val `mod` number l =? 0) then go (P_write val) l else go P_loop l
      end
  | P_write _ => go P_loop l
  | P_close_in => go P_close_out l
  | P_close_out => go P_wait l
  | P_wait => go Exiting l
  | Exiting | Panicked => l
  end.

Definition started : world (L := locals) :=
  {| uprocs := [{| code := {| in_pipe := (0, 0); out_pipe := (0, 0); buf := []; number := 0; at_ := M_pipe |};
                   fdt := replicate 3 (Some Tty) ++ replicate 13 None; parent := None; alive := Alive; sent := 0 |}];
     pipes := []; tty := [] |}.
(** A schedule: the turn goes to the first process that can take it. *)
Fixpoint first_run (fuel : nat) (w : world) : list nat :=
  match fuel with
  | O => []
  | S fuel =>
      match list_find (λ i, is_Some (turn main_call main_resume i w)) (seq 0 (length (uprocs w))) with
      | Some (_, i) => i :: default [] (first_run fuel <$> turn main_call main_resume i w)
      | None => []
      end
  end.

(** ** The network
    Process [k] of the network is the main program for [k = 0] and the stage
    that reads pipe [k - 1] and writes pipe [k] otherwise. *)
Abbreviation uproc := (uproc (L := locals)).
Abbreviation world := (world (L := locals)).
Abbreviation serve := (serve main_call main_resume).
Abbreviation turn := (turn main_call main_resume).
Abbreviation run := (run main_call main_resume).
Abbreviation pt p := (at_ (code p)).
Abbreviation change := (change (L := locals)).

(** Eleven stages filter and the twelfth finds its pipe empty: it is also the
    first one that gets no descriptors for a pipe of its own. *)
Definition STAGES : nat := 12.
Definition base (k : nat) : list (option fdesc) := replicate 3 (Some Tty) ++ ((λ q, Some (Rd q)) <$> seq 0 k).
Definition table (l : list (option fdesc)) : list (option fdesc) := l ++ replicate (NFILE - length l) None.
(** How far a process is. *)
Definition rank (x : point) : nat :=
  match x with
  | M_pipe | C_close | P_close | P_pipe => 0
  | P_read => 2
  | M_fork | P_fork => 3
  | M_close | P_print _ => 4
  | M_write _ | M_close_w | P_loop | P_write _ => 5
  | P_close_in | P_close_out => 6
  | M_wait | P_wait => 7
  | Exiting => 8
  | Panicked => 9
  end.
Definition belongs (k : nat) (x : point) : bool :=
  match x with
  | M_pipe | M_fork | M_close | M_write _ | M_close_w | M_wait => (k =? 0)%nat
  | C_close => (k =? 1)%nat
  | P_close => (2 <=? k)%nat
  | Exiting => true
  | Panicked => false
  | _ => (1 <=? k)%nat
  end.
(** The descriptors of process [k]: its two arrays and its table. *)
Definition frame (k : nat) (x : point) : option ((Z * Z) * (Z * Z) * list (option fdesc)) :=
  let K := Z.of_nat k in
  let own := if (k <? STAGES)%nat then base k ++ [Some (Rd k); Some (Wr k)] else base k in
  let out := if (k <? STAGES)%nat then (K + 3, K + 4) else (0, 0) in
  match x with
  | M_pipe => Some ((0, 0), (0, 0), table (base 0))
  | M_fork | M_close => Some ((3, 4), (0, 0), table (base 0 ++ [Some (Rd 0); Some (Wr 0)]))
  | M_write _ | M_close_w => Some ((3, 4), (0, 0), table (base 0 ++ [None; Some (Wr 0)]))
  | M_wait => Some ((3, 4), (0, 0), table (base 0))
  | C_close => Some ((3, 4), (0, 0), table (base 0 ++ [Some (Rd 0); Some (Wr 0)]))
  | P_close => Some ((K + 1, K + 2), (K + 2, K + 3), table (base k ++ [Some (Wr (k - 1))]))
  | P_pipe => Some ((K + 2, K + 3), (0, 0), table (base k))
  | P_read | P_fork | P_print _ | P_loop | P_write _ | P_close_in => Some ((K + 2, K + 3), out, table own)
  | P_close_out => Some ((K + 2, K + 3), out, <[(k + 2)%nat := None]> (table own))
  | P_wait => Some ((K + 2, K + 3), out, <[(k + 4)%nat := None]> (<[(k + 2)%nat := None]> (table own)))
  | Exiting | Panicked => None
  end.
Definition framed (k : nat) (p : uproc) : Prop :=
  match frame k (pt p) with
  | Some (i, o, t) => in_pipe (code p) = i ∧ out_pipe (code p) = o ∧ fdt p = t
  | None => True
  end.
Definition number_ok (x : Z) : Prop := 2 ≤ x < LIMIT.
Definition data_ok (l : locals) : Prop :=
  match at_ l with
  | M_write i => number_ok i
  | P_pipe | P_read => length (buf l) = 4%nat
  | P_fork | P_print _ | P_loop => length (buf l) = 4%nat ∧ number_ok (number l)
  | P_write v => length (buf l) = 4%nat ∧ number_ok (number l) ∧ number_ok v
  | _ => True
  end.

(** Process [k] among [n], with [m] pipes. *)
Record proc_ok (n m k : nat) (p : uproc) : Prop := {
  po_belongs : belongs k (pt p) = true;
  po_frame : alive p = Alive → framed k p;
  po_dead : alive p ≠ Alive → pt p = Exiting;
  po_reaped : alive p = Reaped → k ≠ 0%nat;
  po_sent : sent p = 0%nat;
  po_data : data_ok (code p);
  po_parent : parent p = if decide (k = 0%nat ∨ alive p = Reaped) then None else Some (k - 1)%nat;
  po_last : S k = n → (rank (pt p) ≤ 3)%nat ∨ rank (pt p) = 8%nat;
  po_inner : (S k < n)%nat → (4 ≤ rank (pt p))%nat;
  po_pipes : S k = n → m = if decide (rank (pt p) = 0%nat ∨ k = STAGES) then k else n;
}.
(** A process and its child. *)
Record link (p q : uproc) : Prop := {
  ln_end : (6 ≤ rank (pt q))%nat → (7 ≤ rank (pt p))%nat;
  ln_start : (3 ≤ rank (pt q))%nat → (5 ≤ rank (pt p))%nat;
  ln_reaped : alive q = Reaped ↔ rank (pt p) = 8%nat;
}.
Definition numbers (vs : list Z) : list Z := concat (le_bytes 4 <$> vs).
Definition pipe_ok (ps : list uproc) (k : nat) (b : list Z) : Prop :=
  ∃ vs, b = numbers vs ∧ Forall number_ok vs ∧ (vs ≠ [] → ∃ p, ps !! k = Some p ∧ (5 ≤ rank (pt p))%nat).
Definition pending (p : uproc) : nat := match pt p with P_write _ => 4 | _ => 0 end.
Definition load (w : world) : nat := (sum_list (length <$> pipes w) + sum_list (pending <$> uprocs w))%nat.
Definition written (x : point) : nat :=
  match x with M_pipe | M_fork | M_close => 0 | M_write i => 4 * Z.to_nat (i - 2) | _ => 132 end.

Definition small (w : world) : Prop := (length (uprocs w) ≤ S STAGES)%nat.
Record good (w : world) : Prop := {
  g_small : small w;
  g_proc : ∀ k p, uprocs w !! k = Some p → proc_ok (length (uprocs w)) (length (pipes w)) k p;
  g_link : ∀ k p q, uprocs w !! k = Some p → uprocs w !! S k = Some q → link p q;
  g_pipe : ∀ k b, pipes w !! k = Some b → pipe_ok (uprocs w) k b;
  g_load : ∃ p, uprocs w !! 0%nat = Some p ∧ (load w ≤ written (pt p))%nat;
  g_valid : valid w;
}.

(** ** The turns of a process *)
Ltac each_k k :=
  let H := fresh in
  assert (k = 0 ∨ k = 1 ∨ k = 2 ∨ k = 3 ∨ k = 4 ∨ k = 5 ∨ k = 6 ∨ k = 7 ∨ k = 8 ∨ k = 9 ∨ k = 10 ∨ k = 11 ∨ k = 12)%nat as H
    by (unfold STAGES in *; lia);
  destruct_or! H; subst k.

(** [q] is [p] after a turn that gave it [x] to do next. *)
Record moved (k : nat) (p q : uproc) (x : point) : Prop := {
  mv_pt : pt q = x;
  mv_frame : framed k q;
  mv_parent : parent q = parent p;
  mv_alive : alive q = alive p;
  mv_sent : sent q = 0%nat;
  mv_data : data_ok (code q);
}.
Definition after_close (x : point) : point :=
  match x with
  | M_close => M_write 2 | M_close_w => M_wait | C_close => P_pipe | P_close => P_pipe
  | P_close_in => P_close_out | P_close_out => P_wait | x => x
  end.
Lemma close_run k p fd : (k ≤ STAGES)%nat → ((4 ≤ rank (pt p))%nat → (k < STAGES)%nat) → belongs k (pt p) = true →
  framed k p → data_ok (code p) → main_call (code p) = Some (CClose fd) →
  ∃ q, serve_close main_resume p fd = only q ∧ moved k p q (after_close (pt p)).
Proof.
  intros Hk Hk' Hb Hf Hd Hc. destruct p as [[ip op bf num x] t par al se]. unfold framed, main_call in *. cbn in *.
  destruct x; try done; injection Hc as <-; each_k k; try (cbn in Hb; discriminate Hb).
  all: try (exfalso; cbn in Hk'; specialize (Hk' ltac:(lia)); unfold STAGES in *; lia).
  all: destruct Hf as (E1 & E2 & E3); cbn in E1, E2, E3; subst ip op t.
  all: eexists; split; [vm_compute; reflexivity|]; split; cbn; try done.
  all: try (vm_compute; done).
Qed.

Lemma pipe_run k (w : world) p : (k ≤ STAGES)%nat → length (pipes w) = k → belongs k (pt p) = true → framed k p → data_ok (code p) →
  main_call (code p) = Some CPipe →
  ∃ q, serve_pipe main_resume w p =
    {| own := q; reap := None; orphans := false; born := []; flow := None; fresh := (k <? STAGES)%nat; said := [] |} ∧
    moved k p q (match pt p with M_pipe => M_fork | _ => P_read end).
Proof.
  intros Hk Hl Hb Hf Hd Hc. destruct p as [[ip op bf num x] t par al se]. unfold framed, main_call in *. cbn in *.
  unfold serve_pipe. rewrite Hl. clear Hl.
  destruct x; try done; each_k k; try (cbn in Hb; discriminate Hb).
  all: destruct Hf as (E1 & E2 & E3); cbn in E1, E2, E3; subst ip op t.
  all: eexists; split; [vm_compute; reflexivity|]; split; cbn; try done.
  all: try (vm_compute; done).
Qed.
Lemma fork_run k i (w : world) p : (k ≤ STAGES)%nat → (0 < length (uprocs w))%nat → belongs k (pt p) = true → framed k p → data_ok (code p) →
  main_call (code p) = Some CFork → (k < STAGES)%nat →
  ∃ q b, serve_fork main_resume i w p =
    {| own := q; reap := None; orphans := false; born := [b]; flow := None; fresh := false; said := [] |} ∧
    moved k p q (match pt p with M_fork => M_close | _ => P_print 0 end) ∧
    pt b = (if decide (k = 0%nat) then C_close else P_close) ∧ framed (S k) b ∧ parent b = Some i ∧ alive b = Alive ∧ sent b = 0%nat.
Proof.
  intros Hk Hn Hb Hf Hd Hc Hk'. destruct p as [[ip op bf num x] t par al se]. unfold framed, main_call in *. cbn in *.
  unfold serve_fork. eexists _, _. split; [reflexivity|].
  assert (∃ z, Z.of_nat (length (uprocs w)) = Zpos z) as [z Hz] by (exists (Pos.of_nat (length (uprocs w))); lia). rewrite Hz.
  destruct x; try done; each_k k; try (cbn in Hb; discriminate Hb); try (exfalso; unfold STAGES in *; lia).
  all: destruct Hf as (E1 & E2 & E3); cbn in E1, E2, E3; subst ip op t.
  all: (split; [split|split_and!]); cbn; try done.
  all: try (vm_compute; done).
Qed.

Lemma number_bytes v : number_ok v → le_val (le_bytes 4 v) = v.
Proof. intros [? ?]. rewrite le_val_le_bytes. apply Z.mod_small. unfold LIMIT in *. lia. Qed.
Lemma numbers_cons v vs : numbers (v :: vs) = le_bytes 4 v ++ numbers vs.
Proof. done. Qed.

(** Reading: a number, or the end of the pipe. *)
Lemma fd_in k p : (k ≤ STAGES)%nat → belongs k (pt p) = true → framed k p → pt p = P_read ∨ pt p = P_loop →
  (∃ q, k = S q) ∧ fd_at p (in_pipe (code p)).1 = Some (Rd (k - 1)).
Proof.
  intros Hk Hb Hf Hx. destruct p as [[ip op bf num x] t par al se]. unfold framed, main_call in *. cbn in *.
  destruct Hx as [-> | ->]; each_k k; try (cbn in Hb; discriminate Hb).
  all: destruct Hf as (E1 & E2 & E3); cbn in E1, E2, E3; subst ip op t.
  all: (split; [eauto|]); vm_compute; done.
Qed.
Lemma fd_out k p v : (k < STAGES)%nat → belongs k (pt p) = true → framed k p → pt p = M_write v ∨ pt p = P_write v →
  ∃ fd, main_call (code p) = Some (CWrite fd (le_bytes 4 v)) ∧ fd_at p fd = Some (Wr k).
Proof.
  intros Hk Hb Hf Hx. destruct p as [[ip op bf num x] t par al se]. unfold framed, main_call in *. cbn -[le_bytes] in *.
  destruct Hx as [-> | ->]; each_k k; try (cbn in Hb; discriminate Hb); try (exfalso; unfold STAGES in *; lia).
  all: destruct Hf as (E1 & E2 & E3); cbn in E1, E2, E3; subst ip op t.
  all: eexists; (split; [reflexivity|]); vm_compute; done.
Qed.
(** The reader of a pipe has it open as long as it reads. *)
Lemma holds_rd k p : (1 ≤ k ≤ STAGES)%nat → belongs k (pt p) = true → framed k p → (rank (pt p) ≤ 5)%nat → Some (Rd (k - 1)) ∈ fdt p.
Proof.
  intros Hk Hb Hf Hx. destruct p as [[ip op bf num x] t par al se]. unfold framed in *. cbn in *.
  destruct x; cbn in Hx; try lia; each_k k; try lia; try (cbn in Hb; discriminate Hb).
  all: destruct Hf as (E1 & E2 & E3); cbn in E1, E2, E3; subst ip op t.
  all: apply (bool_decide_unpack _); vm_compute; done.
Qed.
Lemma holds_wr k p : (k < STAGES)%nat → belongs k (pt p) = true → framed k p → (4 ≤ rank (pt p) < 7)%nat → Some (Wr k) ∈ fdt p.
Proof.
  intros Hk Hb Hf Hx. destruct p as [[ip op bf num x] t par al se]. unfold framed in *. cbn in *.
  destruct x; cbn in Hx; try lia; each_k k; try lia; try (cbn in Hb; discriminate Hb).
  all: try (exfalso; unfold STAGES in *; lia).
  all: destruct Hf as (E1 & E2 & E3); cbn in E1, E2, E3; subst ip op t.
  all: apply (bool_decide_unpack _); vm_compute; done.
Qed.
Lemma fd_tty k p n : (k < STAGES)%nat → belongs k (pt p) = true → framed k p → pt p = P_print n → fd_at p 1 = Some Tty.
Proof.
  intros Hk Hb Hf Hx. destruct p as [[ip op bf num x] t par al se]. unfold framed in *. cbn in *.
  subst x. each_k k; try lia; try (cbn in Hb; discriminate Hb); try (exfalso; unfold STAGES in *; lia).
  all: destruct Hf as (E1 & E2 & E3); cbn in E1, E2, E3; subst ip op t.
  all: vm_compute; done.
Qed.

(** ** What a turn keeps *)
Lemma apply_plain i (c : change) (w : world) : reap c = None → orphans c = false → born c = [] → fresh c = false →
  uprocs (apply i c w) = <[i := own c]> (uprocs w) ∧ pipes (apply i c w) = do_flow (flow c) (pipes w).
Proof. intros Hr Ho Hb Hf. unfold apply. cbn. by rewrite Hr, Ho, Hb, Hf, !app_nil_r. Qed.

Lemma sum_insert {A} (f : A → nat) (l : list A) i x y : l !! i = Some x →
  (sum_list (f <$> <[i := y]> l) + f x = sum_list (f <$> l) + f y)%nat.
Proof.
  intros E. rewrite <- (take_drop_middle l i x E) at 2. rewrite insert_take_drop by by eapply lookup_lt_Some.
  rewrite !fmap_app, !fmap_cons, !sum_list_with_app. cbn. lia.
Qed.
Lemma rank_le k x : belongs k x = true → (rank x ≤ 8)%nat.
Proof. destruct x; cbn; intros; try done; lia. Qed.
Lemma pipe_ok_insert ps i (p q : uproc) k b : ps !! i = Some p → (rank (pt p) ≤ rank (pt q))%nat → pipe_ok ps k b → pipe_ok (<[i := q]> ps) k b.
Proof.
  intros E Hr (vs & -> & Hv & Hs). exists vs. split; [done|]. split; [done|]. intros Hn. destruct (Hs Hn) as (p0 & E0 & H5).
  destruct (decide (i = k)) as [->|Hik].
  - exists q. rewrite list_lookup_insert_eq by by eapply lookup_lt_Some. split; [done|]. rewrite E in E0. injection E0 as <-. lia.
  - exists p0. by rewrite list_lookup_insert_ne.
Qed.

Section plain.
Context (w : world) (i : nat) (p : uproc) (c : change) (d : nat).
Hypothesis (G : good w) (E : uprocs w !! i = Some p) (A : alive p = Alive) (Sv : valid (apply i c w)).
Hypothesis (Hr : reap c = None) (Ho : orphans c = false) (Hb : born c = []) (Hf : fresh c = false).
Hypothesis Hok : proc_ok (length (uprocs w)) (length (pipes w)) i (own c).
Hypothesis Hrank : (rank (pt p) ≤ rank (pt (own c)))%nat.
Hypothesis Hup : ∀ j q, i = S j → uprocs w !! j = Some q →
  ((6 ≤ rank (pt (own c)))%nat → (6 ≤ rank (pt p) ∨ 7 ≤ rank (pt q))%nat) ∧
  ((3 ≤ rank (pt (own c)))%nat → (3 ≤ rank (pt p) ∨ 5 ≤ rank (pt q))%nat).
Hypothesis Hexit : rank (pt (own c)) = 8%nat → rank (pt p) = 8%nat ∨ uprocs w !! S i = None.
Hypothesis Halive : alive (own c) ≠ Reaped.
Hypothesis Hpipe : ∀ k b, do_flow (flow c) (pipes w) !! k = Some b → pipe_ok (<[i := own c]> (uprocs w)) k b.
Hypothesis Hload : (sum_list (length <$> do_flow (flow c) (pipes w)) + pending (own c) ≤ sum_list (length <$> pipes w) + pending p + d)%nat.
Hypothesis Hd : if decide (i = 0%nat) then (written (pt p) + d ≤ written (pt (own c)))%nat else d = 0%nat.

Lemma good_plain : good (apply i c w).
Proof.
  destruct (apply_plain i c w Hr Ho Hb Hf) as [Eu Ep]. pose proof (lookup_lt_Some _ _ _ E) as Hi. destruct G as [Gs Gp Gl Gpi Gld Gv]. split.
  - unfold small. by rewrite Eu, length_insert.
  - intros k q. rewrite Eu, Ep, length_insert, length_do_flow. intros [(<- & <- & _)|[_ Ek]]%list_lookup_insert_Some; [done|by apply Gp].
  - intros k x y. rewrite Eu. intros Hx Hy.
    apply list_lookup_insert_Some in Hx as [(<- & <- & _)|[Hik Ex]]; apply list_lookup_insert_Some in Hy as [(Hk & <- & _)|[Hiy Ey]]; try lia.
    + destruct (Gl i p y E Ey) as [L1 L2 L3]. split; [intros H; specialize (L1 H); lia|intros H; specialize (L2 H); lia|].
      rewrite L3. split; [pose proof (rank_le i _ (po_belongs _ _ _ _ Hok)); lia|]. intros H8. by destruct (Hexit H8) as [|Hn]; [|congruence].
    + subst i. destruct (Gl k x p Ex E) as [L1 L2 L3]. destruct (Hup k x eq_refl Ex) as [U1 U2].
      split; [intros H; destruct (U1 H); auto|intros H; destruct (U2 H); auto|]. rewrite <- L3. split; [done|congruence].
    + by eapply Gl.
  - intros k b. rewrite Ep, Eu. apply Hpipe.
  - destruct Gld as (p0 & E0 & Hl). unfold load in *. rewrite Eu, Ep. pose proof (sum_insert pending _ _ _ (own c) E) as Hs.
    destruct (decide (i = 0%nat)) as [->|Hi0].
    + exists (own c). rewrite list_lookup_insert_eq by done. split; [done|]. rewrite E in E0. injection E0 as <-. lia.
    + exists p0. rewrite list_lookup_insert_ne by done. split; [done|]. lia.
  - done.
Qed.
End plain.

Lemma proc_ok_moved n m k p q x : proc_ok n m k p → alive p = Alive → moved k p q x → belongs k x = true →
  (S k = n → (rank x ≤ 3)%nat ∨ rank x = 8%nat) → ((S k < n)%nat → (4 ≤ rank x)%nat) →
  (S k = n → k = STAGES ∨ ((rank x = 0)%nat ↔ (rank (pt p) = 0)%nat)) → proc_ok n m k q.
Proof.
  intros [] Ha [<- ? Hp Hal ? ?] Hb Hl Hi Hm. rewrite Ha in Hal. split; try done; try congruence.
  - rewrite Hp, Hal. by rewrite Ha in po_parent0.
  - intros Hn. rewrite (po_pipes0 Hn). specialize (Hm Hn). repeat destruct (decide (_ ∨ k = STAGES)); tauto.
Qed.
Lemma index_small w i p : good w → uprocs w !! i = Some p → (i < length (uprocs w) ≤ S STAGES)%nat.
Proof. intros G E. split; [by eapply lookup_lt_Some|apply G]. Qed.
Lemma inner_small w i p : good w → uprocs w !! i = Some p → (4 ≤ rank (pt p) < 8)%nat → (i < STAGES)%nat.
Proof.
  intros G E Hr. pose proof (index_small w i p G E) as [Hi Hs]. pose proof (g_proc w G i p E) as [_ _ _ _ _ _ _ Hl _ _].
  destruct (decide (S i = length (uprocs w))) as [Hn|]; [|lia]. specialize (Hl Hn). lia.
Qed.
Lemma pipes_insert w i p q : good w → uprocs w !! i = Some p → (rank (pt p) ≤ rank (pt q))%nat →
  ∀ k b, pipes w !! k = Some b → pipe_ok (<[i := q]> (uprocs w)) k b.
Proof. intros G E Hr k b Hb. eapply pipe_ok_insert; [done|done|]. by apply (g_pipe w G). Qed.

(** A turn that only moves the process on. *)
Lemma good_only w i p c q x : good w → uprocs w !! i = Some p → alive p = Alive → valid (apply i c w) →
  own c = q → reap c = None → orphans c = false → born c = [] → flow c = None → fresh c = false →
  moved i p q x → belongs i x = true → (rank (pt p) ≤ rank x)%nat →
  (S i = length (uprocs w) → (rank x ≤ 3)%nat ∨ rank x = 8%nat) →
  (S i = length (uprocs w) → i = STAGES ∨ ((rank x = 0)%nat ↔ (rank (pt p) = 0)%nat)) →
  (∀ j r, i = S j → uprocs w !! j = Some r → ((6 ≤ rank x)%nat → (6 ≤ rank (pt p) ∨ 7 ≤ rank (pt r))%nat) ∧
     ((3 ≤ rank x)%nat → (3 ≤ rank (pt p) ∨ 5 ≤ rank (pt r))%nat)) →
  (rank x = 8%nat → uprocs w !! S i = None) → pending q = 0%nat →
  (i = 0%nat → (written (pt p) ≤ written x)%nat) → good (apply i c w).
Proof.
  intros G E Ha Sv <- Hr Ho Hb Hfl Hf Hm Hbx Hrk Hl Hz Hup H8 Hpd Hw. pose proof Hm as [<- Hfr Hpar Hal Hse Hda].
  pose proof (g_proc w G i p E) as Hok.
  apply (good_plain w i p c 0); try done.
  - eapply proc_ok_moved; try done. intros Hn. pose proof (po_inner _ _ _ _ Hok Hn). lia.
  - intros H. right. auto.
  - congruence.
  - rewrite Hfl. intros k b. cbn. by apply (pipes_insert w i p).
  - rewrite Hfl, Hpd. cbn. lia.
  - destruct (decide _); [|done]. specialize (Hw e). lia.
Qed.

(** ** Each call *)
Lemma good_close w i p fd c : good w → uprocs w !! i = Some p → alive p = Alive → main_call (code p) = Some (CClose fd) →
  serve i w = Some c → c = serve_close main_resume p fd → good (apply i c w).
Proof.
  intros G E Ha Hc Sv ->. pose proof (g_proc w G i p E) as Hok. pose proof (index_small w i p G E) as Hs.
  destruct (close_run i p fd) as (q & Eq & Hm); [lia| |apply Hok|by apply Hok|apply Hok|done|].
  { intros H4. apply (inner_small w i p G E). split; [done|]. unfold main_call in Hc. destruct (pt p); try discriminate Hc; cbn; lia. }
  assert (valid (apply i (serve_close main_resume p fd) w)) as Hv by (apply (valid_turn main_call main_resume); [apply G|done]).
  rewrite Eq in Hv |- *. pose proof (po_belongs _ _ _ _ Hok) as Hb. pose proof (po_last _ _ _ _ Hok) as Hl. pose proof (mv_pt _ _ _ _ Hm) as Hq.
  eapply (good_only w i p (only q) q (after_close (pt p))); try done.
  all: unfold main_call in Hc; destruct (pt p) eqn:Ep; try discriminate Hc; cbn in *; try (intros; lia).
  all: try (unfold pending; rewrite Hq; done).
  all: try (intros Hn; specialize (Hl Hn); lia).
  all: try (destruct i as [|[|i]]; done).
  all: try (intros j r ->; cbn in Hb; try done; intros; lia).
Qed.

Lemma last_is w i p : good w → uprocs w !! i = Some p → (rank (pt p) ≤ 3)%nat → S i = length (uprocs w).
Proof.
  intros G E Hr. pose proof (g_proc w G i p E) as Hok. pose proof (index_small w i p G E).
  destruct (decide (S i < length (uprocs w))%nat) as [Hn|]; [|lia]. pose proof (po_inner _ _ _ _ Hok Hn). lia.
Qed.
Lemma stage_child_of w i k p : good w → uprocs w !! k = Some p → parent p = Some i → k = S i ∧ alive p ≠ Reaped.
Proof.
  intros G E Hp. pose proof (po_parent _ _ _ _ (g_proc w G k p E)) as H. rewrite Hp in H.
  destruct (decide (k = 0%nat ∨ alive p = Reaped)) as [|Hn]; [done|]. injection H as ->. split; [|tauto]. destruct k; [tauto|lia].
Qed.
(** The last process gets a pipe. *)
Lemma good_new_pipe w i p q x : let c := {| own := q; reap := None; orphans := false; born := []; flow := None; fresh := true; said := [] |} in
  good w → uprocs w !! i = Some p → alive p = Alive → S i = length (uprocs w) → length (pipes w) = i → (i < STAGES)%nat →
  rank (pt p) = 0%nat → moved i p q x → serve i w = Some c → (rank (pt q) ≤ 3)%nat → rank (pt q) ≠ 0%nat → belongs i (pt q) = true →
  pending q = 0%nat → pt p = M_pipe ∨ rank (pt q) = 2%nat ∧ i ≠ 0%nat → (i = 0%nat → (written (pt p) ≤ written (pt q))%nat) → good (apply i c w).
Proof.
  intros c. intros G E Ha Hn Hm Hlt Hr0 Hmv Sv Hr3 Hr1 Hbq Hpd Hx Hw. pose proof (g_proc w G i p E) as Hok. pose proof (index_small w i p G E) as Hs.
  pose proof (po_belongs _ _ _ _ Hok) as Hb. destruct G as [Gs Gp Gl Gpi Gld Gv].
  assert (uprocs (apply i c w) = <[i := q]> (uprocs w)) as Eu by (unfold apply; cbn; by rewrite app_nil_r).
  assert (pipes (apply i c w) = pipes w ++ [[]]) as Epi by done.
  split.
  - unfold small. by rewrite Eu, length_insert.
  - intros k r. rewrite Eu, Epi, length_insert, length_app. cbn [length]. intros [(<- & <- & _)|[Hik Ek]]%list_lookup_insert_Some.
    + pose proof Hmv as [Hpt Hfr Hpar Hal Hse Hda]. destruct Hok. rewrite Ha in Hal. split; try done; try congruence; try lia.
      * rewrite Hpar, Hal. by rewrite Ha in po_parent0.
      * intros _. rewrite decide_False by (intros [?|?]; lia). lia.
    + destruct (Gp k r Ek). pose proof (lookup_lt_Some _ _ _ Ek). split; try done. lia.
  - intros k r s. rewrite Eu. intros Hr Hs'.
    apply list_lookup_insert_Some in Hr as [(<- & <- & _)|[Hik Er]]; apply list_lookup_insert_Some in Hs' as [(Hk & <- & _)|[Hiy Es]]; try lia.
    + pose proof (lookup_lt_Some _ _ _ Es). lia.
    + assert (uprocs w !! S k = Some p) as E' by congruence. destruct (Gl k r p Er E') as [L1 L2 L3]. pose proof (mv_alive _ _ _ _ Hmv) as Hal.
      split; [lia| |rewrite Hal; done]. intros H3. destruct Hx as [Hx|[Hx _]]; [|lia]. by rewrite Hx, Hk in Hb.
    + by eapply Gl.
  - intros k b. rewrite Epi, Eu. intros [Eb|[Hk Eb]]%lookup_app_Some.
    + eapply pipe_ok_insert; [done|lia|by apply Gpi].
    + exists []. apply list_lookup_singleton_Some in Eb as [_ <-]. done.
  - destruct Gld as (p0 & E0 & Hld). unfold load in *. rewrite Eu, Epi, fmap_app, sum_list_with_app.
    pose proof (sum_insert pending _ _ _ q E) as Hsum. rewrite Hpd in Hsum. cbn.
    destruct (decide (i = 0%nat)) as [->|Hi0].
    + exists q. rewrite list_lookup_insert_eq by lia. split; [done|]. rewrite E in E0. injection E0 as <-. specialize (Hw eq_refl). lia.
    + exists p0. rewrite list_lookup_insert_ne by done. split; [done|]. lia.
  - by apply (valid_turn main_call main_resume).
Qed.

Lemma good_pipe w i p c : good w → uprocs w !! i = Some p → alive p = Alive → main_call (code p) = Some CPipe →
  serve i w = Some c → c = serve_pipe main_resume w p → good (apply i c w).
Proof.
  intros G E Ha Hc Sv ->. pose proof (g_proc w G i p E) as Hok. pose proof (index_small w i p G E) as Hs.
  assert (rank (pt p) = 0%nat) as Hr0 by (unfold main_call in Hc; by destruct (pt p)).
  pose proof (last_is w i p G E ltac:(lia)) as Hn.
  pose proof (po_pipes _ _ _ _ Hok Hn) as Hm. rewrite decide_True in Hm by auto.
  destruct (pipe_run i w p) as (q & Eq & Hmv); [lia|done|apply Hok|by apply Hok|apply Hok|done|].
  rewrite Eq in Sv |- *. pose proof (po_belongs _ _ _ _ Hok) as Hb. pose proof (mv_pt _ _ _ _ Hmv) as Hq.
  assert (rank (pt q) ≤ 3 ∧ rank (pt q) ≠ 0 ∧ belongs i (pt q) = true ∧ pending q = 0 ∧ (pt p = M_pipe ∨ rank (pt q) = 2 ∧ i ≠ 0) ∧ (i = 0 → written (pt p) ≤ written (pt q)))%nat as (Hr3 & Hr1 & Hbq & Hpd & Hx & Hw).
  { unfold pending. rewrite Hq. unfold main_call in Hc. destruct (pt p) eqn:Ep; try discriminate Hc; cbn in *; repeat split; try done; try lia; auto.
    right. split; [done|]. destruct i; [done|lia]. }
  destruct (Nat.ltb_spec i STAGES) as [Hlt|Hge].
  - by eapply (good_new_pipe w i p q).
  - assert (valid (apply i {| own := q; reap := None; orphans := false; born := []; flow := None; fresh := false; said := [] |} w)) as Hv
      by (apply (valid_turn main_call main_resume); [apply G|done]).
    eapply (good_only w i p _ q (pt q)); try done.
    all: try (intros _; left; lia).
    all: try (rewrite Hq; done).
    all: try (intros; lia).
    intros j r Hj Ej. destruct Hx as [Hx|[Hx _]]; [|lia]. by rewrite Hx, Hj in Hb.
Qed.

Lemma good_exit w i p c : good w → uprocs w !! i = Some p → alive p = Alive → main_call (code p) = Some CExit →
  serve i w = Some c → c = serve_exit p → good (apply i c w) ∧ orphans c = true ∧ ∀ k q, uprocs w !! k = Some q → parent q ≠ Some i.
Proof.
  intros G E Ha Hc Sv ->. pose proof (g_proc w G i p E) as Hok.
  assert (pt p = Exiting) as Hx by (unfold main_call in Hc; by destruct (pt p)).
  assert (∀ k q, uprocs w !! k = Some q → parent q ≠ Some i) as Hno.
  { intros k q Eq Hq. destruct (stage_child_of w i k q G Eq Hq) as [-> Hr]. apply Hr, (ln_reaped _ _ (g_link w G i p q E Eq)). by rewrite Hx. }
  split; [|split; [done|exact Hno]].
  pose proof (valid_turn main_call main_resume i w _ ltac:(apply G) Sv) as Hv.
  assert (∀ q, q ∈ uprocs w → parent q ≠ Some i) as Hno' by (intros q [k Eq]%list_elem_of_lookup; by eapply Hno).
  rewrite (apply_orphans i (serve_exit p) w Hno' (Hno i p E)) in Hv |- *.
  cbn [own reap born flow fresh said serve_exit] in Hv |- *. destruct Hok. rewrite Ha in *.
  apply (good_plain w i p _ 0); try done; cbn [own reap born flow fresh said with_alive with_fdt code alive pending].
  - split; cbn; try done. rewrite po_parent0. repeat case_decide; naive_solver.
  - intros. split; lia.
  - rewrite Hx. auto.
  - by apply (pipes_insert w i p).
  - unfold pending. cbn. lia.
  - clear. destruct (decide (i = 0%nat)); lia.
Qed.

Lemma good_fork w i p c : good w → uprocs w !! i = Some p → alive p = Alive → main_call (code p) = Some CFork →
  serve i w = Some c → c = serve_fork main_resume i w p → small (apply i c w) → good (apply i c w).
Proof.
  intros G E Ha Hc Sv -> Hsm. pose proof (g_proc w G i p E) as Hok. pose proof (index_small w i p G E) as Hs.
  assert (rank (pt p) = 3%nat) as Hr0 by (unfold main_call in Hc; by destruct (pt p)).
  pose proof (last_is w i p G E ltac:(lia)) as Hn. unfold small in Hsm. rewrite length_apply in Hsm. cbn in Hsm.
  pose proof (po_pipes _ _ _ _ Hok Hn) as Hm. rewrite decide_False in Hm by lia.
  destruct (fork_run i i w p) as (q & b & Eq & Hmv & Hb & Hbf & Hbp & Hba & Hbs); [lia|lia|apply Hok|by apply Hok|apply Hok|done|lia|].
  pose proof (valid_turn main_call main_resume i w _ ltac:(apply G) Sv) as Hv. rewrite Eq in Hv |- *.
  pose proof (po_belongs _ _ _ _ Hok) as Hbl. pose proof (mv_pt _ _ _ _ Hmv) as Hq.
  assert (rank (pt q) = 4 ∧ belongs i (pt q) = true ∧ pending q = 0 ∧ pending b = 0 ∧ rank (pt b) = 0 ∧ belongs (S i) (pt b) = true ∧
    (i = 0 → written (pt p) ≤ written (pt q)))%nat as (Hr3 & Hbq & Hpd & Hpb & Hrb & Hbb & Hw).
  { unfold pending. rewrite Hq, Hb. unfold main_call in Hc. destruct (pt p) eqn:Ep; try discriminate Hc; cbn in *.
    all: destruct i; cbn in *; try discriminate Hbl; repeat split; try done. }
  set (c := {| own := q; reap := _ |}) in *.
  assert (uprocs (apply i c w) = <[i := q]> (uprocs w) ++ [b]) as Eu by done.
  assert (pipes (apply i c w) = pipes w) as Epi by (unfold apply; cbn; by rewrite app_nil_r).
  destruct G as [Gs Gp Gl Gpi Gld Gv]. split.
  - unfold small. rewrite length_apply. cbn. lia.
  - intros k r. rewrite length_apply, Epi. cbn [length born c]. rewrite Eu.
    intros [[(<- & <- & _)|[Hik Ek]]%list_lookup_insert_Some|[Hk Ek]]%lookup_app_Some.
    + pose proof Hmv as [Hpt Hfr Hpar Hal Hse Hda]. destruct Hok. rewrite Ha in Hal. split; try done; try congruence; try lia.
      rewrite Hpar, Hal. by rewrite Ha in po_parent0.
    + destruct (Gp k r Ek). pose proof (lookup_lt_Some _ _ _ Ek). split; try done; lia.
    + apply list_lookup_singleton_Some in Ek as [Hk0 <-]. rewrite length_insert in Hk, Hk0. assert (k = S i) as -> by lia.
      split; try done; try congruence; try lia.
      * unfold data_ok. rewrite Hb. by destruct (decide _).
      * rewrite Hbp, Hba. rewrite decide_False by naive_solver. f_equal. lia.
      * intros _. rewrite decide_True by auto. lia.
  - intros k r s. rewrite Eu. intros [Hr|[Hk Hr]]%lookup_app_Some Hs'.
    2: { apply lookup_lt_Some in Hs'. rewrite length_app, length_insert in *. cbn in Hs'. lia. }
    apply lookup_app_Some in Hs' as [Hs'|[Hk Hs']].
    + apply list_lookup_insert_Some in Hr as [(<- & <- & _)|[Hik Er]]; apply list_lookup_insert_Some in Hs' as [(Hk & <- & _)|[Hiy Es]]; try lia.
      * apply lookup_lt_Some in Es. lia.
      * assert (uprocs w !! S k = Some p) as E' by congruence. destruct (Gl k r p Er E') as [L1 L2 L3].
        pose proof (mv_alive _ _ _ _ Hmv) as Hal. split; [lia|intros _; apply L2; lia|by rewrite Hal].
      * by eapply Gl.
    + apply list_lookup_singleton_Some in Hs' as [Hk0 <-]. rewrite length_insert in Hk, Hk0. assert (k = i) as -> by lia.
      rewrite list_lookup_insert_eq in Hr by lia. injection Hr as <-. split; [lia|lia|]. rewrite Hba, Hr3. done.
  - intros k x. rewrite Epi, Eu. intros Ex.
    destruct (pipe_ok_insert _ _ p q k x E ltac:(lia) (Gpi _ _ Ex)) as (vs & -> & Hvs & Hne). exists vs. split; [done|]. split; [done|].
    intros Hvs0. destruct (Hne Hvs0) as (r & Er & H5). exists r. split; [by apply lookup_app_l_Some|done].
  - destruct Gld as (p0 & E0 & Hld). unfold load in *. rewrite Eu, Epi, fmap_app, (sum_list_with_app _ (pending <$> _)).
    pose proof (sum_insert pending _ _ _ q E) as Hsum. rewrite Hpd in Hsum. cbn. rewrite Hpb.
    destruct (decide (i = 0%nat)) as [->|Hi0].
    + exists q. rewrite lookup_app_l by (rewrite length_insert; lia). rewrite list_lookup_insert_eq by lia. split; [done|].
      rewrite E in E0. injection E0 as <-. specialize (Hw eq_refl). lia.
    + exists p0. rewrite lookup_app_l by (rewrite length_insert; lia). rewrite list_lookup_insert_ne by done. split; [done|]. lia.
  - done.
Qed.

(** A process waits for its only child. *)
Lemma wait_view w i p : good w → uprocs w !! i = Some p → main_call (code p) = Some CWait →
  ∃ q, uprocs w !! S i = Some q ∧ parent q = Some i ∧ has_child i w = true ∧
    list_find (is_zombie_of i) (uprocs w) = if decide (alive q = Zombie) then Some (S i, q) else None.
Proof.
  intros G E Hc. pose proof (g_proc w G i p E) as Hok. pose proof (index_small w i p G E) as Hs.
  assert (rank (pt p) = 7%nat) as Hr0 by (unfold main_call in Hc; by destruct (pt p)).
  assert (S i < length (uprocs w))%nat as Hi.
  { destruct (decide (S i = length (uprocs w))) as [Hn|]; [|lia]. pose proof (po_last _ _ _ _ Hok Hn). lia. }
  apply lookup_lt_is_Some in Hi as [q Eq]. exists q. split; [done|].
  assert (parent q = Some i) as Hp.
  { rewrite (po_parent _ _ _ _ (g_proc w G _ q Eq)). rewrite decide_False; [f_equal; lia|]. intros [?|Hr]; [lia|].
    apply (ln_reaped _ _ (g_link w G i p q E Eq)) in Hr. lia. }
  split; [done|]. split.
  { unfold has_child. apply existsb_exists. exists q. split; [eapply list_elem_of_In, list_elem_of_lookup_2, Eq|by apply bool_decide_eq_true]. }
  assert (∀ k r, uprocs w !! k = Some r → is_zombie_of i r → k = S i) as Hz.
  { intros k r Er [Hr _]%bool_decide_unpack. by apply (stage_child_of w i k r). }
  destruct (decide (alive q = Zombie)) as [Hq|Hq].
  - apply list_find_Some. split; [done|]. split; [by apply bool_decide_pack|]. intros j y Ey Hj Hy. specialize (Hz j y Ey Hy). lia.
  - apply list_find_None, Forall_forall. intros r [k Er]%list_elem_of_lookup Hr. specialize (Hz k r Er Hr). subst k.
    apply bool_decide_unpack in Hr as [_ ?]. congruence.
Qed.

Lemma good_wait w i p c : good w → uprocs w !! i = Some p → alive p = Alive → main_call (code p) = Some CWait →
  serve i w = Some c → serve_wait main_resume i w p = Some c → good (apply i c w).
Proof.
  intros G E Ha Hc Sv Hsw. destruct (wait_view w i p G E Hc) as (q & Eq & Hpar & Hch & Hfind).
  assert (rank (pt p) = 7%nat) as Hr0 by (unfold main_call in Hc; by destruct (pt p)).
  unfold serve_wait in Hsw. rewrite Hfind, Hch in Hsw. destruct (decide (alive q = Zombie)) as [Hz|]; [|done]. injection Hsw as <-.
  set (o := goes_on main_resume p _) in *.
  assert (pt o = Exiting ∧ alive o = Alive ∧ sent o = 0%nat ∧ parent o = parent p) as (Ho & Hao & Hso & Hpo)
    by (split; [cbn; unfold main_resume; by destruct (pt p)|done]).
  pose proof (valid_turn main_call main_resume i w _ ltac:(apply G) Sv) as Hv. set (c := {| own := o; reap := _ |}) in *.
  clearbody o.
  assert (uprocs (apply i c w) = <[i := o]> (<[S i := reaped q]> (uprocs w))) as Eu.
  { unfold apply. cbn [uprocs own reap orphans born c]. rewrite app_nil_r, alter_opt_insert by (intros [=]; lia). f_equal. by apply alter_as_insert. }
  assert (pipes (apply i c w) = pipes w) as Epi by (unfold apply; cbn; by rewrite app_nil_r).
  assert (∀ k r', <[i := o]> (<[S i := reaped q]> (uprocs w)) !! k = Some r' → ∃ r, uprocs w !! k = Some r ∧
    ((k = i ∧ r = p ∧ r' = o) ∨ (k = S i ∧ r = q ∧ r' = reaped q) ∨ (k ≠ i ∧ k ≠ S i ∧ r' = r))) as Hl.
  { intros k r' [(<- & <- & _)|[Hk [(<- & <- & _)|[Hk' Er]]%list_lookup_insert_Some]]%list_lookup_insert_Some; [exists p|exists q|exists r']; auto 10. }
  pose proof (g_proc w G i p E) as Hok. pose proof (g_proc w G _ q Eq) as Hokq. pose proof (po_dead _ _ _ _ Hokq ltac:(congruence)) as Hqx.
  destruct G as [Gs Gp Gl Gpi Gld Gv]. split.
  - unfold small. by rewrite Eu, !length_insert.
  - rewrite Eu, Epi, !length_insert. intros k r' (r & Er & [(-> & -> & ->)|[(-> & -> & ->)|(Hk & Hk' & ->)]])%Hl; [..|by apply Gp].
    + destruct Hok. split; rewrite ?Ho, ?Hao, ?Hpo; cbn; try done; try tauto; try lia.
      * intros _. unfold framed. by rewrite Ho.
      * unfold data_ok. by rewrite Ho.
      * by rewrite Ha in po_parent0.
    + destruct Hokq. split; cbn; try done; by rewrite decide_True by auto.
  - rewrite Eu. intros k r' s' (r & Er & Hr)%Hl (s & Es & Hs)%Hl. destruct (Gl k r s Er Es) as [L1 L2 L3].
    destruct Hr as [(-> & -> & ->)|[(-> & -> & ->)|(Hk & Hk' & ->)]], Hs as [(Hs1 & -> & ->)|[(Hs1 & -> & ->)|(Hs1 & Hs2 & ->)]]; try lia.
    all: split; rewrite ?Ho; cbn in *; try done; try lia.
    by rewrite <- L3, Ha, Hao.
  - intros k b. rewrite Epi, Eu. intros Eb. apply (pipe_ok_insert _ i p); [by rewrite list_lookup_insert_ne by lia|rewrite Ho; cbn; lia|].
    apply (pipe_ok_insert _ (S i) q); [done|cbn; lia|by apply Gpi].
  - destruct Gld as (p0 & E0 & Hld). unfold load in *. rewrite Eu, Epi.
    assert (<[S i := reaped q]> (uprocs w) !! i = Some p) as E' by by rewrite list_lookup_insert_ne by lia.
    pose proof (sum_insert pending _ _ _ o E') as H1. pose proof (sum_insert pending _ _ _ (reaped q) Eq) as H2.
    assert (pending o = 0%nat) as Hpd by (unfold pending; by rewrite Ho). change (pending (reaped q)) with (pending q) in H2.
    destruct (decide (i = 0%nat)) as [->|Hi0].
    + exists o. rewrite list_lookup_insert_eq by (rewrite length_insert; by eapply lookup_lt_Some). split; [done|].
      rewrite E in E0. injection E0 as <-. rewrite Ho. unfold written at 1. destruct (pt p); cbn in Hr0; try lia; cbn in Hld; lia.
    + exists p0. rewrite !list_lookup_insert_ne by lia. split; [done|]. lia.
  - done.
Qed.

(** The process goes on in its frame. *)
Lemma moved_on i p a x : framed i p → at_ (main_resume (code p) a) = x → in_pipe (main_resume (code p) a) = in_pipe (code p) →
  out_pipe (main_resume (code p) a) = out_pipe (code p) → frame i x = frame i (pt p) ∨ frame i x = None →
  data_ok (main_resume (code p) a) → moved i p (goes_on main_resume p a) x.
Proof.
  intros Hf Hx Hi Ho Hfr Hd. split; try done. unfold framed in *. cbn. rewrite Hx. destruct Hfr as [-> | ->]; [|done].
  rewrite Hi, Ho. done.
Qed.

Lemma length_numbers vs : length (numbers vs) = (4 * length vs)%nat.
Proof. induction vs as [|v vs IH]; [done|]. rewrite numbers_cons, length_app, IH, length_le_bytes. cbn [length]. lia. Qed.

Lemma sum_flow (qs : list (list Z)) q x b : qs !! q = Some b →
  (sum_list (length <$> do_flow (Some (q, x)) qs) + length b = sum_list (length <$> qs) + length (do_io x b))%nat.
Proof. intros E. cbn. rewrite (alter_as_insert _ _ _ _ E). by apply sum_insert. Qed.

(** The end of a pipe. *)
Lemma writer_closed w q r : good w → uprocs w !! q = Some r → (S q < length (uprocs w))%nat → has (Wr q) w = false → (7 ≤ rank (pt r))%nat.
Proof.
  intros G E Hl Hh. pose proof (g_proc w G q r E) as Hok. pose proof (po_inner _ _ _ _ Hok Hl) as H4.
  destruct (decide (7 ≤ rank (pt r))%nat) as [|H7]; [done|]. exfalso.
  assert (alive r = Alive) as Ha. { destruct (decide (alive r = Alive)) as [|Hn]; [done|]. rewrite (po_dead _ _ _ _ Hok Hn) in H7. cbn in H7. lia. }
  assert (has (Wr q) w = true) as Ht; [|congruence]. apply has_true. exists q, r. split; [done|].
  pose proof (g_small w G) as Hs. unfold small in Hs. apply holds_wr; [lia|apply Hok|by apply Hok|lia].
Qed.

Lemma read_view w i p : good w → uprocs w !! i = Some p → alive p = Alive → pt p = P_read ∨ pt p = P_loop →
  ∃ q r vs, i = S q ∧ fd_at p (in_pipe (code p)).1 = Some (Rd q) ∧ uprocs w !! q = Some r ∧
    pipes w !! q = Some (numbers vs) ∧ Forall number_ok vs ∧ (vs ≠ [] → (5 ≤ rank (pt r))%nat) ∧
    (has (Wr q) w = false → (7 ≤ rank (pt r))%nat).
Proof.
  intros G E Ha Hx. pose proof (g_proc w G i p E) as Hok. pose proof (index_small w i p G E) as Hs.
  assert (framed i p) as Hf by by apply Hok. pose proof (po_belongs _ _ _ _ Hok) as Hb.
  destruct (fd_in i p) as [[q ->] Hfd]; [lia|done..|]. rewrite Nat.sub_succ, Nat.sub_0_r in Hfd.
  destruct (lookup_lt_is_Some_2 (uprocs w) q) as [r Er]; [lia|].
  assert (q < length (pipes w))%nat as Hq.
  { apply (g_valid w G q (Rd q)); [by left|]. apply has_true. exists (S q), p. split; [done|].
    pose proof (holds_rd (S q) p) as Hh. rewrite Nat.sub_succ, Nat.sub_0_r in Hh. apply Hh; [lia|done|done|].
    destruct Hx as [-> | ->]; cbn; lia. }
  apply lookup_lt_is_Some in Hq as [b Eb]. destruct (g_pipe w G q b Eb) as (vs & -> & Hvs & Hne).
  exists q, r, vs. repeat split; try done.
  - intros Hv. destruct (Hne Hv) as (r' & Er' & ?). congruence.
  - intros Hh. apply (writer_closed w q r G Er); [lia|done].
Qed.

Lemma number_limit v : number_ok v → (LIMIT <=? v) = false ∧ (v =? 0) = false.
Proof. unfold number_ok, LIMIT. lia. Qed.
(** What a stage does with a number, and with the end of its pipe. *)
Definition after_read (x : point) (h v : Z) : point :=
  match x with P_loop => if negb (v `mod` h =? 0) then P_write v else P_loop | _ => P_fork end.
Definition after_end (x : point) : point := match x with P_loop => P_close_in | _ => Exiting end.
Lemma resume_number l v : length (buf l) = 4%nat → number_ok v → at_ l = P_read ∨ at_ l = P_loop ∧ number_ok (number l) →
  main_resume l (ABytes (le_bytes 4 v)) =
    {| in_pipe := in_pipe l; out_pipe := out_pipe l; buf := le_bytes 4 v;
       number := (match at_ l with P_loop => number l | _ => v end); at_ := after_read (at_ l) (number l) v |}.
Proof.
  intros Hbuf Hv Hx. assert (write_at (buf l) 0 (le_bytes 4 v) = le_bytes 4 v) as Hw.
  { unfold write_at. rewrite length_le_bytes. cbn [take app]. rewrite drop_ge by lia. by rewrite app_nil_r. }
  pose proof (number_bytes v Hv) as Hb. unfold main_resume, set_buf. destruct l as [ip op bf h x]. cbn [at_ buf number in_pipe out_pipe] in *.
  destruct (le_bytes 4 v) as [|y bs]; [cbn in Hb; destruct Hv; lia|].
  destruct Hx as [-> | [-> Hh]]; cbn -[write_at le_val]; rewrite Hw, Hb.
  - by rewrite (proj1 (number_limit v Hv)).
  - rewrite (proj2 (number_limit h Hh)). by destruct (negb _).
Qed.
Lemma read_number i p v : framed i p → data_ok (code p) → number_ok v → pt p = P_read ∨ pt p = P_loop →
  moved i p (goes_on main_resume p (ABytes (le_bytes 4 v))) (after_read (pt p) (number (code p)) v).
Proof.
  intros Hf Hd Hv Hx.
  assert (length (buf (code p)) = 4%nat ∧ (pt p = P_read ∨ pt p = P_loop ∧ number_ok (number (code p)))) as [Hbuf Hnum].
  { unfold data_ok in Hd. destruct Hx as [E | E]; rewrite E in Hd; [auto|destruct Hd; auto]. }
  pose proof (resume_number _ v Hbuf Hv Hnum) as Hr. apply moved_on; try done; rewrite ?Hr; try done.
  - left. destruct Hnum as [E | [E _]]; rewrite E; unfold after_read; [done|]. by destruct (negb _).
  - unfold data_ok. destruct Hnum as [E | [E Hn]]; rewrite E; unfold after_read; [done|]. by destruct (negb _).
Qed.
Lemma read_end i p : framed i p → data_ok (code p) → pt p = P_read ∨ pt p = P_loop →
  moved i p (goes_on main_resume p (ABytes [])) (after_end (pt p)).
Proof.
  intros Hf Hd Hx. apply moved_on; try done; unfold main_resume; destruct Hx as [E | E]; rewrite E; try done; cbn; auto.
Qed.

Lemma good_read w i p fd n c : good w → uprocs w !! i = Some p → alive p = Alive → main_call (code p) = Some (CRead fd n) →
  serve i w = Some c → serve_read main_resume w p fd n = Some c → good (apply i c w).
Proof.
  intros G E Ha Hc Sv Hsr. pose proof (g_proc w G i p E) as Hok.
  assert ((pt p = P_read ∨ pt p = P_loop) ∧ fd = (in_pipe (code p)).1 ∧ n = 4%nat) as (Hx & -> & ->).
  { unfold main_call in Hc. destruct (pt p); try discriminate Hc; injection Hc as <- <-; auto. }
  destruct (read_view w i p G E Ha Hx) as (q & r & vs & -> & Hfd & Er & Eb & Hvs & Hne & Hend).
  assert (framed (S q) p) as Hf by by apply Hok. pose proof (po_data _ _ _ _ Hok) as Hd. pose proof (po_belongs _ _ _ _ Hok) as Hb.
  pose proof (valid_turn main_call main_resume _ w _ ltac:(apply G) Sv) as Hv.
  unfold serve_read in Hsr. rewrite Hfd, Eb in Hsr. destruct vs as [|v vs].
  - cbn in Hsr. destruct (has (Wr q) w) eqn:Eh; [done|]. injection Hsr as <-. specialize (Hend eq_refl).
    pose proof (read_end (S q) p Hf Hd Hx) as Hm.
    set (x := after_end (pt p)) in *. set (o := goes_on _ _ _) in *. pose proof (mv_pt _ _ _ _ Hm) as Hpo.
    assert (belongs (S q) x = true ∧ (rank (pt p) = 2 ∧ rank x = 8 ∨ rank (pt p) = 5 ∧ rank x = 6)%nat) as (Hbx & Hrx).
    { subst x. destruct Hx as [Hx | Hx]; rewrite Hx; cbn; auto. }
    assert (pending o = 0%nat) as Hpd by (unfold pending; rewrite Hpo; subst x; destruct Hx as [Hx | Hx]; by rewrite Hx).
    clearbody o x. eapply (good_only w (S q) p _ o x); try done; try lia.
    + intros Hn. pose proof (po_last _ _ _ _ Hok Hn). lia.
    + intros j r' [= <-] Er'. rewrite Er in Er'. injection Er' as <-. split; lia.
    + intros H8. apply lookup_ge_None_2. rewrite <- (last_is w (S q) p G E) by lia. lia.
  - apply Forall_cons_1 in Hvs as [Hv0 Hvs]. pose proof (read_number (S q) p v Hf Hd Hv0 Hx) as Hm.
    assert (Some {| own := goes_on main_resume p (ABytes (le_bytes 4 v)); reap := None; orphans := false; born := [];
      flow := Some (q, Take 4); fresh := false; said := [] |} = Some c) as Hc' by done. clear Hsr. injection Hc' as <-.
    set (x := after_read (pt p) (number (code p)) v) in *. set (o := goes_on _ _ _) in *. pose proof (mv_pt _ _ _ _ Hm) as Hpo.
    assert ((rank (pt p) ≤ rank x)%nat ∧ belongs (S q) x = true ∧ (rank (pt p) = 2 ∧ rank x = 3 ∨ rank (pt p) = 5 ∧ rank x = 5)%nat) as (Hr & Hbx & Hrx).
    { subst x. destruct Hx as [Hx | Hx]; rewrite Hx; unfold after_read; [by split_and!; [cbn; lia|done|left]|].
      destruct (negb _); (split_and!; [cbn; lia|done|by right]). }
    specialize (Hne ltac:(done)). clearbody o x. apply (good_plain w (S q) p _ 0); try done; cbn [own flow].
    + eapply proc_ok_moved; try done; intros Hn.
      * pose proof (po_last _ _ _ _ Hok Hn). lia.
      * pose proof (po_inner _ _ _ _ Hok Hn). lia.
      * right. lia.
    + by rewrite Hpo.
    + intros j r' [= <-] Er'. rewrite Er in Er'. injection Er' as <-. rewrite Hpo. split; lia.
    + rewrite Hpo. lia.
    + rewrite (mv_alive _ _ _ _ Hm). congruence.
    + intros k b Hk. cbn in Hk. destruct (decide (q = k)) as [<-|Hqk].
      * rewrite list_lookup_alter_eq, Eb in Hk. cbn [fmap option_fmap option_map] in Hk. injection Hk as <-.
        exists vs. split; [done|]. split; [done|]. intros _. exists r. by rewrite list_lookup_insert_ne by lia.
      * rewrite list_lookup_alter_ne in Hk by done. apply (pipes_insert w (S q) p); [done|done|by rewrite Hpo|done].
    + pose proof (sum_flow _ q (Take 4) _ Eb) as Hs. cbn [do_io] in Hs. rewrite length_drop, length_numbers in Hs. cbn [length] in Hs.
      assert (pending o ≤ 4)%nat by (unfold pending; destruct (pt o); lia). lia.
Qed.

(** Writing never waits and never fails: all the numbers together fit into one
    pipe, and the reader is there. *)
Lemma load_bound w : good w → (load w ≤ 132)%nat.
Proof.
  intros G. destruct (g_load w G) as (p0 & E0 & Hl). pose proof (po_data _ _ _ _ (g_proc w G _ p0 E0)) as Hd.
  unfold data_ok, number_ok, LIMIT in Hd. unfold written in Hl. destruct (pt p0); cbn in *; lia.
Qed.
Lemma sum_lookup (qs : list (list Z)) q b : qs !! q = Some b → (length b ≤ sum_list (length <$> qs))%nat.
Proof. intros E. rewrite <- (take_drop_middle qs q b E), fmap_app, sum_list_with_app. cbn. lia. Qed.
Lemma write_view w i p v : good w → uprocs w !! i = Some p → alive p = Alive → pt p = M_write v ∨ pt p = P_write v →
  number_ok v ∧ sent p = 0%nat ∧ (S i < length (uprocs w))%nat ∧
  (∃ fd, main_call (code p) = Some (CWrite fd (le_bytes 4 v)) ∧ fd_at p fd = Some (Wr i)) ∧
  has (Rd i) w = true ∧ ∃ b, pipes w !! i = Some b ∧ (length b + 4 ≤ PIPESIZE)%nat.
Proof.
  intros G E Ha Hx. pose proof (g_proc w G i p E) as Hok. assert (framed i p) as Hf by by apply Hok.
  pose proof (po_belongs _ _ _ _ Hok) as Hb. assert (rank (pt p) = 5%nat) as Hr by (by destruct Hx as [-> | ->]).
  assert (i < STAGES)%nat as Hi by (apply (inner_small w i p G E); lia). pose proof (index_small w i p G E) as Hs.
  assert (S i < length (uprocs w))%nat as Hin.
  { destruct (decide (S i = length (uprocs w))) as [Hn|]; [|lia]. pose proof (po_last _ _ _ _ Hok Hn). lia. }
  split. { pose proof (po_data _ _ _ _ Hok) as Hd. unfold data_ok in Hd. destruct Hx as [Hx | Hx]; rewrite Hx in Hd; tauto. }
  split; [apply Hok|]. split; [done|]. split; [by apply (fd_out i p v)|]. split.
  - destruct (lookup_lt_is_Some_2 _ _ Hin) as [r Er]. pose proof (g_proc w G _ r Er) as Hokr.
    assert (rank (pt r) ≤ 5)%nat as Hrr.
    { destruct (decide (6 ≤ rank (pt r))%nat) as [H6|]; [|lia]. pose proof (ln_end _ _ (g_link w G i p r E Er) H6). lia. }
    apply has_true. exists (S i), r. split; [done|]. pose proof (holds_rd (S i) r) as Hh. rewrite Nat.sub_succ, Nat.sub_0_r in Hh.
    apply Hh; [lia|apply Hokr| |done]. apply Hokr. destruct (decide (alive r = Alive)) as [|Hn]; [done|].
    rewrite (po_dead _ _ _ _ Hokr Hn) in Hrr. cbn in Hrr. lia.
  - assert (i < length (pipes w))%nat as Hp.
    { apply (g_valid w G i (Wr i)); [by right|]. apply has_true. exists i, p. split; [done|]. apply holds_wr; [done..|lia]. }
    apply lookup_lt_is_Some in Hp as [b Eb]. exists b. split; [done|]. pose proof (load_bound w G) as Hl. pose proof (sum_lookup _ _ _ Eb).
    unfold load in Hl. unfold PIPESIZE. lia.
Qed.
Lemma resume_write l v a : at_ l = M_write v ∨ at_ l = P_write v →
  main_resume l a = go (match at_ l with P_write _ => P_loop | _ => if v + 1 <? LIMIT then M_write (v + 1) else M_close_w end) l.
Proof. unfold main_resume. intros [-> | ->]; [|done]. by destruct (_ <? _). Qed.

Lemma good_print w i p n c : good w → uprocs w !! i = Some p → alive p = Alive → pt p = P_print n →
  serve i w = Some c → serve_write main_resume w p 1 (nth n (println_prime (number (code p))) []) = Some c → good (apply i c w).
Proof.
  intros G E Ha Hx Sv Hsw. pose proof (g_proc w G i p E) as Hok. assert (framed i p) as Hf by by apply Hok.
  pose proof (po_belongs _ _ _ _ Hok) as Hb. assert (rank (pt p) = 4%nat) as Hr by (by rewrite Hx).
  assert (i < STAGES)%nat as Hi by (apply (inner_small w i p G E); lia).
  pose proof (valid_turn main_call main_resume _ w _ ltac:(apply G) Sv) as Hv. unfold serve_write in Hsw.
  rewrite (fd_tty i p n) in Hsw by done. injection Hsw as <-. set (o := goes_on _ _ _) in *.
  set (x := if (n + 1 <? length (println_prime (number (code p))))%nat then P_print (n + 1) else P_loop).
  assert (moved i p o x) as Hm.
  { pose proof (po_data _ _ _ _ Hok) as Hd. unfold data_ok in Hd. rewrite Hx in Hd.
    assert (∀ a, main_resume (code p) a = go x (code p)) as Hm.
    { intros a. unfold main_resume. rewrite Hx. unfold x. by destruct (_ <? _)%nat. }
    apply moved_on; rewrite ?Hm; try done; unfold x; [rewrite Hx|unfold data_ok]; destruct (_ <? _)%nat; cbn; auto. }
  assert (belongs i x = true ∧ (4 ≤ rank x ≤ 5)%nat ∧ pending o = 0%nat) as (Hbx & Hrx & Hpd).
  { rewrite Hx in Hb. unfold pending. rewrite (mv_pt _ _ _ _ Hm). unfold x. destruct (_ <? _)%nat; (split; [done|]); cbn; lia. }
  clearbody o x. eapply (good_only w i p _ o x); try done; try lia.
  - intros Hn. pose proof (po_last _ _ _ _ Hok Hn). lia.
  - intros ->. by rewrite Hx in Hb.
Qed.

Lemma good_number w i p v fd c : good w → uprocs w !! i = Some p → alive p = Alive → pt p = M_write v ∨ pt p = P_write v →
  main_call (code p) = Some (CWrite fd (le_bytes 4 v)) → serve i w = Some c → serve_write main_resume w p fd (le_bytes 4 v) = Some c →
  good (apply i c w).
Proof.
  intros G E Ha Hx Hc Sv Hsw. pose proof (g_proc w G i p E) as Hok. assert (framed i p) as Hf by by apply Hok.
  destruct (write_view w i p v G E Ha Hx) as (Hv & Hse & Hin & (fd' & Hc' & Hfd) & Hrd & b & Eb & Hroom).
  rewrite Hc in Hc'. injection Hc' as <-. pose proof (po_belongs _ _ _ _ Hok) as Hb.
  pose proof (valid_turn main_call main_resume _ w _ ltac:(apply G) Sv) as Hvl.
  unfold serve_write in Hsw. rewrite Hfd, Eb, Hse, Hrd in Hsw. cbn -[le_bytes PIPESIZE] in Hsw. rewrite drop_0 in Hsw.
  rewrite bool_decide_false in Hsw by done. rewrite length_le_bytes in Hsw.
  destruct (Nat.leb_spec 4 (PIPESIZE - length b)); [|lia].
  assert (c = {| own := goes_on main_resume p (AInt (Z.of_nat 4)); reap := None; orphans := false; born := [];
    flow := Some (i, Put (le_bytes 4 v)); fresh := false; said := [] |}) as -> by congruence.
  clear Hsw Sv. set (o := goes_on _ _ _) in *.
  set (x := match pt p with P_write _ => P_loop | _ => if v + 1 <? LIMIT then M_write (v + 1) else M_close_w end).
  assert (moved i p o x) as Hm.
  { pose proof (po_data _ _ _ _ Hok) as Hd. unfold data_ok in Hd. apply moved_on; rewrite ?(resume_write _ v) by done; try done; unfold x.
    - destruct Hx as [Hx | Hx]; rewrite Hx; [|auto]. destruct (_ <? _); auto.
    - unfold data_ok. destruct Hx as [Hx | Hx]; rewrite Hx in *; cbn.
      + destruct (Z.ltb_spec (v + 1) LIMIT); cbn; [|done]. unfold number_ok in *. lia.
      + tauto. }
  assert (rank (pt p) = 5 ∧ rank x = 5 ∧ belongs i x = true)%nat as (Hr & Hrx & Hbx).
  { unfold x. destruct Hx as [Hx | Hx]; rewrite Hx in Hb |- *; [|done]. by destruct (_ <? _). }
  assert (if decide (i = 0%nat) then pending p = 0 ∧ pending o = 0 ∧ written (pt p) + 4 ≤ written x else pending p = 4 ∧ pending o = 0)%nat as Hld.
  { unfold pending. rewrite (mv_pt _ _ _ _ Hm). unfold x, number_ok, LIMIT in *.
    destruct Hx as [Hx | Hx]; rewrite Hx in Hb |- *; cbn in Hb; destruct (decide _); subst; try done; [|by destruct i].
    destruct (Z.ltb_spec (v + 1) 35); cbn; lia. }
  pose proof (mv_pt _ _ _ _ Hm) as Hpo. clearbody o x.
  assert (∀ vs, numbers vs ++ le_bytes 4 v = numbers (vs ++ [v])) as Hsnoc.
  { intros vs. unfold numbers. rewrite fmap_app, concat_app. cbn -[le_bytes]. by rewrite app_nil_r. }
  pose proof (sum_flow _ i (Put (le_bytes 4 v)) b Eb) as Hs. cbn [do_io] in Hs. rewrite length_app, length_le_bytes in Hs.
  clear Hc. revert Hsnoc Hs Hvl. generalize (le_bytes 4 v). intros bs Hsnoc Hs Hvl.
  apply (good_plain w i p _ (if decide (i = 0%nat) then 4 else 0)%nat); try done; cbn [own flow]; rewrite ?Hpo; try lia.
  - eapply proc_ok_moved; try done; intros Hn; lia.
  - rewrite (mv_alive _ _ _ _ Hm). congruence.
  - intros k b' Hk. destruct (decide (i = k)) as [<-|Hik].
    + cbn in Hk. rewrite list_lookup_alter_eq, Eb in Hk. injection Hk as <-. destruct (g_pipe w G i b Eb) as (vs & -> & Hvs & _).
      exists (vs ++ [v]). split; [apply Hsnoc|]. split; [apply Forall_app; auto|]. intros _. exists o.
      rewrite list_lookup_insert_eq by by eapply lookup_lt_Some. rewrite Hpo. split; [done|lia].
    + cbn in Hk. rewrite list_lookup_alter_ne in Hk by done. apply (pipes_insert w i p); [done|done|rewrite Hpo; lia|done].
  - destruct (decide _); lia.
  - destruct (decide _); [lia|done].
Qed.

Lemma good_turn w i w' : good w → turn i w = Some w' → small w' → good w'.
Proof.
  intros G (c & Sv & ->)%turn_serve Hsm. destruct (serve_call _ _ _ _ _ Sv) as (p & x & E & Ha & Hc & Hd).
  destruct x; cbn in Hd; [injection Hd as Hd; symmetry in Hd..| | | |injection Hd as Hd; symmetry in Hd].
  - by eapply good_pipe.
  - by eapply good_fork.
  - by eapply good_close.
  - by eapply good_read.
  - pose proof Hc as Hc'. unfold main_call in Hc'. destruct (pt p) eqn:Ep; try discriminate Hc'; injection Hc' as <- <-.
    + eapply good_number; eauto.
    + eapply good_print; eauto.
    + eapply good_number; eauto.
  - by eapply good_wait.
  - by eapply good_exit.
Qed.

(** ** Turns commute *)
Lemma below w i j p q : good w → (i < j)%nat → uprocs w !! i = Some p → uprocs w !! j = Some q → (3 ≤ rank (pt q))%nat → (5 ≤ rank (pt p))%nat.
Proof.
  intros G Hij Ep Eq Hq. pose proof (lookup_lt_Some _ _ _ Eq) as Hj. destruct (decide (j = S i)) as [->|Hne].
  - by apply (ln_start _ _ (g_link w G i p q Ep Eq)).
  - destruct (lookup_lt_is_Some_2 (uprocs w) (S i)) as [r Er]; [lia|]. apply (ln_start _ _ (g_link w G i p r Ep Er)).
    pose proof (po_inner _ _ _ _ (g_proc w G _ r Er)). lia.
Qed.
(** At most one process is about to make a pipe, to fork or to print. *)
Lemma only_one w i j p q : good w → i ≠ j → uprocs w !! i = Some p → uprocs w !! j = Some q →
  (rank (pt p) ≤ 4)%nat → rank (pt q) = rank (pt p) → False.
Proof.
  intros G Hij Ep Eq Hp Hq. destruct (decide (rank (pt p) ≤ 3)%nat) as [H3|H3].
  - pose proof (last_is w i p G Ep H3). pose proof (last_is w j q G Eq ltac:(lia)). lia.
  - destruct (decide (i < j)%nat); [pose proof (below w i j p q G ltac:(lia) Ep Eq ltac:(lia))|pose proof (below w j i q p G ltac:(lia) Eq Ep ltac:(lia))]; lia.
Qed.

Record tame (w : world) (j : nat) (p : uproc) (c : change) : Prop := {
  t_reap : ∀ k, reap c = Some k → k = S j ∧ ∃ q, uprocs w !! k = Some q ∧ alive q = Zombie;
  t_born : born c = [] ∨ rank (pt p) = 3%nat;
  t_fresh : fresh c = false ∨ rank (pt p) = 0%nat;
  t_said : said c = [] ∨ rank (pt p) = 4%nat;
  t_flow : ∀ q x, flow c = Some (q, x) →
    (j = S q ∧ x = Take 4 ∧ ∃ v vs, pipes w !! q = Some (numbers (v :: vs))) ∨
    (q = j ∧ ∃ bs, x = Put bs ∧ has (Wr j) w = true ∧ (j < length (pipes w))%nat);
  t_orphans : orphans c = true → ∀ k q, uprocs w !! k = Some q → parent q ≠ Some j;
  t_parent : parent (own c) ≠ Some j;
}.
Lemma serve_tame w j p c : good w → uprocs w !! j = Some p → serve j w = Some c → tame w j p c.
Proof.
  intros G E Sv. destruct (serve_call _ _ _ _ _ Sv) as (p' & x & E' & Ha & Hc & Hd). rewrite E in E'. injection E' as <-.
  assert (parent p ≠ Some j) as Hpar by (intros Hp; destruct (stage_child_of w j j p G E Hp); lia).
  destruct x; cbn in Hd.
  - injection Hd as <-. unfold serve_pipe. destruct (take 2 _) as [|? [|? []]]; split; cbn; try done; auto.
    right. unfold main_call in Hc. by destruct (pt p).
  - injection Hd as <-. split; cbn; try done; auto. right. unfold main_call in Hc. by destruct (pt p).
  - injection Hd as <-. unfold serve_close. destruct (fd_at p fd); split; cbn; try done; auto.
  - assert ((pt p = P_read ∨ pt p = P_loop) ∧ fd = (in_pipe (code p)).1 ∧ n = 4%nat) as (Hx & -> & ->).
    { unfold main_call in Hc. destruct (pt p); try discriminate Hc; injection Hc as <- <-; auto. }
    destruct (read_view w j p G E Ha Hx) as (q & r & vs & -> & Hfd & Er & Eb & Hvs & _ & _).
    unfold serve_read in Hd. rewrite Hfd, Eb in Hd. destruct vs as [|v vs].
    + cbn in Hd. destruct (has _ _); [done|]. injection Hd as <-. split; cbn; try done; auto.
    + injection Hd as <-. split; cbn; try done; auto. intros q' x [= <- <-]. left. split; [done|]. split; [done|]. exists v, vs. exact Eb.
  - assert ((∃ v, (pt p = M_write v ∨ pt p = P_write v) ∧ bs = le_bytes 4 v) ∨ ∃ n, pt p = P_print n ∧ fd = 1) as [(v & Hx & ->)|(n & Hx & ->)].
    { unfold main_call in Hc. destruct (pt p); try discriminate Hc; injection Hc as <- <-; eauto. }
    + destruct (write_view w j p v G E Ha Hx) as (_ & Hse & _ & (fd' & Hc' & Hfd) & Hrd & b & Eb & Hroom).
      rewrite Hc in Hc'. injection Hc' as <-. pose proof (lookup_lt_Some _ _ _ Eb) as Hl.
      assert (has (Wr j) w = true) as Hwr.
      { apply has_true. exists j, p. split; [done|]. unfold fd_at in Hfd. destruct (_ && _); [|done].
        destruct (fdt p !! _) as [d|] eqn:Ed; [|done]. cbn in Hfd. subst d. by eapply list_elem_of_lookup_2. }
      unfold serve_write in Hd. rewrite Hfd, Eb in Hd. cbn -[PIPESIZE le_bytes] in Hd.
      repeat case_match; try done; injection Hd as <-; split; cbn -[PIPESIZE le_bytes]; try done; auto;
        intros q' y [= <- <-]; right; split; [done| |done|]; eauto.
    + assert (rank (pt p) = 4%nat) as Hr by by rewrite Hx. pose proof (g_proc w G j p E) as Hok.
      unfold serve_write in Hd. rewrite (fd_tty j p n) in Hd; [|apply (inner_small w j p G E); lia|apply Hok|by apply Hok|done].
      injection Hd as <-. split; cbn; try done; auto.
  - destruct (wait_view w j p G E Hc) as (q & Eq & Hp & Hch & Hfind). unfold serve_wait in Hd. rewrite Hfind, Hch in Hd.
    destruct (decide (alive q = Zombie)); [|done]. injection Hd as <-. split; cbn; try done; auto.
    intros k [= <-]. eauto.
  - injection Hd as <-. destruct (good_exit w j p _ G E Ha Hc Sv eq_refl) as (_ & _ & Hno). split; cbn; try done; auto.
Qed.

Lemma kept_calm w j c p : good w → uprocs w !! j = Some p → serve j w = Some c → apply j c w = apply j (calm c) w.
Proof. intros G E Sv. pose proof (serve_tame w j p c G E Sv) as []. by apply apply_calm. Qed.
Lemma kept_entry w i j c p : good w → serve j w = Some c → i ≠ j → uprocs w !! i = Some p → (alive p = Zombie → i ≠ S j) →
  uprocs (apply j c w) !! i = Some p.
Proof.
  intros G Sv Hij E Ha. destruct (serve_alive _ _ _ _ _ Sv) as (q & Eq & _). rewrite (kept_calm w j c q G Eq Sv).
  apply apply_other; [done| |done|done]. cbn. intros Hr. destruct (t_reap _ _ _ _ (serve_tame w j q c G Eq Sv) i Hr) as (-> & r & Er & Hz).
  rewrite E in Er. injection Er as ->. by apply (Ha Hz).
Qed.
Lemma kept_pipe w j c p q b : good w → uprocs w !! j = Some p → serve j w = Some c → pipes w !! q = Some b → j ≠ S q →
  ∃ ext, pipes (apply j c w) !! q = Some (b ++ ext) ∧ (has (Wr q) w = false → ext = []).
Proof.
  intros G E Sv Eb Hj. pose proof (serve_tame w j p c G E Sv) as Ht. pose proof (lookup_lt_Some _ _ _ Eb) as Hl. unfold apply. cbn.
  assert (∀ ext, do_flow (flow c) (pipes w) !! q = Some (b ++ ext) → (do_flow (flow c) (pipes w) ++ (if fresh c then [[]] else [])) !! q = Some (b ++ ext)) as Happ
    by (intros ext He; by apply lookup_app_l_Some).
  unfold do_flow in *. destruct (flow c) as [[q' x]|] eqn:Ef.
  - destruct (decide (q' = q)) as [->|Hq].
    + destruct (t_flow _ _ _ _ Ht q x Ef) as [(-> & _)|(<- & bs & -> & Hw & _)]; [done|]. exists bs. split; [|congruence].
      apply Happ. rewrite list_lookup_alter_eq, Eb. done.
    + exists []. split; [|done]. apply Happ. rewrite list_lookup_alter_ne by done. by rewrite app_nil_r.
  - exists []. split; [|done]. apply Happ. by rewrite app_nil_r.
Qed.

Lemma persist w i j w1 c : good w → good w1 → i ≠ j → turn j w = Some w1 → serve i w = Some c → serve i w1 = Some c.
Proof.
  intros G G1 Hij (cj & Sj & ->)%turn_serve Sv. destruct (serve_call _ _ _ _ _ Sv) as (p & x & E & Ha & Hc & Hd).
  destruct (serve_alive _ _ _ _ _ Sj) as (q & Eq & Hq). pose proof (serve_tame w j q cj G Eq Sj) as Ht.
  pose proof (kept_entry w i j cj p G Sj Hij E ltac:(congruence)) as E1.
  eapply serve_stable; [exact E|exact E1| |exact Sv]. unfold undisturbed. rewrite Hc. destruct x; try done.
  - assert (rank (pt p) = 0%nat) as Hr by (unfold main_call in Hc; by destruct (pt p)).
    rewrite length_pipes_apply. destruct (t_fresh _ _ _ _ Ht) as [-> | Hf]; [lia|].
    destruct (only_one w i j p q G Hij E Eq); lia.
  - assert (rank (pt p) = 3%nat) as Hr by (unfold main_call in Hc; by destruct (pt p)).
    rewrite length_apply. destruct (t_born _ _ _ _ Ht) as [-> | Hf]; [cbn; lia|].
    destruct (only_one w i j p q G Hij E Eq); lia.
  - assert ((pt p = P_read ∨ pt p = P_loop) ∧ fd = (in_pipe (code p)).1 ∧ n = 4%nat) as (Hx & -> & ->).
    { unfold main_call in Hc. destruct (pt p); try discriminate Hc; injection Hc as <- <-; auto. }
    destruct (read_view w i p G E Ha Hx) as (q' & r & vs & -> & Hfd & Er & Eb & Hvs & _ & _).
    intros q0 Hq0. rewrite Hfd in Hq0. injection Hq0 as <-.
    destruct (kept_pipe w j cj q q' _ G Eq Sj Eb ltac:(done)) as (ext & Eb1 & Hext). exists (numbers vs), ext. split; [done|]. split; [done|].
    destruct (decide _) as [Hn|Hn].
    + intros Hw. split; [auto|]. destruct (has (Wr q') (apply j cj w)) eqn:Eh; [|done].
      destruct (has_apply _ _ _ _ _ _ Sj Eh) as [|[_ [[=]|[= ->]]]]; [congruence|]. apply lookup_lt_Some in Eb. lia.
    + destruct vs; [done|]. rewrite length_numbers. cbn [length]. lia.
  - assert ((∃ v, (pt p = M_write v ∨ pt p = P_write v) ∧ bs = le_bytes 4 v) ∨ ∃ n, pt p = P_print n ∧ fd = 1) as [(v & Hx & ->)|(n & Hx & ->)].
    { unfold main_call in Hc. destruct (pt p); try discriminate Hc; injection Hc as <- <-; eauto. }
    + destruct (write_view w i p v G E Ha Hx) as (_ & Hse & _ & (fd' & Hc' & Hfd) & Hrd & b & Eb & Hroom).
      destruct (write_view _ i p v G1 E1 Ha Hx) as (_ & _ & _ & _ & Hrd1 & b1 & Eb1 & Hroom1).
      rewrite Hc in Hc'. injection Hc' as <-. intros q0 Hq0. rewrite Hfd in Hq0. injection Hq0 as <-.
      split; [done|]. split; [done|]. rewrite length_le_bytes. intros v' [-> | ->]; eauto.
    + intros q0 Hq0. pose proof (g_proc w G i p E) as Hok. assert (rank (pt p) = 4%nat) as Hr by by rewrite Hx.
      rewrite (fd_tty i p n) in Hq0; [done|apply (inner_small w i p G E); lia|apply Hok|by apply Hok|done].
  - destruct (wait_view w i p G E Hc) as (r & Er & Hp & Hch & Hfind). destruct (wait_view _ i p G1 E1 Hc) as (r1 & Er1 & _ & Hch1 & Hfind1).
    cbn in Hd. unfold serve_wait in Hd. rewrite Hfind, Hch in Hd. destruct (decide (alive r = Zombie)) as [Hz|]; [|done].
    rewrite Hfind1, Hch1, Hfind, Hch. split; [|done].
    rewrite (kept_entry w (S i) j cj r G Sj) in Er1; [|congruence|done|lia]. injection Er1 as <-. by rewrite decide_True.
Qed.

Lemma commute w i j ci cj : good w → good (apply i ci w) → good (apply j cj w) → i ≠ j →
  serve i w = Some ci → serve j w = Some cj → serve i (apply j cj w) = Some ci → serve j (apply i ci w) = Some cj →
  apply j cj (apply i ci w) = apply i ci (apply j cj w).
Proof.
  intros G Gi Gj Hij Si Sj Si' Sj'. destruct (serve_alive _ _ _ _ _ Si) as (p & Ep & Hp). destruct (serve_alive _ _ _ _ _ Sj) as (q & Eq & Hq).
  destruct (serve_alive _ _ _ _ _ Si') as (p' & Ep' & _). destruct (serve_alive _ _ _ _ _ Sj') as (q' & Eq' & _).
  rewrite (kept_calm _ j cj q' Gi Eq' Sj'), (kept_calm _ i ci p' Gj Ep' Si'), (kept_calm _ j cj q G Eq Sj), (kept_calm _ i ci p G Ep Si).
  pose proof (serve_tame w i p ci G Ep Si) as Ti. pose proof (serve_tame w j q cj G Eq Sj) as Tj.
  assert (∀ a b, rank (pt p) = a → rank (pt q) = a → (a ≤ 4)%nat → b) as Honly.
  { intros a b Ha Hb H4. exfalso. apply (only_one w i j p q G Hij Ep Eq); lia. }
  apply apply_comm; cbn [calm own reap orphans born flow fresh said]; try done.
  - by eapply lookup_lt_Some.
  - by eapply lookup_lt_Some.
  - intros k [Hk|Hk].
    + destruct (t_reap _ _ _ _ Ti k Hk) as (-> & r & Er & Hz). split; [by eapply lookup_lt_Some|]. split; [lia|]. intros Hj. rewrite <- Hj in Eq. congruence.
    + destruct (t_reap _ _ _ _ Tj k Hk) as (-> & r & Er & Hz). split; [by eapply lookup_lt_Some|]. split; [|lia]. intros Hj. rewrite <- Hj in Ep. congruence.
  - destruct (t_born _ _ _ _ Ti), (t_born _ _ _ _ Tj); auto. eapply Honly; eauto; lia.
  - destruct (t_fresh _ _ _ _ Ti), (t_fresh _ _ _ _ Tj); auto. eapply Honly; eauto; lia.
  - destruct (t_said _ _ _ _ Ti), (t_said _ _ _ _ Tj); auto. eapply Honly; eauto; lia.
  - intros k x [Hk|Hk].
    + destruct (t_flow _ _ _ _ Ti k x Hk) as [(_ & _ & v & vs & E)|(-> & _ & _ & _ & Hl)]; [by eapply lookup_lt_Some|done].
    + destruct (t_flow _ _ _ _ Tj k x Hk) as [(_ & _ & v & vs & E)|(-> & _ & _ & _ & Hl)]; [by eapply lookup_lt_Some|done].
  - intros k x y b Hx Hy Eb.
    destruct (t_flow _ _ _ _ Ti k x Hx) as [(-> & -> & v & vs & E)|(-> & bs & -> & _)], (t_flow _ _ _ _ Tj _ y Hy) as [(Hj & -> & v' & vs' & E')|(Hj & bs' & -> & _)]; try congruence.
    + rewrite E in Eb. injection Eb as <-. cbn [do_io]. rewrite drop_app_le; [done|]. rewrite length_numbers. cbn [length]. lia.
    + rewrite E' in Eb. injection Eb as <-. cbn [do_io]. rewrite drop_app_le; [done|]. rewrite length_numbers. cbn [length]. lia.
Qed.

(** ** The result *)
Lemma good_started : good started.
Proof.
  split.
  - unfold small. cbn. unfold STAGES. lia.
  - intros k p Hk. assert (k = 0%nat) as -> by (apply lookup_lt_Some in Hk; cbn in Hk; lia). injection Hk as <-. split; cbn; try done; auto. lia.
  - intros k p q _ Hk. apply lookup_lt_Some in Hk. cbn in Hk. lia.
  - done.
  - eexists. split; [done|]. cbn. lia.
  - intros q d Hq (k & p & Hk & Hd)%has_true. assert (k = 0%nat) as -> by (apply lookup_lt_Some in Hk; cbn in Hk; lia). injection Hk as <-.
    cbn in Hd. exfalso. destruct Hq as [-> | ->]; set_solver.
Qed.
Lemma stuck_final w : stuck main_call main_resume w = true → final main_call main_resume w.
Proof.
  intros Hs i. destruct (decide (i < length (uprocs w))%nat) as [Hi|Hi].
  - unfold stuck in Hs. rewrite forallb_forall in Hs. apply (bool_decide_unpack _), Is_true_true, Hs, in_seq. lia.
  - unfold turn, serve. rewrite lookup_ge_None_2 by lia. done.
Qed.

Definition schedule : list nat := first_run 1000 started.
Definition finished : world := default started (run schedule started).

(** Primes by trial division. *)
Definition is_prime (n : Z) : bool := (2 <=? n) && forallb (λ d, negb (n `mod` d =? 0)) (seqZ 2 (n - 2)).
Lemma is_prime_spec n : is_prime n = true ↔ prime n.
Proof.
  unfold is_prime. rewrite andb_true_iff, Z.leb_le, forallb_forall, <- prime_alt. unfold Z.prime. split; intros [H1 H2].
  - split; [lia|]. intros d Hd [z ->]. specialize (H2 d). rewrite Z.mod_mul in H2 by lia. cbn in H2.
    assert (false = true); [|done]. apply H2, list_elem_of_In, elem_of_seqZ. lia.
  - split; [lia|]. intros d Hd%list_elem_of_In%elem_of_seqZ. destruct (Z.eqb_spec (n `mod` d) 0) as [He|]; [|done].
    exfalso. apply (H2 d); [lia|]. apply Z.mod_divide; [lia|done].
Qed.

Lemma runs_alike f schedule sched w : run schedule started = Some f → final main_call main_resume f → small f →
  run sched started = Some w → ∃ rest, run rest w = Some f ∧ (length sched + length rest = length schedule)%nat.
Proof.
  intros Hr Hf Hs Hw.
  destruct (same_end main_call main_resume good small good_turn) with (sched := schedule) (w := started) (f := f) (sched1 := sched) (w1 := w)
    as (_ & rest & Hrest & Hl); try done.
  - intros v i v' (c & _ & ->)%turn_serve Hv. unfold small in *. rewrite length_apply in Hv. lia.
  - intros v j v1 i c (c' & _ & ->)%turn_serve Hv. unfold small in *. rewrite !length_apply in Hv. rewrite length_apply. lia.
  - exact persist.
  - exact commute.
  - apply good_started.
  - eauto.
Qed.

(** C13. The sieve prints the primes.  However its processes are interleaved, the
    program of [primes_rust.rs] never deadlocks and always ends, after the same
    321 system calls and in the same state: every run can be continued to
    [finished], where the console shows exactly the primes below 35 in order,
    a line each, every stage has exited and was waited for, and every pipe is
    empty. *)
Theorem sieve_prints_primes : ∃ f ps,
  (∀ sched w, run sched started = Some w → ∃ rest, run rest w = Some f ∧ (length sched + length rest = 321)%nat) ∧
  final main_call main_resume f ∧
  StronglySorted Z.lt ps ∧ (∀ n, n ∈ ps ↔ prime n ∧ n < LIMIT) ∧
  tty f = concat ((λ h, concat (println_prime h)) <$> ps) ∧
  (∀ k p, uprocs f !! k = Some p → pt p = Exiting ∧ alive p = if decide (k = 0%nat) then Zombie else Reaped) ∧
  (∀ b, b ∈ pipes f → b = []).
Proof.
  exists finished, [2; 3; 5; 7; 11; 13; 17; 19; 23; 29; 31].
  assert (run schedule started = Some finished ∧ length schedule = 321%nat ∧ final main_call main_resume finished ∧ small finished) as (Hr & Hlen & Hf & Hs).
  { split; [by vm_compute|]. split; [by vm_compute|]. split; [apply stuck_final; by vm_compute|]. apply Nat.leb_le. by vm_compute. }
  split.
  { intros sched w Hw. rewrite <- Hlen. by apply (runs_alike finished schedule). }
  split; [done|]. split; [|split; [|split; [by vm_compute|split]]].
  - repeat constructor; lia.
  - intros n. rewrite <- is_prime_spec. split.
    + intros Hn. set_unfold in Hn. destruct_or! Hn; subst; (split; [by vm_compute|unfold LIMIT; lia]).
    + intros [Hn Hlt]. assert (n ∈ filter (λ n, is_prime n = true) (seqZ 2 33)) as Hin; [|by vm_compute in Hin].
      apply list_elem_of_filter. split; [done|]. apply elem_of_seqZ. unfold is_prime in Hn. apply andb_true_iff in Hn as [Hn%Z.leb_le _].
      unfold LIMIT in Hlt. lia.
  - intros k p Hk. assert (k < 13)%nat as Hlt.
    { apply lookup_lt_Some in Hk. assert (length (uprocs finished) = 13%nat) as Hl by by vm_compute. by rewrite Hl in Hk. }
    assert (forallb (λ k, match uprocs finished !! k with
      | Some p => bool_decide (alive p = if decide (k = 0%nat) then Zombie else Reaped) && match pt p with Exiting => true | _ => false end
      | None => false end) (seq 0 13) = true) as Hall by by vm_compute.
    rewrite forallb_forall in Hall. specialize (Hall k ltac:(apply in_seq; lia)). rewrite Hk in Hall.
    apply andb_true_iff in Hall as [Hall%bool_decide_eq_true Hx]. split; [|done]. by destruct (pt p).
  - intros b Hb. assert (forallb (λ b, bool_decide (b = [])) (pipes finished) = true) as Hall by by vm_compute.
    rewrite forallb_forall in Hall. apply list_elem_of_In, Hall, bool_decide_eq_true in Hb. done.
Qed.

(** The twelfth stage is the first without a pipe of its own: its table is full,
    [pipe] fails, and the result is ignored. *)
Example last_stage_has_no_pipe : (λ p, out_pipe (code p)) <$> uprocs finished !! 11%nat = Some (14, 15) ∧
  (λ p, out_pipe (code p)) <$> uprocs finished !! 12%nat = Some (0, 0).
Proof. by vm_compute. Qed.
