(* ===== verification/Trap.v ===== *)
(** * Traps, the clock and the interrupt controller ([kernel/src/trap.rs],
    [plic.rs], [register/], [start.rs]; the calls of [proc/syscall.rs] that are
    not about files)

    The state is the process layer with the tick counter, the control registers
    of the hart that runs, and the record of what was done to the devices.  What
    the interrupt controller answers to a claim is an input.  The handlers of
    the serial port and of the disk are the ones of [Console] and [Virtio];
    here their calls are recorded.

    [trap.rs] does not compile as it is: it names the process both [process] and
    [p], its trap frame [tf], and it matches [ScauseType::PageFault], which is
    nowhere declared, against a [Trap].  The names are read as the ones that
    exist; which traps that arm takes is a parameter. *)
From S2P Require Import Prelude Consts Alloc Addr Bytes PageTable Uvm Kvm Locks Sched Proc.

(** ** sstatus, sie, sip *)
Definition SIE : Z := Z.shiftl 1 1.
Definition SPIE : Z := Z.shiftl 1 5.
Definition SPP : Z := Z.shiftl 1 8.
Definition intr_on (x : Z) : Z := Z.lor x SIE.
Definition intr_off (x : Z) : Z := Z.land x (not_w 64 SIE).
Definition sstatus_intr_get (x : Z) : bool := negb (Z.land x SIE =? 0).
Definition is_from_supervisor (x : Z) : bool := negb (Z.land x SPP =? 0).
Definition is_from_user (x : Z) : bool := Z.land x SPP =? 0.
Definition sstatus_user_ret_prepare (x : Z) : Z := Z.lor (Z.land x (not_w 64 SPP)) SPIE.
Definition SSIE : Z := Z.shiftl 1 1.
Definition STIE : Z := Z.shiftl 1 5.
Definition SEIE : Z := Z.shiftl 1 9.
Definition sie_intr_on (x : Z) : Z := Z.lor x (Z.lor (Z.lor SSIE STIE) SEIE).
Definition SSIP : Z := Z.shiftl 1 1.
Definition clear_ssip_bits (x : Z) : Z := Z.land x (not_w 64 SSIP).

(** ** scause *)
Inductive Interrupt :=
| UserSoft | VirtualSupervisorSoft | SupervisorSoft | UserTimer | VirtualSupervisorTimer | SupervisorTimer
| UserExternal | VirtualSupervisorExternal | SupervisorExternal | UnknownInterrupt.
Inductive Exception :=
| InstructionMisaligned | InstructionFault | IllegalInstruction | Breakpoint | LoadFault | StoreMisaligned | StoreFault
| UserEnvCall | SupervisorEnvCall | VirtualSupervisorEnvCall | InstructionPageFault | LoadPageFault | StorePageFault
| InstructionGuestPageFault | LoadGuestPageFault | VirtualInstruction | StoreGuestPageFault | UnknownException.
Inductive Trap := TInterrupt (i : Interrupt) | TException (e : Exception).
#[export] Instance Interrupt_eq_dec : EqDecision Interrupt.
Proof. solve_decision. Defined.
#[export] Instance Exception_eq_dec : EqDecision Exception.
Proof. solve_decision. Defined.
#[export] Instance Trap_eq_dec : EqDecision Trap.
Proof. solve_decision. Defined.

Definition Interrupt_from (nr : Z) : Interrupt :=
  match nr with
  | 0 => UserSoft | 1 => SupervisorSoft | 2 => VirtualSupervisorSoft | 4 => UserTimer | 5 => SupervisorTimer
  | 6 => VirtualSupervisorTimer | 8 => UserExternal | 9 => SupervisorExternal | 10 => VirtualSupervisorExternal
  | _ => UnknownInterrupt
  end.
Definition Exception_from (nr : Z) : Exception :=
  match nr with
  | 0 => InstructionMisaligned | 1 => InstructionFault | 2 => IllegalInstruction | 3 => Breakpoint | 5 => LoadFault
  | 6 => StoreMisaligned | 7 => StoreFault | 8 => UserEnvCall | 9 => SupervisorEnvCall | 10 => VirtualSupervisorEnvCall
  | 12 => InstructionPageFault | 13 => LoadPageFault | 15 => StorePageFault | 20 => InstructionGuestPageFault
  | 21 => LoadGuestPageFault | 22 => VirtualInstruction | 23 => StoreGuestPageFault | _ => UnknownException
  end.
Definition code (bits : Z) : Z := Z.land bits (not_w 64 (Z.shiftl 1 63)).
Definition is_interrupt (bits : Z) : bool := Z.testbit bits 63.
Definition is_exception (bits : Z) : bool := negb (is_interrupt bits).
Definition cause (bits : Z) : Trap :=
  if is_interrupt bits then TInterrupt (Interrupt_from (code bits)) else TException (Exception_from (code bits)).

(** The older decoding. *)
Inductive ScauseType := Unknown | IntSSoft | IntSExt | ExcUEcall.
Definition INTERRUPT : Z := 0x8000000000000000.
Definition INTERRUPT_SUPERVISOR_SOFTWARE : Z := INTERRUPT + 1.
Definition INTERRUPT_SUPERVISOR_EXTERNAL : Z := INTERRUPT + 9.
Definition EXCEPTION : Z := 0.
Definition EXCEPTION_ECALL_USER : Z := EXCEPTION + 8.
Definition get_scause (scause : Z) : ScauseType :=
  if scause =? INTERRUPT_SUPERVISOR_SOFTWARE then IntSSoft
  else if scause =? INTERRUPT_SUPERVISOR_EXTERNAL then IntSExt
  else if scause =? EXCEPTION_ECALL_USER then ExcUEcall
  else Unknown.

(** ** Registers of the interrupt controller and of the timer *)
Definition SENABLE : Z := 0x2080.
Definition SENABLE_HART : Z := 0x100.
Definition SPRIORITY : Z := 0x201000.
Definition SPRIORITY_HART : Z := 0x2000.
Definition SCLAIM : Z := 0x201004.
Definition SCLAIM_HART : Z := 0x2000.
(** A write to [PLIC + offset]. *)
Definition plic_init : list (Z * Z) := [(UART0_IRQ * 4, 1); (VIRTIO0_IRQ * 4, 1)].
Definition plic_init_hart (hart : Z) : list (Z * Z) :=
  [(SENABLE + SENABLE_HART * hart, Z.lor (Z.shiftl 1 UART0_IRQ) (Z.shiftl 1 VIRTIO0_IRQ));
   (SPRIORITY + SPRIORITY_HART * hart, 0)].
Definition claim_register (hart : Z) : Z := SCLAIM + SCLAIM_HART * hart.

Definition mtimecmp_register (mhartid : Z) : Z := CLINT_MTIMECMP + 8 * mhartid.
Definition add_mtimecmp (mtime interval : Z) : outcome Z := add64 mtime interval.
(** [MSCRATCH0] as words; [timerinit] fills the part of its hart and returns
    the index that [mscratch] points to with what [mtimecmp] becomes. *)
Definition MSCRATCH0 : list Z := replicate (Z.to_nat (NCPU * 32)) 0.
Definition timer_interval : Z := 1000000.
Definition timerinit (id mtime : Z) (scratch : list Z) : outcome (list Z * Z * Z) :=
  cmp ← add_mtimecmp mtime timer_interval;
  let offset := 32 * id in
  assertO (offset + 4 <? Z.of_nat (length scratch)) "index out of bounds";;
  let scratch := <[Z.to_nat (offset + 4) := mtimecmp_register id]> scratch in
  assertO (offset + 5 <? Z.of_nat (length scratch)) "index out of bounds";;
  let scratch := <[Z.to_nat (offset + 5) := timer_interval]> scratch in
  mret (scratch, offset, cmp).

(** ** The clock *)
Record clock := { csch : sched; cticks : Z }.
Definition on_csch {A} (m : M sched A) : M clock A := λ s,
  match m (csch s) with
  | Done (a, x) => Done (a, {| csch := x; cticks := cticks s |})
  | Panic why => Panic why
  end.
Inductive cturn := CAsleep | CDone (r : unit + unit).
Section clock.
Context (ticks_chan : Z).
Definition clock_intr : M clock unit :=
  modify (λ s, {| csch := csch s; cticks := wrap 64 (cticks s + 1) |});;
  on_csch (wakeup ticks_chan).
(** One round of the loop of [clock_sleep], and its first one. *)
Definition clock_round (self : nat) (old_ticks count : Z) : M clock cturn :=
  s ← get;
  if wrap 64 (cticks s - old_ticks) <? count then
    k ← unwrap (killed (csch s) !! self) "index out of bounds";
    if (k : bool) then mret (CDone (inr tt))
    else on_csch (sleep self ticks_chan);; mret CAsleep
  else mret (CDone (inl tt)).
Definition clock_sleep (self : nat) (count : Z) : M clock cturn :=
  s ← get; clock_round self (cticks s) count.
Definition clock_resume (self : nat) (old_ticks count : Z) : M clock cturn :=
  on_csch (sleep_resume self);; clock_round self old_ticks count.
Definition clock_read : M clock Z := gets cticks.
End clock.

(** ** The traps *)
Inductive dev := PlicClaim (register : Z) | PlicComplete (register irq : Z) | UartIntr | DiskIntr.
Record csrs := { sstatus : Z; sip : Z; stvec : Z; sepc : Z; scause : Z; stval : Z }.

Section traps.
Context {H R : Type} `{!PageHeap H} `{!QuadHeap H}.
(** As in [Proc], with the address of [kernelvec], the channel of the clock
    and the causes that the page fault arm takes. *)
Context (kroot trampoline fork_ret user_trap_addr satp hartid : Z) (chan : nat → Z).
Context (kernelvec ticks_chan : Z) (page_fault : Trap → bool).
#[local] Abbreviation KS := (kstate (H := H) (R := R)).

Record tstate := {
  ks : KS;
  ticks : Z;
  csr : csrs;
  devs : list dev;
  claims : list Z;       (* the answers to the claims to come *)
  started : bool;
}.
#[local] Abbreviation TM := (M tstate).

Definition on_ks {A} (m : M KS A) : TM A := λ s,
  match m (ks s) with
  | Done (a, x) => Done (a, {| ks := x; ticks := ticks s; csr := csr s; devs := devs s; claims := claims s; started := started s |})
  | Panic why => Panic why
  end.
(** [TICKS] and the table of processes. *)
Definition on_clock {A} (m : M clock A) : TM A := λ s,
  match m {| csch := sch (ks s); cticks := ticks s |} with
  | Done (a, c) => Done (a, {|
      ks := {| kv := kv (ks s); sch := csch c; pids := pids (ks s); tids := tids (ks s); procs := procs (ks s);
               alarms := alarms (ks s); events := events (ks s) |};
      ticks := cticks c; csr := csr s; devs := devs s; claims := claims s; started := started s |})
  | Panic why => Panic why
  end.
Definition upd_csr (f : csrs → csrs) : TM unit := modify (λ s,
  {| ks := ks s; ticks := ticks s; csr := f (csr s); devs := devs s; claims := claims s; started := started s |}).
Definition dev_do (d : dev) : TM unit := modify (λ s,
  {| ks := ks s; ticks := ticks s; csr := csr s; devs := devs s ++ [d]; claims := claims s; started := started s |}).
Definition set_sstatus (x : Z) (c : csrs) : csrs :=
  {| sstatus := x; sip := sip c; stvec := stvec c; sepc := sepc c; scause := scause c; stval := stval c |}.
Definition set_sip (x : Z) (c : csrs) : csrs :=
  {| sstatus := sstatus c; sip := x; stvec := stvec c; sepc := sepc c; scause := scause c; stval := stval c |}.
Definition set_stvec (x : Z) (c : csrs) : csrs :=
  {| sstatus := sstatus c; sip := sip c; stvec := x; sepc := sepc c; scause := scause c; stval := stval c |}.
Definition set_sepc (x : Z) (c : csrs) : csrs :=
  {| sstatus := sstatus c; sip := sip c; stvec := stvec c; sepc := x; scause := scause c; stval := stval c |}.

Definition trap_init_hart : TM unit := upd_csr (set_stvec kernelvec).

Definition claim : TM Z :=
  dev_do (PlicClaim (claim_register hartid));;
  s ← get;
  match claims s with
  | [] => mret 0
  | irq :: l =>
      put {| ks := ks s; ticks := ticks s; csr := csr s; devs := devs s; claims := l; started := started s |};;
      mret irq
  end.
Definition complete (irq : Z) : TM unit := dev_do (PlicComplete (claim_register hartid) irq).

(** The arm of an external interrupt, the same in both handlers. *)
Definition external_intr : TM unit :=
  irq ← claim;
  (if irq =? UART0_IRQ then dev_do UartIntr
   else if irq =? VIRTIO0_IRQ then dev_do DiskIntr
   else mret tt);;
  if 0 <? irq then complete irq else mret tt.

Definition clear_ssip : TM unit := upd_csr (λ c, set_sip (clear_ssip_bits (sip c)) c).

(** The alarm of the process at a tick. *)
Definition set_past_tick (n : Z) (a : ProcAlarm) : ProcAlarm :=
  {| interval := interval a; past_tick := n; handler_addr := handler_addr a; alarm_frame := alarm_frame a;
     handler_called := handler_called a |}.
Definition set_handler_called (b : bool) (a : ProcAlarm) : ProcAlarm :=
  {| interval := interval a; past_tick := past_tick a; handler_addr := handler_addr a; alarm_frame := alarm_frame a;
     handler_called := b |}.
Definition alarm_tick (self : nat) : M KS unit :=
  pa ← get_alarm self;
  pd ← get_proc self;
  (if 0 <? interval pa then
     n ← lift (add64 (past_tick pa) 1); upd_alarm self (set_past_tick n)
   else mret tt);;
  pa ← get_alarm self;
  if (past_tick pa =? interval pa) && negb (handler_called pa) && (0 <? interval pa) then
    upd_alarm self (set_past_tick 0);;
    tf_copy (trapframe pd) (alarm_frame pa);;
    tf_set (trapframe pd) epc (wrap 64 (handler_addr pa));;
    upd_alarm self (set_handler_called true)
  else mret tt.

(** The arm of a page fault; a page that cannot be allocated is address 0. *)
Definition page_fault_arm (self : nat) (stval : Z) : M KS unit :=
  o ← Proc.on_mem try_new_uninit;
  (match o with None => on_sch (set_killed self true) | Some _ => mret tt end);;
  pgt ← get_pgt self;
  _ ← Proc.on_mem (map_pages pgt (mm_pg_round_down stval) PAGE_SIZE (default 0 o) (Z.lor (Z.lor PTE_R PTE_W) PTE_U));
  mret tt.

(** How [user_trap] ends: in [user_trap_ret] at once, or after the process was
    scheduled again, or in [exiting]. *)
Inductive uturn := UReturns | UYields | UExits.
Definition abondon_check (self : nat) : TM bool :=
  s ← get;
  k ← unwrap (killed (sch (ks s)) !! self) "index out of bounds";
  on_ks (check_abondon chan self (-1));;
  mret k.

Definition user_trap (sys : sysno → M KS (Z + unit)) (self : nat) : TM uturn :=
  c ← gets csr;
  assertM (is_from_user (sstatus c)) "not from user mode";;
  upd_csr (set_stvec kernelvec);;
  match cause (scause c) with
  | TInterrupt SupervisorExternal =>
      external_intr;;
      k ← abondon_check self;
      mret (if (k : bool) then UExits else UReturns)
  | TInterrupt SupervisorSoft =>
      (if hartid =? 0 then on_clock (clock_intr ticks_chan) else mret tt);;
      s ← get;
      (if started s then on_ks (alarm_tick self) else mret tt);;
      clear_ssip;;
      k ← abondon_check self;
      if (k : bool) then mret UExits
      else on_ks (on_sch (yielding self));; mret UYields
  | TException UserEnvCall =>
      k ← abondon_check self;
      if (k : bool) then mret UExits
      else
        on_ks (syscall sys self);;
        k ← abondon_check self;
        mret (if (k : bool) then UExits else UReturns)
  | t =>
      if page_fault t then on_ks (page_fault_arm self (stval c));; mret UReturns
      else on_ks (abondon chan self (-1));; mret UExits
  end.

(** [user_trap_ret]; the result is what [userret] gets in [a0] and [a1]. *)
Definition user_trap_ret (self : nat) : TM (Z * Z) :=
  upd_csr (λ c, set_sstatus (intr_off (sstatus c)) c);;
  upd_csr (λ c, set_sstatus (sstatus_user_ret_prepare (sstatus c)) c);;
  upd_csr (set_stvec TRAMPOLINE);;
  '(e, upgt, tid) ← on_ks (user_ret_prepare_task user_trap_addr satp hartid self);
  upd_csr (set_sepc e);;
  pgt ← on_ks (get_pgt self);
  va ← lift (trapframe_from_tid tid);
  r ← on_ks (Proc.on_mem (find_pa_by_kernel pgt va));
  match r with
  | inr _ => panic "called `Result::unwrap()` on an `Err` value"
  | inl _ => mret (va, upgt)
  end.

(** [kerneltrap], up to where the process may be switched away and from there
    on, with the two saved registers. *)
Definition kerneltrap_enter (running : option nat) : TM (Z * Z) :=
  c ← gets csr;
  assertM (is_from_supervisor (sstatus c)) "not from supervisor mode";;
  assertM (negb (sstatus_intr_get (sstatus c))) "interrupts enabled";;
  (match cause (scause c) with
   | TInterrupt SupervisorExternal => external_intr
   | TInterrupt SupervisorSoft =>
       (if hartid =? 0 then on_clock (clock_intr ticks_chan) else mret tt);;
       clear_ssip;;
       on_ks (on_sch (try_yield_proc running))
   | TException SupervisorEnvCall => panic "not implemented: supervisor call"
   | TException UserEnvCall => panic "ecall from supervisor mode"
   | t => if page_fault t then mret tt else panic "unknown trap type"
   end);;
  mret (sepc c, sstatus c).
Definition kerneltrap_leave (saved : Z * Z) : TM unit :=
  upd_csr (set_sepc saved.1);; upd_csr (set_sstatus saved.2).

(** ** The calls that are not about files *)
Definition sys_fork (self : nat) : M KS (Z + unit) := fork kroot trampoline fork_ret self.
(** Up to the exit. *)
Definition sys_exit (self : nat) : M KS unit := exit_status ← arg_i32 self 0; exiting chan self exit_status.
Definition sys_wait (self : nat) : M KS wturn := addr ← arg_addr self 0; waiting chan self self addr.
Definition sys_kill (self : nat) : M KS (Z + unit) :=
  pid ← arg_i32 self 0;
  if pid <? 0 then mret (inr tt)
  else r ← on_sch (kill pid); mret (match r with inl _ => inl 0 | inr e => inr e end).
Definition sys_getpid (self : nat) : M KS (Z + unit) := e ← on_sch (get_excl self); mret (inl (pid e)).
Definition sys_sbrk (self : nat) : M KS (Z + unit) := increment ← arg_i32 self 0; sbrk self increment.
Definition sys_test (self : nat) : M KS (Z + unit) := arg_raw self 0;; arg_raw self 1;; mret (inl 1).
Definition sys_uptime : TM (Z + unit) := t ← on_clock clock_read; mret (inl t).
(** The first round of [sys_sleep]; the ones after it are [clock_resume]. *)
Definition sys_sleep (self : nat) : TM cturn :=
  count ← on_ks (arg_i32 self 0);
  if count <? 0 then mret (CDone (inr tt))
  else
    count ← on_ks (arg_raw self 0);
    on_clock (clock_sleep ticks_chan self count).
End traps.

(** * The two decodings of a cause agree *)
Lemma code_range bits : 0 ≤ bits < 2 ^ 64 → code bits = bits `mod` 2 ^ 63.
Proof.
  intros Hb. unfold code, not_w. rewrite Z.shiftl_1_l. rewrite <- Z.land_ones by lia. apply Z.bits_inj'. intros n Hn.
  rewrite !Z.land_spec, Z.lxor_spec, Z.pow2_bits_eqb, !Z.testbit_ones_nonneg by lia.
  destruct (Z.eqb_spec 63 n) as [<-|Hne]; [cbn; by rewrite !andb_false_r|]. rewrite xorb_false_l.
  destruct (Z.ltb_spec n 64), (Z.ltb_spec n 63); try lia; try done.
Qed.
Lemma interrupt_bit bits : 0 ≤ bits < 2 ^ 64 → is_interrupt bits = (2 ^ 63 <=? bits).
Proof.
  intros Hb. unfold is_interrupt. destruct (Z.leb_spec (2 ^ 63) bits) as [Hle|Hlt].
  - rewrite Z.testbit_true by lia.
    assert (bits / 2 ^ 63 = 1) as -> by (symmetry; apply Z.div_unique_pos with (bits - 2 ^ 63); lia). done.
  - apply (testbit_high 63); lia.
Qed.

Definition decodes_as (bits : Z) : ScauseType :=
  match cause bits with
  | TInterrupt SupervisorSoft => IntSSoft
  | TInterrupt SupervisorExternal => IntSExt
  | TException UserEnvCall => ExcUEcall
  | _ => Unknown
  end.

(** C32. [get_scause], which compares the register with constants, and
    [Scause::cause], which takes it apart, tell the same three causes apart:
    whatever 64 bits the register holds, both find a software interrupt, an
    external interrupt, a system call, or both find something else. *)
Theorem cause_agrees bits : 0 ≤ bits < 2 ^ 64 → get_scause bits = decodes_as bits.
Proof.
  intros Hb. unfold decodes_as, cause. rewrite interrupt_bit, code_range by done.
  unfold get_scause, INTERRUPT_SUPERVISOR_SOFTWARE, INTERRUPT_SUPERVISOR_EXTERNAL, EXCEPTION_ECALL_USER, INTERRUPT, EXCEPTION.
  destruct (Z.leb_spec (2 ^ 63) bits) as [Hle|Hlt].
  - assert (bits `mod` 2 ^ 63 = bits - 2 ^ 63) as -> by (symmetry; apply Z.mod_unique_pos with 1; lia).
    remember (bits - 2 ^ 63) as k eqn:Ek. assert (bits = 0x8000000000000000 + k) as -> by lia.
    rewrite (proj2 (Z.eqb_neq _ (0 + 8))) by lia.
    destruct (Z.eqb_spec (0x8000000000000000 + k) (0x8000000000000000 + 1)) as [E|N1]; [assert (k = 1) as -> by lia; done|].
    destruct (Z.eqb_spec (0x8000000000000000 + k) (0x8000000000000000 + 9)) as [E|N9]; [assert (k = 9) as -> by lia; done|].
    unfold Interrupt_from. repeat case_match; lia || done.
  - rewrite Z.mod_small by lia. rewrite (proj2 (Z.eqb_neq _ (_ + 1))), (proj2 (Z.eqb_neq _ (_ + 9))) by lia.
    destruct (Z.eqb_spec bits (0 + 8)) as [->|N8]; [done|]. unfold Exception_from. repeat case_match; lia || done.
Qed.

Lemma cause_agrees_witness : get_scause 0x8000000000000009 = IntSExt ∧ get_scause 13 = Unknown.
Proof. split; [exact (cause_agrees 0x8000000000000009 ltac:(lia))|exact (cause_agrees 13 ltac:(lia))]. Defined.

(** * Nobody oversleeps *)
Section timely.
Context (ticks_chan : Z).
(** A call of [clock_sleep] that has not returned: its [old_ticks] and [count],
    and how many ticks there were since it began. *)
Record nap := { nap_old : Z; nap_count : Z; nap_passed : nat }.
Definition tick_nap (n : nap) : nap := {| nap_old := nap_old n; nap_count := nap_count n; nap_passed := S (nap_passed n) |}.
Abbreviation naps := (gmap nat nap).

(** The turns of a system with the clock.  Other code does not sleep on the
    address of [TICKS], and a process in [clock_sleep] does nothing else. *)
Inductive cstep : clock * naps → clock * naps → Prop :=
| cs_tick s s' w : clock_intr ticks_chan s = Done (tt, s') → cstep (s, w) (s', tick_nap <$> w)
| cs_sleep i count s s' w : st (csch s) i = Some RUNNING → w !! i = None →
    clock_sleep ticks_chan i count s = Done (CAsleep, s') →
    cstep (s, w) (s', <[i := {| nap_old := cticks s; nap_count := count; nap_passed := 0 |}]> w)
| cs_enough i count s s' w r : st (csch s) i = Some RUNNING → w !! i = None →
    clock_sleep ticks_chan i count s = Done (CDone r, s') → cstep (s, w) (s', w)
| cs_again i n s s' w : st (csch s) i = Some RUNNING → w !! i = Some n →
    clock_resume ticks_chan i (nap_old n) (nap_count n) s = Done (CAsleep, s') → cstep (s, w) (s', w)
| cs_wakes i n s s' w r : st (csch s) i = Some RUNNING → w !! i = Some n →
    clock_resume ticks_chan i (nap_old n) (nap_count n) s = Done (CDone r, s') → cstep (s, w) (s', delete i w)
| cs_turn l s x w :
    kstep l (csch s) x → (∀ i, sleeps_on_lock ticks_chan x i → sleeps_on_lock ticks_chan (csch s) i) →
    cstep (s, w) ({| csch := x; cticks := cticks s |}, w).
Inductive creach : clock * naps → Prop :=
| cr_boot : creach ({| csch := sched_boot; cticks := 0 |}, ∅)
| cr_step c c' : creach c → cstep c c' → creach c'.

Definition elapsed (s : clock) (n : nap) : Z := wrap 64 (cticks s - nap_old n).
Record clock_ok (c : clock * naps) : Prop := {
  ck_len : length (excl (csch c.1)) = NPROC;
  ck_nap i n : c.2 !! i = Some n → elapsed c.1 n = wrap 64 (Z.of_nat (nap_passed n));
  ck_sleeper i : sleeps_on_lock ticks_chan (csch c.1) i → ∃ n, c.2 !! i = Some n ∧ elapsed c.1 n < nap_count n;
}.

Lemma sleep_run i c (s : sched) :
  sleep i c s = Done (tt, {| excl := alter (set_state SLEEPING ∘ set_channel c) i (excl s); killed := killed s;
    parents := parents s; fifo := fifo s |}).
Proof. unfold sleep, upd_excl, set_excl. run_simpl. cbn. by rewrite list_alter_twice. Qed.

(** A round of the loop either answers or goes to sleep. *)
Lemma clock_round_inv i old count s r s' : clock_round ticks_chan i old count s = Done (r, s') →
  cticks s' = cticks s ∧
  match r with
  | CAsleep => wrap 64 (cticks s - old) < count ∧ sleep i ticks_chan (csch s) = Done (tt, csch s')
  | CDone r => csch s' = csch s ∧
      match r with inl _ => count ≤ wrap 64 (cticks s - old)
                 | inr _ => wrap 64 (cticks s - old) < count ∧ killed (csch s) !! i = Some true end
  end.
Proof.
  unfold clock_round. intros E. rewrite (bind_run _ _ _ s s) in E by done.
  destruct (Z.ltb_spec (wrap 64 (cticks s - old)) count) as [Hlt|Hge]; [|injection E as <- <-; done].
  mbind_inv E as k s1 E1 E. destruct (killed (csch s) !! i) as [k'|] eqn:Hk; [|done]. injection E1 as -> <-.
  destruct k; [injection E as <- <-; done|]. mbind_inv E as u s2 E2 E. injection E as <- <-.
  unfold on_csch in E2. rewrite sleep_run in *. injection E2 as _ <-. done.
Qed.

Lemma resume_inv i old count s r s' : clock_resume ticks_chan i old count s = Done (r, s') →
  ∃ s1, sleep_resume i (csch s) = Done (tt, csch s1) ∧ cticks s1 = cticks s ∧ clock_round ticks_chan i old count s1 = Done (r, s').
Proof.
  unfold clock_resume. intros E. mbind_inv E as u s1 E1 E. exists s1. unfold on_csch in E1.
  destruct (sleep_resume i (csch s)) as [[[] x]|]; [|done]. injection E1 as _ <-. done.
Qed.

(** Changing process [i] makes no other process sleep. *)
Lemma sleeps_alter c (s s' : sched) i f j : excl s' = alter f i (excl s) → j ≠ i →
  sleeps_on_lock c s' j → sleeps_on_lock c s j.
Proof. intros E Hj (e & Ee & Ha). exists e. rewrite E, list_lookup_alter_ne in Ee by done. done. Qed.
Lemma running_awake (s s' : sched) i : st s i = Some RUNNING → excl s' = alter (set_channel 0) i (excl s) →
  st s' i = Some RUNNING.
Proof.
  intros Hst E. rewrite (st_alter _ _ _ _ E), decide_True by done. unfold st in Hst. destruct (excl s !! i); [|done]. done.
Qed.
Lemma awake c (s : sched) i : st s i = Some RUNNING → ¬ sleeps_on_lock c s i.
Proof.
  intros Hst (e & Ee & Ha). unfold st in Hst. rewrite Ee in Hst. unfold asleep_on in Ha.
  injection Hst as Hst. by rewrite Hst in Ha.
Qed.
(** A round of a running process, under the invariant. *)
Lemma round_sleepers i old count r s s' (w : naps) :
  length (excl (csch s)) = NPROC →
  st (csch s) i = Some RUNNING → (∀ j, sleeps_on_lock ticks_chan (csch s) j → ∃ n, w !! j = Some n ∧ elapsed s n < nap_count n) →
  clock_round ticks_chan i old count s = Done (r, s') →
  length (excl (csch s')) = NPROC ∧ cticks s' = cticks s ∧
  (r = CAsleep → wrap 64 (cticks s - old) < count) ∧
  ∀ j, sleeps_on_lock ticks_chan (csch s') j →
    (r = CAsleep ∧ j = i) ∨ (j ≠ i ∧ ∃ n, w !! j = Some n ∧ elapsed s' n < nap_count n).
Proof.
  intros Hl Hst Hsl E. apply clock_round_inv in E as [Ht E].
  assert (∀ j, sleeps_on_lock ticks_chan (csch s) j → j ≠ i ∧ ∃ n, w !! j = Some n ∧ elapsed s' n < nap_count n) as Hold.
  { intros j Hj. split; [intros ->; by apply (awake _ _ _ Hst) in Hj|]. unfold elapsed. rewrite Ht. by apply Hsl. }
  destruct r as [|r].
  - destruct E as [Hlt E]. rewrite sleep_run in E. injection E as E. rewrite <- E. cbn [excl]. rewrite length_alter.
    split; [done|]. split; [done|]. split; [done|]. intros j Hj. destruct (decide (j = i)) as [->|Hne]; [by left|right].
    apply Hold. eapply sleeps_alter; [|exact Hne|exact Hj]. done.
  - destruct E as [-> _]. split; [done|]. split; [done|]. split; [done|]. intros j Hj. right. by apply Hold.
Qed.

Lemma resume_sleepers i old count r s s' (w : naps) :
  length (excl (csch s)) = NPROC →
  st (csch s) i = Some RUNNING → (∀ j, sleeps_on_lock ticks_chan (csch s) j → ∃ n, w !! j = Some n ∧ elapsed s n < nap_count n) →
  clock_resume ticks_chan i old count s = Done (r, s') →
  length (excl (csch s')) = NPROC ∧ cticks s' = cticks s ∧
  (r = CAsleep → wrap 64 (cticks s - old) < count) ∧
  ∀ j, sleeps_on_lock ticks_chan (csch s') j →
    (r = CAsleep ∧ j = i) ∨ (j ≠ i ∧ ∃ n, w !! j = Some n ∧ elapsed s' n < nap_count n).
Proof.
  intros Hl Hst Hsl E. apply resume_inv in E as (s1 & E1 & Ht & E).
  assert (excl (csch s1) = alter (set_channel 0) i (excl (csch s))) as Ex by (by injection E1 as <-).
  rewrite <- Ht. apply (round_sleepers _ _ _ _ s1 s' w); [by rewrite Ex, length_alter|by eapply running_awake| |done].
  intros j Hj. assert (j ≠ i) as Hne.
  { intros ->. revert Hj. apply awake. by eapply running_awake. }
  unfold elapsed. rewrite Ht. apply Hsl. by eapply sleeps_alter.
Qed.

Lemma cstep_ok c c' : clock_ok c → cstep c c' → clock_ok c'.
Proof.
  intros [Hl Hn Hs] Hstep. destruct Hstep as [s s' w E|i count s s' w Hst Hi E|i count s s' w r Hst Hi E|
    i n s s' w Hst Hi E|i n s s' w r Hst Hi E|l s x w Hk Hx]; cbn [fst snd] in *.
  - unfold clock_intr in E. mbind_inv E as u s1 E1 E. injection E1 as _ <-. unfold on_csch in E. cbn [csch cticks] in E.
    rewrite wakeup_run in E by done. injection E as <-. split; cbn [fst snd csch cticks excl].
    + by rewrite length_fmap.
    + intros i m Hm. rewrite lookup_fmap in Hm. apply fmap_Some in Hm as (n & Hw & ->). specialize (Hn _ _ Hw).
      unfold elapsed in *. cbn [cticks tick_nap nap_old nap_passed]. unfold wrap in *. rewrite Zminus_mod_idemp_l.
      replace (cticks s + 1 - nap_old n) with (cticks s - nap_old n + 1) by lia.
      rewrite <- Zplus_mod_idemp_l, Hn, Zplus_mod_idemp_l. f_equal. lia.
    + intros i (e & Ee & Ha). cbn [csch excl] in Ee. rewrite list_lookup_fmap in Ee. apply fmap_Some in Ee as (e0 & _ & ->).
      unfold woken in Ha. destruct (asleep_on ticks_chan e0) eqn:E0; [done|by rewrite E0 in Ha].
  - destruct (round_sleepers _ _ _ _ _ _ _ Hl Hst Hs E) as (Hl' & Ht & Hlt & Hs'). split; cbn [fst snd].
    + done.
    + intros j m. destruct (decide (i = j)) as [->|Hne].
      * rewrite lookup_insert_eq. intros [= <-]. unfold elapsed. cbn. by rewrite Ht, Z.sub_diag.
      * rewrite lookup_insert_ne by done. intros Hm. unfold elapsed. rewrite Ht. exact (Hn _ _ Hm).
    + intros j Hj. destruct (Hs' j Hj) as [[_ ->]|(Hne & m & Hm & He)].
      * rewrite lookup_insert_eq. eexists. split; [done|]. unfold elapsed. cbn. rewrite Ht. by apply Hlt.
      * exists m. rewrite lookup_insert_ne by done. done.
  - destruct (round_sleepers _ _ _ _ _ _ _ Hl Hst Hs E) as (Hl' & Ht & _ & Hs'). split; cbn [fst snd]; [done| |].
    + intros j m Hm. unfold elapsed. rewrite Ht. exact (Hn _ _ Hm).
    + intros j Hj. destruct (Hs' j Hj) as [[? _]|(_ & Hm)]; done.
  - destruct (resume_sleepers _ _ _ _ _ _ _ Hl Hst Hs E) as (Hl' & Ht & Hlt & Hs'). split; cbn [fst snd]; [done| |].
    + intros j m Hm. unfold elapsed. rewrite Ht. exact (Hn _ _ Hm).
    + intros j Hj. destruct (Hs' j Hj) as [[_ ->]|(_ & Hm)]; [|done]. exists n. split; [done|]. unfold elapsed. rewrite Ht. by apply Hlt.
  - destruct (resume_sleepers _ _ _ _ _ _ _ Hl Hst Hs E) as (Hl' & Ht & _ & Hs'). split; cbn [fst snd]; [done| |].
    + intros j m (_ & Hm)%lookup_delete_Some. unfold elapsed. rewrite Ht. exact (Hn _ _ Hm).
    + intros j Hj. destruct (Hs' j Hj) as [[? _]|(Hne & m & Hm & He)]; [done|]. exists m. by rewrite lookup_delete_ne.
  - split; cbn [fst snd csch]; [by apply (kstep_len l (csch s))|done|]. intros i Hi. exact (Hs i (Hx i Hi)).
Qed.

Lemma creach_ok c : creach c → clock_ok c.
Proof.
  induction 1 as [|c c' _ IH Hstep]; [|by eapply cstep_ok]. split; cbn [fst snd csch].
  - done.
  - intros i n Hi. by rewrite lookup_empty in Hi.
  - intros i (e & Ee & Ha). unfold sched_boot in Ee. cbn [excl] in Ee. by apply lookup_replicate in Ee as [-> _].
Qed.

(** C27. [clock_sleep] is on time.  However the harts, the ticks and the other
    processes interleave: a process sleeps on the clock only in a call whose
    count is not reached, so after the tick that reaches it no process is left
    asleep; a call that goes on when it runs again returns [Ok] exactly when at
    least [count] ticks passed since it began (the counter may wrap around),
    and an error only before that and for a process that was killed. *)
Theorem clock_sleep_on_time s w : creach (s, w) →
  (∀ i, sleeps_on_lock ticks_chan (csch s) i →
     ∃ n, w !! i = Some n ∧ wrap 64 (Z.of_nat (nap_passed n)) < nap_count n) ∧
  (∀ i n r s', w !! i = Some n → clock_resume ticks_chan i (nap_old n) (nap_count n) s = Done (CDone r, s') →
     match r with
     | inl _ => nap_count n ≤ Z.of_nat (nap_passed n)
     | inr _ => wrap 64 (Z.of_nat (nap_passed n)) < nap_count n ∧ killed (csch s) !! i = Some true
     end) ∧
  (∀ i n s', w !! i = Some n → Z.of_nat (nap_passed n) < 2 ^ 64 → nap_count n ≤ Z.of_nat (nap_passed n) →
     clock_resume ticks_chan i (nap_old n) (nap_count n) s ≠ Done (CAsleep, s')).
Proof.
  intros Hr%creach_ok. destruct Hr as [_ Hn Hs]. cbn [fst snd] in *. split; [|split].
  - intros i Hi. destruct (Hs _ Hi) as (n & Hw & He). exists n. split; [done|]. by rewrite <- (Hn _ _ Hw).
  - intros i n r s' Hw E. apply resume_inv in E as (s1 & E1 & Ht & E). apply clock_round_inv in E as [_ [_ E]].
    specialize (Hn _ _ Hw). unfold elapsed in Hn. rewrite Ht, Hn in E.
    assert (wrap 64 (Z.of_nat (nap_passed n)) ≤ Z.of_nat (nap_passed n)) by (apply Z.mod_le; lia).
    destruct r; [lia|]. destruct E as [? Hk]. split; [done|]. unfold sleep_resume, upd_excl, set_excl in E1. injection E1 as E1.
    by rewrite <- E1 in Hk.
  - intros i n s' Hw Hb Hc E. apply resume_inv in E as (s1 & E1 & Ht & E). apply clock_round_inv in E as [_ [E _]].
    specialize (Hn _ _ Hw). unfold elapsed in Hn. rewrite Ht, Hn in E. unfold wrap in E. rewrite Z.mod_small in E by lia. lia.
Qed.
End timely.

(** The first process sleeps two ticks on channel 5. *)
Module Nap.
Definition s1 : sched := match upd_excl 0 (set_alloc 0) sched_boot with Done (_, s) => s | Panic _ => sched_boot end.
Definition s3 : sched := match schedule Sched.started with Done (_, s) => s | Panic _ => sched_boot end.
Definition state : clock :=
  match clock_sleep 5 0 2 {| csch := s3; cticks := 0 |} with Done (_, s) => s | Panic _ => {| csch := s3; cticks := 0 |} end.
Definition nap0 : nap := {| nap_old := 0; nap_count := 2; nap_passed := 0 |}.

(** The states before have nobody asleep. *)
Lemma quiet (s : sched) : forallb (λ e, negb (asleep_on 5 e)) (excl s) = true → ∀ i, ¬ sleeps_on_lock 5 s i.
Proof.
  intros Hf i (e & Ee & Ha). rewrite forallb_forall in Hf. specialize (Hf e). rewrite Ha in Hf.
  discriminate Hf. by eapply list_elem_of_In, list_elem_of_lookup_2.
Qed.
Lemma turn l x y w : kstep l (csch x) y → forallb (λ e, negb (asleep_on 5 e)) (excl y) = true →
  creach 5 (x, w) → creach 5 ({| csch := y; cticks := cticks x |}, w).
Proof. intros Hk Hy Hx. eapply cr_step; [exact Hx|]. eapply cs_turn; [exact Hk|]. intros i Hi. by apply quiet in Hi. Qed.
Lemma reached : creach 5 (state, {[0%nat := nap0]}).
Proof.
  assert (creach 5 ({| csch := s3; cticks := 0 |}, ∅)) as Hr.
  { apply (turn (Some 0%nat) {| csch := Sched.started; cticks := 0 |} s3); [apply ks_turn; by apply ss_schedule|by vm_compute|].
    apply (turn None {| csch := s1; cticks := 0 |} Sched.started); [apply ks_turn; by apply (ss_start 0)|by vm_compute|].
    apply (turn None {| csch := sched_boot; cticks := 0 |} s1); [apply ks_turn; by apply (ss_alloc 0 0)|by vm_compute|].
    apply cr_boot. }
  eapply cr_step; [exact Hr|]. by apply (cs_sleep 5 0 2).
Qed.
Lemma asleep : sleeps_on_lock 5 (csch state) 0.
Proof. eexists. split; [by vm_compute|by vm_compute]. Qed.
End Nap.

Lemma clock_sleep_on_time_witness :
  ∃ n, ({[0%nat := Nap.nap0]} : gmap nat nap) !! 0%nat = Some n ∧ wrap 64 (Z.of_nat (nap_passed n)) < nap_count n.
Proof. destruct (clock_sleep_on_time 5 Nap.state {[0%nat := Nap.nap0]} Nap.reached) as (Hs & _). exact (Hs 0%nat Nap.asleep). Defined.

(** * The alarm *)
Section alarm.
Context {H R : Type} `{!PageHeap H}.
#[local] Abbreviation KS := (kstate (H := H) (R := R)).
Context (self : nat).

(** What the handler is called with: the trap frame is saved, and goes on in
    the handler. *)
Definition enter_handler (tf frame handler : Z) : M KS unit := tf_copy tf frame;; tf_set tf epc (wrap 64 handler).
Fixpoint alarm_ticks (n : nat) : M KS unit :=
  match n with O => mret tt | S n => alarm_ticks n;; alarm_tick self end.

Definition with_alarm (a : ProcAlarm) (s : KS) : KS :=
  {| kv := kv s; sch := sch s; pids := pids s; tids := tids s; procs := procs s; alarms := <[self := a]> (alarms s);
     events := events s |}.
Definition at_tick (a : ProcAlarm) (n : Z) (called : bool) : ProcAlarm :=
  {| interval := interval a; past_tick := n; handler_addr := handler_addr a; alarm_frame := alarm_frame a; handler_called := called |}.

Lemma get_alarm_run a (s : KS) : alarms s !! self = Some a → get_alarm self s = Done (a, s).
Proof. intros Ha. unfold get_alarm. rewrite (bind_run _ _ _ s s) by done. by rewrite Ha. Qed.
Lemma get_proc_run d (s : KS) : procs s !! self = Some d → get_proc self s = Done (d, s).
Proof. intros Hd. unfold get_proc. rewrite (bind_run _ _ _ s s) by done. by rewrite Hd. Qed.
Lemma upd_alarm_run f a (s : KS) : alarms s !! self = Some a → upd_alarm self f s = Done (tt, with_alarm (f a) s).
Proof. intros Ha. unfold upd_alarm, with_alarm, modify. do 3 f_equal. by apply alter_as_insert. Qed.
Lemma with_alarm_lookup a (s : KS) : is_Some (alarms s !! self) → alarms (with_alarm a s) !! self = Some a.
Proof. intros Hs. cbn. apply list_lookup_insert_eq. by apply lookup_lt_is_Some. Qed.
Lemma with_alarm_twice a b (s : KS) : with_alarm a (with_alarm b s) = with_alarm a s.
Proof. unfold with_alarm. cbn. by rewrite list_insert_insert_eq. Qed.

Lemma enter_frame tf frame handler (s s' : KS) : enter_handler tf frame handler s = Done (tt, s') →
  alarms s' = alarms s ∧ procs s' = procs s.
Proof.
  assert (∀ A (m : M (pmem H) A), untouched (λ s : KS, (alarms s, procs s)) (Proc.on_mem m)) as Hm.
  { intros A m x a x'. unfold Proc.on_mem, on_kv, Kvm.on_mem. destruct (m (km (kv x))) as [[y z]|]; [|done]. by intros [= _ <-]. }
  assert (untouched (λ s : KS, (alarms s, procs s)) (enter_handler tf frame handler)) as Hf
    by (unfold enter_handler, tf_copy, tf_set; untouched).
  intros E. specialize (Hf _ _ _ E). by injection Hf.
Qed.

Section alarm_theorems.
Context (a : ProcAlarm) (d : ProcData R).
Hypothesis Hk : 0 < interval a < 2 ^ 64.

Definition ticking (s : KS) (n : Z) (called : bool) : Prop :=
  alarms s !! self = Some (at_tick a n called) ∧ procs s !! self = Some d.

Lemma count_tick (s : KS) n called : ticking s n called → n + 1 < 2 ^ 64 →
  ∃ s1, s1 = with_alarm (at_tick a (n + 1) called) s ∧ ticking s1 (n + 1) called ∧
  alarm_tick self s =
    (if (n + 1 =? interval a) && negb called then
       upd_alarm self (set_past_tick 0);; enter_handler (trapframe d) (alarm_frame a) (handler_addr a);;
       upd_alarm self (set_handler_called true)
     else mret tt) s1.
Proof.
  intros [Ha Hd] Hn. eexists. split; [done|]. assert (alarms (with_alarm (at_tick a (n + 1) called) s) !! self = Some (at_tick a (n + 1) called)) as Ha1
    by (apply with_alarm_lookup; by eexists).
  split; [by split|]. unfold alarm_tick. rewrite (bind_run _ _ _ _ _ (get_alarm_run _ _ Ha)).
  rewrite (bind_run _ _ _ _ _ (get_proc_run _ _ Hd)). cbn [interval at_tick]. rewrite (proj2 (Z.ltb_lt 0 (interval a))) by lia.
  rewrite (bind_run _ _ _ tt (with_alarm (at_tick a (n + 1) called) s)).
  2: { rewrite (bind_run _ _ _ (n + 1) s) by (unfold lift; cbn [past_tick at_tick]; by rewrite add_chk_ok).
       by rewrite (upd_alarm_run _ _ _ Ha). }
  rewrite (bind_run _ _ _ _ _ (get_alarm_run _ _ Ha1)). cbn [interval past_tick handler_called alarm_frame handler_addr at_tick].
  rewrite (proj2 (Z.ltb_lt 0 (interval a))) by lia. rewrite andb_true_r.
  destruct ((n + 1 =? interval a) && negb called); [|done].
  unfold enter_handler. cbn. unfold mbind, M_bind. repeat case_match; done || congruence.
Qed.

Lemma idle_tick (s : KS) n called : ticking s n called → n + 1 < 2 ^ 64 → called = true ∨ n + 1 ≠ interval a →
  ∃ s', alarm_tick self s = Done (tt, s') ∧ s' = with_alarm (at_tick a (n + 1) called) s ∧ ticking s' (n + 1) called.
Proof.
  intros Hs Hn Hc. destruct (count_tick s n called Hs Hn) as (s1 & -> & Hs1 & E). eexists. split; [|by split]. rewrite E.
  assert ((n + 1 =? interval a) && negb called = false) as ->; [|done].
  destruct Hc as [->|Hc]; [by rewrite andb_false_r|by rewrite (proj2 (Z.eqb_neq _ _))].
Qed.

Lemma idle_ticks m (s : KS) n called : ticking s n called → n + Z.of_nat m < 2 ^ 64 →
  called = true ∨ n + Z.of_nat m < interval a → 0 ≤ n →
  alarm_ticks m s = Done (tt, with_alarm (at_tick a (n + Z.of_nat m) called) s) ∧
  ticking (with_alarm (at_tick a (n + Z.of_nat m) called) s) (n + Z.of_nat m) called.
Proof.
  induction m as [|m IH]; intros Hs Hn Hc H0; cbn [alarm_ticks].
  { rewrite Z.add_0_r. assert (with_alarm (at_tick a n called) s = s) as ->; [|done]. destruct Hs as [Ha _].
    destruct s; unfold with_alarm; cbn in *. by rewrite list_insert_id. }
  destruct IH as [E Ht]; [done|lia|destruct Hc; [by left|right; lia]|done|]. rewrite (bind_run _ _ _ _ _ E).
  destruct (idle_tick _ _ _ Ht) as (s' & E' & -> & Ht'); [lia|destruct Hc; [by left|right; lia]|].
  rewrite with_alarm_twice in *. replace (n + Z.of_nat (S m)) with (n + Z.of_nat m + 1) by lia. by rewrite E'.
Qed.

Lemma alarm_ticks_add n m : ∀ s : KS, alarm_ticks (n + m) s = (alarm_ticks n;; alarm_ticks m) s.
Proof.
  intros s. induction m as [|m IH].
  - rewrite Nat.add_0_r. cbn [alarm_ticks]. unfold mbind, M_bind. destruct (alarm_ticks n s) as [[[] ?]|]; done.
  - rewrite Nat.add_succ_r. cbn [alarm_ticks]. unfold mbind, M_bind in *. rewrite IH.
    destruct (alarm_ticks n s) as [[[] ?]|]; [|done]. done.
Qed.
(** An alarm goes off once.  With a handler that is not running and [past_tick]
    0, the first [interval - 1] ticks only count; the next one saves the trap
    frame in [alarm_frame] and makes the process go on in the handler; and from
    then on, for as many ticks as the counter holds, the handler is never
    entered again, however often [interval] passes: nothing of the source
    resets [handler_called]. *)
Theorem alarm_fires_once (s : KS) : ticking s 0 false →
  (∀ n, Z.of_nat n < interval a → alarm_ticks n s = Done (tt, with_alarm (at_tick a (Z.of_nat n) false) s)) ∧
  (∀ s2, enter_handler (trapframe d) (alarm_frame a) (handler_addr a) (with_alarm (at_tick a 0 false) s) = Done (tt, s2) →
   ∀ m, Z.of_nat m < 2 ^ 64 →
   alarm_ticks (Z.to_nat (interval a) + m) s = Done (tt, with_alarm (at_tick a (Z.of_nat m) true) s2)).
Proof using All.
  intros Hs. split.
  - intros n Hn. destruct (idle_ticks n s 0 false Hs) as [E _]; [lia|right; lia|lia|]. exact E.
  - intros s2 E2 m Hm. rewrite alarm_ticks_add.
    destruct (idle_ticks (Z.to_nat (interval a - 1)) s 0 false Hs) as [E Ht]; [lia|right; lia|lia|].
    replace (0 + Z.of_nat (Z.to_nat (interval a - 1))) with (interval a - 1) in * by lia.
    destruct (count_tick _ _ _ Ht) as (s1 & Es1 & Hs1 & E1); [lia|]. rewrite with_alarm_twice in Es1. subst s1.
    replace (interval a - 1 + 1) with (interval a) in * by lia. rewrite Z.eqb_refl in E1. cbn [andb negb] in E1.
    destruct (enter_frame _ _ _ _ _ E2) as [Ea Ed].
    assert (alarms s2 !! self = Some (at_tick a 0 false)) as Ha2.
    { rewrite Ea. apply with_alarm_lookup. destruct Hs as [Ha _]. by eexists. }
    assert (alarm_tick self (with_alarm (at_tick a (interval a - 1) false) s) = Done (tt, with_alarm (at_tick a 0 true) s2)) as E3.
    { rewrite E1.
      rewrite (bind_run _ _ _ tt (with_alarm (at_tick a 0 false) s)).
      - rewrite (bind_run _ _ _ _ _ E2). by rewrite (upd_alarm_run _ _ _ Ha2).
      - rewrite (upd_alarm_run _ (at_tick a (interval a) false)); [by rewrite with_alarm_twice|]. by destruct Hs1. }
    rewrite (bind_run _ _ _ tt (with_alarm (at_tick a 0 true) s2)).
    + destruct (idle_ticks m (with_alarm (at_tick a 0 true) s2) 0 true) as [E4 _]; [|lia|by left|lia|].
      * split; [apply with_alarm_lookup; by eexists|]. cbn. rewrite Ed. by destruct Hs.
      * rewrite with_alarm_twice in E4. exact E4.
    + replace (Z.to_nat (interval a)) with (S (Z.to_nat (interval a - 1))) by lia. cbn [alarm_ticks].
      rewrite (bind_run _ _ _ _ _ E).
      exact E3.
Qed.
End alarm_theorems.
End alarm.

#[local] Existing Instances Bump.bump Bump.bump_laws.
(** An alarm every two ticks, handler at 64, on two pages of the heap. *)
Module Ring.
Definition alarm : ProcAlarm :=
  {| interval := 2; past_tick := 0; handler_addr := 64; alarm_frame := Bump.base + PAGE_SIZE; handler_called := false |}.
Definition data : ProcData unit := set_trapframe Bump.base ProcData_new.
Definition frames : pmem Z :=
  match (try_new_zeroed;; try_new_zeroed) Bump.boot with Done (_, s) => s | Panic _ => Bump.boot end.
Definition state : kstate (H := Z) (R := unit) := {|
  kv := {| km := frames; kstacks := 0 |}; sch := sched_boot; pids := ra_new; tids := ra_new;
  procs := [data]; alarms := [alarm]; events := [] |}.
Lemma in_handler : is_panic (enter_handler (trapframe data) (alarm_frame alarm) (handler_addr alarm)
  (with_alarm 0 (at_tick alarm 0 false) state)) = false.
Proof. by vm_compute. Qed.
End Ring.

Lemma alarm_fires_once_witness :
  ∃ s', alarm_ticks (H := Z) (R := unit) 0 5 Ring.state = Done (tt, s') ∧ alarms s' !! 0%nat = Some (at_tick Ring.alarm 3 true).
Proof.
  destruct (not_panic_done _ Ring.in_handler) as ([] & s2 & E2).
  destruct (alarm_fires_once 0 Ring.alarm Ring.data (conj eq_refl eq_refl) Ring.state (conj eq_refl eq_refl)) as [_ Hf].
  exists (with_alarm 0 (at_tick Ring.alarm 3 true) s2). split; [exact (Hf s2 E2 3%nat eq_refl)|].
  apply with_alarm_lookup. destruct (enter_frame _ _ _ _ _ E2) as [Ea _]. rewrite Ea. by eexists.
Defined.

(** * Coming back from a trap *)
Lemma not_bit_testbit x k n : 0 ≤ x < 2 ^ 64 → 0 ≤ k < 64 → 0 ≤ n →
  Z.testbit (Z.land x (not_w 64 (Z.shiftl 1 k))) n = if decide (n = k) then false else Z.testbit x n.
Proof.
  intros Hx Hk Hn. unfold not_w. rewrite Z.shiftl_1_l, Z.land_spec, Z.lxor_spec, Z.pow2_bits_eqb, Z.testbit_ones_nonneg by lia.
  destruct (decide (n = k)) as [->|Hne].
  - rewrite Z.eqb_refl, (proj2 (Z.ltb_lt k 64)) by lia. apply andb_false_r.
  - rewrite (proj2 (Z.eqb_neq k n)) by done. rewrite xorb_false_l. destruct (Z.ltb_spec n 64); [apply andb_true_r|].
    by rewrite (testbit_high 64 x n) by lia.
Qed.
Lemma land_range x y : 0 ≤ x < 2 ^ 64 → 0 ≤ y → 0 ≤ Z.land x y < 2 ^ 64.
Proof.
  intros Hx Hy. assert (0 ≤ Z.land x y) by (apply Z.land_nonneg; lia). split; [done|].
  destruct (decide (Z.land x y = 0)) as [->|]; [lia|]. apply Z.log2_lt_pow2; [lia|].
  apply Z.le_lt_trans with (Z.min (Z.log2 x) (Z.log2 y)); [by apply Z.log2_land; lia|].
  destruct (decide (x = 0)) as [->|]; [by rewrite Z.land_0_l in *|]. apply Z.min_lt_iff. left. apply Z.log2_lt_pow2; lia.
Qed.

(** The status with which [user_trap_ret] leaves: the bits of the previous mode
    and of the interrupt enables are set, the others stay. *)
Lemma user_status x n : 0 ≤ x < 2 ^ 64 → 0 ≤ n →
  Z.testbit (sstatus_user_ret_prepare (intr_off x)) n =
    if decide (n = 1 ∨ n = 8) then false else if decide (n = 5) then true else Z.testbit x n.
Proof.
  intros Hx Hn. unfold sstatus_user_ret_prepare, intr_off, SPP, SPIE, SIE.
  assert (0 ≤ Z.land x (not_w 64 (Z.shiftl 1 1)) < 2 ^ 64) as Hy by (apply land_range; [done|by vm_compute]).
  rewrite Z.lor_spec, not_bit_testbit, not_bit_testbit by (done || lia).
  rewrite Z.shiftl_1_l, Z.pow2_bits_eqb by lia.
  destruct (Z.eqb_spec 5 n); repeat case_decide; subst; try lia; by rewrite ?orb_false_r, ?orb_true_r.
Qed.
Lemma bit_zero x k : 0 ≤ k → (Z.land x (Z.shiftl 1 k) =? 0) = negb (Z.testbit x k).
Proof.
  intros Hk. destruct (Z.testbit x k) eqn:E; cbn [negb].
  - apply Z.eqb_neq. intros H0. apply (f_equal (λ z, Z.testbit z k)) in H0.
    rewrite Z.land_spec, Z.shiftl_1_l, Z.pow2_bits_true, E, Z.bits_0 in H0 by done. done.
  - apply Z.eqb_eq, Z.bits_inj'. intros n Hn. rewrite Z.land_spec, Z.shiftl_1_l, Z.pow2_bits_eqb, Z.bits_0 by done.
    destruct (Z.eqb_spec k n) as [<-|]; [by rewrite E|apply andb_false_r].
Qed.

Section returning.
Context {H R : Type} `{!PageHeap H} `{!QuadHeap H}.
Context (trampoline fork_ret user_trap_addr satp hartid : Z) (chan : nat → Z).
Context (kernelvec ticks_chan : Z) (page_fault : Trap → bool).
#[local] Abbreviation KS := (kstate (H := H) (R := R)).

Lemma on_ks_csr {A} (m : M KS A) : untouched csr (on_ks m).
Proof. intros s a s'. unfold on_ks. destruct (m (ks s)) as [[x k]|]; [|done]. by intros [= _ <-]. Qed.

End returning.

(** * Every hart has device registers of its own *)
Definition plic_words (hart : Z) : list Z := (fst <$> plic_init_hart hart) ++ [claim_register hart].
Definition plic_word_ok (o : Z) : Prop := 0 ≤ o ∧ o + 4 ≤ PLIC_MAP_SIZE ∧ o `mod` 4 = 0.

Lemma plic_words_elem hart o : o ∈ plic_words hart →
  o = SENABLE + SENABLE_HART * hart ∨ o = SPRIORITY + SPRIORITY_HART * hart ∨ o = SCLAIM + SCLAIM_HART * hart.
Proof.
  unfold plic_words, plic_init_hart, claim_register. cbn [fmap list_fmap fst app].
  rewrite !elem_of_cons, elem_of_nil. tauto.
Qed.
Lemma plic_shared_elem o : o ∈ plic_init.*1 → o = 40 ∨ o = 4.
Proof. unfold plic_init. cbn [fmap list_fmap fst]. rewrite !elem_of_cons, elem_of_nil. unfold UART0_IRQ, VIRTIO0_IRQ. tauto. Qed.
Lemma plic_words_ok hart o : 0 ≤ hart < NCPU → o ∈ plic_words hart → plic_word_ok o.
Proof.
  unfold NCPU, plic_word_ok, PLIC_MAP_SIZE. intros Hh Ho.
  apply plic_words_elem in Ho as [-> | [-> | ->]];
    unfold SENABLE, SENABLE_HART, SPRIORITY, SPRIORITY_HART, SCLAIM, SCLAIM_HART; dlia.
Qed.
Lemma timerinit_run id mtime scratch :
  0 ≤ id < NCPU → length scratch = length MSCRATCH0 → mtime + timer_interval < 2 ^ 64 →
  timerinit id mtime scratch =
    Done (<[Z.to_nat (32 * id + 5) := timer_interval]> (<[Z.to_nat (32 * id + 4) := mtimecmp_register id]> scratch),
          32 * id, mtime + timer_interval).
Proof.
  intros Hid Hl Hm. assert (Z.of_nat (length scratch) = 256) as Hl' by (rewrite Hl; by vm_compute). unfold NCPU in Hid.
  unfold timerinit, add_mtimecmp. rewrite add_chk_ok by done. unfold mbind, outcome_bind, assertO.
  rewrite (proj2 (Z.ltb_lt _ _)) by lia. rewrite length_insert, (proj2 (Z.ltb_lt (_ + 5) _)) by lia. done.
Qed.

(** The harts do not share device registers.  For every hart of the
    machine: the words of the interrupt controller that it uses are aligned,
    inside the part that is mapped, and different from those of the other
    harts and from the ones for all; its timer comparison register is its own
    and below [MTIME]; and [timerinit] succeeds and fills, of [MSCRATCH0], only
    the part of its hart, with what [timervec] reads there. *)
Theorem harts_apart id id' mtime scratch :
  0 ≤ id < NCPU → 0 ≤ id' < NCPU → id ≠ id' → length scratch = length MSCRATCH0 → mtime + timer_interval < 2 ^ 64 →
  (∀ o, o ∈ plic_words id → plic_word_ok o ∧ (o ∉ plic_words id') ∧ (o ∉ plic_init.*1)) ∧
  CLINT ≤ mtimecmp_register id ∧ mtimecmp_register id + 8 ≤ CLINT_MTIME ∧
  (mtimecmp_register id + 8 ≤ mtimecmp_register id' ∨ mtimecmp_register id' + 8 ≤ mtimecmp_register id) ∧
  ∃ scratch', timerinit id mtime scratch = Done (scratch', 32 * id, mtime + timer_interval) ∧
    scratch' !! Z.to_nat (32 * id + 4) = Some (mtimecmp_register id) ∧
    scratch' !! Z.to_nat (32 * id + 5) = Some timer_interval ∧
    ∀ i : nat, Z.of_nat i / 32 ≠ id → scratch' !! i = scratch !! i.
Proof.
  intros Hid Hid' Hne Hl Hm. split; [|split; [|split; [|split]]].
  - intros o Ho. split; [exact (plic_words_ok id o Hid Ho)|]. unfold NCPU in *. apply plic_words_elem in Ho.
    split; [intros Ho'%plic_words_elem|intros Ho'%plic_shared_elem];
      unfold SENABLE, SENABLE_HART, SPRIORITY, SPRIORITY_HART, SCLAIM, SCLAIM_HART in *; lia.
  - unfold mtimecmp_register, CLINT_MTIMECMP, const_add. lia.
  - unfold mtimecmp_register, CLINT_MTIMECMP, CLINT_MTIME, CLINT, const_add, NCPU in *. lia.
  - unfold mtimecmp_register. lia.
  - eexists. split; [by apply timerinit_run|]. assert (Z.of_nat (length scratch) = 256) as Hl' by (rewrite Hl; by vm_compute).
    unfold NCPU in Hid. split; [|split].
    + rewrite list_lookup_insert_ne, list_lookup_insert_eq by lia. done.
    + rewrite list_lookup_insert_eq; [done|]. rewrite length_insert. lia.
    + intros i Hi. rewrite !list_lookup_insert_ne; [done| |]; intros <-; apply Hi; rewrite Z2Nat.id by lia; dlia.
Qed.

Lemma harts_apart_witness : ∃ scratch', timerinit 3 77 MSCRATCH0 = Done (scratch', 96, 1000077) ∧
  scratch' !! 100%nat = Some 0x2004018.
Proof.
  destruct (harts_apart 3 5 77 MSCRATCH0) as (_ & _ & _ & _ & scratch' & E & E4 & _);
    [by split|by split|done|done|done|]. exists scratch'. split; [exact E|exact E4].
Defined.

(** A process with one task, in a trap from user mode. *)
Module Back.
Definition start : kstate (H := Z) (R := unit) := {|
  kv := {| km := Bump.boot; kstacks := 0 |}; sch := sched_boot; pids := ra_new; tids := ra_new;
  procs := [set_pagetable (Some Bump.root0) ProcData_new]; alarms := [ProcAlarm_new]; events := [] |}.
Definition made : kstate (H := Z) (R := unit) :=
  match (t ← Task_new Bump.root0 0 0 0 0 0 1 0 0x40; upd_proc 0 (set_tasks [Some t])) start with
  | Done (_, k) => k | Panic _ => start end.
Definition state : tstate (H := Z) (R := unit) := {|
  ks := made; ticks := 0;
  csr := {| sstatus := 0x6102; sip := 0; stvec := 0; sepc := 0; scause := 8; stval := 0 |};
  devs := []; claims := []; started := true |}.
Lemma returns : is_panic (user_trap_ret 0 0 0 0 state) = false.
Proof. by vm_compute. Qed.
End Back.


(** * Page faults *)
Section faults.
Context {H R : Type} `{!PageHeap H, !PageHeapLaws H}.
#[local] Abbreviation KS := (kstate (H := H) (R := R)).

Lemma alloc_pinv (s : pmem H) live own p h' : pinv s live own → ph_inv h' ({[p]} ∪ live) →
  pinv {| hp := h'; tabs := tabs s; frs := frs s |} ({[p]} ∪ live) own.
Proof.
  intros [Hh Hw Hd Hsep] Hi. split; cbn; [done|done| |done]. intros a Ha. destruct (Hd a Ha); [left; set_solver|by right].
Qed.
Lemma round_down_page a : 0 ≤ a < 2 ^ 64 → mm_pg_round_down a = a / PAGE_SIZE * PAGE_SIZE.
Proof. apply pg_round_down_spec. Qed.
Lemma on_mem_run {A} (m : M (pmem H) A) (s : KS) x t : m (mem_of s) = Done (x, t) →
  ∃ s', Proc.on_mem m s = Done (x, s') ∧ mem_of s' = t ∧ procs s' = procs s.
Proof. intros E. unfold Proc.on_mem, on_kv, Kvm.on_mem, mem_of in *. rewrite E. by eexists. Qed.

End faults.

(** A process with one page, which faults on it. *)
Module Fault.
Definition user : pmem Z :=
  match uvm_alloc Bump.root0 0 PAGE_SIZE Bump.boot with Done (_, s) => s | Panic _ => Bump.boot end.
Lemma faulty_alloc : uvm_alloc Bump.root0 0 PAGE_SIZE Bump.boot = Done (inl PAGE_SIZE, user).
Proof. by vm_compute. Qed.
Definition data : ProcData unit := set_pagetable (Some Bump.root0) ProcData_new.
Definition state : kstate (H := Z) (R := unit) := {|
  kv := {| km := user; kstacks := 0 |}; sch := sched_boot; pids := ra_new; tids := ra_new;
  procs := [data]; alarms := [ProcAlarm_new]; events := [] |}.
End Fault.

