(* ===== verification/Vectors.v ===== *)
(** * The assembly of the kernel ([kernel/src/asm]: [trampoline.S],
    [kernelvec.S], [switch.S], [entry.S])

    The routines are lists of instructions, in the order of the source, run by
    a small machine: the registers, the control registers and the memory in
    words of 8 bytes (every access of the routines is of one word, at a multiple
    of 8 from a base).  [translate satp va] is the physical address the hart
    uses; it is a parameter, about which a theorem says what it relies on. *)
From S2P Require Import Prelude Consts Locks Proc Trap.

Inductive reg :=
| ra | sp | gp | tp | t0 | t1 | t2 | s0 | s1 | a0 | a1 | a2 | a3 | a4 | a5 | a6 | a7
| s2 | s3 | s4 | s5 | s6 | s7 | s8 | s9 | s10 | s11 | t3 | t4 | t5 | t6.
#[export] Instance reg_eq_dec : EqDecision reg.
Proof. solve_decision. Defined.
Inductive csr := sscratch | satp | sepc | mscratch | sip | mhartid.
#[export] Instance csr_eq_dec : EqDecision csr.
Proof. solve_decision. Defined.

Inductive instr :=
| sd (rs : reg) (offset : Z) (base : reg)
| ld (rd : reg) (offset : Z) (base : reg)
| csrrw (rd : reg) (c : csr) (rs : reg)
| csrr (rd : reg) (c : csr)
| csrw (c : csr) (rs : reg)
| addi (rd rs : reg) (n : Z)
| add (rd rs1 rs2 : reg)
| mul (rd rs1 rs2 : reg)
| li (rd : reg) (n : Z)
| sfence_vma.

Record machine := { regs : reg → Z; csrs : csr → Z; words : Z → Z }.
Definition update {A} `{EqDecision A} (f : A → Z) (k : A) (x : Z) : A → Z := λ a, if decide (a = k) then x else f a.
Definition set_reg (r : reg) (x : Z) (m : machine) : machine :=
  {| regs := update (regs m) r x; csrs := csrs m; words := words m |}.
Definition set_csr (c : csr) (x : Z) (m : machine) : machine :=
  {| regs := regs m; csrs := update (csrs m) c x; words := words m |}.
Definition set_word (p x : Z) (m : machine) : machine :=
  {| regs := regs m; csrs := csrs m; words := update (words m) p x |}.

Section run.
Context (translate : Z → Z → Z).
Definition address (m : machine) (base : reg) (offset : Z) : Z :=
  translate (csrs m satp) (wrap 64 (regs m base + offset)).
Definition step (m : machine) (i : instr) : machine :=
  match i with
  | sd rs offset base => set_word (address m base offset) (regs m rs) m
  | ld rd offset base => set_reg rd (words m (address m base offset)) m
  | csrrw rd c rs => set_csr c (regs m rs) (set_reg rd (csrs m c) m)
  | csrr rd c => set_reg rd (csrs m c) m
  | csrw c rs => set_csr c (regs m rs) m
  | addi rd rs n => set_reg rd (wrap 64 (regs m rs + n)) m
  | add rd rs1 rs2 => set_reg rd (wrap 64 (regs m rs1 + regs m rs2)) m
  | mul rd rs1 rs2 => set_reg rd (wrap 64 (regs m rs1 * regs m rs2)) m
  | li rd n => set_reg rd n m
  | sfence_vma => m
  end.
Definition run (l : list instr) (m : machine) : machine := foldl step m l.
End run.

(** ** trampoline.S *)
(** [uservec] ends with [jr t0]. *)
Definition uservec : list instr := [
  csrrw a0 sscratch a0;
  sd ra 40 a0; sd sp 48 a0; sd gp 56 a0; sd tp 64 a0; sd t0 72 a0; sd t1 80 a0; sd t2 88 a0; sd s0 96 a0; sd s1 104 a0;
  sd a1 120 a0; sd a2 128 a0; sd a3 136 a0; sd a4 144 a0; sd a5 152 a0; sd a6 160 a0; sd a7 168 a0;
  sd s2 176 a0; sd s3 184 a0; sd s4 192 a0; sd s5 200 a0; sd s6 208 a0; sd s7 216 a0; sd s8 224 a0; sd s9 232 a0;
  sd s10 240 a0; sd s11 248 a0; sd t3 256 a0; sd t4 264 a0; sd t5 272 a0; sd t6 280 a0;
  csrr t0 sscratch; sd t0 112 a0;
  csrr t0 sepc; sd t0 24 a0;
  ld sp 8 a0; ld tp 32 a0; ld t0 16 a0; ld t1 0 a0;
  csrw satp t1; sfence_vma].
(** [userret(tf, satp)] ends with [sret]. *)
Definition userret : list instr := [
  csrw satp a1; sfence_vma;
  ld t0 112 a0; csrw sscratch t0;
  ld ra 40 a0; ld sp 48 a0; ld gp 56 a0; ld tp 64 a0; ld t0 72 a0; ld t1 80 a0; ld t2 88 a0; ld s0 96 a0; ld s1 104 a0;
  ld a1 120 a0; ld a2 128 a0; ld a3 136 a0; ld a4 144 a0; ld a5 152 a0; ld a6 160 a0; ld a7 168 a0;
  ld s2 176 a0; ld s3 184 a0; ld s4 192 a0; ld s5 200 a0; ld s6 208 a0; ld s7 216 a0; ld s8 224 a0; ld s9 232 a0;
  ld s10 240 a0; ld s11 248 a0; ld t3 256 a0; ld t4 264 a0; ld t5 272 a0; ld t6 280 a0;
  csrrw a0 sscratch a0].

(** ** kernelvec.S *)
(** Up to [call kerneltrap], and from there to [sret]. *)
Definition kernelvec_save : list instr := [
  addi sp sp (-256);
  sd ra 0 sp; sd sp 8 sp; sd gp 16 sp; sd tp 24 sp; sd t0 32 sp; sd t1 40 sp; sd t2 48 sp; sd s0 56 sp; sd s1 64 sp;
  sd a0 72 sp; sd a1 80 sp; sd a2 88 sp; sd a3 96 sp; sd a4 104 sp; sd a5 112 sp; sd a6 120 sp; sd a7 128 sp;
  sd s2 136 sp; sd s3 144 sp; sd s4 152 sp; sd s5 160 sp; sd s6 168 sp; sd s7 176 sp; sd s8 184 sp; sd s9 192 sp;
  sd s10 200 sp; sd s11 208 sp; sd t3 216 sp; sd t4 224 sp; sd t5 232 sp; sd t6 240 sp].
Definition kernelvec_restore : list instr := [
  ld ra 0 sp; ld sp 8 sp; ld gp 16 sp; ld t0 32 sp; ld t1 40 sp; ld t2 48 sp; ld s0 56 sp; ld s1 64 sp;
  ld a0 72 sp; ld a1 80 sp; ld a2 88 sp; ld a3 96 sp; ld a4 104 sp; ld a5 112 sp; ld a6 120 sp; ld a7 128 sp;
  ld s2 136 sp; ld s3 144 sp; ld s4 152 sp; ld s5 160 sp; ld s6 168 sp; ld s7 176 sp; ld s8 184 sp; ld s9 192 sp;
  ld s10 200 sp; ld s11 208 sp; ld t3 216 sp; ld t4 224 sp; ld t5 232 sp; ld t6 240 sp;
  addi sp sp 256].
(** In machine mode, up to [mret]. *)
Definition timervec : list instr := [
  csrrw a0 mscratch a0;
  sd a1 0 a0; sd a2 8 a0; sd a3 16 a0;
  ld a1 32 a0; ld a2 40 a0; ld a3 0 a1; add a3 a3 a2; sd a3 0 a1;
  li a1 2; csrw sip a1;
  ld a3 16 a0; ld a2 8 a0; ld a1 0 a0;
  csrrw a0 mscratch a0].

(** ** switch.S: [switch(old, new)], up to [ret] *)
Definition SAVE_SN (n : Z) (r : reg) : instr := sd r ((n + 2) * 8) a0.
Definition LOAD_SN (n : Z) (r : reg) : instr := ld r ((n + 2) * 8) a1.
Definition s_regs : list reg := [s0; s1; s2; s3; s4; s5; s6; s7; s8; s9; s10; s11].
Definition switch : list instr :=
  [sd sp 8 a0; sd ra 0 a0] ++ imap (λ n r, SAVE_SN (Z.of_nat n) r) s_regs ++
  [ld ra 0 a1] ++ imap (λ n r, LOAD_SN (Z.of_nat n) r) s_regs ++
  [ld sp 8 a1].

(** ** entry.S, up to [call start]; [stack0] is a linker symbol *)
Definition entry (stack0 : Z) : list instr := [
  li sp stack0; li a0 (1024 * 8); csrr a1 mhartid; addi a1 a1 1; mul a0 a0 a1; add sp sp a0].

(** * Runs of stores and of loads *)
Lemma update_eq {A} `{EqDecision A} (f : A → Z) k x : update f k x k = x.
Proof. unfold update. by rewrite decide_True. Qed.
Lemma update_ne {A} `{EqDecision A} (f : A → Z) k x a : a ≠ k → update f k x a = f a.
Proof. intros. unfold update. by rewrite decide_False. Qed.

Section runs.
Context (translate : Z → Z → Z).
#[local] Abbreviation exec := (run translate).
#[local] Abbreviation adr := (address translate).

Lemma run_app l k m : exec (l ++ k) m = exec k (exec l m).
Proof. apply foldl_app. Qed.

Definition saves (l : list (reg * Z)) (base : reg) : list instr := (λ p, sd p.1 p.2 base) <$> l.
Definition restores (l : list (reg * Z)) (base : reg) : list instr := (λ p, ld p.1 p.2 base) <$> l.

Lemma run_saves l base m : NoDup (adr m base <$> l.*2) →
  regs (exec (saves l base) m) = regs m ∧ csrs (exec (saves l base) m) = csrs m ∧
  (∀ r o, (r, o) ∈ l → words (exec (saves l base) m) (adr m base o) = regs m r) ∧
  (∀ p, (p ∉ adr m base <$> l.*2) → words (exec (saves l base) m) p = words m p).
Proof.
  revert m. induction l as [|[r o] l IH]; intros m Hn; cbn [saves fmap list_fmap run foldl fst snd] in *.
  { split; [done|]. split; [done|]. split; [|done]. intros r o Hr. by apply elem_of_nil in Hr. }
  apply NoDup_cons in Hn as [Ho Hn].
  destruct (IH (step translate m (sd r o base))) as (Hr & Hc & Hw & Hp); [done|].
  change (adr (step translate m (sd r o base)) base) with (adr m base) in *.
  split; [exact Hr|]. split; [exact Hc|]. split.
  - intros r' o' [[= -> ->]|Hin]%elem_of_cons.
    + etransitivity; [apply Hp, Ho|]. cbn. apply update_eq.
    + by apply Hw.
  - intros p [Hne Hin]%not_elem_of_cons. etransitivity; [by apply Hp|]. cbn. by apply update_ne.
Qed.

Lemma run_restores l base m : (base ∉ l.*1) → NoDup l.*1 →
  csrs (exec (restores l base) m) = csrs m ∧ words (exec (restores l base) m) = words m ∧
  (∀ r o, (r, o) ∈ l → regs (exec (restores l base) m) r = words m (adr m base o)) ∧
  (∀ r, (r ∉ l.*1) → regs (exec (restores l base) m) r = regs m r).
Proof.
  revert m. induction l as [|[r o] l IH]; intros m Hb Hn; cbn [restores fmap list_fmap run foldl fst snd] in *.
  { split; [done|]. split; [done|]. split; [|done]. intros r o Hr. by apply elem_of_nil in Hr. }
  apply NoDup_cons in Hn as [Ho Hn]. apply not_elem_of_cons in Hb as [Hbr Hb].
  destruct (IH (step translate m (ld r o base)) Hb Hn) as (Hc & Hw & Hr & Hp).
  split; [exact Hc|]. split; [exact Hw|]. split.
  - intros r' o' [[= -> ->]|Hin]%elem_of_cons.
    + etransitivity; [by apply Hp|]. cbn. apply update_eq.
    + etransitivity; [by apply Hr|]. cbn [step set_reg words]. unfold address. cbn. by rewrite update_ne.
  - intros r' [Hne Hin]%not_elem_of_cons. etransitivity; [by apply Hp|]. cbn. by apply update_ne.
Qed.
End runs.

(** * The trampoline *)
(** The register of the trap frame that keeps a register. *)
Definition tf_of (r : reg) : tf_reg :=
  match r with
  | ra => tf_ra | sp => tf_sp | gp => tf_gp | tp => tf_tp | t0 => tf_t0 | t1 => tf_t1 | t2 => tf_t2 | s0 => tf_s0
  | s1 => tf_s1 | a0 => tf_a0 | a1 => tf_a1 | a2 => tf_a2 | a3 => tf_a3 | a4 => tf_a4 | a5 => tf_a5 | a6 => tf_a6
  | a7 => tf_a7 | s2 => tf_s2 | s3 => tf_s3 | s4 => tf_s4 | s5 => tf_s5 | s6 => tf_s6 | s7 => tf_s7 | s8 => tf_s8
  | s9 => tf_s9 | s10 => tf_s10 | s11 => tf_s11 | t3 => tf_t3 | t4 => tf_t4 | t5 => tf_t5 | t6 => tf_t6
  end.
Definition tf_word (r : tf_reg) : Z := 8 * Z.of_nat (tf_index r).

(** All registers but [a0], as both routines go through them. *)
Definition user_regs : list reg := [
  ra; sp; gp; tp; t0; t1; t2; s0; s1; a1; a2; a3; a4; a5; a6; a7; s2; s3; s4; s5; s6; s7; s8; s9; s10; s11; t3; t4; t5; t6].
Definition user_area : list (reg * Z) := (λ r, (r, tf_word (tf_of r))) <$> user_regs.

Lemma tf_word_range r : 0 ≤ tf_word (tf_of r) < Z.of_nat TF_SIZE.
Proof. by destruct r. Qed.

Section trampoline.
Context (translate : Z → Z → Z).
#[local] Abbreviation exec := (run translate).
#[local] Abbreviation adr := (address translate).
(** The virtual and the physical address of the trap frame, the user's [satp]. *)
Context (tfv tfp us : Z).
Hypothesis frame_mapped : ∀ o, 0 ≤ o < Z.of_nat TF_SIZE → translate us (wrap 64 (tfv + o)) = tfp + o.

Lemma uservec_parts : uservec = [csrrw a0 sscratch a0] ++ saves user_area a0 ++
  [csrr t0 sscratch; sd t0 112 a0; csrr t0 sepc; sd t0 24 a0; ld sp 8 a0; ld tp 32 a0; ld t0 16 a0; ld t1 0 a0;
   csrw satp t1; sfence_vma].
Proof. reflexivity. Qed.
Lemma userret_parts : userret = [csrw satp a1; sfence_vma; ld t0 112 a0; csrw sscratch t0] ++ restores user_area a0 ++
  [csrrw a0 sscratch a0].
Proof. reflexivity. Qed.

Lemma user_area_elem r : r ≠ a0 → (r, tf_word (tf_of r)) ∈ user_area.
Proof. intros Hr. unfold user_area. apply list_elem_of_fmap. exists r. split; [done|]. unfold user_regs. rewrite !elem_of_cons. destruct r; tauto. Qed.
Lemma user_area_regs : user_area.*1 = user_regs.
Proof. reflexivity. Qed.
Lemma user_offsets_nodup : NoDup user_area.*2.
Proof. apply (bool_decide_unpack _). by vm_compute. Qed.
Lemma user_offsets_ok : Forall (λ o, 40 ≤ o ∧ o < Z.of_nat TF_SIZE ∧ o ≠ 112) user_area.*2.
Proof. apply (bool_decide_unpack _). by vm_compute. Qed.

Lemma frame_address m o : csrs m satp = us → regs m a0 = tfv → 0 ≤ o < Z.of_nat TF_SIZE → adr m a0 o = tfp + o.
Proof using frame_mapped. intros Hs Ha Ho. unfold address. rewrite Hs, Ha. by apply frame_mapped. Qed.
Lemma frame_addresses m : csrs m satp = us → regs m a0 = tfv → adr m a0 <$> user_area.*2 = Z.add tfp <$> user_area.*2.
Proof using frame_mapped.
  intros Hs Ha. apply Forall_fmap_ext_1. eapply Forall_impl; [exact user_offsets_ok|]. intros o (H1 & H2 & _).
  apply frame_address; [done|done|lia].
Qed.
(** Machines in which [a0] points to the trap frame of the user's table. *)
Definition framed (m : machine) : Prop := csrs m satp = us ∧ regs m a0 = tfv.
Lemma framed_reg r x m : r ≠ a0 → framed m → framed (set_reg r x m).
Proof. intros Hr [Hs Ha]. split; [done|]. cbn. by rewrite update_ne. Qed.
Lemma framed_word p x m : framed m → framed (set_word p x m).
Proof. done. Qed.
Lemma step_sd r o m : framed m → 0 ≤ o < Z.of_nat TF_SIZE → step translate m (sd r o a0) = set_word (tfp + o) (regs m r) m.
Proof using frame_mapped. intros [Hs Ha] Ho. cbn [step]. by rewrite frame_address. Qed.
Lemma step_ld r o m : framed m → 0 ≤ o < Z.of_nat TF_SIZE → step translate m (ld r o a0) = set_reg r (words m (tfp + o)) m.
Proof using frame_mapped. intros [Hs Ha] Ho. cbn [step]. by rewrite frame_address. Qed.

Definition uservec_tail : list instr :=
  [csrr t0 sscratch; sd t0 112 a0; csrr t0 sepc; sd t0 24 a0; ld sp 8 a0; ld tp 32 a0; ld t0 16 a0; ld t1 0 a0;
   csrw satp t1; sfence_vma].
Ltac in_frame := first [ by vm_compute | repeat first [ apply framed_reg; [done|] | apply framed_word ]; done ].
Ltac updates := repeat first [ rewrite update_eq | rewrite update_ne by (done || lia) ].
Lemma uservec_tail_run m : framed m →
  let m' := exec uservec_tail m in
  words m' = update (update (words m) (tfp + 112) (csrs m sscratch)) (tfp + 24) (csrs m sepc) ∧
  csrs m' satp = words m (tfp + 0) ∧ regs m' sp = words m (tfp + 8) ∧ regs m' t0 = words m (tfp + 16) ∧
  regs m' tp = words m (tfp + 32).
Proof using frame_mapped.
  intros Hm. unfold uservec_tail, run. cbn [foldl]. cbv zeta.
  change (step translate m (csrr t0 sscratch)) with (set_reg t0 (csrs m sscratch) m).
  rewrite (step_sd t0 112) by in_frame. set (m1 := set_word _ _ _). assert (framed m1) as H1 by (unfold m1; in_frame).
  change (step translate m1 (csrr t0 sepc)) with (set_reg t0 (csrs m sepc) m1).
  rewrite (step_sd t0 24) by in_frame. set (m2 := set_word _ _ _). assert (framed m2) as H2 by (unfold m2; in_frame).
  rewrite (step_ld sp 8) by in_frame. rewrite (step_ld tp 32) by in_frame. rewrite (step_ld t0 16) by in_frame.
  rewrite (step_ld t1 0) by in_frame. cbn [step set_csr set_reg words csrs regs]. updates.
  unfold m2, m1. cbn [set_word set_reg words regs csrs]. split; [by updates|].
  split; [by updates|]. split; [by updates|]. split; by updates.
Qed.
Definition userret_head : list instr := [csrw satp a1; sfence_vma; ld t0 112 a0; csrw sscratch t0].
Lemma userret_run m : regs m a0 = tfv → regs m a1 = us →
  let m3 := exec userret m in
  (∀ r, regs m3 r = words m (tfp + tf_word (tf_of r))) ∧
  csrs m3 satp = us ∧ csrs m3 sscratch = tfv ∧ words m3 = words m.
Proof using frame_mapped.
  intros Ha Hu. cbv zeta. rewrite userret_parts, !run_app. fold userret_head.
  assert (framed (set_csr satp us m)) as H0 by (split; [cbn; by rewrite update_eq|done]).
  set (m0 := exec userret_head m).
  assert (m0 = set_csr sscratch (words m (tfp + 112)) (set_reg t0 (words m (tfp + 112)) (set_csr satp us m))) as E0.
  { unfold m0, userret_head, run. cbn [foldl]. change (step translate m (csrw satp a1)) with (set_csr satp (regs m a1) m).
    rewrite Hu. change (step translate (set_csr satp us m) sfence_vma) with (set_csr satp us m).
    rewrite (step_ld t0 112) by in_frame. cbn. by rewrite update_eq. }
  assert (framed m0) as H1.
  { rewrite E0. split; cbn; [by rewrite update_ne, update_eq by done|by rewrite update_ne by done]. }
  destruct (run_restores translate user_area a0 m0) as (Ec & Ew & Hr & Hk).
  { apply (bool_decide_unpack _). by vm_compute. } { apply (bool_decide_unpack _). by vm_compute. }
  set (m1 := exec (restores user_area a0) m0) in *. clearbody m1. clearbody m0. unfold run. cbn [foldl step].
  assert (words m0 = words m) as Ew0 by (by rewrite E0).
  split; [|split; [|split]].
  - intros r. cbn [set_csr set_reg regs]. destruct (decide (r = a0)) as [->|Hra].
    + rewrite update_eq, Ec, E0. cbn. by rewrite update_eq.
    + rewrite update_ne by done. rewrite (Hr r _ (user_area_elem r Hra)), Ew0. f_equal. apply frame_address; [apply H1|apply H1|].
      apply tf_word_range.
  - cbn. rewrite update_ne by done. rewrite Ec. apply H1.
  - cbn. rewrite update_eq. rewrite Hk; [apply H1|]. apply (bool_decide_unpack _). by vm_compute.
  - cbn. by rewrite Ew, Ew0.
Qed.

(** C28. The trampoline loses nothing of the user.  [uservec] keeps every
    register of the user and its program counter in the trap frame, each in the
    place that the kernel's [TrapFrame] gives it, enters the kernel with the
    stack, the hart id, the handler and the page table that the frame holds, and
    writes nothing else; and whatever the kernel did in between, [userret] gives
    every register the value the frame has for it, with the user's page table
    and [sscratch] ready for the next trap.  So a register that the kernel does
    not write in the frame comes back unchanged. *)
Theorem trampoline_keeps m : csrs m satp = us → csrs m sscratch = tfv →
  let m1 := exec uservec m in
  (∀ r, words m1 (tfp + tf_word (tf_of r)) = regs m r) ∧ words m1 (tfp + tf_word epc) = csrs m sepc ∧
  regs m1 sp = words m (tfp + tf_word kernel_sp) ∧ regs m1 tp = words m (tfp + tf_word kernel_hartid) ∧
  regs m1 t0 = words m (tfp + tf_word kernel_trap) ∧ csrs m1 satp = words m (tfp + tf_word kernel_satp) ∧
  (∀ p, ¬ tfp + tf_word epc ≤ p < tfp + Z.of_nat TF_SIZE ∨ p = tfp + tf_word kernel_hartid → words m1 p = words m p) ∧
  ∀ m2, regs m2 a0 = tfv → regs m2 a1 = us →
    let m3 := exec userret m2 in
    (∀ r, regs m3 r = words m2 (tfp + tf_word (tf_of r))) ∧
    csrs m3 satp = us ∧ csrs m3 sscratch = tfv ∧ words m3 = words m2.
Proof using frame_mapped.
  intros Hs Hv. cbv zeta. rewrite uservec_parts, !run_app. fold uservec_tail.
  set (m0 := exec [csrrw a0 sscratch a0] m). assert (framed m0) as H0 by (split; [done|cbn; by rewrite update_eq]).
  destruct (run_saves translate user_area a0 m0) as (Er & Ec & Hw & Hp).
  { rewrite (frame_addresses m0) by apply H0. apply NoDup_fmap; [intros x y; lia|apply user_offsets_nodup]. }
  rewrite (frame_addresses m0) in Hp by apply H0. set (m1 := exec (saves user_area a0) m0) in *.
  assert (framed m1) as H1 by (split; [rewrite Ec; apply H0|rewrite Er; apply H0]).
  clearbody m1. assert (∀ r, r ≠ a0 → regs m0 r = regs m r) as Er0 by (intros r Hra; cbn; by rewrite update_ne).
  assert (words m0 = words m) as Ew0 by done.
  assert (csrs m0 sscratch = regs m a0) as Ea0 by (cbn; by rewrite update_eq).
  assert (csrs m0 sepc = csrs m sepc) as Ee0 by (cbn; by rewrite update_ne).
  clearbody m0. destruct (uservec_tail_run m1 H1) as (Ew & Es & Esp & Et & Etp). set (mt := exec uservec_tail m1) in *. clearbody mt.
  assert (∀ o, 0 ≤ o < 40 → words m1 (tfp + o) = words m (tfp + o)) as Hlow.
  { intros o Ho. rewrite Hp; [by rewrite Ew0|]. intros (o' & Eo & Hin)%list_elem_of_fmap.
    pose proof (proj1 (Forall_forall _ _) user_offsets_ok _ Hin). cbn in *. lia. }
  rewrite Ew. split; [|split; [|split; [|split; [|split; [|split; [|split]]]]]].
  - intros r. destruct (decide (r = a0)) as [->|Hra].
    + change (tf_word (tf_of a0)) with 112. updates. by rewrite Ec, Ea0.
    + pose proof (user_area_elem r Hra) as Hin. set (o := tf_word (tf_of r)) in *.
      assert (o ∈ user_area.*2) as Ho by (apply list_elem_of_fmap; by exists (r, o)).
      pose proof (proj1 (Forall_forall _ _) user_offsets_ok _ Ho) as (Ho1 & Ho2 & Ho3).
      rewrite !update_ne by lia. pose proof (Hw r o Hin) as Ewr. rewrite frame_address in Ewr by (apply H0 || lia).
      rewrite Ewr. by apply Er0.
  - change (tf_word epc) with 24. updates. by rewrite Ec, Ee0.
  - rewrite Esp. by apply Hlow.
  - rewrite Etp. by apply Hlow.
  - rewrite Et. by apply Hlow.
  - rewrite Es. by apply Hlow.
  - intros p Hpp. change (tf_word epc) with 24 in *. change (tf_word kernel_hartid) with 32 in *. change (Z.of_nat TF_SIZE) with 288 in *.
    rewrite !update_ne by lia. rewrite Hp; [by rewrite Ew0|]. intros (o' & -> & Hin)%list_elem_of_fmap.
    pose proof (proj1 (Forall_forall _ _) user_offsets_ok _ Hin) as (Ho1 & Ho2 & _). change (Z.of_nat TF_SIZE) with 288 in *. lia.
  - intros m2 Ha Hu. by apply userret_run.
Qed.
End trampoline.

(** * Traps in the kernel *)
Definition kernel_area : list (reg * Z) := imap (λ n r, (r, 8 * Z.of_nat n)) [
  ra; sp; gp; tp; t0; t1; t2; s0; s1; a0; a1; a2; a3; a4; a5; a6; a7; s2; s3; s4; s5; s6; s7; s8; s9; s10; s11; t3; t4; t5; t6].
Definition kernel_word (r : reg) : Z := from_option snd 0 (find (λ p, bool_decide (p.1 = r)) kernel_area).
(** What is loaded once [sp] has been. *)
Definition rest_area : list (reg * Z) := filter (λ p, p.1 ≠ ra ∧ p.1 ≠ sp ∧ p.1 ≠ tp) kernel_area.

Section kernelvec.
Context (translate : Z → Z → Z).
#[local] Abbreviation exec := (run translate).
#[local] Abbreviation adr := (address translate).
(** The stack pointer, the table and the physical address of the 256 bytes below it. *)
Context (S P ks : Z).
Hypothesis stack_mapped : ∀ o, 0 ≤ o < 256 → translate ks (wrap 64 (wrap 64 (S - 256) + o)) = P + o.

Lemma kernelvec_save_parts : kernelvec_save = [addi sp sp (-256)] ++ saves kernel_area sp.
Proof. reflexivity. Qed.
Lemma kernelvec_restore_parts :
  kernelvec_restore = [ld ra 0 sp; ld sp 8 sp] ++ restores rest_area sp ++ [addi sp sp 256].
Proof. reflexivity. Qed.
Lemma kernel_area_ok : Forall (λ p, 0 ≤ p.2 ∧ p.2 < 256) kernel_area ∧ NoDup kernel_area.*2.
Proof. split; apply (bool_decide_unpack _); by vm_compute. Qed.
Lemma kernel_area_elem r : (r, kernel_word r) ∈ kernel_area.
Proof. destruct r; apply (bool_decide_unpack _); by vm_compute. Qed.
Lemma stack_address m r o : csrs m satp = ks → regs m sp = wrap 64 (S - 256) → (r, o) ∈ kernel_area → adr m sp o = P + o.
Proof using stack_mapped.
  intros Hs Ha Ho. unfold address. rewrite Hs, Ha. apply stack_mapped.
  exact (proj1 (Forall_forall _ _) (proj1 kernel_area_ok) _ Ho).
Qed.
Lemma stack_addresses m : csrs m satp = ks → regs m sp = wrap 64 (S - 256) → adr m sp <$> kernel_area.*2 = Z.add P <$> kernel_area.*2.
Proof using stack_mapped.
  intros Hs Ha. apply Forall_fmap_ext_1, Forall_fmap, Forall_forall. intros [r o] Ho. by apply (stack_address m r).
Qed.

Lemma kernelvec_save_run m : regs m sp = S → csrs m satp = ks →
  let m1 := exec kernelvec_save m in
  regs m1 sp = wrap 64 (S - 256) ∧ csrs m1 = csrs m ∧
  (∀ r o, (r, o) ∈ kernel_area → r ≠ sp → words m1 (P + o) = regs m r) ∧ words m1 (P + 8) = wrap 64 (S - 256) ∧
  ∀ p, ¬ P ≤ p < P + 256 → words m1 p = words m p.
Proof using stack_mapped.
  intros Hsp Hks. cbv zeta. rewrite kernelvec_save_parts, run_app.
  change (exec [addi sp sp (-256)] m) with (set_reg sp (wrap 64 (regs m sp + -256)) m). rewrite Hsp.
  change (S + -256) with (S - 256). set (m0 := set_reg _ _ _).
  assert (regs m0 sp = wrap 64 (S - 256)) as E0 by (cbn; apply update_eq).
  assert (∀ r, r ≠ sp → regs m0 r = regs m r) as Er0 by (intros r Hr; cbn; by apply update_ne).
  assert (csrs m0 = csrs m) as Ec0 by done. assert (words m0 = words m) as Ew0 by done. clearbody m0.
  assert (csrs m0 satp = ks) as Ek0 by (by rewrite Ec0). pose proof (stack_addresses m0 Ek0 E0) as Ea.
  destruct (run_saves translate kernel_area sp m0) as (Er & Ec & Hw & Hp).
  { rewrite Ea. apply NoDup_fmap; [intros x y; lia|apply kernel_area_ok]. }
  rewrite Ea in Hp. set (m1 := exec (saves kernel_area sp) m0) in *. clearbody m1.
  assert (∀ r o, (r, o) ∈ kernel_area → words m1 (P + o) = regs m0 r) as Hw'.
  { intros r o Hro. rewrite <- (Hw r o Hro). f_equal. symmetry. by apply (stack_address m0 r). }
  split; [by rewrite Er|]. split; [congruence|]. split; [|split].
  - intros r o Hro Hr. rewrite <- Er0 by done. by apply Hw'.
  - by rewrite (Hw' sp 8 (kernel_area_elem sp)).
  - intros p Hpp. rewrite Hp; [by rewrite Ew0|]. intros (o & -> & Ho)%list_elem_of_fmap.
    apply list_elem_of_fmap in Ho as ([r o'] & -> & Hin).
    pose proof (proj1 (Forall_forall _ _) (proj1 kernel_area_ok) _ Hin). cbn in *. lia.
Qed.

(** A trap in the kernel is invisible to the code it interrupts.
    Whatever [kerneltrap] does to the other registers and to memory, if it
    returns as a function does, with its stack pointer and with the 31 words
    that [kernelvec] pushed, under the same page table, then every register has
    the value it had at the interrupt -- the stack pointer too, although it is
    reloaded from the frame in the middle of the loads --, but for [tp], which
    stays what [kerneltrap] left, for a thread that moved to another hart; and
    nothing outside the 256 bytes below the stack pointer is written. *)
Theorem kernelvec_keeps m m2 : 0 ≤ S < 2 ^ 64 → regs m sp = S → csrs m satp = ks →
  let m1 := exec kernelvec_save m in
  csrs m1 = csrs m ∧ (∀ p, ¬ P ≤ p < P + 256 → words m1 p = words m p) ∧
  (regs m2 sp = regs m1 sp → csrs m2 satp = ks → (∀ o, 0 ≤ o < 256 → words m2 (P + o) = words m1 (P + o)) →
   let m3 := exec kernelvec_restore m2 in
   (∀ r, r ≠ tp → regs m3 r = regs m r) ∧ regs m3 tp = regs m2 tp ∧ csrs m3 = csrs m2 ∧ words m3 = words m2).
Proof using stack_mapped.
  intros Hrange Hsp Hks. destruct (kernelvec_save_run m Hsp Hks) as (E1 & Ec1 & Hw1 & Hw8 & Hp1). cbv zeta.
  set (m1 := exec kernelvec_save m) in *. clearbody m1. split; [exact Ec1|]. split; [exact Hp1|].
  intros Es2 Ek2 Hkept. rewrite kernelvec_restore_parts, !run_app.
  assert (adr m2 sp 0 = P + 0) as A0.
  { apply (stack_address m2 ra); [done|congruence|exact (kernel_area_elem ra)]. }
  assert (∀ x, adr (set_reg ra x m2) sp 8 = P + 8) as A8.
  { intros x. apply (stack_address _ sp); [done|cbn; rewrite update_ne by done; congruence|exact (kernel_area_elem sp)]. }
  assert (exec [ld ra 0 sp; ld sp 8 sp] m2 = set_reg sp (wrap 64 (S - 256)) (set_reg ra (regs m ra) m2)) as E3.
  { unfold run. cbn [foldl step]. rewrite A0, A8. cbn [words set_reg]. rewrite !Hkept by lia. rewrite Hw8. f_equal. f_equal.
    exact (Hw1 ra 0 (kernel_area_elem ra) ltac:(done)). }
  rewrite E3. clear E3 A0 A8. set (m3 := set_reg sp _ _).
  assert (csrs m3 satp = ks ∧ regs m3 sp = wrap 64 (S - 256)) as [Ek3 Es3] by (split; [done|cbn; apply update_eq]).
  destruct (run_restores translate rest_area sp m3) as (Ec & Ew & Hr & Hk).
  { apply (bool_decide_unpack _). by vm_compute. } { apply (bool_decide_unpack _). by vm_compute. }
  set (m4 := exec (restores rest_area sp) m3) in *. clearbody m4. unfold run. cbn [foldl step set_reg regs csrs words].
  assert (regs m4 sp = wrap 64 (S - 256)) as Es4.
  { rewrite Hk; [exact Es3|]. apply (bool_decide_unpack _). by vm_compute. }
  split; [|split; [|split; [exact Ec|exact Ew]]].
  - intros r Hr'. destruct (decide (r = sp)) as [->|Hs'].
    { rewrite update_eq, Es4, Hsp. unfold wrap. rewrite Zplus_mod_idemp_l. replace (S - 256 + 256) with S by lia. by apply Z.mod_small. }
    rewrite update_ne by done. destruct (decide (r = ra)) as [->|Ha].
    { rewrite Hk by (apply (bool_decide_unpack _); by vm_compute). cbn. rewrite update_ne, update_eq by done. done. }
    pose proof (kernel_area_elem r) as Ho. set (o := kernel_word r) in *. clearbody o.
    rewrite (Hr r o) by (apply list_elem_of_filter; split; [done|exact Ho]).
    rewrite (stack_address m3 r o Ek3 Es3 Ho). change (words m3) with (words m2).
    rewrite Hkept by exact (proj1 (Forall_forall _ _) (proj1 kernel_area_ok) _ Ho). by apply Hw1.
  - rewrite update_ne by done. rewrite Hk by (apply (bool_decide_unpack _); by vm_compute). cbn. by rewrite !update_ne.
Qed.
End kernelvec.

(** * The timer *)
(** Memory that holds a list of words. *)
Definition held (base : Z) (l : list Z) (m : machine) : Prop := ∀ (i : nat) w, l !! i = Some w → words m (base + 8 * Z.of_nat i) = w.
(** In machine mode addresses are not translated. *)
Definition bare : Z → Z → Z := λ _ va, va.

Lemma bare_address m b o : 0 ≤ regs m b + o < 2 ^ 64 → address bare m b o = regs m b + o.
Proof. intros H. unfold address, bare, wrap. by apply Z.mod_small. Qed.

Section timer.
(** The scratch area of the hart. *)
Context (sc : Z).
Hypothesis sc_range : 0 ≤ sc ∧ sc + 48 ≤ 2 ^ 64.
#[local] Abbreviation exec := (run bare).

Lemma bare_sd r o m : regs m a0 = sc → 0 ≤ o ≤ 40 → step bare m (sd r o a0) = set_word (sc + o) (regs m r) m.
Proof using sc_range. intros E Ho. cbn [step]. rewrite bare_address by lia. by rewrite E. Qed.
Lemma bare_ld r o m : regs m a0 = sc → 0 ≤ o ≤ 40 → step bare m (ld r o a0) = set_reg r (words m (sc + o)) m.
Proof using sc_range. intros E Ho. cbn [step]. rewrite bare_address by lia. by rewrite E. Qed.
Ltac keeps_a0 := repeat first [ progress cbn [set_reg set_word set_csr regs] | rewrite update_ne by done ]; assumption.

Definition timervec_save : list instr :=
  [csrrw a0 mscratch a0; sd a1 0 a0; sd a2 8 a0; sd a3 16 a0; ld a1 32 a0; ld a2 40 a0].
Definition timervec_arm : list instr := [ld a3 0 a1; add a3 a3 a2; sd a3 0 a1; li a1 2; csrw sip a1].
Definition timervec_load : list instr := [ld a3 16 a0; ld a2 8 a0; ld a1 0 a0; csrrw a0 mscratch a0].
Definition saved_words (m : machine) : Z → Z :=
  update (update (update (words m) (sc + 0) (regs m a1)) (sc + 8) (regs m a2)) (sc + 16) (regs m a3).

Lemma timervec_save_run m : csrs m mscratch = sc →
  let m1 := exec timervec_save m in
  regs m1 a0 = sc ∧ regs m1 a1 = words m (sc + 32) ∧ regs m1 a2 = words m (sc + 40) ∧
  (∀ r, r ≠ a0 → r ≠ a1 → r ≠ a2 → regs m1 r = regs m r) ∧ csrs m1 mscratch = regs m a0 ∧ words m1 = saved_words m.
Proof using sc_range.
  intros Hs. cbv zeta. unfold timervec_save, run. cbn [foldl]. set (m0 := step bare m _).
  assert (regs m0 a0 = sc) as Ha by (unfold m0; cbn; by rewrite update_eq).
  rewrite (bare_sd a1 0), (bare_sd a2 8), (bare_sd a3 16), (bare_ld a1 32), (bare_ld a2 40) by (keeps_a0 || lia).
  set (m1 := set_reg a2 _ _).
  assert (words m1 = saved_words m) as Ew by done.
  split; [unfold m1; keeps_a0|]. split; [|split; [|split; [|split; [|exact Ew]]]].
  - unfold m1. cbn. by rewrite update_ne, update_eq, !update_ne by (done || lia).
  - unfold m1. cbn. by rewrite update_eq, !update_ne by (done || lia).
  - intros r H0 H1 H2. cbn. by rewrite !update_ne.
  - cbn. by rewrite update_eq.
Qed.

Lemma timervec_arm_run c iv m : regs m a1 = c → regs m a2 = iv → 0 ≤ c < 2 ^ 64 →
  let m2 := exec timervec_arm m in
  words m2 = update (words m) c (wrap 64 (words m c + iv)) ∧ csrs m2 = update (csrs m) sip 2 ∧
  ∀ r, r ≠ a1 → r ≠ a3 → regs m2 r = regs m r.
Proof.
  intros H1 H2 Hc. cbv zeta. unfold timervec_arm, run. cbn [foldl].
  assert (∀ M, regs M a1 = c → address bare M a1 0 = c) as Ea by (intros M E; rewrite bare_address by lia; lia).
  cbn [step]. rewrite (Ea m), (Ea (set_reg a3 _ _)) by (cbn; by rewrite ?update_ne by done). cbn. rewrite !update_eq.
  rewrite (update_ne _ _ _ a2), H2 by done. split; [done|]. split; [done|]. intros r Hr1 Hr3. by rewrite !update_ne by done.
Qed.

Lemma timervec_load_run m : regs m a0 = sc →
  let m3 := exec timervec_load m in
  words m3 = words m ∧ csrs m3 = update (csrs m) mscratch sc ∧ regs m3 a0 = csrs m mscratch ∧
  regs m3 a1 = words m (sc + 0) ∧ regs m3 a2 = words m (sc + 8) ∧ regs m3 a3 = words m (sc + 16) ∧
  ∀ r, r ≠ a0 → r ≠ a1 → r ≠ a2 → r ≠ a3 → regs m3 r = regs m r.
Proof using sc_range.
  intros Ha. cbv zeta. unfold timervec_load, run. cbn [foldl].
  rewrite (bare_ld a3 16), (bare_ld a2 8), (bare_ld a1 0) by (keeps_a0 || lia).
  cbn [step set_csr set_reg words csrs regs]. split; [done|].
  split; [by rewrite !update_ne, Ha by done|].
  repeat (split; [by repeat first [rewrite update_eq | rewrite update_ne by done]|]).
  intros. by rewrite !update_ne by done.
Qed.

Lemma timervec_run c iv m :
  csrs m mscratch = sc → words m (sc + 32) = c → words m (sc + 40) = iv → 0 ≤ c < 2 ^ 64 → ¬ sc ≤ c < sc + 48 →
  let m' := exec timervec m in
  (∀ r, regs m' r = regs m r) ∧ csrs m' mscratch = sc ∧ csrs m' sip = 2 ∧
  words m' c = wrap 64 (words m c + iv) ∧ ∀ p, p ≠ c → ¬ sc ≤ p < sc + 24 → words m' p = words m p.
Proof using sc_range.
  intros Hs Hc Hi Hc64 Hout. cbv zeta.
  change timervec with (timervec_save ++ timervec_arm ++ timervec_load). rewrite !run_app.
  destruct (timervec_save_run m Hs) as (Ha & H1 & H2 & Hr1 & Hc1 & Ew1). set (m1 := exec timervec_save m) in *. clearbody m1.
  destruct (timervec_arm_run c iv m1) as (Ew2 & Ec2 & Hr2); [congruence|congruence|done|].
  set (m2 := exec timervec_arm m1) in *. clearbody m2.
  destruct (timervec_load_run m2) as (Ew3 & Ec3 & H30 & H31 & H32 & H33 & Hr3); [by rewrite Hr2|].
  set (m3 := exec timervec_load m2) in *. clearbody m3. rewrite Ew3, Ec3.
  assert (∀ o, 0 ≤ o < 48 → words m2 (sc + o) = saved_words m (sc + o)) as Hkept.
  { intros o Ho. by rewrite Ew2, update_ne, Ew1 by lia. }
  rewrite Hkept in H31, H32, H33 by lia. unfold saved_words in *.
  split; [|split; [|split; [|split]]].
  - intros r. destruct (decide (r = a0)) as [->|]; [by rewrite H30, Ec2, update_ne, Hc1 by done|].
    destruct (decide (r = a1)) as [->|]; [by rewrite H31, !update_ne, update_eq by lia|].
    destruct (decide (r = a2)) as [->|]; [by rewrite H32, update_ne, update_eq by lia|].
    destruct (decide (r = a3)) as [->|]; [by rewrite H33, update_eq|]. by rewrite Hr3, Hr2, Hr1.
  - by rewrite update_eq.
  - by rewrite update_ne, Ec2, update_eq by done.
  - rewrite Ew2, update_eq, Ew1. by rewrite !update_ne by lia.
  - intros p Hp Hps. rewrite Ew2, update_ne, Ew1 by done. by rewrite !update_ne by lia.
Qed.
End timer.

(** C30. A timer interrupt in machine mode is invisible too, and counts once.
    With the scratch area that [timerinit] prepared for a hart in memory at
    [base], above the devices, and [mscratch] at the part of the hart:
    [timervec] brings every register back, moves the comparison register of its
    hart by the interval, wrapped at 64 bits, so the next interrupt is one
    interval after the last one was due, raises the supervisor's software
    interrupt, and writes nothing else than the three words it saves registers
    in; so it can strike at any instruction of the kernel or of the user. *)
Theorem timer_ticks id mtime base scratch' off cmp m :
  0 ≤ id < NCPU → mtime + timer_interval < 2 ^ 64 →
  timerinit id mtime MSCRATCH0 = Done (scratch', off, cmp) →
  CLINT + CLINT_MAP_SIZE ≤ base → base + 8 * Z.of_nat (length MSCRATCH0) ≤ 2 ^ 64 →
  held base scratch' m → csrs m mscratch = base + 8 * off →
  let m' := run bare timervec m in
  (∀ r, regs m' r = regs m r) ∧ csrs m' mscratch = csrs m mscratch ∧ csrs m' sip = SSIP ∧
  words m' (mtimecmp_register id) = wrap 64 (words m (mtimecmp_register id) + timer_interval) ∧
  ∀ p, p ≠ mtimecmp_register id → ¬ csrs m mscratch ≤ p < csrs m mscratch + 24 → words m' p = words m p.
Proof.
  intros Hid Hm E Hb Hlen Hheld Hs. rewrite timerinit_run in E by done. injection E as <- <- <-.
  change (Z.of_nat (length MSCRATCH0)) with 256 in Hlen.
  assert (mtimecmp_register id < CLINT + CLINT_MAP_SIZE ∧ 0 ≤ mtimecmp_register id) as [Hc Hc0].
  { unfold mtimecmp_register, CLINT_MTIMECMP, CLINT, CLINT_MAP_SIZE, const_add, NCPU in *. lia. }
  assert (0 < CLINT + CLINT_MAP_SIZE) as Hpos by (by vm_compute). rewrite Hs. apply timervec_run; [unfold NCPU in *; lia|done| | |lia|unfold NCPU in *; lia].
  - replace (base + 8 * (32 * id) + 32) with (base + 8 * Z.of_nat (Z.to_nat (32 * id + 4))) by lia.
    apply Hheld. rewrite list_lookup_insert_ne by lia. apply list_lookup_insert_eq. change (length MSCRATCH0) with 256%nat. unfold NCPU in *. lia.
  - replace (base + 8 * (32 * id) + 40) with (base + 8 * Z.of_nat (Z.to_nat (32 * id + 5))) by lia.
    apply Hheld. apply list_lookup_insert_eq. rewrite length_insert. change (length MSCRATCH0) with 256%nat. unfold NCPU in *. lia.
Qed.

(** * Switching contexts *)
(** The [Context] (and the [TaskContext]) at an address, and of a machine. *)
Definition context_at (p : Z) (m : machine) : Locks.Context := {|
  Locks.ra := words m p; Locks.sp := words m (p + 8);
  saved := (λ n : nat, words m (p + (Z.of_nat n + 2) * 8)) <$> seq 0 12 |}.
Definition context_of (m : machine) : Locks.Context := {|
  Locks.ra := regs m ra; Locks.sp := regs m sp; saved := regs m <$> s_regs |}.
Definition CONTEXT_SIZE : Z := 14 * 8.
Definition save_area : list (reg * Z) := [(sp, 8); (ra, 0)] ++ imap (λ n r, (r, (Z.of_nat n + 2) * 8)) s_regs.
Definition load_area : list (reg * Z) := [(ra, 0)] ++ imap (λ n r, (r, (Z.of_nat n + 2) * 8)) s_regs ++ [(sp, 8)].
Definition callee_saved : list reg := ra :: sp :: s_regs.

Section switch.
Context (translate : Z → Z → Z).
#[local] Abbreviation exec := (run translate).
#[local] Abbreviation adr := (address translate).
Context (old new ks : Z).
Hypothesis direct : ∀ p, old ≤ p < old + CONTEXT_SIZE ∨ new ≤ p < new + CONTEXT_SIZE → translate ks (wrap 64 p) = p.

Lemma switch_parts : switch = saves save_area a0 ++ restores load_area a1.
Proof. reflexivity. Qed.
Lemma areas_ok : Forall (λ o, 0 ≤ o ∧ o < CONTEXT_SIZE) (save_area.*2 ++ load_area.*2) ∧ NoDup save_area.*2 ∧ NoDup load_area.*1.
Proof. repeat split; apply (bool_decide_unpack _); by vm_compute. Qed.
Lemma old_address m o : csrs m satp = ks → regs m a0 = old → o ∈ save_area.*2 → adr m a0 o = old + o.
Proof using direct.
  intros Hs Ha Ho. unfold address. rewrite Hs, Ha. apply direct. left.
  pose proof (proj1 (Forall_forall _ _) (proj1 areas_ok) o) as H. cbn beta in H. specialize (H (proj2 (elem_of_app _ _ _) (or_introl Ho))). lia.
Qed.
Lemma new_address m o : csrs m satp = ks → regs m a1 = new → o ∈ load_area.*2 → adr m a1 o = new + o.
Proof using direct.
  intros Hs Ha Ho. unfold address. rewrite Hs, Ha. apply direct. right.
  pose proof (proj1 (Forall_forall _ _) (proj1 areas_ok) o) as H. cbn beta in H. specialize (H (proj2 (elem_of_app _ _ _) (or_intror Ho))). lia.
Qed.
Lemma elem_snd (l : list (reg * Z)) r o : (r, o) ∈ l → o ∈ l.*2.
Proof. intros H. apply list_elem_of_fmap. by exists (r, o). Qed.
Lemma areas_elem : Forall (λ p, p ∈ save_area ∧ p ∈ load_area) ((ra, 0) :: (sp, 8) :: imap (λ n r, (r, (Z.of_nat n + 2) * 8)) s_regs).
Proof. apply (bool_decide_unpack _). by vm_compute. Qed.

(** A context that has the values [f] of the registers in their places. *)
Lemma context_at_of m p f : (∀ r o, (r, o) ∈ (ra, 0) :: (sp, 8) :: imap (λ n r, (r, (Z.of_nat n + 2) * 8)) s_regs → words m (p + o) = f r) →
  context_at p m = {| Locks.ra := f ra; Locks.sp := f sp; saved := f <$> s_regs |}.
Proof.
  intros H. unfold context_at. f_equal.
  - rewrite <- (H ra 0) by left. f_equal. lia.
  - by rewrite <- (H sp 8) by (right; left).
  - assert (∀ (n : nat) r, s_regs !! n = Some r → words m (p + (Z.of_nat n + 2) * 8) = f r) as Hs.
    { intros n r Hn. apply H. right. right. apply elem_of_lookup_imap. by exists n, r. }
    apply list_eq. intros i. rewrite !list_lookup_fmap. destruct (s_regs !! i) as [r|] eqn:Ei.
    + pose proof (lookup_lt_Some _ _ _ Ei) as Hi. change (length s_regs) with 12%nat in Hi.
      rewrite lookup_seq_lt by done. cbn. f_equal. by apply Hs.
    + apply lookup_ge_None in Ei. change (length s_regs) with 12%nat in Ei. by rewrite lookup_seq_ge.
Qed.

(** C29. [switch] swaps two threads.  The context at [old] becomes the return
    address, the stack pointer and the callee-saved registers of the running
    thread, the machine takes those of the context at [new] -- also when it is
    [old] --, and no other register, no control register and no other word
    changes.  So a thread whose context is not written while others run resumes,
    when a later [switch] is given that context, exactly where it left, and what
    a caller of a function may rely on is as it was. *)
Theorem switch_swaps m : csrs m satp = ks → regs m a0 = old → regs m a1 = new →
  old = new ∨ old + CONTEXT_SIZE ≤ new ∨ new + CONTEXT_SIZE ≤ old →
  let m' := exec switch m in
  context_at old m' = context_of m ∧
  context_of m' = (if decide (old = new) then context_of m else context_at new m) ∧
  (∀ r, (r ∉ callee_saved) → regs m' r = regs m r) ∧ csrs m' = csrs m ∧
  ∀ p, ¬ old ≤ p < old + CONTEXT_SIZE → words m' p = words m p.
Proof using direct.
  intros Hs Ha0 Ha1 Hdis. cbv zeta. rewrite switch_parts, run_app.
  destruct (run_saves translate save_area a0 m) as (Er & Ec & Hw & Hp).
  { apply NoDup_fmap_2_strong; [intros x y Hx Hy|apply areas_ok]. rewrite !old_address by done. lia. }
  set (m1 := exec (saves save_area a0) m) in *. clearbody m1.
  assert (csrs m1 satp = ks) as Hs1 by congruence. assert (regs m1 a1 = new) as Ha11 by congruence.
  destruct (run_restores translate load_area a1 m1) as (Ec' & Ew & Hr & Hk).
  { apply (bool_decide_unpack _). by vm_compute. } { apply areas_ok. }
  set (m' := exec (restores load_area a1) m1) in *. clearbody m'.
  pose proof (proj1 (Forall_forall _ _) areas_elem) as Hin. cbn beta in Hin.
  assert (∀ p, ¬ old ≤ p < old + CONTEXT_SIZE → words m1 p = words m p) as Hout.
  { intros p Hpp. apply Hp. intros (o & -> & Ho)%list_elem_of_fmap. apply Hpp. rewrite old_address by done.
    pose proof (proj1 (Forall_forall _ _) (proj1 areas_ok) o) as H. cbn beta in H.
    specialize (H (proj2 (elem_of_app _ _ _) (or_introl Ho))). lia. }
  assert (context_at old m1 = context_of m) as Eold.
  { apply context_at_of. intros r o Hro. destruct (Hin _ Hro) as [H1 _]. rewrite <- (Hw r o H1). f_equal. symmetry.
    apply old_address; [done|done|by apply elem_snd in H1]. }
  assert (context_at new m1 = context_of m') as Enew.
  { apply context_at_of. intros r o Hro. destruct (Hin _ Hro) as [_ H1]. rewrite (Hr r o H1). f_equal. symmetry.
    apply new_address; [done|done|by apply elem_snd in H1]. }
  assert (∀ p, context_at p m' = context_at p m1) as Econg by (intros p; unfold context_at; by rewrite Ew).
  split; [by rewrite Econg|]. split; [|split; [|split; [congruence|]]].
  - rewrite <- Enew. destruct (decide (old = new)) as [<-|Hne]; [exact Eold|]. unfold context_at. rewrite !Hout by (unfold CONTEXT_SIZE in *; lia).
    f_equal. apply list_fmap_ext. intros i n [-> Hn]%lookup_seq. apply Hout. unfold CONTEXT_SIZE in *. lia.
  - intros r Hrc. rewrite Hk; [by rewrite Er|]. change load_area.*1 with (ra :: s_regs ++ [sp]).
    rewrite elem_of_cons, elem_of_app, list_elem_of_singleton. unfold callee_saved in Hrc. rewrite !elem_of_cons in Hrc. tauto.
  - intros p Hpp. rewrite Ew. by apply Hout.
Qed.
End switch.

(** * The stacks of the harts *)
Lemma entry_sp translate stack0 m : 0 ≤ csrs m mhartid < NCPU → 0 ≤ stack0 → stack0 + 8192 * NCPU < 2 ^ 64 →
  regs (run translate (entry stack0) m) sp = stack0 + 8192 * (csrs m mhartid + 1).
Proof.
  intros Hid H0 Hend. unfold entry, run, NCPU in *. cbn -[wrap Z.mul]. rewrite !update_eq.
  repeat first [rewrite update_eq | rewrite update_ne by done]. unfold wrap.
  rewrite (Z.mod_small (csrs m mhartid + 1)) by lia. rewrite (Z.mod_small (1024 * 8 * _)) by lia. rewrite Z.mod_small by lia. lia.
Qed.

(** * At concrete machines *)
Module Demo.
(** Every register has a value of its own; the trap frame is at the top of the
    user's addresses. *)
Definition frame_va : Z := 0x3fffffe000.
Definition frame_pa : Z := 0x80201000.
Definition user_satp : Z := 0x8000000000080202.
Definition user : machine := {|
  regs := λ r, 1000 + kernel_word r; csrs := λ c, if decide (c = satp) then user_satp else if decide (c = sscratch) then frame_va else 0x2a4;
  words := λ p, p |}.
Definition mapped (s va : Z) : Z := va - frame_va + frame_pa.
Lemma frame_mapped o : 0 ≤ o < Z.of_nat TF_SIZE → mapped user_satp (wrap 64 (frame_va + o)) = frame_pa + o.
Proof. change (Z.of_nat TF_SIZE) with 288. intros Ho. unfold mapped, frame_va, frame_pa, wrap. rewrite Z.mod_small by lia. lia. Qed.
(** [user_trap_ret] calls [userret] so. *)
Definition call (m : machine) : machine := set_reg a1 user_satp (set_reg a0 frame_va m).
Lemma call_ok m : regs (call m) a0 = frame_va ∧ regs (call m) a1 = user_satp ∧ words (call m) = words m.
Proof. done. Qed.

(** The kernel's addresses are its physical ones. *)
Definition kernel (a0v a1v : Z) : machine := {|
  regs := λ r, if decide (r = sp) then 0x80020000 else if decide (r = a0) then a0v else if decide (r = a1) then a1v else 1000 + kernel_word r;
  csrs := λ c, 0; words := λ p, p |}.
Lemma stack_mapped o : 0 ≤ o < 256 → bare 0 (wrap 64 (wrap 64 (0x80020000 - 256) + o)) = 0x8001ff00 + o.
Proof. intros Ho. unfold bare, wrap. rewrite (Z.mod_small (0x80020000 - 256)) by lia. rewrite Z.mod_small by lia. lia. Qed.
Lemma direct p : 0x80030000 ≤ p < 0x80030000 + CONTEXT_SIZE ∨ 0x80040000 ≤ p < 0x80040000 + CONTEXT_SIZE → bare 0 (wrap 64 p) = p.
Proof. unfold CONTEXT_SIZE. intros Hp. unfold bare, wrap. apply Z.mod_small. lia. Qed.
(** The interrupt used some registers, and the thread is on another hart. *)
Definition handled (m : machine) : machine := set_reg tp 4 (set_reg s7 3 (set_reg a0 7 m)).
Lemma handled_ok m : regs (handled m) sp = regs m sp ∧ csrs (handled m) = csrs m ∧ words (handled m) = words m ∧ regs (handled m) tp = 4.
Proof. done. Qed.

Definition scratch_of (id mtime : Z) : list Z := match timerinit id mtime MSCRATCH0 with Done (l, _, _) => l | Panic _ => [] end.
Definition timer (base : Z) (l : list Z) : machine := {|
  regs := λ r, 1000 + kernel_word r; csrs := λ c, base + 8 * 96;
  words := λ p, if base <=? p then default 0 (l !! Z.to_nat ((p - base) / 8)) else 77 |}.
Lemma timer_held base l : held base l (timer base l).
Proof.
  intros i w Hi. cbn [timer words]. rewrite (proj2 (Z.leb_le base _)) by lia.
  replace ((base + 8 * Z.of_nat i - base) / 8) with (Z.of_nat i) by (apply Z.div_unique with 0; lia). by rewrite Nat2Z.id, Hi.
Qed.
End Demo.

Lemma trampoline_keeps_witness :
  words (run Demo.mapped uservec Demo.user) (Demo.frame_pa + 112) = 1072 ∧
  regs (run Demo.mapped userret (Demo.call (run Demo.mapped uservec Demo.user))) a0 = 1072 ∧
  regs (run Demo.mapped userret (Demo.call (run Demo.mapped uservec Demo.user))) s5 = 1160.
Proof.
  generalize (trampoline_keeps Demo.mapped Demo.frame_va Demo.frame_pa Demo.user_satp Demo.frame_mapped Demo.user eq_refl eq_refl).
  cbv zeta. generalize (run Demo.mapped uservec Demo.user). intros m1 (Hw & _ & _ & _ & _ & _ & _ & Hret).
  generalize (Demo.call_ok m1). generalize (Demo.call m1). intros m2 (H0 & H1 & Ew).
  destruct (Hret m2 H0 H1) as (Hr & _). rewrite (Hr a0), (Hr s5), Ew.
  split; [exact (Hw a0)|]. split; [exact (Hw a0)|exact (Hw s5)].
Defined.

Lemma kernelvec_keeps_witness :
  regs (run bare kernelvec_restore (Demo.handled (run bare kernelvec_save (Demo.kernel 0x80030000 5)))) sp = 0x80020000 ∧
  regs (run bare kernelvec_restore (Demo.handled (run bare kernelvec_save (Demo.kernel 0x80030000 5)))) a0 = 0x80030000 ∧
  regs (run bare kernelvec_restore (Demo.handled (run bare kernelvec_save (Demo.kernel 0x80030000 5)))) tp = 4.
Proof.
  generalize (λ m2, kernelvec_keeps bare 0x80020000 0x8001ff00 0 Demo.stack_mapped (Demo.kernel 0x80030000 5) m2
    ltac:(by split) eq_refl eq_refl).
  cbv zeta. generalize (run bare kernelvec_save (Demo.kernel 0x80030000 5)). intros m1 H.
  specialize (H (Demo.handled m1)). destruct H as (Ec & _ & H). revert H. generalize (Demo.handled_ok m1).
  generalize (Demo.handled m1). intros m2 (Es & Ec2 & Ew & Et) H. destruct H as (Hr & Htp & _).
  { exact Es. } { rewrite Ec2, Ec. reflexivity. } { intros. by rewrite Ew. }
  split; [exact (Hr sp ltac:(done))|]. split; [exact (Hr a0 ltac:(done))|]. exact (eq_trans Htp Et).
Defined.

Lemma timer_ticks_witness :
  words (run bare timervec (Demo.timer 0x80010000 (Demo.scratch_of 3 77))) 0x2004018 = 1000077 ∧
  csrs (run bare timervec (Demo.timer 0x80010000 (Demo.scratch_of 3 77))) sip = 2 ∧
  regs (run bare timervec (Demo.timer 0x80010000 (Demo.scratch_of 3 77))) a2 = 1088.
Proof.
  generalize (timer_ticks 3 77 0x80010000 (Demo.scratch_of 3 77) 96 1000077 (Demo.timer 0x80010000 (Demo.scratch_of 3 77))
    ltac:(by split) ltac:(by vm_compute) ltac:(by vm_compute) ltac:(by vm_compute) ltac:(by vm_compute)
    (Demo.timer_held _ _) ltac:(reflexivity)).
  cbv zeta. generalize (run bare timervec (Demo.timer 0x80010000 (Demo.scratch_of 3 77))). intros m1 (Hr & _ & Hsip & Hc & _).
  split; [|split; [exact Hsip|exact (Hr a2)]]. etransitivity; [exact Hc|]. by vm_compute.
Defined.

Lemma switch_swaps_witness :
  Locks.sp (context_at 0x80030000 (run bare switch (Demo.kernel 0x80030000 0x80040000))) = 0x80020000 ∧
  regs (run bare switch (Demo.kernel 0x80030000 0x80040000)) sp = 0x80040008 ∧
  regs (run bare switch (Demo.kernel 0x80030000 0x80040000)) s3 = 0x80040028 ∧
  regs (run bare switch (Demo.kernel 0x80030000 0x80040000)) t3 = 1216.
Proof.
  generalize (switch_swaps bare 0x80030000 0x80040000 0 Demo.direct (Demo.kernel 0x80030000 0x80040000) eq_refl eq_refl eq_refl
    ltac:(right; by left)).
  cbv zeta. generalize (run bare switch (Demo.kernel 0x80030000 0x80040000)). intros m1 (Hold & Hnew & Hk & _).
  split; [by rewrite Hold|]. split; [exact (f_equal Locks.sp Hnew)|].
  split; [exact (f_equal (λ c, default 0 (saved c !! 3%nat)) Hnew)|].
  rewrite Hk; [reflexivity|]. apply (bool_decide_unpack _). by vm_compute.
Defined.
