(* ===== verification/Threads.v ===== *)
(** * User threads ([user_rust/src/thread/])

    The [Runtime] of cooperative threads: its table of tasks, the search of
    [t_yield] for the next one, waiting, signalling, returning, spawning, and
    the context switch of [switch.S].  [cpu] holds the registers that [switch]
    saves and loads, with [nx1] for the program counter, [r_ptr] for [a0] and
    [params] for [a1]; what a task computes between two calls is an arbitrary
    change of them.  A call that switches goes on, for its caller, when its task
    is switched to again: [Switched] is the end of what it does until then. *)
From S2P Require Import Prelude.

Definition MAX_TASKS : nat := 8.
Definition DEFAULT_STACK_SIZE : Z := 4096.
Definition usize_MAX : Z := 2 ^ 64 - 1.

(** ** Data *)
Inductive TaskState := Available | Sleep | Ready | Running.
#[export] Instance TaskState_eq_dec : EqDecision TaskState.
Proof. solve_decision. Defined.

Record TaskContext := {
  x1 : Z; x2 : Z; x8 : Z; x9 : Z; x18 : Z; x19 : Z; x20 : Z; x21 : Z; x22 : Z; x23 : Z; x24 : Z;
  x25 : Z; x26 : Z; x27 : Z; nx1 : Z; ctx_r_ptr : Z; params : Z;
}.
Definition TaskContext_default : TaskContext :=
  {| x1 := 0; x2 := 0; x8 := 0; x9 := 0; x18 := 0; x19 := 0; x20 := 0; x21 := 0; x22 := 0; x23 := 0; x24 := 0;
     x25 := 0; x26 := 0; x27 := 0; nx1 := 0; ctx_r_ptr := 0; params := 0 |}.

(** [stack] is the address of the vector's buffer of [DEFAULT_STACK_SIZE] bytes. *)
Record Task := { id : nat; stack : Z; ctx : TaskContext; tstate : TaskState; r_ptr : Z }.
Definition Task_new (buffer : Z) (id : nat) : Task :=
  {| id := id; stack := buffer; ctx := TaskContext_default; tstate := Available; r_ptr := 0 |}.
Definition with_state (x : TaskState) (t : Task) : Task :=
  {| id := id t; stack := stack t; ctx := ctx t; tstate := x; r_ptr := r_ptr t |}.
Definition with_ctx (c : TaskContext) (t : Task) : Task :=
  {| id := id t; stack := stack t; ctx := c; tstate := tstate t; r_ptr := r_ptr t |}.
Definition with_r_ptr (p : Z) (t : Task) : Task :=
  {| id := id t; stack := stack t; ctx := ctx t; tstate := tstate t; r_ptr := p |}.

Record Runtime := { tasks : list Task; current : nat; waits : list Z; cpu : TaskContext }.

(** [Runtime::new]; [buffers] are the stacks the heap hands out. *)
Definition Runtime_new (buffers : nat → Z) (regs : TaskContext) : Runtime :=
  {| tasks := with_state Running (Task_new (buffers 0%nat) 0) ::
       ((λ i, Task_new (buffers i) i) <$> seq 1 (MAX_TASKS - 1));
     current := 0; waits := replicate MAX_TASKS 0; cpu := regs |}.

Inductive yielded := Answer (b : bool) | Switched.

Definition set_tasks (f : list Task → list Task) : M Runtime unit := modify (λ s,
  {| tasks := f (tasks s); current := current s; waits := waits s; cpu := cpu s |}).
Definition set_current (i : nat) : M Runtime unit := modify (λ s,
  {| tasks := tasks s; current := i; waits := waits s; cpu := cpu s |}).
Definition set_wait (i : nat) (x : Z) : M Runtime unit := modify (λ s,
  {| tasks := tasks s; current := current s; waits := <[i := x]> (waits s); cpu := cpu s |}).
Definition set_cpu (r : TaskContext) : M Runtime unit := modify (λ s,
  {| tasks := tasks s; current := current s; waits := waits s; cpu := r |}).
Definition get_task (i : nat) : M Runtime Task := s ← get; unwrap (tasks s !! i) "index out of bounds".
Definition get_wait (i : nat) : M Runtime Z := s ← get; unwrap (waits s !! i) "index out of bounds".
Definition upd_task (i : nat) (f : Task → Task) : M Runtime unit :=
  get_task i;; set_tasks (alter f i).

(** [Runtime::init] *)
Definition init (self : Z) : M Runtime Z := set_tasks (fmap (with_r_ptr self));; mret self.

Section ops.
(** [guard] and [ret]: the address of [guard], and the one after the call of
    [switch] in [t_yield]; [ctx_at i]: where the context of task [i] lies. *)
Context (guard ret : Z) (ctx_at : nat → Z).

(** switch.S: what it stores at [a0], from the registers and [a1]. *)
Definition save (r : TaskContext) (a1 : Z) (old : TaskContext) : TaskContext :=
  {| x1 := ret; x2 := x2 r; x8 := x8 r; x9 := x9 r; x18 := x18 r; x19 := x19 r; x20 := x20 r; x21 := x21 r;
     x22 := x22 r; x23 := x23 r; x24 := x24 r; x25 := x25 r; x26 := x26 r; x27 := x27 r;
     nx1 := ret; ctx_r_ptr := ctx_r_ptr old; params := a1 |}.
Definition switch (old new : nat) : M Runtime unit :=
  s ← get;
  set_tasks (alter (λ t, with_ctx (save (cpu s) (ctx_at new) (ctx t)) t) old);;
  t ← get_task new;
  set_cpu (ctx t).

(** The [while] of [t_yield]: [None] when it returns [false]. *)
Definition waiting (t : Task) : bool :=
  match tstate t with Sleep | Available => true | Ready | Running => false end.
Fixpoint search (fuel : nat) (ts : list Task) (ws : list Z) (current pos : nat) (temp : bool) : outcome (option nat) :=
  t ← unwrapO (ts !! pos) "index out of bounds";
  if waiting t then
    match fuel with
    | O => Panic "out of fuel"
    | S fuel =>
        let pos := S pos in
        let '(pos, temp) :=
          if (pos =? length ts)%nat then (if temp then 0%nat else 1%nat, true) else (pos, temp) in
        if (pos =? 0)%nat && (pos =? current)%nat then
          if existsb (λ x, negb (x =? 0)) ws then search fuel ts ws current pos temp else Done None
        else search fuel ts ws current pos temp
    end
  else Done (Some pos).
Definition FUEL : nat := 2 * MAX_TASKS.

Definition t_yield : M Runtime yielded :=
  s ← get;
  o ← lift (search FUEL (tasks s) (waits s) (current s) ((current s + 1) mod MAX_TASKS) false);
  match o with
  | None => mret (Answer false)
  | Some pos =>
      t ← get_task (current s);
      (if decide (tstate t = Sleep) then mret tt
       else if decide (tstate t = Available) then mret tt
       else upd_task (current s) (with_state Ready));;
      upd_task pos (with_state Running);;
      let old_pos := current s in
      set_current pos;;
      if decide (old_pos = pos) then mret (Answer (bool_decide (0 < length (tasks s))%nat))
      else switch old_pos pos;; mret Switched
  end.

(** The calls that end in [t_yield] answer whether they switched. *)
Definition t_yield_last : M Runtime bool :=
  y ← t_yield; mret (match y with Switched => true | Answer _ => false end).

(** The loop of [t_return] over [waits]. *)
Fixpoint wake_waiters (n index : nat) : M Runtime unit :=
  match n with
  | O => mret tt
  | S n =>
      s ← get;
      value ← get_wait index;
      (if (value =? usize_MAX) || (value =? Z.of_nat (current s)) then
         set_wait index 0;; upd_task index (with_state Ready)
       else mret tt);;
      wake_waiters n (S index)
  end.
Definition t_return : M Runtime bool :=
  s ← get;
  wake_waiters (length (waits s)) 0;;
  if decide (current s = 0%nat) then mret false
  else upd_task (current s) (with_state Available);; t_yield_last.

Definition t_wait (id : Z) : M Runtime bool :=
  s ← get;
  if decide (current s = 0%nat) then mret false
  else
    upd_task (current s) (with_state Sleep);;
    get_wait (current s);;
    set_wait (current s) (if id =? 0 then usize_MAX else id);;
    t_yield_last.

Definition t_signal (id : nat) : M Runtime bool :=
  s ← get;
  w ← get_wait id;
  (if w =? usize_MAX then upd_task id (with_state Ready);; set_wait id 0
   else
     if w =? Z.of_nat (current s) then upd_task id (with_state Ready);; set_wait id 0
     else mret tt);;
  t_yield_last.

Definition t_gettid : M Runtime nat := gets current.

Definition spawn_ctx (f parameter : Z) (t : Task) : TaskContext :=
  let size := DEFAULT_STACK_SIZE in
  let s_ptr := Z.land (stack t + size) (not_w 64 7) in
  let c := ctx t in
  {| x1 := guard; x2 := s_ptr - 32; x8 := x8 c; x9 := x9 c; x18 := x18 c; x19 := x19 c; x20 := x20 c; x21 := x21 c;
     x22 := x22 c; x23 := x23 c; x24 := x24 c; x25 := x25 c; x26 := x26 c; x27 := x27 c;
     nx1 := f; ctx_r_ptr := r_ptr t; params := parameter |}.
Definition spawn (f parameter : Z) : M Runtime nat :=
  s ← get;
  '(i, available) ← unwrap (list_find (λ t, tstate t = Available) (tasks s)) "no available task.";
  upd_task i (with_ctx (spawn_ctx f parameter available));;
  upd_task i (with_state Ready);;
  mret (id available).

(** ** What a program of threads does *)
Inductive op := Work (r : TaskContext) | Yield | Wait (id : Z) | Signal (id : nat) | Return | Spawn (f p : Z).
Definition do_op (o : op) : M Runtime bool :=
  match o with
  | Work r => set_cpu r;; mret false
  | Yield => t_yield_last
  | Wait id => t_wait id
  | Signal id => t_signal id
  | Return => t_return
  | Spawn f p => spawn f p;; mret false
  end.

(** * The search *)
(** The order in which [t_yield] looks: the tasks after the current one, then
    all of them from 1, then the base task; after the last one, the base task
    comes first. *)
Definition candidates (cur : nat) : list nat :=
  if (cur =? 7)%nat then [0%nat] else seq (S cur) (7 - cur) ++ seq 1 7 ++ [0%nat].
Definition ready_at (ts : list Task) (i : nat) : bool :=
  match ts !! i with Some t => negb (waiting t) | None => false end.
Definition next_task (s : Runtime) : nat := default 0%nat (find (ready_at (tasks s)) (candidates (current s))).

Lemma search_next s t : tasks s !! 0%nat = Some t → waiting t = false →
  length (tasks s) = MAX_TASKS → (current s < MAX_TASKS)%nat →
  search FUEL (tasks s) (waits s) (current s) ((current s + 1) mod MAX_TASKS) false =
    Done (if (next_task s =? 0)%nat && (current s =? 0)%nat && negb (existsb (λ x, negb (x =? 0)) (waits s))
          then None else Some (next_task s)).
Proof.
  unfold next_task. destruct s as [ts cur ws regs]; cbn [tasks current waits]. intros H0 Hw Hl Hc.
  destruct (existsb _ ws) eqn:Ew;
  do 8 (destruct ts as [|? ts]; [discriminate Hl|]); (destruct ts; [|discriminate Hl]); injection H0 as ->;
  unfold MAX_TASKS in Hc; destruct cur as [|[|[|[|[|[|[|[|cur]]]]]]]]; try lia;
  cbn -[existsb]; unfold ready_at; cbn -[existsb]; rewrite ?Ew;
  repeat (match goal with |- context [waiting ?u] => destruct (waiting u) eqn:?; cbn -[existsb]; rewrite ?Ew end);
  try done; congruence.
Qed.

(** * The invariant *)
(** What holds when [t_yield] is entered: the current task may just have
    fallen asleep or ended. *)
Record pre (s : Runtime) : Prop := {
  pk_tasks : length (tasks s) = MAX_TASKS;
  pk_waits : length (waits s) = MAX_TASKS;
  pk_current : (current s < MAX_TASKS)%nat;
  pk_base : ∀ t, tasks s !! 0%nat = Some t → waiting t = false;
  pk_entered : ∀ t, tasks s !! current s = Some t → tstate t ≠ Ready;
  pk_one : ∀ i t, tasks s !! i = Some t → tstate t = Running → i = current s;
  pk_asleep : ∀ i t w, tasks s !! i = Some t → waits s !! i = Some w → w ≠ 0 ↔ tstate t = Sleep;
  pk_ids : ∀ i t, tasks s !! i = Some t → id t = i;
}.
Definition ok (s : Runtime) : Prop :=
  pre s ∧ ∀ t, tasks s !! current s = Some t → tstate t = Running.

Definition demote (t : Task) : Task :=
  match tstate t with Sleep | Available => t | Ready | Running => with_state Ready t end.
Definition switched (s : Runtime) (n : nat) : Runtime :=
  {| tasks := alter (λ t, with_ctx (save (cpu s) (ctx_at n) (ctx t)) (demote t)) (current s)
                (alter (with_state Running) n (tasks s));
     current := n; waits := waits s;
     cpu := match tasks s !! n with Some t => ctx t | None => cpu s end |}.
Definition no_waiters (s : Runtime) : bool := negb (existsb (λ x, negb (x =? 0)) (waits s)).

Lemma task_at s i : pre s → (i < MAX_TASKS)%nat → ∃ t, tasks s !! i = Some t.
Proof. intros H Hi. apply lookup_lt_is_Some. by rewrite (pk_tasks _ H). Qed.

Lemma candidates_bound cur i : (cur < MAX_TASKS)%nat → i ∈ candidates cur → (i < MAX_TASKS)%nat.
Proof.
  unfold candidates, MAX_TASKS. intros Hc. destruct (cur =? 7)%nat eqn:E; [by intros ->%list_elem_of_singleton; lia|].
  apply Nat.eqb_neq in E. rewrite !elem_of_app, !elem_of_seq, list_elem_of_singleton. lia.
Qed.

Lemma next_ready s : pre s → ∃ t, tasks s !! next_task s = Some t ∧ waiting t = false.
Proof.
  intros H. unfold next_task. destruct (find _ _) as [n|] eqn:E; cbn.
  - apply find_some in E as [_ E]. unfold ready_at in E. destruct (tasks s !! n) as [t|]; [|done].
    exists t. split; [done|]. by destruct (waiting t).
  - destruct (task_at s 0 H) as [t Ht]; [by unfold MAX_TASKS; lia|]. exists t. split; [done|]. by apply (pk_base _ H).
Qed.
Lemma next_bound s : pre s → (next_task s < MAX_TASKS)%nat.
Proof.
  intros H. destruct (next_ready s H) as (t & Ht & _). apply lookup_lt_Some in Ht. by rewrite <- (pk_tasks _ H).
Qed.
Lemma runtime_eta s : {| tasks := tasks s; current := current s; waits := waits s; cpu := cpu s |} = s.
Proof. by destruct s. Qed.
Lemma with_state_same t x : tstate t = x → with_state x t = t.
Proof. intros <-. by destruct t. Qed.
Lemma get_task_run s i t : tasks s !! i = Some t → get_task i s = Done (t, s).
Proof. intros E. unfold get_task. rewrite (bind_run _ _ _ s s) by done. by rewrite E. Qed.
Lemma upd_task_run s i f t : tasks s !! i = Some t →
  upd_task i f s = Done (tt, {| tasks := alter f i (tasks s); current := current s; waits := waits s; cpu := cpu s |}).
Proof. intros E. unfold upd_task. by rewrite (bind_run _ _ _ _ _ (get_task_run _ _ _ E)). Qed.

Lemma switch_run s n t : tasks s !! n = Some t → current s ≠ n →
  switch (current s) n {| tasks := alter (with_state Running) n (alter demote (current s) (tasks s));
    current := n; waits := waits s; cpu := cpu s |} = Done (tt, switched s n).
Proof.
  intros Hn Hne. unfold switch. run_simpl. unfold set_tasks, modify. cbn [tasks current waits cpu].
  unfold get_task. run_simpl. cbn [tasks current waits cpu].
  rewrite list_lookup_alter_ne, list_lookup_alter_eq, list_lookup_alter_ne, Hn by done. cbn.
  unfold set_cpu, modify, switched. cbn. rewrite Hn. do 3 f_equal.
  apply list_eq. intros j. destruct (decide (j = current s)) as [->|Hj]; [|destruct (decide (j = n)) as [->|Hj']];
    repeat first [rewrite list_lookup_alter_eq | rewrite list_lookup_alter_ne by done]; [|done..].
  destruct (tasks s !! current s) as [[? ? ? [] ?]|]; done.
Qed.

Lemma demote_run s t : tasks s !! current s = Some t →
  (if decide (tstate t = Sleep) then mret tt
   else if decide (tstate t = Available) then mret tt
   else upd_task (current s) (with_state Ready)) s =
  Done (tt, {| tasks := alter demote (current s) (tasks s); current := current s; waits := waits s; cpu := cpu s |}).
Proof.
  intros E. assert (tstate t = Sleep ∨ tstate t = Available → alter demote (current s) (tasks s) = tasks s) as Hs.
  { intros Ht. apply list_eq. intros j. destruct (decide (j = current s)) as [->|Hne].
    - rewrite list_lookup_alter_eq, E. cbn. f_equal. unfold demote. by destruct Ht as [->| ->].
    - by rewrite list_lookup_alter_ne. }
  destruct (decide _) as [Hd|Hd]; [rewrite (Hs (or_introl Hd)); by rewrite runtime_eta|].
  destruct (decide _) as [Ha|Ha]; [rewrite (Hs (or_intror Ha)); by rewrite runtime_eta|].
  rewrite (upd_task_run _ _ _ _ E). do 3 f_equal. apply list_eq. intros j. destruct (decide (j = current s)) as [->|Hne].
  - rewrite !list_lookup_alter_eq, E. cbn. f_equal. unfold demote. by destruct (tstate t).
  - by rewrite !list_lookup_alter_ne.
Qed.

(** [t_yield], on every branch. *)
Lemma t_yield_run s : pre s → t_yield s =
  if (next_task s =? 0)%nat && (current s =? 0)%nat && no_waiters s then Done (Answer false, s)
  else if decide (current s = next_task s) then Done (Answer true, s)
  else Done (Switched, switched s (next_task s)).
Proof.
  intros H. destruct (task_at s 0 H) as [t0 H0]; [by unfold MAX_TASKS; lia|].
  destruct (task_at s _ H (pk_current _ H)) as [tc Hc]. destruct (next_ready s H) as (tn & Hn & Hrn).
  unfold t_yield. rewrite (bind_run _ _ _ s s) by done.
  rewrite (search_next s t0 H0 (pk_base _ H _ H0) (pk_tasks _ H) (pk_current _ H)).
  fold (no_waiters s). destruct (_ && no_waiters s); [done|].
  rewrite (bind_run _ _ _ (Some (next_task s)) s eq_refl). rewrite (bind_run _ _ _ _ _ (get_task_run _ _ _ Hc)).
  rewrite (bind_run _ _ _ _ _ (demote_run _ _ Hc)).
  assert (is_Some (alter demote (current s) (tasks s) !! next_task s)) as [tn' Hn'].
  { apply lookup_lt_is_Some. rewrite length_alter. by apply lookup_lt_Some in Hn. }
  erewrite (bind_run (upd_task (next_task s) _)) by (eapply upd_task_run; exact Hn'). cbn [tasks current waits cpu].
  cbv zeta. rewrite (bind_run (set_current _) _ _ tt _ eq_refl). cbn [tasks current waits cpu].
  destruct (decide (current s = next_task s)) as [E|Hne].
  - rewrite (pk_tasks _ H). unfold mret, M_ret. cbn. f_equal. f_equal. destruct s as [ts c ws r]. cbn in *. f_equal; [|done].
    rewrite <- E, list_alter_twice. apply list_eq. intros j. destruct (decide (j = c)) as [->|Hj].
    + rewrite list_lookup_alter_eq, Hc. cbn. f_equal. rewrite <- E, Hc in Hn. injection Hn as <-.
      pose proof (pk_entered _ H _ Hc) as Hnr. unfold waiting in Hrn. unfold demote.
      destruct tc as [? ? ? [] ?]; cbn in *; done.
    + by rewrite list_lookup_alter_ne.
  - by rewrite (bind_run _ _ _ _ _ (switch_run _ _ _ Hn Hne)).
Qed.

(** Only the current task and the one that is switched to change. *)
Lemma switched_lookup s n i : (i ≠ current s → tasks (switched s n) !! i = (if decide (i = n) then with_state Running else λ t, t) <$> tasks s !! i).
Proof.
  intros Hi. cbn. rewrite list_lookup_alter_ne by done. destruct (decide (i = n)) as [->|Hn].
  - by rewrite list_lookup_alter_eq.
  - rewrite list_lookup_alter_ne by done. by destruct (tasks s !! i).
Qed.
Lemma switched_current s n : n ≠ current s → tasks (switched s n) !! current s =
  (λ t, with_ctx (save (cpu s) (ctx_at n) (ctx t)) (demote t)) <$> tasks s !! current s.
Proof. intros Hn. cbn. by rewrite list_lookup_alter_eq, list_lookup_alter_ne. Qed.

(** The state and the number of a task after a switch. *)
Lemma switched_task s n i t' : n ≠ current s → tasks (switched s n) !! i = Some t' →
  ∃ t, tasks s !! i = Some t ∧ id t' = id t ∧
    tstate t' = if decide (i = n) then Running else if decide (i = current s) then tstate (demote t) else tstate t.
Proof.
  intros Hn E. destruct (decide (i = current s)) as [->|Hi].
  - rewrite switched_current in E by done. destruct (tasks s !! current s) as [t|]; [|done]. injection E as <-.
    exists t. split; [done|]. rewrite decide_False by done. destruct t as [? ? ? [] ?]; done.
  - rewrite switched_lookup in E by done. destruct (tasks s !! i) as [t|]; [|done]. injection E as <-. exists t.
    split; [done|]. by destruct (decide (i = n)).
Qed.

Lemma demote_state t : tstate t ≠ Ready → tstate (demote t) ≠ Running ∧ (tstate (demote t) = Sleep ↔ tstate t = Sleep).
Proof. destruct t as [? ? ? [] ?]; cbn; done. Qed.

Lemma switched_ok s n t : pre s → n ≠ current s → tasks s !! n = Some t → waiting t = false → ok (switched s n).
Proof.
  intros H Hn Ht Hw.
  assert (∀ i t', tasks (switched s n) !! i = Some t' → tstate t' = Running ↔ i = n) as Hrun.
  { intros i t' E. destruct (switched_task _ _ _ _ Hn E) as (u & Hu & _ & Es). rewrite Es.
    destruct (decide (i = n)) as [|Hi]; [done|]. destruct (decide (i = current s)) as [->|Hc].
    - destruct (demote_state _ (pk_entered _ H _ Hu)) as [? _]. done.
    - split; [|done]. by intros ->%(pk_one _ H _ _ Hu). }
  split; [|intros t' E; by apply (Hrun _ _ E)]. split.
  - cbn. rewrite !length_alter. apply H.
  - apply H.
  - apply lookup_lt_Some in Ht. by rewrite (pk_tasks _ H) in Ht.
  - intros t' E. destruct (switched_task _ _ _ _ Hn E) as (u & Hu & _ & Es). pose proof (pk_base _ H _ Hu) as Hb.
    unfold waiting in *. rewrite Es. destruct (decide _); [done|]. destruct (decide _); [|done].
    destruct u as [? ? ? [] ?]; done.
  - intros t' E. cbn [current] in E. by rewrite (proj2 (Hrun _ _ E) eq_refl).
  - intros i t' E. apply (Hrun _ _ E).
  - intros i t' w E Ew. cbn [waits switched] in Ew. destruct (switched_task _ _ _ _ Hn E) as (u & Hu & _ & Es).
    rewrite (pk_asleep _ H _ _ _ Hu Ew), Es. destruct (decide (i = n)) as [->|Hi].
    + rewrite Ht in Hu. injection Hu as <-. unfold waiting in Hw. destruct (tstate t); done.
    + destruct (decide _) as [->|]; [|done]. by destruct (demote_state _ (pk_entered _ H _ Hu)) as [_ ->].
  - intros i t' E. destruct (switched_task _ _ _ _ Hn E) as (u & Hu & -> & _). by apply (pk_ids _ H).
Qed.

Lemma no_switch_ok s : pre s → next_task s = current s → ok s.
Proof.
  intros H E. split; [done|]. intros t Ht. destruct (next_ready s H) as (u & Hu & Hw). rewrite E, Ht in Hu.
  injection Hu as <-. pose proof (pk_entered _ H _ Ht). unfold waiting in Hw. by destruct (tstate t).
Qed.

(** What a call that ends in [t_yield] does, from where it enters it. *)
Lemma t_yield_last_run s : pre s → ∃ b s', t_yield_last s = Done (b, s') ∧ ok s' ∧ current s' = next_task s ∧
  if b then next_task s ≠ current s ∧ s' = switched s (next_task s) else next_task s = current s ∧ s' = s.
Proof.
  intros H. unfold t_yield_last. pose proof (t_yield_run s H) as R. destruct (_ && no_waiters s) eqn:E in R.
  - apply andb_true_iff in E as [[E1%Nat.eqb_eq E2%Nat.eqb_eq]%andb_true_iff E3].
    exists false, s. rewrite (bind_run _ _ _ _ _ R). split; [done|]. rewrite E1, E2. split; [apply no_switch_ok; congruence|done].
  - destruct (decide (current s = next_task s)) as [Ec|Hne].
    + exists false, s. rewrite (bind_run _ _ _ _ _ R). split; [done|]. split; [by apply no_switch_ok|done].
    + exists true, (switched s (next_task s)). rewrite (bind_run _ _ _ _ _ R). split; [done|].
      destruct (next_ready s H) as (t & Ht & Hw). split; [by eapply switched_ok|done].
Qed.

(** * Entering [t_yield] *)
(** [s1] has the tasks of [s], those in use with their contexts; none but the
    current one lost its turn. *)
Record milder (s s1 : Runtime) : Prop := {
  ml_current : current s1 = current s;
  ml_task : ∀ i t, tasks s !! i = Some t → tstate t ≠ Available →
    ∃ t', tasks s1 !! i = Some t' ∧ ctx t' = ctx t ∧ (i ≠ current s → tstate t' = tstate t ∨ tstate t' = Ready);
}.
Lemma milder_refl s : milder s s.
Proof. split; [done|]. intros i t E _. exists t. auto. Qed.
Lemma milder_trans s s1 s2 : milder s s1 → milder s1 s2 → (∀ t, tasks s1 !! current s = Some t → tstate t ≠ Available) → milder s s2.
Proof.
  intros [C1 T1] [C2 T2] Hc. split; [congruence|]. intros i t E Ha. destruct (T1 _ _ E Ha) as (t1 & E1 & X1 & S1).
  destruct (T2 _ _ E1) as (t2 & E2 & X2 & S2).
  { destruct (decide (i = current s)) as [->|Hi]; [by apply Hc|]. by destruct (S1 Hi) as [-> | ->]. }
  exists t2. split; [done|]. split; [congruence|]. intros Hi. rewrite C1 in S2.
  destruct (S2 Hi) as [->|]; [|auto]. auto.
Qed.

(** One task changes its state and what it waits for. *)
Definition set_both (s : Runtime) (i : nat) (x : TaskState) (w : Z) : Runtime :=
  {| tasks := alter (with_state x) i (tasks s); current := current s; waits := <[i := w]> (waits s); cpu := cpu s |}.

Lemma set_both_task s i x w j t' : tasks (set_both s i x w) !! j = Some t' → ∃ t, tasks s !! j = Some t ∧
  t' = if decide (j = i) then with_state x t else t.
Proof.
  cbn. destruct (decide (j = i)) as [->|Hj].
  - rewrite list_lookup_alter_eq. destruct (tasks s !! i) as [t|]; [|done]. intros [= <-]. by exists t.
  - rewrite list_lookup_alter_ne by done. by exists t'.
Qed.

Lemma set_both_pre s i x w : ok s → (x = Sleep ↔ w ≠ 0) → x ≠ Running →
  (if decide (i = current s) then x ≠ Ready ∧ i ≠ 0%nat else x = Ready) → pre (set_both s i x w).
Proof.
  intros [H Hr] Hx Hxr Hi. split.
  - cbn. rewrite length_alter. apply H.
  - cbn. rewrite length_insert. apply H.
  - apply H.
  - intros t' (t & Et & ->)%set_both_task. pose proof (pk_base _ H _ Et). destruct (decide (0%nat = i)) as [<-|]; [|done].
    destruct (decide _) as [_|_] in Hi; [by destruct Hi|]. by rewrite Hi.
  - intros t' (t & Et & ->)%set_both_task. cbn in Et. destruct (decide (current (set_both s i x w) = i)) as [E|E]; cbn in E.
    + rewrite decide_True in Hi by done. cbn. by destruct Hi.
    + by rewrite (Hr _ Et).
  - intros j t' (t & Et & ->)%set_both_task E. destruct (decide (j = i)); [by cbn in E|]. by apply (pk_one _ H _ _ Et).
  - intros j t' w' (t & Et & ->)%set_both_task Ew. cbn in Ew. destruct (decide (j = i)) as [->|Hj].
    + rewrite list_lookup_insert_eq in Ew; [injection Ew as <-; cbn; tauto|].
      rewrite (pk_waits _ H). apply lookup_lt_Some in Et. by rewrite (pk_tasks _ H) in Et.
    + rewrite list_lookup_insert_ne in Ew by done. apply (pk_asleep _ H _ _ _ Et Ew).
  - intros j t' (t & Et & ->)%set_both_task. pose proof (pk_ids _ H _ _ Et) as Hid. destruct (decide (j = i)); exact Hid.
Qed.
Lemma set_both_milder s i x w : (if decide (i = current s) then True else x = Ready) → milder s (set_both s i x w).
Proof.
  intros Hi. split; [done|]. intros j t E _. cbn. destruct (decide (j = i)) as [->|Hj].
  - exists (with_state x t). rewrite list_lookup_alter_eq, E. split; [done|]. split; [done|]. intros Hc.
    rewrite decide_False in Hi by done. auto.
  - exists t. rewrite list_lookup_alter_ne by done. auto.
Qed.

(** Waking a task that waits. *)
Lemma sleeper_not_current s i w : ok s → waits s !! i = Some w → w ≠ 0 → i ≠ current s.
Proof.
  intros [H Hr] Hw Hn ->. destruct (task_at s _ H (pk_current _ H)) as [t Ht].
  pose proof (proj1 (pk_asleep _ H _ _ _ Ht Hw) Hn). by rewrite (Hr _ Ht) in *.
Qed.
Lemma wake_ok s i w : ok s → waits s !! i = Some w → w ≠ 0 → ok (set_both s i Ready 0) ∧ milder s (set_both s i Ready 0).
Proof.
  intros H Hw Hn. pose proof (sleeper_not_current _ _ _ H Hw Hn) as Hi. split; [split|].
  - apply set_both_pre; [done|done|done|]. by rewrite decide_False.
  - intros t' (t & Et & ->)%set_both_task. cbn in *. rewrite decide_False by done. by apply H.
  - apply set_both_milder. by rewrite decide_False.
Qed.
Lemma wake_run s i w : ok s → waits s !! i = Some w →
  (upd_task i (with_state Ready);; set_wait i 0) s = Done (tt, set_both s i Ready 0) ∧
  (set_wait i 0;; upd_task i (with_state Ready)) s = Done (tt, set_both s i Ready 0).
Proof.
  intros [H _] Hw. destruct (task_at s i H) as [t Ht].
  { apply lookup_lt_Some in Hw. by rewrite (pk_waits _ H) in Hw. }
  split.
  - by rewrite (bind_run _ _ _ _ _ (upd_task_run _ _ _ _ Ht)).
  - erewrite (bind_run (set_wait _ _)) by done. by erewrite upd_task_run by exact Ht.
Qed.

Lemma wake_waiters_run n : ∀ i s, ok s → current s ≠ 0%nat → (i + n = MAX_TASKS)%nat →
  ∃ s1, wake_waiters n i s = Done (tt, s1) ∧ ok s1 ∧ milder s s1.
Proof.
  induction n as [|n IH]; intros i s H Hc Hn; cbn [wake_waiters].
  { exists s. split; [done|]. split; [done|apply milder_refl]. }
  destruct (lookup_lt_is_Some_2 (waits s) i) as [w Hw]; [rewrite (pk_waits _ (proj1 H)); lia|].
  rewrite (bind_run _ _ _ s s) by done. rewrite (bind_run (get_wait i) _ _ w s).
  2: { unfold get_wait. rewrite (bind_run _ _ _ s s) by done. by rewrite Hw. }
  destruct (_ || _) eqn:E.
  - assert (w ≠ 0) as Hw0. { intros ->. apply orb_true_iff in E as [E|E]; [done|]. apply Z.eqb_eq in E. lia. }
    destruct (wake_ok _ _ _ H Hw Hw0) as [H1 M1]. rewrite (bind_run _ _ _ _ _ (proj2 (wake_run _ _ _ H Hw))).
    destruct (IH (S i) (set_both s i Ready 0) H1 Hc ltac:(lia)) as (s2 & R & H2 & M2).
    exists s2. split; [done|]. split; [done|]. eapply milder_trans; [done..|]. intros t Ht.
    by rewrite (proj2 H1 t Ht).
  - rewrite (bind_run _ _ _ tt s) by done. apply IH; [done|done|lia].
Qed.

Lemma wake_waiters_cpu n : ∀ i s s', wake_waiters n i s = Done (tt, s') → cpu s' = cpu s.
Proof.
  induction n as [|n IH]; intros i s s' E; cbn [wake_waiters] in E; [by injection E as <-|].
  mbind_inv E as s0 s1 E0 E. injection E0 as <- <-. mbind_inv E as w s1 E0 E.
  assert (s1 = s) as -> by (unfold get_wait in E0; run_simpl in E0; destruct (waits s !! i); congruence).
  mbind_inv E as u s1 E1 E. apply IH in E. rewrite E. destruct (_ || _) in E1; [|by injection E1 as _ <-].
  unfold upd_task, get_task, set_wait, set_tasks in E1. run_simpl in E1. cbn in E1.
  destruct (tasks s !! i); [|done]. by injection E1 as _ <-.
Qed.
Lemma end_run s : ok s → upd_task (current s) (with_state Available) s = Done (tt, set_both s (current s) Available 0).
Proof.
  intros [H Hr]. destruct (task_at s _ H (pk_current _ H)) as [t Ht]. rewrite (upd_task_run _ _ _ _ Ht).
  unfold set_both. do 3 f_equal. destruct (lookup_lt_is_Some_2 (waits s) (current s)) as [w Hw].
  { rewrite (pk_waits _ H). apply H. }
  symmetry. apply list_insert_id. rewrite Hw. f_equal. destruct (decide (w = 0)) as [|Hn]; [done|].
  pose proof (proj1 (pk_asleep _ H _ _ _ Ht Hw) Hn). by rewrite (Hr _ Ht) in *.
Qed.

(** Each call does what it does, then yields. *)
Definition sane (o : op) (s : Runtime) : Prop :=
  match o with
  | Work _ | Yield | Wait _ => True
  | Signal i => ∃ w, waits s !! i = Some w ∧ (current s ≠ 0%nat ∨ w ≠ 0)
  | Return => current s ≠ 0%nat
  | Spawn _ _ => ∃ i t, tasks s !! i = Some t ∧ tstate t = Available
  end.
Definition gives_way (o : op) (s : Runtime) : bool :=
  match o with
  | Work _ | Spawn _ _ => false
  | Yield | Signal _ => true
  | Wait _ | Return => negb (current s =? 0)%nat
  end.

Lemma entered o s : ok s → sane o s → gives_way o s = true →
  ∃ s1, do_op o s = t_yield_last s1 ∧ pre s1 ∧ milder s s1 ∧ cpu s1 = cpu s ∧
    (o ≠ Return → ∀ t, tasks s1 !! current s = Some t → tstate t ≠ Available).
Proof.
  intros H Hs Hg. pose proof H as [Hp Hr]. destruct (task_at s _ Hp (pk_current _ Hp)) as [t Ht].
  destruct o as [r| |i|i| |f p]; try discriminate Hg; cbn [do_op sane gives_way] in *.
  - exists s. split; [done|]. split; [done|]. split; [apply milder_refl|]. split; [done|]. intros _ u Hu. by rewrite (Hr _ Hu).
  - apply negb_true_iff, Nat.eqb_neq in Hg. exists (set_both s (current s) Sleep (if i =? 0 then usize_MAX else i)).
    split; [|split; [|split; [|split; [done|]]]].
    + unfold t_wait. rewrite (bind_run _ _ _ s s) by done. rewrite decide_False by done.
      rewrite (bind_run _ _ _ _ _ (upd_task_run _ _ _ _ Ht)).
      destruct (lookup_lt_is_Some_2 (waits s) (current s)) as [w Hw]; [rewrite (pk_waits _ Hp); apply Hp|].
      erewrite (bind_run (get_wait _)). 2: { unfold get_wait. run_simpl. cbn. by rewrite Hw. }
      by erewrite (bind_run (set_wait _ _)) by done.
    + apply set_both_pre; [done| |done|by rewrite decide_True]. split; [|done]. intros _.
      destruct (Z.eqb_spec i 0); [done|lia].
    + apply set_both_milder. by rewrite decide_True.
    + intros _ t' (u & _ & ->)%set_both_task. by rewrite decide_True.
  - destruct Hs as (w & Hw & Hc). unfold t_signal. rewrite (bind_run _ _ _ s s) by done.
    rewrite (bind_run (get_wait i) _ _ w s). 2: { unfold get_wait. rewrite (bind_run _ _ _ s s) by done. by rewrite Hw. }
    destruct (Z.eqb_spec w usize_MAX) as [Ew|Ew]; [|destruct (Z.eqb_spec w (Z.of_nat (current s))) as [Ec|Ec]].
    1,2: assert (w ≠ 0) as Hw0 by (subst w; unfold usize_MAX in *; lia); destruct (wake_ok _ _ _ H Hw Hw0) as [H1 M1];
      rewrite (bind_run _ _ _ _ _ (proj1 (wake_run _ _ _ H Hw))); exists (set_both s i Ready 0);
      (split; [done|]; split; [apply H1|]; split; [done|]; split; [done|]; intros _ u Hu; by rewrite (proj2 H1 _ Hu)).
    rewrite (bind_run _ _ _ tt s) by done. exists s. split; [done|]. split; [done|]. split; [apply milder_refl|].
    split; [done|]. intros _ u Hu. by rewrite (Hr _ Hu).
  - apply negb_true_iff, Nat.eqb_neq in Hg. unfold t_return. rewrite (bind_run _ _ _ s s) by done.
    rewrite (pk_waits _ Hp). destruct (wake_waiters_run MAX_TASKS 0 s H Hg eq_refl) as (s1 & R & H1 & M1).
    rewrite (bind_run _ _ _ _ _ R). rewrite decide_False by done.
    assert (current s1 = current s) as Hcur by apply M1.
    rewrite <- !Hcur. rewrite (bind_run _ _ _ _ _ (end_run _ H1)). rewrite <- Hcur in Hg.
    exists (set_both s1 (current s1) Available 0). split; [done|]. split; [|split; [|split; [|done]]].
    + apply set_both_pre; [done|done|done|by rewrite decide_True].
    + eapply milder_trans; [exact M1|apply set_both_milder; by rewrite decide_True|].
      intros u Hu. rewrite <- Hcur in Hu. by rewrite (proj2 H1 _ Hu).
    + cbn. by rewrite (wake_waiters_cpu _ _ _ _ R).
Qed.

Lemma spawn_run f p s i t : ok s → tasks s !! i = Some t → tstate t = Available →
  ∃ j u, tasks s !! j = Some u ∧ tstate u = Available ∧
    spawn f p s = Done (j, {| tasks := alter (λ t, with_state Ready (with_ctx (spawn_ctx f p u) t)) j (tasks s);
      current := current s; waits := waits s; cpu := cpu s |}).
Proof.
  intros [H Hr] Ht Ha. destruct (list_find (λ t, tstate t = Available) (tasks s)) as [[j u]|] eqn:E.
  2: { apply list_find_None in E. rewrite Forall_lookup in E. by destruct (E _ _ Ht). }
  pose proof E as (Hu & Hau & _)%list_find_Some. exists j, u. split; [done|]. split; [done|].
  unfold spawn. rewrite (bind_run _ _ _ s s) by done. rewrite E. rewrite (bind_run _ _ _ (j, u) s) by done.
  rewrite (bind_run _ _ _ _ _ (upd_task_run _ _ _ _ Hu)). erewrite (bind_run (upd_task _ _)).
  2: { eapply upd_task_run. cbn. rewrite list_lookup_alter_eq, Hu. done. }
  cbn. rewrite list_alter_twice. by rewrite (pk_ids _ H _ _ Hu).
Qed.

Lemma spawned_ok s j u c : ok s → tasks s !! j = Some u → tstate u = Available →
  let s1 := {| tasks := alter (λ t, with_state Ready (with_ctx c t)) j (tasks s);
    current := current s; waits := waits s; cpu := cpu s |} in ok s1 ∧ milder s s1.
Proof.
  intros [H Hr] Hu Ha s1. assert (j ≠ current s) as Hj. { intros ->. by rewrite (Hr _ Hu) in Ha. }
  assert (j ≠ 0%nat) as Hj0. { intros ->. pose proof (pk_base _ H _ Hu) as Hb. unfold waiting in Hb. by rewrite Ha in Hb. }
  assert (∀ i t', tasks s1 !! i = Some t' → ∃ t, tasks s !! i = Some t ∧ id t' = id t ∧
    (if decide (i = j) then tstate t' = Ready else t' = t)) as Hs1.
  { intros i t' E. cbn in E. destruct (decide (i = j)) as [->|Hi].
    - rewrite list_lookup_alter_eq, Hu in E. injection E as <-. by exists u.
    - rewrite list_lookup_alter_ne in E by done. by exists t'. }
  split; [split; [split|]|].
  - cbn. rewrite length_alter. apply H.
  - apply H.
  - apply H.
  - intros t' (t & Et & _ & E)%Hs1. rewrite decide_False in E by done. subst t'. by apply (pk_base _ H).
  - intros t' (t & Et & _ & E)%Hs1. rewrite decide_False in E by done. subst t'. by apply (pk_entered _ H).
  - intros i t' (t & Et & _ & E)%Hs1. destruct (decide _); [by rewrite E|]. subst t'. by apply (pk_one _ H).
  - intros i t' w (t & Et & _ & E)%Hs1 Ew. cbn in Ew. rewrite (pk_asleep _ H _ _ _ Et Ew).
    destruct (decide (i = j)) as [->|]; [|by subst t']. rewrite Et in Hu. injection Hu as ->. by rewrite E, Ha.
  - intros i t' (t & Et & -> & _)%Hs1. by apply (pk_ids _ H).
  - intros t' (t & Et & _ & E)%Hs1. rewrite decide_False in E by done. subst t'. by apply Hr.
  - split; [done|]. intros i t Et Hn. cbn. destruct (decide (i = j)) as [->|Hi].
    + rewrite Et in Hu. injection Hu as ->. done.
    + exists t. rewrite list_lookup_alter_ne by done. auto.
Qed.

Lemma quiet_run o s : ok s → sane o s → gives_way o s = false →
  ∃ s1, do_op o s = Done (false, s1) ∧ ok s1 ∧ milder s s1.
Proof.
  intros H Hs Hg. destruct o as [r| |i|i| |f p]; try discriminate Hg; cbn [do_op sane gives_way] in *.
  - eexists. split; [done|]. split; [|split; [done|intros i t E _; exists t; auto]]. destruct H as [[] ?]. by split.
  - apply negb_false_iff, Nat.eqb_eq in Hg. exists s. split; [|split; [done|apply milder_refl]].
    unfold t_wait. rewrite (bind_run _ _ _ s s) by done. by rewrite decide_True.
  - apply negb_false_iff, Nat.eqb_eq in Hg. done.
  - destruct Hs as (i & t & Ht & Ha). destruct (spawn_run f p s i t H Ht Ha) as (j & u & Hu & Hau & R).
    rewrite (bind_run _ _ _ _ _ R). eexists. split; [done|]. by apply (spawned_ok s j u).
Qed.

Lemma do_op_run o s : ok s → sane o s → ∃ b s', do_op o s = Done (b, s') ∧ ok s'.
Proof.
  intros H Hs. destruct (gives_way o s) eqn:Hg.
  - destruct (entered o s H Hs Hg) as (s1 & R & H1 & _). destruct (t_yield_last_run s1 H1) as (b & s' & R' & H' & _).
    exists b, s'. by rewrite R.
  - destruct (quiet_run o s H Hs Hg) as (s1 & R & H1 & _). by exists false, s1.
Qed.

Lemma start_ok buffers regs self : ∃ s, init self (Runtime_new buffers regs) = Done (self, s) ∧ ok s.
Proof.
  eexists. split; [reflexivity|].
  assert (∀ i t, (with_r_ptr self <$> tasks (Runtime_new buffers regs)) !! i = Some t →
    id t = i ∧ (tstate t = if decide (i = 0%nat) then Running else Available)) as Ht.
  { intros i t E. do 8 (destruct i as [|i]; [by injection E as <-|]). done. }
  split; [split|]; cbn [tasks current waits Runtime_new].
  - done.
  - done.
  - unfold MAX_TASKS. lia.
  - intros t [_ E]%Ht. unfold waiting. by rewrite E.
  - intros t [_ E]%Ht. by rewrite E.
  - intros i t [_ E]%Ht. rewrite E. by destruct (decide _).
  - intros i t w [_ E]%Ht Ew. rewrite E. apply lookup_replicate in Ew as [-> _]. by destruct (decide _).
  - intros i t Et. by apply Ht.
  - intros t [_ E]%Ht. by rewrite E.
Qed.

(** * Turns *)
(** How many tasks are looked at before [j], from [k]. *)
Definition distance (k j : nat) : nat := (j + 7 - k) mod 8.

Lemma distance_self k j : ¬ (distance j j < distance k j)%nat.
Proof.
  unfold distance. replace (j + 7 - j)%nat with 7%nat by lia.
  pose proof (Nat.mod_upper_bound (j + 7 - k) 8 ltac:(lia)). change (7 mod 8)%nat with 7%nat. lia.
Qed.
Lemma find_before {A} (f : A → bool) (l : list A) p j n : find f l = Some n → l !! p = Some j → f j = true →
  n ∈ take (S p) l.
Proof.
  revert p. induction l as [|x l IH]; intros p E Hp Hj; [done|]. cbn in E. destruct (f x) eqn:Ex.
  - injection E as <-. by left.
  - destruct p as [|p]; [injection Hp as ->; congruence|]. cbn [take]. right. by apply IH.
Qed.

(** Whoever comes before [j] in the order of [k] is nearer to [j] than [k]. *)
Definition nearer (k j : nat) : bool :=
  match list_find (eq j) (candidates k) with
  | Some (p, _) => forallb (λ n, (n =? j)%nat || (distance n j <? distance k j)%nat) (take (S p) (candidates k))
  | None => (distance 0 j <? distance k j)%nat && (k =? 7)%nat
  end.
Lemma nearer_all : forallb (λ k, forallb (λ j, (j =? k)%nat || nearer k j) (seq 1 7)) (seq 0 8) = true.
Proof. vm_compute. reflexivity. Qed.

Lemma next_nearer s j t : pre s → tasks s !! j = Some t → waiting t = false → j ≠ 0%nat → j ≠ current s →
  next_task s = j ∨ (distance (next_task s) j < distance (current s) j)%nat.
Proof.
  intros H Ht Hw Hj0 Hjc. pose proof (pk_current _ H) as Hc. pose proof (lookup_lt_Some _ _ _ Ht) as Hj.
  rewrite (pk_tasks _ H) in Hj. unfold MAX_TASKS in *.
  pose proof nearer_all as Hall. rewrite forallb_forall in Hall.
  specialize (Hall (current s) ltac:(apply in_seq; lia)). rewrite forallb_forall in Hall.
  specialize (Hall j ltac:(apply in_seq; lia)). apply orb_true_iff in Hall as [Hall%Nat.eqb_eq|Hall]; [done|].
  unfold nearer in Hall. destruct (list_find _ _) as [[p j']|] eqn:E.
  - apply list_find_Some in E as (Hp & <- & _). unfold next_task.
    destruct (find (ready_at (tasks s)) (candidates (current s))) as [n|] eqn:En; cbn.
    + rewrite forallb_forall in Hall. pose proof (find_before _ _ _ _ _ En Hp) as Hn.
      specialize (Hall n). rewrite orb_true_iff, Nat.eqb_eq, Nat.ltb_lt in Hall. apply Hall.
      apply list_elem_of_In, Hn. unfold ready_at. by rewrite Ht, Hw.
    + pose proof (find_none _ _ En j) as Hn. unfold ready_at in Hn. rewrite Ht, Hw in Hn.
      discriminate Hn. apply list_elem_of_In. by eapply list_elem_of_lookup_2.
  - apply andb_true_iff in Hall as [Hd%Nat.ltb_lt Hk%Nat.eqb_eq]. right. unfold next_task. rewrite Hk in Hd |- *.
    cbn [candidates Nat.eqb find]. by destruct (ready_at _ _).
Qed.

(** Runs of calls; the list is the current task after each call that yields. *)
Inductive turns : Runtime → list nat → Runtime → Prop :=
| turns_nil s : turns s [] s
| turns_op o b s s1 l s' : sane o s → do_op o s = Done (b, s1) → turns s1 l s' →
    turns s ((if gives_way o s then [current s1] else []) ++ l) s'.

Lemma op_progress o b s s1 j t : ok s → sane o s → do_op o s = Done (b, s1) →
  tasks s !! j = Some t → tstate t = Ready → j ≠ 0%nat →
  ok s1 ∧ ((current s1 = j ∧ gives_way o s = true) ∨ (∃ t', tasks s1 !! j = Some t' ∧ tstate t' = Ready) ∧
    (if gives_way o s then distance (current s1) j < distance (current s) j
     else distance (current s1) j ≤ distance (current s) j)%nat).
Proof.
  intros H Hs E Ht Hr Hj. assert (j ≠ current s) as Hjc by (intros ->; by rewrite (proj2 H _ Ht) in Hr).
  destruct (gives_way o s) eqn:Hg.
  - destruct (entered o s H Hs Hg) as (s0 & R & H0 & M0 & _). rewrite R in E.
    destruct (t_yield_last_run s0 H0) as (b' & s' & R' & H' & Hc' & Hb). rewrite R' in E. injection E as <- <-.
    split; [done|]. destruct (ml_task _ _ M0 _ _ Ht ltac:(by rewrite Hr)) as (t0 & Ht0 & _ & Hr0).
    specialize (Hr0 Hjc). assert (tstate t0 = Ready) as Hr0' by (destruct Hr0; congruence).
    assert (waiting t0 = false) as Hw0 by (unfold waiting; by rewrite Hr0').
    pose proof (ml_current _ _ M0) as Hc0. rewrite <- Hc0 in Hjc.
    destruct (next_nearer s0 j t0 H0 Ht0 Hw0 Hj Hjc) as [Hn|Hn]; [left; split; [congruence|done]|].
    rewrite Hc', <- Hc0. right. split; [|done]. destruct b'; destruct Hb as [Hne ->].
    + assert (j ≠ next_task s0) as Hjn. { intros Hjn. rewrite <- Hjn in Hn. by apply distance_self in Hn. }
      exists t0. rewrite switched_lookup by done. rewrite decide_False by done. by rewrite Ht0.
    + by exists t0.
  - destruct (quiet_run o s H Hs Hg) as (s0 & R & H0 & M0). rewrite R in E. injection E as <- <-.
    split; [done|]. right. rewrite (ml_current _ _ M0). split; [|done].
    destruct (ml_task _ _ M0 _ _ Ht ltac:(by rewrite Hr)) as (t0 & Ht0 & _ & Hr0). exists t0. split; [done|].
    destruct (Hr0 Hjc); congruence.
Qed.

Lemma turns_reach s l s' : turns s l s' → ok s → ok s'.
Proof.
  intros Ht. induction Ht as [s|o b s s1 l s' Hs E _ IH]; [done|]. intros H. apply IH.
  destruct (do_op_run o s H Hs) as (b' & s2 & R & H2). rewrite R in E. by injection E as _ <-.
Qed.

Lemma turns_fair s l s' j t : turns s l s' → ok s → tasks s !! j = Some t → tstate t = Ready → j ≠ 0%nat →
  (distance (current s) j < length l)%nat → j ∈ l.
Proof.
  intros Hrun. revert t. induction Hrun as [s|o b s s1 l s' Hs E _ IH]; intros t H Ht Hr Hj Hl; [cbn in Hl; lia|].
  destruct (op_progress o b s s1 j t H Hs E Ht Hr Hj) as [H1 [[Hc ->]|[(t1 & Ht1 & Hr1) Hd]]].
  - rewrite Hc. by left.
  - apply elem_of_app. right. apply (IH t1); [done..|]. rewrite length_app in Hl.
    destruct (gives_way o s); cbn [length] in Hl; lia.
Qed.

(** * Contexts *)
Lemma ctx_kept o b s s' k t : ok s → sane o s → do_op o s = Done (b, s') → k ≠ current s →
  tasks s !! k = Some t → tstate t ≠ Available →
  if decide (current s' = k) then cpu s' = ctx t
  else ∃ t', tasks s' !! k = Some t' ∧ ctx t' = ctx t ∧ tstate t' ≠ Available.
Proof.
  intros H Hs E Hk Ht Ha.
  assert (∀ s0, milder s s0 → ∃ t0, tasks s0 !! k = Some t0 ∧ ctx t0 = ctx t ∧ tstate t0 ≠ Available) as Hm.
  { intros s0 M0. destruct (ml_task _ _ M0 _ _ Ht Ha) as (t0 & Ht0 & Hx & Hst). exists t0. split; [done|]. split; [done|].
    by destruct (Hst Hk) as [-> | ->]. }
  destruct (gives_way o s) eqn:Hg.
  - destruct (entered o s H Hs Hg) as (s0 & R & H0 & M0 & _). rewrite R in E. destruct (Hm _ M0) as (t0 & Ht0 & Hx & Ha0).
    destruct (t_yield_last_run s0 H0) as (b' & s1 & R' & _ & Hc' & Hb). rewrite R' in E. injection E as <- <-.
    rewrite <- (ml_current _ _ M0) in Hk. rewrite Hc'. destruct b'; destruct Hb as [Hne ->].
    + destruct (decide _) as [Hn|Hn].
      * cbn. rewrite Hn, Ht0. done.
      * exists t0. rewrite switched_lookup by done. rewrite decide_False by done. by rewrite Ht0.
    + rewrite decide_False by congruence. by exists t0.
  - destruct (quiet_run o s H Hs Hg) as (s0 & R & _ & M0). rewrite R in E. injection E as <- <-.
    rewrite decide_False by (rewrite (ml_current _ _ M0); congruence). by apply Hm.
Qed.

Lemma ctx_saved o s s' : ok s → sane o s → do_op o s = Done (true, s') → o ≠ Return →
  current s' ≠ current s ∧ ∃ t t', tasks s' !! current s = Some t' ∧
    ctx t' = save (cpu s) (ctx_at (current s')) (ctx t) ∧ tstate t' ≠ Available.
Proof.
  intros H Hs E Hret. destruct (gives_way o s) eqn:Hg.
  2: { destruct (quiet_run o s H Hs Hg) as (s0 & R & _). by rewrite R in E. }
  destruct (entered o s H Hs Hg) as (s0 & R & H0 & M0 & Hcpu & Ha). rewrite R in E.
  destruct (t_yield_last_run s0 H0) as (b' & s1 & R' & _ & Hc' & Hb). rewrite R' in E. injection E as -> ->.
  destruct Hb as [Hne ->]. rewrite <- (ml_current _ _ M0), Hc'. split; [done|].
  destruct (task_at s0 _ H0 (pk_current _ H0)) as [t0 Ht0]. exists t0. eexists. rewrite switched_current, Ht0 by done.
  split; [done|]. rewrite <- Hcpu. split; [done|]. cbn.
  specialize (Ha Hret). rewrite <- (ml_current _ _ M0) in Ha. specialize (Ha _ Ht0). by destruct t0 as [? ? ? [] ?].
Qed.

(** Calls of other tasks, up to the one that switches to task [k]. *)
Inductive away (k : nat) : Runtime → Runtime → Prop :=
| away_last o b s s' : current s ≠ k → sane o s → do_op o s = Done (b, s') → current s' = k → away k s s'
| away_step o b s s1 s' : current s ≠ k → sane o s → do_op o s = Done (b, s1) → away k s1 s' → away k s s'.

Lemma away_ctx k s s' t : away k s s' → ok s → tasks s !! k = Some t → tstate t ≠ Available → cpu s' = ctx t.
Proof.
  intros Haw. revert t. induction Haw as [o b s s' Hk Hs E Hc|o b s s1 s' Hk Hs E Haw IH]; intros t H Ht Ha.
  - pose proof (ctx_kept o b s s' k t H Hs E ltac:(done) Ht Ha) as Hx. by rewrite decide_True in Hx.
  - pose proof (ctx_kept o b s s1 k t H Hs E ltac:(done) Ht Ha) as Hx.
    rewrite decide_False in Hx by (by destruct Haw). destruct Hx as (t1 & Ht1 & <- & Ha1). apply IH; [|done..].
    destruct (do_op_run o s H Hs) as (b' & s2 & R & H2). rewrite R in E. by injection E as _ <-.
Qed.

(** The runtimes a program of threads reaches. *)
Inductive reachable : Runtime → Prop :=
| rc_start buffers regs self s : init self (Runtime_new buffers regs) = Done (self, s) → reachable s
| rc_turns s l s' : reachable s → turns s l s' → reachable s'.
Lemma runtime_ok_reachable s : reachable s → ok s.
Proof.
  induction 1 as [buffers regs self s E|s l s' _ IH Ht]; [|by eapply turns_reach].
  destruct (start_ok buffers regs self) as (s0 & E0 & H0). rewrite E in E0. by injection E0 as <-.
Qed.


(** [t_yield] on every branch: it runs the first task in the order of
    [candidates] that is not waiting; it answers [false], which ends [run], when
    the base task calls it and nobody is ready or waits; and when nobody is
    ready but some task waits, it answers [true] and changes nothing, so that
    [run] goes round forever. *)
Theorem t_yield_picks s : reachable s → t_yield s =
  if (next_task s =? 0)%nat && (current s =? 0)%nat && no_waiters s then Done (Answer false, s)
  else if decide (current s = next_task s) then Done (Answer true, s)
  else Done (Switched, switched s (next_task s)).
Proof. intros [H _]%runtime_ok_reachable. by apply t_yield_run. Qed.

(** C35. Threads take turns.  A spawned task that is ready becomes the current
    one within seven calls that yield, whatever the tasks call in between. *)
Theorem threads_take_turns s l s' j t : reachable s → turns s l s' →
  tasks s !! j = Some t → tstate t = Ready → j ≠ 0%nat → (7 ≤ length l)%nat → j ∈ l.
Proof.
  intros H%runtime_ok_reachable Ht Hj Hr Hn Hl. eapply turns_fair; [done..|]. unfold lt.
  assert (j ≠ current s) as Hjc by (intros ->; by rewrite (proj2 H _ Hj) in Hr).
  pose proof (pk_current _ (proj1 H)) as Hc. pose proof (lookup_lt_Some _ _ _ Hj) as Hl'.
  rewrite (pk_tasks _ (proj1 H)) in Hl'. unfold MAX_TASKS in *. unfold distance.
  etransitivity; [|exact Hl]. apply Nat.le_succ_l. pose proof (Nat.mod_upper_bound (j + 7 - current s) 8 ltac:(lia)).
  pose proof (Nat.div_mod_eq (j + 7 - current s) 8). lia.
Qed.

(** The registers that a C function preserves. *)
Definition callee_saved (r : TaskContext) : list Z :=
  [x2 r; x8 r; x9 r; x18 r; x19 r; x20 r; x21 r; x22 r; x23 r; x24 r; x25 r; x26 r; x27 r].

(** A task goes on where it left.  When the current task is switched away
    and, after any calls of the others, switched to again, its stack pointer and
    saved registers are what they were, and it continues after its call of
    [switch]. *)
Theorem context_resumed s o s1 s2 : reachable s → sane o s → o ≠ Return → do_op o s = Done (true, s1) →
  away (current s) s1 s2 →
  callee_saved (cpu s2) = callee_saved (cpu s) ∧ nx1 (cpu s2) = ret ∧ x1 (cpu s2) = ret.
Proof.
  intros H%runtime_ok_reachable Hs Ho E Haw. destruct (ctx_saved _ _ _ H Hs E Ho) as (_ & t & t' & Ht & Hx & Ha).
  assert (ok s1) as H1. { destruct (do_op_run o s H Hs) as (b & s' & R & H1). rewrite R in E. by injection E as _ <-. }
  by rewrite (away_ctx _ _ _ _ Haw H1 Ht Ha), Hx.
Qed.

(** A spawned task starts in its function with the runtime and its parameter
    as arguments, [guard] as return address and an aligned stack pointer inside
    its own stack. *)
Theorem spawned_starts s f p i s1 s2 : reachable s → (∃ k t, tasks s !! k = Some t ∧ tstate t = Available) →
  spawn f p s = Done (i, s1) → away i s1 s2 →
  ∃ t, tasks s !! i = Some t ∧ nx1 (cpu s2) = f ∧ x1 (cpu s2) = guard ∧ params (cpu s2) = p ∧
    ctx_r_ptr (cpu s2) = r_ptr t ∧
    (0 ≤ stack t < 2 ^ 48 → x2 (cpu s2) `mod` 8 = 0 ∧ stack t ≤ x2 (cpu s2) < stack t + DEFAULT_STACK_SIZE).
Proof.
  intros H%runtime_ok_reachable (k & u & Hu & Hau) E Haw. destruct (spawn_run f p s k u H Hu Hau) as (j & t & Ht & Ha & R).
  rewrite R in E. injection E as -> <-. destruct (spawned_ok s i t (spawn_ctx f p t) H Ht Ha) as [H1 _].
  exists t. split; [done|]. rewrite (away_ctx _ _ _ (with_state Ready (with_ctx (spawn_ctx f p t) t)) Haw H1); [|cbn|done].
  2: { by rewrite list_lookup_alter_eq, Ht. }
  do 4 (split; [done|]). intros Hst. cbn. unfold DEFAULT_STACK_SIZE in *.
  rewrite (land_not_mask 64 3) by lia. change (2 ^ 3) with 8. dlia.
Qed.
End ops.

(** ** mutex.rs

    One pass of the loop of [get]: it yields while the mutex is locked.  The
    statement after the loop compares where it should assign. *)
Record Mutex (T : Type) := { resource : T; locked : bool; mutex_waits : list nat }.
Arguments resource {T} m.
Arguments locked {T} m.
Definition Mutex_new {T} (resource : T) : Mutex T := {| resource := resource; locked := false; mutex_waits := [] |}.
Definition mutex_get {T} (self : Mutex T) : option T * Mutex T :=
  if locked self then (None, self) else (Some (resource self), self).
Definition mutex_drop {T} (self : Mutex T) : Mutex T :=
  {| resource := resource self; locked := false; mutex_waits := mutex_waits T self |}.

Lemma mutex_never_locks {T} (r : T) : mutex_get (Mutex_new r) = (Some r, Mutex_new r).
Proof. done. Qed.

(** ** A program of two threads *)
Module Pair.
Definition buffers (i : nat) : Z := 0x10000 + 0x2000 * Z.of_nat i.
Definition contexts (i : nat) : Z := 0x8000 + 0x100 * Z.of_nat i.
Definition exec (ops : list op) (s : Runtime) : Runtime :=
  fold_left (λ s o, match do_op 77 88 contexts o s with Done (_, s') => s' | Panic _ => s end) ops s.
Definition boot : Runtime :=
  match init 0x4000 (Runtime_new buffers TaskContext_default) with Done (_, s) => s | Panic _ => Runtime_new buffers TaskContext_default end.
(** The base task spawns a waiter and a signaller, and yields. *)
Definition ready : Runtime := exec [Spawn 100 1; Spawn 200 2] boot.
End Pair.

Lemma pair_ready : reachable 77 88 Pair.contexts Pair.ready.
Proof.
  assert (∃ l, turns 77 88 Pair.contexts Pair.boot l Pair.ready) as [l Ht].
  { eexists. eapply (turns_op _ _ _ (Spawn 100 1)); [|vm_compute; reflexivity|]; [by exists 1%nat; eexists|].
    eapply (turns_op _ _ _ (Spawn 200 2)); [|vm_compute; reflexivity|]; [by exists 2%nat; eexists|]. apply turns_nil. }
  eapply rc_turns; [|exact Ht]. by eapply (rc_start _ _ _ Pair.buffers TaskContext_default).
Qed.


Lemma t_yield_picks_witness : t_yield 88 Pair.contexts Pair.ready = Done (Switched, switched 88 Pair.contexts Pair.ready 1).
Proof. exact (t_yield_picks 77 88 Pair.contexts Pair.ready pair_ready). Defined.

Lemma threads_take_turns_witness : ∃ l s', turns 77 88 Pair.contexts Pair.ready l s' ∧ 2%nat ∈ l.
Proof.
  assert (∃ l s', turns 77 88 Pair.contexts Pair.ready l s' ∧ length l = 7%nat) as (l & s' & Ht & Hl).
  { eexists _, _. split.
    - do 7 (eapply (turns_op _ _ _ Yield); [done|vm_compute; reflexivity|]). apply turns_nil.
    - reflexivity. }
  exists l, s'. split; [done|].
  eapply (threads_take_turns 77 88 Pair.contexts Pair.ready l s' 2 _ pair_ready Ht); [reflexivity|reflexivity|done|by rewrite Hl].
Defined.

Lemma context_resumed_witness : ∃ s1 s2, do_op 77 88 Pair.contexts Yield Pair.ready = Done (true, s1) ∧
  away 77 88 Pair.contexts 0 s1 s2 ∧ nx1 (cpu s2) = 88.
Proof.
  assert (∃ s1 s2, do_op 77 88 Pair.contexts Yield Pair.ready = Done (true, s1) ∧ away 77 88 Pair.contexts 0 s1 s2)
    as (s1 & s2 & E & Haw).
  { eexists _, _. split; [vm_compute; reflexivity|].
    eapply (away_step _ _ _ _ (Wait 2)); [done|done|vm_compute; reflexivity|].
    eapply (away_step _ _ _ _ (Signal 1)); [done|eexists; split; [reflexivity|by left]|vm_compute; reflexivity|].
    eapply (away_step _ _ _ _ Return); [done|done|vm_compute; reflexivity|].
    eapply (away_last _ _ _ _ Return); [done|done|vm_compute; reflexivity|done]. }
  exists s1, s2. split; [done|]. split; [done|].
  by apply (context_resumed 77 88 Pair.contexts Pair.ready Yield s1 s2 pair_ready I).
Defined.

Lemma spawned_starts_witness : ∃ i s1 s2, spawn 77 300 3 Pair.ready = Done (i, s1) ∧ away 77 88 Pair.contexts i s1 s2 ∧
  nx1 (cpu s2) = 300.
Proof.
  assert (∃ s1 s2, spawn 77 300 3 Pair.ready = Done (3%nat, s1) ∧ away 77 88 Pair.contexts 3 s1 s2) as (s1 & s2 & E & Haw).
  { eexists _, _. split; [vm_compute; reflexivity|].
    do 2 (eapply (away_step _ _ _ _ Yield); [done|done|vm_compute; reflexivity|]).
    eapply (away_last _ _ _ _ Yield); [done|done|vm_compute; reflexivity|done]. }
  exists 3%nat, s1, s2. split; [done|]. split; [done|].
  destruct (spawned_starts 77 88 Pair.contexts Pair.ready 300 3 3 s1 s2 pair_ready) as (t & _ & Hn & _);
    [by exists 4%nat; eexists|done|done|exact Hn].
Defined.
